(** * Synchronised multi-detector acquisition (odemis, [acq/stream/_sync.py])

    A shallow embedding of the acquisition engine of [_sync.py] and the
    properties its specification states about it.

    Conventions of the embedding.
    - Python floats are modelled by exact rationals ([Q]); equalities between
      computed quantities are stated with [==] ([Qeq]).  Where the code turns
      floats into a discrete outcome (the number of frames to accumulate, the
      test of the area of the scan stage against its ranges), the operations
      round to binary64 as the interpreter does ([f64], [fl]).
    - Python exceptions are values of [exn]; a function that may raise returns
      a [Result].
    - The engine object ([self]) is the record [Engine]; methods are state
      transformers.  Calls on collaborators (dataflows, trigger, stage, the
      future, the logger) are recorded, in program order, in the [trace] of the
      engine, and their effect on what the engine can observe (subscription
      and synchronisation flags, stage position) is kept in the record.
    - Other threads (detector callbacks, the canceller) and the clock are an
      explicit environment: lists of [Event]s delivered at the points where
      the worker waits and before each pass on a pixel, and the readings of
      [time.time()]. *)

From Stdlib Require Import ZArith QArith Qround Qabs Qpower Lia Lqa String Bool.
From stdpp Require Import base list.

Open Scope Q_scope.

(** ** Python-side basics *)

Inductive msg : Type :=
| SyncFailure        (* "Repetition stream acquisition repeatedly fails to synchronize" *)
| OutOfRange         (* "ROI goes outside the scan stage range" *)
| NoScanStage        (* "Cannot acquire with scan stage, as no stage was provided" *)
| SEMPixelTimeout    (* "Acquisition of SEM pixel ... timed out" *)
| OtherMsg.

Inductive exn : Type :=
| CancelledError
| TimeoutError (m : msg)
| IOError (m : msg)
| ValueError (m : msg)
| IndexError
| KeyError
| ZeroDivisionError
| OverflowError
| AssertionError.

Inductive Result (A : Type) : Type :=
| Ok (a : A)
| Raise (e : exn).
Arguments Ok {A} a.
Arguments Raise {A} e.

Definition bind {A B : Type} (r : Result A) (k : A -> Result B) : Result B :=
  match r with
  | Ok a => k a
  | Raise e => Raise e
  end.

Notation "'do' x <- r ; k" := (bind r (fun x => k))
  (at level 10, x name, r at level 100, k at level 200).

Definition of_option {A : Type} (e : exn) (o : option A) : Result A :=
  match o with
  | Some a => Ok a
  | None => Raise e
  end.

(** [a / b] on Python floats (or ints under [from __future__ import division]). *)
Definition py_div (a b : Q) : Result Q :=
  if Qeq_bool b 0 then Raise ZeroDivisionError else Ok (a / b).

Definition Z2Q (z : Z) : Q := inject_Z z.
Definition N2Q (n : nat) : Q := inject_Z (Z.of_nat n).
Definition P2Q (p : positive) : Q := inject_Z (Zpos p).

Definition Qlt_bool (a b : Q) : bool := negb (Qle_bool b a).

(** *** Binary64 *)

(** The integer [k] with [2^k <= x < 2^(k+1)], for [x > 0]. *)
Definition Qlog2 (x : Q) : Z :=
  if Qle_bool 1 x then Z.log2 (Qfloor x) else (- Z.log2_up (Qceiling (/ x)))%Z.

(** The nearest integer, ties to the even one. *)
Definition Qrint (x : Q) : Z :=
  let f := Qfloor x in
  match Qcompare (x - inject_Z f) (1 # 2) with
  | Lt => f
  | Gt => (f + 1)%Z
  | Eq => if Z.even f then f else (f + 1)%Z
  end.

(** The binary64 number nearest to [x] (53 bits of significand, exponents
    down to the subnormal 2^-1074, ties to even); [None] stands for an
    infinity. *)
Definition f64 (x : Q) : option Q :=
  if Qeq_bool x 0 then Some 0
  else
    let a := Qabs x in
    let e := Z.max (Qlog2 a - 52) (-1074) in
    let r := inject_Z (Qrint (a / 2 ^ e)) * 2 ^ e in
    if Qle_bool (2 ^ 1024) r then None
    else Some (if Qle_bool 0 x then r else - r).

(** The exponent and the integer significand [f64] gives to a positive
    number. *)
Definition f64_exp (a : Q) : Z := Z.max (Qlog2 a - 52) (-1074).
Definition f64_sig (a : Q) : Z := Qrint (a / 2 ^ f64_exp a).

(** The value of a float attribute or of an operation on floats, where no
    infinity can come out of it: magnitudes from 2^1024 on stand for
    themselves. *)
Definition fl (x : Q) : Q := default x (f64 x).

(** [l[-1]] *)
Definition last_opt {A : Type} (l : list A) : option A := last l.

(** [l[-1] = x] on a non-empty list. *)
Definition set_last {A : Type} (x : A) (l : list A) : list A :=
  <[pred (length l) := x]> l.

(** [numpy.linspace(start, stop, num)]: [num] evenly spaced samples over the
    closed interval; a single sample is [start]. *)
Definition linspace (start stop : Q) (num : nat) : list Q :=
  match num with
  | O => []
  | S O => [start]
  | _ => map (fun i => start + N2Q i * ((stop - start) / N2Q (num - 1)))
             (seq 0 num)
  end.

(** ** Data model *)

(** The metadata keys the engine reads or writes. *)
Record Metadata : Type := {
  MD_POS : option (Q * Q);
  MD_PIXEL_SIZE : option (Q * Q);
  MD_ACQ_DATE : option Q;
  MD_DWELL_TIME : option Q;
  MD_DESCRIPTION : option string;
  MD_AD_LIST : option (list Q)
}.

(** A [model.DataArray]: shape, values in C order, metadata. *)
Record DataArray : Type := {
  shape : list nat;
  values : list Z;
  metadata : Metadata
}.

Definition set_MD_POS (p : Q * Q) (md : Metadata) : Metadata :=
  {| MD_POS := Some p; MD_PIXEL_SIZE := MD_PIXEL_SIZE md;
     MD_ACQ_DATE := MD_ACQ_DATE md; MD_DWELL_TIME := MD_DWELL_TIME md;
     MD_DESCRIPTION := MD_DESCRIPTION md; MD_AD_LIST := MD_AD_LIST md |}.

Definition set_MD_PIXEL_SIZE (p : Q * Q) (md : Metadata) : Metadata :=
  {| MD_POS := MD_POS md; MD_PIXEL_SIZE := Some p;
     MD_ACQ_DATE := MD_ACQ_DATE md; MD_DWELL_TIME := MD_DWELL_TIME md;
     MD_DESCRIPTION := MD_DESCRIPTION md; MD_AD_LIST := MD_AD_LIST md |}.

Definition set_MD_DWELL_TIME (d : Q) (md : Metadata) : Metadata :=
  {| MD_POS := MD_POS md; MD_PIXEL_SIZE := MD_PIXEL_SIZE md;
     MD_ACQ_DATE := MD_ACQ_DATE md; MD_DWELL_TIME := Some d;
     MD_DESCRIPTION := MD_DESCRIPTION md; MD_AD_LIST := MD_AD_LIST md |}.

Definition set_MD_DESCRIPTION (s : string) (md : Metadata) : Metadata :=
  {| MD_POS := MD_POS md; MD_PIXEL_SIZE := MD_PIXEL_SIZE md;
     MD_ACQ_DATE := MD_ACQ_DATE md; MD_DWELL_TIME := MD_DWELL_TIME md;
     MD_DESCRIPTION := Some s; MD_AD_LIST := MD_AD_LIST md |}.

Definition set_MD_AD_LIST (l : list Q) (md : Metadata) : Metadata :=
  {| MD_POS := MD_POS md; MD_PIXEL_SIZE := MD_PIXEL_SIZE md;
     MD_ACQ_DATE := MD_ACQ_DATE md; MD_DWELL_TIME := MD_DWELL_TIME md;
     MD_DESCRIPTION := MD_DESCRIPTION md; MD_AD_LIST := Some l |}.

Definition with_metadata (md : Metadata) (da : DataArray) : DataArray :=
  {| shape := shape da; values := values da; metadata := md |}.

(** [da.shape[-1]] and [da.shape[-2]]. *)
Definition shape_m1 (da : DataArray) : Result nat :=
  of_option IndexError (last (shape da)).

Definition shape_m2 (da : DataArray) : Result nat :=
  of_option IndexError (last (removelast (shape da))).

Definition shape_eqb (a b : list nat) : bool := bool_decide (a = b).

(** [numpy.prod(l)] on a tuple of ints. *)
Definition prod (l : list nat) : nat := fold_right Nat.mul 1%nat l.

(** What the stream reads from its settings and from the e-beam scanner:
    [self.repetition.value] (a resolution, at least 1 x 1), [self.roi.value]
    (left, top, right, bottom), [self._emitter.shape] and
    [self._emitter.pixelSize.value]. *)
Record Settings : Type := {
  repetition : positive * positive;
  roi : Q * Q * Q * Q;
  emitter_shape : Z * Z;
  emitter_pixelSize : Q * Q
}.

(** The scan stage: the ranges of its two axes and its position. *)
Record ScanStage : Type := {
  range_x : Q * Q;
  range_y : Q * Q;
  position : Q * Q
}.

(** ** The engine object *)

Inductive AcqState : Type := RUNNING | FINISHED | CANCELLED.

Definition AcqState_eqb (a b : AcqState) : bool :=
  match a, b with
  | RUNNING, RUNNING | FINISHED, FINISHED | CANCELLED, CANCELLED => true
  | _, _ => false
  end.

Inductive LogLevel : Type := WARNING | ERROR.

(** Calls on collaborators, in program order.  Stream [i] stands for
    [self._streams[i]._dataflow] with its subscriber [self._subscribers[i]]. *)
Inductive Action : Type :=
| LockAcquire                      (* entering  [with self._acq_lock] *)
| LockRelease                      (* leaving   [with self._acq_lock] *)
| SetAcqState (a : AcqState)       (* [self._acq_state = a] *)
| Subscribe (i : nat)
| Unsubscribe (i : nat)
| SynchronizedOn (i : nat) (on_trigger : bool)  (* [false]: synchronizedOn(None) *)
| Notify                           (* [self._trigger.notify()] *)
| Sleep (t : Q)
| AcqDoneClear
| AcqDoneSet
| AcqDoneWait (timeout : Q)
| SetTranslation (p : Q * Q)       (* [self._emitter.translation.value = p] *)
| MoveAbs (x y : option Q)         (* stage move; [None]: axis not moved *)
| SetProgress (e : Q)              (* [future.set_progress(end=e)] *)
| LeechNext (li : nat)
| LeechComplete (li : nat)
| Log (l : LogLevel).

Record Engine : Type := mkEngine {
  streams : list string;            (* names of [self._streams] *)
  _acq_state : AcqState;
  _acq_complete : list bool;        (* the events, [true] when set *)
  _acq_data : list (list DataArray);
  _acq_min_date : option Q;
  _prog_sum : Q;
  _raw : list DataArray;
  _anchor_raw : list DataArray;
  subscribed : list bool;           (* per stream: subscriber registered *)
  synchronized : list bool;         (* per stream: dataflow waits for the trigger *)
  future_end : Q;                   (* estimated end of the ProgressiveFuture *)
  _sstage : option ScanStage;
  trace : list Action
}.

Definition set_acq_state (v : AcqState) (e : Engine) : Engine :=
  let '(mkEngine a _ c d f g h i j k l m n) := e in mkEngine a v c d f g h i j k l m n.
Definition set_acq_complete (v : list bool) (e : Engine) : Engine :=
  let '(mkEngine a b _ d f g h i j k l m n) := e in mkEngine a b v d f g h i j k l m n.
Definition set_acq_data (v : list (list DataArray)) (e : Engine) : Engine :=
  let '(mkEngine a b c _ f g h i j k l m n) := e in mkEngine a b c v f g h i j k l m n.
Definition set_acq_min_date (v : option Q) (e : Engine) : Engine :=
  let '(mkEngine a b c d _ g h i j k l m n) := e in mkEngine a b c d v g h i j k l m n.
Definition set_prog_sum (v : Q) (e : Engine) : Engine :=
  let '(mkEngine a b c d f _ h i j k l m n) := e in mkEngine a b c d f v h i j k l m n.
Definition set_raw (v : list DataArray) (e : Engine) : Engine :=
  let '(mkEngine a b c d f g _ i j k l m n) := e in mkEngine a b c d f g v i j k l m n.
Definition set_anchor_raw (v : list DataArray) (e : Engine) : Engine :=
  let '(mkEngine a b c d f g h _ j k l m n) := e in mkEngine a b c d f g h v j k l m n.
Definition set_subscribed (v : list bool) (e : Engine) : Engine :=
  let '(mkEngine a b c d f g h i _ k l m n) := e in mkEngine a b c d f g h i v k l m n.
Definition set_synchronized (v : list bool) (e : Engine) : Engine :=
  let '(mkEngine a b c d f g h i j _ l m n) := e in mkEngine a b c d f g h i j v l m n.
Definition set_future_end (v : Q) (e : Engine) : Engine :=
  let '(mkEngine a b c d f g h i j k _ m n) := e in mkEngine a b c d f g h i j k v m n.
Definition set_sstage (v : option ScanStage) (e : Engine) : Engine :=
  let '(mkEngine a b c d f g h i j k l _ n) := e in mkEngine a b c d f g h i j k l v n.
Definition set_trace (v : list Action) (e : Engine) : Engine :=
  let '(mkEngine a b c d f g h i j k l m _) := e in mkEngine a b c d f g h i j k l m v.

(** Append a call to the trace. *)
Definition emit (a : Action) (e : Engine) : Engine := set_trace (trace e ++ [a]) e.

(** [self._acq_state = a] *)
Definition write_acq_state (a : AcqState) (e : Engine) : Engine :=
  emit (SetAcqState a) (set_acq_state a e).

(** [self._streams[i]._dataflow.subscribe(self._subscribers[i])] *)
Definition df_subscribe (i : nat) (e : Engine) : Engine :=
  emit (Subscribe i) (set_subscribed (<[i := true]> (subscribed e)) e).

Definition df_unsubscribe (i : nat) (e : Engine) : Engine :=
  emit (Unsubscribe i) (set_subscribed (<[i := false]> (subscribed e)) e).

Definition df_synchronizedOn (i : nat) (on_trigger : bool) (e : Engine) : Engine :=
  emit (SynchronizedOn i on_trigger)
       (set_synchronized (<[i := on_trigger]> (synchronized e)) e).

(** [for i in idx: f(i)] on the engine. *)
Definition for_each (idx : list nat) (f : nat -> Engine -> Engine) (e : Engine) : Engine :=
  fold_left (fun st i => f i st) idx e.

(** [range(len(self._streams))] *)
Definition stream_ids (e : Engine) : list nat := seq 0 (length (streams e)).

(** Index of the last stream ([-1]). *)
Definition last_id (e : Engine) : nat := pred (length (streams e)).

(** ** Grid generator and assembler ([MultipleDetectorStream]) *)

Module MultipleDetectorStream.

Definition _getPixelSize (s : Settings) : Q :=
  let epxs := emitter_pixelSize s in
  let rep := repetition s in
  let '(roi0, roi1, roi2, roi3) := roi s in
  let eshape := emitter_shape s in
  let phy_size_x := (roi2 - roi0) * fst epxs * Z2Q (fst eshape) in
  let phy_size_y := (roi3 - roi1) * snd epxs * Z2Q (snd eshape) in
  let pxsy := phy_size_y / P2Q (snd rep) in  (* only logged *)
  phy_size_x / P2Q (fst rep).

(** The grid is returned as [pos[y][x] = (translation X, translation Y)]:
    the first index is Y, the second X, as in the numpy array of shape
    (rep[1], rep[0], 2). *)
Definition _getSpotPositions (s : Settings) : list (list (Q * Q)) :=
  let rep := repetition s in
  let '(roi0, roi1, roi2, roi3) := roi s in
  let width := (roi2 - roi0, roi3 - roi1) in
  let pxs := (fst width / P2Q (fst rep), snd width / P2Q (snd rep)) in
  let lim := (roi0 + fst pxs / 2, roi1 + snd pxs / 2,
              roi2 - fst pxs / 2, roi3 - snd pxs / 2) in
  let '(lim0, lim1, lim2, lim3) := lim in
  let shape := emitter_shape s in
  let lim_main := (Z2Q (fst shape) * (lim0 - 0.5), Z2Q (snd shape) * (lim1 - 0.5),
                   Z2Q (fst shape) * (lim2 - 0.5), Z2Q (snd shape) * (lim3 - 0.5)) in
  let '(lim_main0, lim_main1, lim_main2, lim_main3) := lim_main in
  (* posy[:, :] = linspace(...) on the (X, Y) view: pos[y][x][1] = liny[y] *)
  let liny := linspace lim_main1 lim_main3 (Pos.to_nat (snd rep)) in
  (* pos[:, :, 0] = linspace(...): pos[y][x][0] = linx[x] *)
  let linx := linspace lim_main0 lim_main2 (Pos.to_nat (fst rep)) in
  map (fun ty => map (fun tx => (tx, ty)) linx) liny.

(** [a <= b <= c <= d] *)
Definition chain4 (a b c d : Q) : bool :=
  Qle_bool a b && Qle_bool b c && Qle_bool c d.

(** The grid is returned as [pos[x][y] = (stage X, stage Y)], as in the numpy
    array of shape (rep[0], rep[1], 2).  This is the function on the real
    numbers, for the geometry of the grid; the call made by the worker, with
    its warning and with the test as binary64 decides it, is
    [Binary64._getScanStagePositions] below. *)
Definition _getScanStagePositions (s : Settings) (sstage : ScanStage)
  : Result (list (list (Q * Q))) :=
  let repetition := repetition s in
  let '(roi0, roi1, roi2, roi3) := roi s in
  let width := (roi2 - roi0, roi3 - roi1) in
  let pxs := (fst width / P2Q (fst repetition), snd width / P2Q (snd repetition)) in
  let lim := (roi0 + fst pxs / 2, roi1 + snd pxs / 2,
              roi2 - fst pxs / 2, roi3 - snd pxs / 2) in
  let '(lim0, lim1, lim2, lim3) := lim in
  let shape := emitter_shape s in
  let sem_pxs := emitter_pixelSize s in
  let sem_fov := (Z2Q (fst shape) * fst sem_pxs, Z2Q (snd shape) * snd sem_pxs) in
  let spos := position sstage in
  let spos_rng := (fst (range_x sstage), fst (range_y sstage),
                   snd (range_x sstage), snd (range_y sstage)) in
  let '(spos_rng0, spos_rng1, spos_rng2, spos_rng3) := spos_rng in
  let phy_shift := (fst sem_fov * (0.5 - lim0), - snd sem_fov * (0.5 - lim1)) in
  let phy_width := (fst sem_fov * (lim2 - lim0), snd sem_fov * (lim3 - lim1)) in
  let spos0 := (fst spos - fst phy_shift, snd spos - snd phy_shift) in
  let lim_main := (fst spos0, snd spos0,
                   fst spos0 + fst phy_width, snd spos0 - snd phy_width) in
  let '(lim_main0, lim_main1, lim_main2, lim_main3) := lim_main in
  if negb (chain4 spos_rng0 lim_main0 lim_main2 spos_rng2 &&
           chain4 spos_rng1 lim_main3 lim_main1 spos_rng3)
  then Raise (ValueError OutOfRange)
  else
    let linx := linspace lim_main0 lim_main2 (Pos.to_nat (fst repetition)) in
    let liny := linspace lim_main1 lim_main3 (Pos.to_nat (snd repetition)) in
    Ok (map (fun sx => map (fun sy => (sx, sy)) liny) linx).

(** [_get_center_pxs(rep, sub_shape, datatl)].  The final cross-check of the
    computed pixel size against the metadata of [datatl] only logs a warning;
    it does not change the returned pair (center, pxs). *)
Definition _get_center_pxs (s : Settings) (rep : positive * positive)
    (sub_shape : nat * nat) (datatl : DataArray) : Result ((Q * Q) * (Q * Q)) :=
  do center_tl <- of_option KeyError (MD_POS (metadata datatl));
  do dpxs <- of_option KeyError (MD_PIXEL_SIZE (metadata datatl));
  do shape_1 <- shape_m1 datatl;
  do shape_2 <- shape_m2 datatl;
  let tl := (fst center_tl - (fst dpxs * (N2Q shape_1 - 1)) / 2,
             snd center_tl + (snd dpxs * (N2Q shape_2 - 1)) / 2) in
  let pxsx := _getPixelSize s in
  do pxs0 <- py_div pxsx (N2Q (fst sub_shape));
  do pxs1 <- py_div pxsx (N2Q (snd sub_shape));
  let pxs := (pxs0, pxs1) in
  let trep := (P2Q (fst rep) * N2Q (fst sub_shape),
               P2Q (snd rep) * N2Q (snd sub_shape)) in
  let center := (fst tl + (fst pxs * (fst trep - 1)) / 2,
                 snd tl - (snd pxs * (snd trep - 1)) / 2) in
  Ok (center, pxs).

(** [_assemble2DData(rep, data_list)] *)
Definition _assemble2DData (s : Settings) (rep : positive * positive)
    (data_list : list DataArray) : Result DataArray :=
  match data_list with
  | [] => Raise AssertionError
  | d0 :: _ =>
    if shape_eqb (shape d0) [0%nat] then Ok d0
    else
      let md := metadata d0 in
      do cp <- _get_center_pxs s rep (1%nat, 1%nat) d0;
      let '(center, pxs) := cp in
      let md := set_MD_PIXEL_SIZE pxs (set_MD_POS center md) in
      let main_data := concat (map values data_list) in
      (* main_data.shape = rep[::-1] *)
      let new_shape := [Pos.to_nat (snd rep); Pos.to_nat (fst rep)] in
      if negb (length main_data =? prod new_shape)%nat
      then Raise (ValueError OtherMsg)
      else Ok {| shape := new_shape; values := main_data; metadata := md |}
  end.

(** Row [t] of a tile of [S_] columns stored in C order. *)
Definition tile_row (S_ t : nat) (v : list Z) : list Z := take S_ (drop (t * S_) v).

(** (Y, X, T, S) -> (Y, T, X, S), flattened in C order. *)
Definition retile (X Y T_ S_ : nat) (tiles : list (list Z)) : list Z :=
  concat (map (fun y =>
    concat (map (fun t =>
      concat (map (fun x => tile_row S_ t (nth (y * X + x) tiles []))
                  (seq 0 X)))
      (seq 0 T_)))
    (seq 0 Y)).

(** [_assembleTiles(rep, data_list)].  [numpy.array(data_list)] followed by
    the reshape succeeds when all tiles have the shape of the first one and
    there are X * Y of them. *)
Definition _assembleTiles (s : Settings) (rep : positive * positive)
    (data_list : list DataArray) : Result DataArray :=
  do d0 <- of_option IndexError (head data_list);
  do ts <- match shape d0 with
           | [T_; S_] => Ok (T_, S_)
           | _ => Raise (ValueError OtherMsg)
           end;
  let '(T_, S_) := ts in
  let '(X, Y) := (Pos.to_nat (fst rep), Pos.to_nat (snd rep)) in
  if negb (forallb (fun d => shape_eqb (shape d) [T_; S_]) data_list
           && (length data_list =? Y * X)%nat)
  then Raise (ValueError OtherMsg)
  else
    let arr :=
      if ((T_ =? 1) && (S_ =? 1))%nat
      then concat (map values data_list)
      else retile X Y T_ S_ (map values data_list) in
    let md := metadata d0 in
    do cp <- _get_center_pxs s rep (T_, S_) d0;
    let '(center, pxs) := cp in
    let md := set_MD_PIXEL_SIZE pxs (set_MD_POS center md) in
    Ok {| shape := [(Y * T_)%nat; (X * S_)%nat]; values := arr; metadata := md |}.

(** [_assembleAnchorData(data_list)]: N images (Y, X) -> (1, N, 1, Y, X). *)
Definition _assembleAnchorData (data_list : list DataArray) : Result DataArray :=
  match data_list with
  | [] => Raise AssertionError
  | d0 :: _ =>
    match shape d0 with
    | [Y; X] =>
      if negb (forallb (fun d => shape_eqb (shape d) [Y; X]) data_list)
      then Raise (ValueError OtherMsg)
      else
        let anchor_data := concat (map values data_list) in
        let md := metadata d0 in
        let md := set_MD_DESCRIPTION "Anchor region" md in
        do dates <- (fix dates_of (l : list DataArray) : Result (list Q) :=
                       match l with
                       | [] => Ok []
                       | d :: l' =>
                         do a <- of_option KeyError (MD_ACQ_DATE (metadata d));
                         do r <- dates_of l';
                         Ok (a :: r)
                       end) data_list;
        let md := set_MD_AD_LIST dates md in
        Ok {| shape := [1%nat; length data_list; 1%nat; Y; X];
              values := anchor_data; metadata := md |}
    | _ => Raise AssertionError
    end
  end.

(** The [raw] property: [_raw] then [_anchor_raw], without empty arrays. *)
Definition raw (e : Engine) : list DataArray :=
  filter (fun da => shape da <> [0%nat]) (_raw e ++ _anchor_raw e).

(** [estimateAcquisitionTime()].  [raw_time] is what
    [_estimateRawAcquisitionTime()] returns; [leech_estimates] holds, for each
    leech in order, its [estimateAcquisitionTime(dt, shape)] as a function of
    [dt]; [use_stage] is [hasattr(self, "useScanStage") and
    self.useScanStage.value]; [speed] is [self._sstage.speed.value["x"]], or
    [None] when there is no scan stage (a warning is then logged). *)
Definition estimateAcquisitionTime (s : Settings) (raw_time : Q)
    (leech_estimates : list (Q -> Result Q)) (use_stage : bool) (speed : option Q)
  : Result Q :=
  let total_time := raw_time in
  let rep := repetition s in
  let npixels := N2Q (prod [Pos.to_nat (fst rep); Pos.to_nat (snd rep)]) in
  let dt := total_time / npixels in
  do total_time <- fold_left (fun acc l =>
                                do total_time <- acc;
                                do l_time <- l dt;
                                Ok (total_time + l_time))
                             leech_estimates (Ok total_time);
  if use_stage then
    match speed with
    | Some speed =>
      let repetition := repetition s in
      let '(roi0, roi1, roi2, roi3) := roi s in
      let width := (roi2 - roi0, roi3 - roi1) in
      let pxs := (fst width / P2Q (fst repetition), snd width / P2Q (snd repetition)) in
      let lim := (roi0 + fst pxs / 2, roi1 + snd pxs / 2,
                  roi2 - fst pxs / 2, roi3 - snd pxs / 2) in
      let '(lim0, lim1, lim2, lim3) := lim in
      let shape := emitter_shape s in
      let sem_pxs := emitter_pixelSize s in
      let sem_fov := (Z2Q (fst shape) * fst sem_pxs, Z2Q (snd shape) * snd sem_pxs) in
      let phy_width := (fst sem_fov * (lim2 - lim0), snd sem_fov * (lim3 - lim1)) in
      let tot_dist := (fst phy_width * P2Q (snd repetition) + snd phy_width) * 2 in
      let npixels := N2Q (prod [Pos.to_nat (fst repetition); Pos.to_nat (snd repetition)]) in
      do travel <- py_div (2 * tot_dist) speed;
      let move_time := travel + npixels * 0.05 in
      Ok (total_time + move_time)
    | None => Ok total_time
    end
  else Ok total_time.

(** [_updateProgress(future, dur, current, tot, bonus)]; [now] is the reading
    of [time.time()] in the last line. *)
Definition _updateProgress (now dur : Q) (current tot : Z) (bonus : Q)
    (e : Engine) : Engine :=
  if (current <=? 1)%Z then e
  else
    let e := set_prog_sum (_prog_sum e + dur) e in
    let ratio := Z2Q (tot - current) / Z2Q (current - 1) in
    let left := _prog_sum e * ratio in
    let time_assemble := 0.001 * Z2Q tot in
    let tot_left := left + time_assemble + bonus + 0.1 in
    emit (SetProgress (now + tot_left)) (set_future_end (now + tot_left) e).

(** [_cancelAcquisition(future)]: the returned boolean and the engine after
    the call.  The call runs in the thread of the caller: in the worker it
    is an [EvCancel] among the events of the place where the worker is, and
    what the worker does while the caller waits up to 5 s on [_acq_done] is
    what the worker does after that place. *)
Definition _cancelAcquisition (e : Engine) : bool * Engine :=
  let e := emit LockAcquire e in
  if AcqState_eqb (_acq_state e) FINISHED
  then (false, emit LockRelease e)
  else
    let e := write_acq_state CANCELLED e in
    let e := emit LockRelease e in
    (* for s, sub in zip(self._streams, self._subscribers) *)
    let e := for_each (stream_ids e) df_unsubscribe e in
    let e := df_synchronizedOn 0 false e in   (* self._df0 *)
    let e := for_each (stream_ids e)
               (fun i st => set_acq_complete (<[i := true]> (_acq_complete st)) st) e in
    let e := emit (AcqDoneWait 5) e in
    (true, e).

(** [self._acq_min_date > data.metadata.get(MD_ACQ_DATE, 0)]; before the first
    pixel [_acq_min_date] is [None], which Python 2 orders below every number. *)
Definition too_early (min_date : option Q) (data : DataArray) : bool :=
  match min_date with
  | None => false
  | Some m => Qlt_bool (default 0 (MD_ACQ_DATE (metadata data))) m
  end.

(** [_onData(n, df, data)], the callback of stream [n]. *)
Definition _onData (n : nat) (data : DataArray) (e : Engine) : Result Engine :=
  do s <- of_option IndexError (streams e !! n);
  if too_early (_acq_min_date e) data
  then Ok (emit (Log WARNING) e)
  else
    do is_set <- of_option IndexError (_acq_complete e !! n);
    if negb is_set then
      do ad <- of_option IndexError (_acq_data e !! n);
      let e := set_acq_data (<[n := ad ++ [data]]> (_acq_data e)) e in
      Ok (set_acq_complete (<[n := true]> (_acq_complete e)) e)
    else Ok e.

(** [_onCompletedData(n, raw_das)] of the base class. *)
Definition _onCompletedData (s : Settings) (n : nat) (raw_das : list DataArray)
    (e : Engine) : Result Engine :=
  do da <- _assemble2DData s (repetition s) raw_das;
  do name <- of_option IndexError (streams e !! n);
  let da := with_metadata (set_MD_DESCRIPTION name (metadata da)) da in
  Ok (set_raw (_raw e ++ [da]) e).

End MultipleDetectorStream.

(** ** The worker: state and exceptions *)

(** Result of a piece of the worker: it falls through with a value, or it
    raises; in both cases the engine is the one at that point.  [OutOfFuel]
    belongs to the model only (see [retry_loop]). *)
Inductive Flow (A : Type) : Type :=
| Next (a : A) (e : Engine)
| Throw (ex : exn) (e : Engine)
| OutOfFuel.
Arguments Next {A} a e.
Arguments Throw {A} ex e.
Arguments OutOfFuel {A}.

Definition M (A : Type) : Type := Engine -> Flow A.

Definition ret {A : Type} (a : A) : M A := fun e => Next a e.

Definition bindM {A B : Type} (m : M A) (k : A -> M B) : M B :=
  fun e => match m e with
           | Next a e' => k a e'
           | Throw ex e' => Throw ex e'
           | OutOfFuel => OutOfFuel
           end.

Notation "'let*' x ':=' m 'in' k" := (bindM m (fun x => k))
  (at level 10, x name, m at level 100, k at level 200).
Notation "'exec' m ';;' k" := (bindM m (fun _ => k))
  (at level 10, m at level 99, k at level 200).

Definition throw {A : Type} (ex : exn) : M A := fun e => Throw ex e.
Definition get : M Engine := fun e => Next e e.
Definition modify (f : Engine -> Engine) : M unit := fun e => Next tt (f e).
Definition call (a : Action) : M unit := modify (emit a).

(** A step that may raise without touching the engine. *)
Definition lift {A : Type} (r : Result A) : M A :=
  fun e => match r with
           | Ok a => Next a e
           | Raise ex => Throw ex e
           end.

(** A method of the engine that may raise. *)
Definition liftE (f : Engine -> Result Engine) : M unit :=
  fun e => match f e with
           | Ok e' => Next tt e'
           | Raise ex => Throw ex e
           end.

(** [if self._acq_state == CANCELLED: raise CancelledError()] *)
Definition check_cancelled : M unit :=
  let* e := get in
  if AcqState_eqb (_acq_state e) CANCELLED then throw CancelledError else ret tt.

(** ** The area of the scan stage as the worker computes it *)

Module Binary64.

(** [spos_rng] of [_getScanStagePositions]. *)
Definition spos_rng (sstage : ScanStage) : Q * Q * Q * Q :=
  (fl (fst (range_x sstage)), fl (fst (range_y sstage)),
   fl (snd (range_x sstage)), fl (snd (range_y sstage))).

(** The square of [dist_c], the distance of the stage to the centre of its
    ranges. *)
Definition centre_distance2 (sstage : ScanStage) : Q :=
  let sposc := ((fst (range_x sstage) + snd (range_x sstage)) / 2,
                (fst (range_y sstage) + snd (range_y sstage)) / 2) in
  let dx := fst (position sstage) - fst sposc in
  let dy := snd (position sstage) - snd sposc in
  dx * dx + dy * dy.

(** [dist_c > 10e-6].  The distance is compared on the real numbers: which
    way a distance within a rounding of 10 um falls is left to the
    library. *)
Definition off_centre (sstage : ScanStage) : bool :=
  Qlt_bool (0.00001 * 0.00001) (centre_distance2 sstage).

(** [lim_main] of [_getScanStagePositions]: every attribute read is a
    binary64 number and every operation rounds. *)
Definition lim_main (s : Settings) (sstage : ScanStage) : Q * Q * Q * Q :=
  let repetition := (fl (P2Q (fst (repetition s))), fl (P2Q (snd (repetition s)))) in
  let '(roi0, roi1, roi2, roi3) := roi s in
  let '(roi0, roi1, roi2, roi3) := (fl roi0, fl roi1, fl roi2, fl roi3) in
  let width := (fl (roi2 - roi0), fl (roi3 - roi1)) in
  let pxs := (fl (fst width / fst repetition), fl (snd width / snd repetition)) in
  let lim := (fl (roi0 + fl (fst pxs / 2)), fl (roi1 + fl (snd pxs / 2)),
              fl (roi2 - fl (fst pxs / 2)), fl (roi3 - fl (snd pxs / 2))) in
  let '(lim0, lim1, lim2, lim3) := lim in
  let shape := (fl (Z2Q (fst (emitter_shape s))), fl (Z2Q (snd (emitter_shape s)))) in
  let sem_pxs := (fl (fst (emitter_pixelSize s)), fl (snd (emitter_pixelSize s))) in
  let sem_fov := (fl (fst shape * fst sem_pxs), fl (snd shape * snd sem_pxs)) in
  let spos := (fl (fst (position sstage)), fl (snd (position sstage))) in
  let phy_shift := (fl (fst sem_fov * fl (0.5 - lim0)),
                    fl (- snd sem_fov * fl (0.5 - lim1))) in
  let phy_width := (fl (fst sem_fov * fl (lim2 - lim0)),
                    fl (snd sem_fov * fl (lim3 - lim1))) in
  let spos0 := (fl (fst spos - fst phy_shift), fl (snd spos - snd phy_shift)) in
  (fst spos0, snd spos0,
   fl (fst spos0 + fst phy_width), fl (snd spos0 - snd phy_width)).

(** The test of the area against the ranges of the axes. *)
Definition in_range (s : Settings) (sstage : ScanStage) : bool :=
  let '(spos_rng0, spos_rng1, spos_rng2, spos_rng3) := spos_rng sstage in
  let '(lim_main0, lim_main1, lim_main2, lim_main3) := lim_main s sstage in
  MultipleDetectorStream.chain4 spos_rng0 lim_main0 lim_main2 spos_rng2 &&
  MultipleDetectorStream.chain4 spos_rng1 lim_main3 lim_main1 spos_rng3.

(** The grid [pos[x][y]] over the area. *)
Definition grid (s : Settings) (sstage : ScanStage) : list (list (Q * Q)) :=
  let '(lim_main0, lim_main1, lim_main2, lim_main3) := lim_main s sstage in
  let linx := linspace lim_main0 lim_main2 (Pos.to_nat (fst (repetition s))) in
  let liny := linspace lim_main1 lim_main3 (Pos.to_nat (snd (repetition s))) in
  map (fun sx => map (fun sy => (sx, sy)) liny) linx.

(** [_getScanStagePositions()] as the worker calls it. *)
Definition _getScanStagePositions (s : Settings) (sstage : ScanStage)
  : M (list (list (Q * Q))) :=
  exec (if off_centre sstage then call (Log WARNING) else ret tt) ;;
  if negb (in_range s sstage) then throw (ValueError OutOfRange)
  else ret (grid s sstage).

End Binary64.

(** ** The environment of the worker *)

(** What another thread does while the worker waits or sleeps: a detector
    pushes [da] to the callback of stream [n], or the user cancels. *)
Inductive Event : Type :=
| EvData (n : nat) (da : DataArray)
| EvCancel.

(** An exception in a callback stays in the thread of the detector. *)
Definition deliver (ev : Event) (e : Engine) : Engine :=
  match ev with
  | EvData n da =>
    match MultipleDetectorStream._onData n da e with
    | Ok e' => e'
    | Raise _ => e
    end
  | EvCancel => snd (MultipleDetectorStream._cancelAcquisition e)
  end.

Definition deliver_all (evs : list Event) (e : Engine) : Engine :=
  fold_left (fun st ev => deliver ev st) evs e.

(** One pass through the body of [while True] for a pixel. *)
Record Attempt : Type := {
  att_before : list Event;          (* since the previous pass or the set-up,
                                       before the start time is noted *)
  att_start : Q;                    (* [start = time.time()] *)
  att_wait : list Event;            (* until the wait on the camera event returns *)
  att_late : list Event;            (* after it returned, before [dur] is read *)
  att_dur : Q;                      (* [dur = time.time() - start] *)
  att_sem : nat -> list Event;      (* during the wait on the event of stream k *)
  att_dur_done : Q;                 (* [time.time() - start] passed to _updateProgress *)
  att_now : Q;                      (* [time.time()] inside _updateProgress *)
  att_leech : nat -> option Z;      (* result of leech li's [next]; [None]: it raised *)
  att_leech_ev : nat -> list Event  (* during the call of leech li's [next] *)
}.

(** One pixel: the drift read from the drift corrector and the attempts,
    numbered by the failures so far. *)
Record PixelEnv : Type := {
  px_drift : Q * Q;                 (* [self._dc_estimator.tot_drift] *)
  px_attempt : nat -> Attempt
}.

(** A leech at the start of the acquisition: what [estimateAcquisitionTime]
    and [start] return ([None]: the call raised). *)
Record Leech : Type := {
  is_AnchorDriftCorrector : bool;
  leech_estimate : option Q;
  leech_start : option Z
}.

(** What the worker reads from the hardware and from the other objects. *)
Record Config : Type := {
  settings : Settings;
  useScanStage : bool;
  rep_time : Q;                     (* returned by _adjustHardwareSettings() *)
  sem_time : Q;                     (* dwell time x scanner resolution *)
  translation_clip : Q * Q -> Q * Q;  (* [self._emitter.translation.clip] *)
  leeches : list Leech;
  dc_raw : list DataArray;          (* [self._dc_estimator.raw] at the end *)
  pixel : nat -> PixelEnv           (* by number of pixels acquired so far *)
}.

(** Variables of the worker that live across the pixels. *)
Record Locals : Type := {
  n_done : nat;                     (* [n] *)
  leech_np : list (option Z);
  prev_spos : Q * Q                 (* scan stage variant only *)
}.

Definition set_n_done (v : nat) (l : Locals) : Locals :=
  {| n_done := v; leech_np := leech_np l; prev_spos := prev_spos l |}.
Definition set_leech_np (v : list (option Z)) (l : Locals) : Locals :=
  {| n_done := n_done l; leech_np := v; prev_spos := prev_spos l |}.
Definition set_prev_spos (v : Q * Q) (l : Locals) : Locals :=
  {| n_done := n_done l; leech_np := leech_np l; prev_spos := v |}.

(** [numpy.ndindex(ry, rx)]: the last dimension iterates first. *)
Definition ndindex (ry rx : nat) : list (nat * nat) :=
  flat_map (fun y => map (fun x => (y, x)) (seq 0 rx)) (seq 0 ry).

(** ** SEM + camera acquisition ([SEMCCDMDStream]) *)

Module SEMCCDMDStream.
Import MultipleDetectorStream.

(** [_onCompletedData(n, raw_das)], overriding the base class. *)
Definition _onCompletedData (s : Settings) (n : nat) (raw_das : list DataArray)
    (e : Engine) : Result Engine :=
  do da <- _assembleTiles s (repetition s) raw_das;
  do name <- of_option IndexError (streams e !! n);
  let da := with_metadata (set_MD_DESCRIPTION name (metadata da)) da in
  Ok (set_raw (_raw e ++ [da]) e).

(** What [_adjustHardwareSettings] reads from the camera: exposure time,
    resolution and readout rate (a positive frequency: the division by it is
    the one of numpy, which gives inf for a rate of zero, outside the
    rationals). *)
Record Camera : Type := {
  exposureTime : Q;
  ccd_resolution : positive * positive;
  readoutRate : Q
}.

(** What [_adjustHardwareSettings] writes to the e-beam scanner. *)
Record Emitter : Type := {
  em_scale : Q * Q;
  em_resolution : Z * Z;
  em_dwellTime : Q
}.

(** [int(x)] on a float: truncation towards zero. *)
Definition py_int (x : Q) : Z := if Qle_bool 0 x then Qfloor x else Qceiling x.

(** [int(math.sqrt(x))]; [math.sqrt] raises ValueError on a negative
    number. *)
Definition int_sqrt (x : Q) : Result Z :=
  if Qlt_bool x 0 then Raise (ValueError OtherMsg) else Ok (Z.sqrt (Qfloor x)).

(** [_adjustHardwareSettings()].  [fuzzing] is [hasattr(self, "fuzzing") and
    self.fuzzing.value]; [rng] and [dwell_clip] are the range and the [clip]
    of the dwell time of the e-beam scanner.  Returns the time of a camera
    image and the settings written to the scanner. *)
Definition _adjustHardwareSettings (s : Settings) (cam : Camera) (fuzzing : bool)
    (rng : Q * Q) (dwell_clip : Q -> Q) : Result (Q * Emitter) :=
  let exp := exposureTime cam in
  let rep_size := ccd_resolution cam in
  let readout := N2Q (prod [Pos.to_nat (fst rep_size); Pos.to_nat (snd rep_size)])
                 / readoutRate cam in
  do fz <-
    (if fuzzing then
       let pxs := _getPixelSize s in
       do q <- py_div exp (fst rng * 2);
       do max_tile_shape_dt <- int_sqrt q;
       let sem_pxs := emitter_pixelSize s in
       do q' <- py_div pxs (fst sem_pxs);
       let max_tile_shape_scale := py_int q' in
       let ts := Z.max 1 (Z.min max_tile_shape_dt max_tile_shape_scale) in
       let tile_shape := (ts, ts) in
       let subpxs := pxs / Z2Q ts in
       let dt := (exp / Z2Q (ts * ts)) / 2 in
       do scale0 <- py_div subpxs (fst sem_pxs);
       do scale1 <- py_div subpxs (snd sem_pxs);
       let scale := (scale0, scale1) in
       if (ts =? 1)%Z || negb (Qle_bool (fst rng) dt && Qle_bool dt (snd rng))
          || Qlt_bool (fst scale) 1 || Qlt_bool (snd scale) 1
       then Ok None                                   (* fuzzing = False *)
       else Ok (Some (tile_shape, dt, scale))
     else Ok None);
  match fz with
  | Some (tile_shape, dt, scale) =>
    Ok (exp + readout,
        {| em_scale := scale; em_resolution := tile_shape;
           em_dwellTime := dwell_clip dt |})
  | None =>
    Ok (exp + readout,
        {| em_scale := (1, 1); em_resolution := (1%Z, 1%Z);
           em_dwellTime := dwell_clip (exp + readout) |})
  end.

(** [self._dc_estimator], which [acquire] sets to the first leech that is an
    AnchorDriftCorrector, is not [None]. *)
Definition has_dc (c : Config) : bool :=
  existsb is_AnchorDriftCorrector (leeches c).

(** [tot_num = numpy.prod(rep)] *)
Definition tot_num (c : Config) : nat :=
  let rep := repetition (settings c) in
  prod [Pos.to_nat (fst rep); Pos.to_nat (snd rep)].

(** The loop that starts the leeches: ([leech_np], [leech_time]). *)
Definition start_leeches (c : Config) : list (option Z) * Q :=
  fold_left (fun acc l =>
               match leech_estimate l with
               | Some dt => (fst acc ++ [leech_start l], snd acc + dt)
               | None => (fst acc ++ [None], snd acc)
               end)
            (leeches c) ([], 0).

(** [for ce in self._acq_complete: ce.clear()] *)
Definition clear_events (e : Engine) : Engine :=
  set_acq_complete (map (fun _ => false) (_acq_complete e)) e.

(** Indices of [self._streams[:-1]]. *)
Definition sem_ids (e : Engine) : list nat := seq 0 (pred (length (streams e))).

(** [self._acq_complete[k].wait(timeout)]: the other threads run, then the
    call returns whether the event is set. *)
Definition wait_event (k : nat) (evs : list Event) : M bool :=
  exec modify (deliver_all evs) ;;
  let* e := get in
  lift (of_option IndexError (_acq_complete e !! k)).

(** Body of the loop of the retry branch for stream [i]:
    [s._dataflow.unsubscribe(sub); ad[:] = ad[:n]]. *)
Definition drop_run (n : nat) (i : nat) (e : Engine) : Engine :=
  let e := df_unsubscribe i e in
  set_acq_data (alter (take n) i (_acq_data e)) e.

(** The waits on the events of the SEM streams. *)
Fixpoint wait_sem (ks : list nat) (att : Attempt) : M unit :=
  match ks with
  | [] => ret tt
  | k :: ks' =>
    let* got := wait_event k (att_sem att k) in
    if got
    then exec modify (df_unsubscribe k) ;; wait_sem ks' att
    else throw (TimeoutError SEMPixelTimeout)
  end.

(** [self._acq_data[k][-1]] *)
Definition last_data (k : nat) (e : Engine) : Result DataArray :=
  do ad <- of_option IndexError (_acq_data e !! k);
  of_option IndexError (last ad).

(** [self._acq_data[k][-1].metadata[MD_POS] = p] *)
Definition set_last_pos (p : Q * Q) (k : nat) (e : Engine) : Result Engine :=
  do d <- last_data k e;
  let d := with_metadata (set_MD_POS p (metadata d)) d in
  Ok (set_acq_data (alter (set_last d) k (_acq_data e)) e).

(** The position written on the last camera data (e-beam scan).
    [_preprocessData] is the identity in this class. *)
Definition patch_position (c : Config) (penv : PixelEnv) : M unit :=
  let* e := get in
  let* d0 := lift (last_data 0 e) in
  let* raw_pos := lift (of_option KeyError (MD_POS (metadata d0))) in
  let drift_shift := if has_dc c then px_drift penv else (0, 0) in
  let sub_pxs := emitter_pixelSize (settings c) in
  let cor_pos := (fst raw_pos + fst drift_shift * fst sub_pxs,
                  snd raw_pos - snd drift_shift * snd sub_pxs) in
  liftE (set_last_pos cor_pos (last_id e)).

(** The loop over the leeches after a pixel.  [leech_pre li] is what the
    variant does just before calling [next] on leech [li]. *)
Fixpoint leech_loop (leech_pre : nat -> Locals -> M Locals) (att : Attempt)
    (lis : list nat) (loc : Locals) : M Locals :=
  match lis with
  | [] => ret loc
  | li :: rest =>
    let* np := lift (of_option IndexError (leech_np loc !! li)) in
    match np with
    | None => leech_loop leech_pre att rest loc
    | Some np =>
      let np := (np - 1)%Z in
      let loc := set_leech_np (<[li := Some np]> (leech_np loc)) loc in
      if (np =? 0)%Z then
        let* loc := leech_pre li loc in
        exec call (LeechNext li) ;;
        exec modify (deliver_all (att_leech_ev att li)) ;;
        let np := default 1%Z (att_leech att li) in
        let loc := set_leech_np (<[li := Some np]> (leech_np loc)) loc in
        exec check_cancelled ;;
        leech_loop leech_pre att rest loc
      else leech_loop leech_pre att rest loc
    end
  end.

(** How one pass through the body of [while True] ends. *)
Inductive Step : Type :=
| Continue (failures : nat)
| Break (loc : Locals).

(** The branch taken when the camera did not answer in time or answered too
    early: count the failure, give up at the third one, else drop what this
    pass received and get ready for the next pass. *)
Definition on_failure (n failures : nat) : M Step :=
  exec call (Log WARNING) ;;
  let failures := S failures in
  if (3 <=? failures)%nat then throw (IOError SyncFailure)
  else
    let* e := get in
    exec modify (for_each (stream_ids e) (drop_run n)) ;;
    exec call (Sleep 1) ;;
    exec modify (df_subscribe (last_id e)) ;;
    ret (Continue failures).

(** The rest of the pass when the camera answered: wait for the SEM streams,
    write the position, count the pixel, update the progress, run the leeches
    that are due.  [patch] writes the position metadata (it differs between
    the two variants). *)
Definition on_acquired (c : Config) (patch : M unit)
    (leech_pre : nat -> Locals -> M Locals) (att : Attempt) (loc : Locals) : M Step :=
  let* e := get in
  exec wait_sem (sem_ids e) att ;;
  exec check_cancelled ;;
  exec patch ;;
  let n := S (n_done loc) in
  let loc := set_n_done n loc in
  let leech_time_ppx := snd (start_leeches c) / N2Q (tot_num c) in
  let leech_time_left := N2Q (tot_num c - n) * leech_time_ppx in
  exec modify (_updateProgress (att_now att) (att_dur_done att)
                 (Z.of_nat n) (Z.of_nat (tot_num c)) leech_time_left) ;;
  let* loc := leech_loop leech_pre att (seq 0 (length (leeches c))) loc in
  ret (Break loc).

(** The start of a pass, up to the trigger: note the start time, clear the
    events, subscribe the SEM streams, let the beam settle, trigger the
    camera.  The callbacks that ran since the camera was subscribed (before
    the first pixel, or at the end of a failed pass) or since the last test
    of the state come first: what they stored stays, the events they set
    are cleared. *)
Definition arm (att : Attempt) : M unit :=
  exec modify (deliver_all (att_before att)) ;;
  exec modify (set_acq_min_date (Some (att_start att))) ;;
  exec modify clear_events ;;
  exec check_cancelled ;;
  let* e := get in
  exec modify (for_each (sem_ids e) df_subscribe) ;;
  exec call (Sleep 0.01) ;;
  call Notify.

(** One pass through the body of [while True]. *)
Definition attempt (c : Config) (patch : M unit)
    (leech_pre : nat -> Locals -> M Locals)
    (att : Attempt) (failures : nat) (loc : Locals) : M Step :=
  exec arm att ;;
  let* e := get in
  let* got := wait_event (last_id e) (att_wait att) in
  let timedout := negb got in
  exec modify (deliver_all (att_late att)) ;;
  exec check_cancelled ;;
  let dur := att_dur att in
  if timedout || Qlt_bool dur (rep_time c * 0.95)
  then on_failure (n_done loc) failures
  else on_acquired c patch leech_pre att loc.

(** [while True] for one pixel.  At most three passes are ever made, as the
    third failure raises; [fuel] bounds the recursion. *)
Fixpoint retry_loop (fuel : nat) (c : Config) (patch : M unit)
    (leech_pre : nat -> Locals -> M Locals)
    (penv : PixelEnv) (failures : nat) (loc : Locals) : M Locals :=
  match fuel with
  | O => fun _ => OutOfFuel
  | S fuel' =>
    let* r := attempt c patch leech_pre (px_attempt penv failures) failures loc in
    match r with
    | Continue failures' => retry_loop fuel' c patch leech_pre penv failures' loc
    | Break loc' => ret loc'
    end
  end.

Definition lookup2 {A : Type} (g : list (list A)) (i j : nat) : Result A :=
  do row <- of_option IndexError (g !! i);
  of_option IndexError (row !! j).

Definition Qpair_eqb (a b : Q * Q) : bool :=
  Qeq_bool (fst a) (fst b) && Qeq_bool (snd a) (snd b).

(** Top of the loop over the pixels (e-beam scan): place the beam. *)
Definition move_beam (c : Config) (spot_pos : list (list (Q * Q)))
    (i : nat * nat) (penv : PixelEnv) : M unit :=
  let* trans := lift (lookup2 spot_pos (fst i) (snd i)) in
  let trans := if has_dc c
               then (fst trans - fst (px_drift penv), snd trans - snd (px_drift penv))
               else trans in
  let cptrans := translation_clip c trans in
  exec (if negb (Qpair_eqb cptrans trans) then call (Log ERROR) else ret tt) ;;
  call (SetTranslation cptrans).

(** The loop over the pixels, in the order of [numpy.ndindex] (e-beam scan). *)
Fixpoint scan_pixels (c : Config) (spot_pos : list (list (Q * Q)))
    (pixels : list (nat * nat)) (loc : Locals) : M Locals :=
  match pixels with
  | [] => ret loc
  | i :: rest =>
    let penv := pixel c (n_done loc) in
    exec move_beam c spot_pos i penv ;;
    let* loc := retry_loop 3 c (patch_position c penv) (fun _ l => ret l) penv 0 loc in
    scan_pixels c spot_pos rest loc
  end.

(** [for n, das in enumerate(self._acq_data): self._onCompletedData(n, das)] *)
Fixpoint complete_data (s : Settings) (n : nat) (das : list (list DataArray)) : M unit :=
  match das with
  | [] => ret tt
  | d :: rest => exec liftE (_onCompletedData s n d) ;; complete_data s (S n) rest
  end.

(** From the comment "Done!" to the end of the [try] block; the same in both
    variants. *)
Definition finish (c : Config) : M unit :=
  let* e := get in
  exec modify (for_each (stream_ids e) df_unsubscribe) ;;
  exec modify (df_synchronizedOn (last_id e) false) ;;
  exec call LockAcquire ;;
  let* e := get in
  exec (if AcqState_eqb (_acq_state e) CANCELLED
        then exec call LockRelease ;; throw CancelledError
        else exec modify (write_acq_state FINISHED) ;; call LockRelease) ;;
  let* e := get in
  exec complete_data (settings c) 0 (_acq_data e) ;;
  exec modify (for_each (seq 0 (length (leeches c))) (fun li => emit (LeechComplete li))) ;;
  if has_dc c then
    let* a := lift (_assembleAnchorData (dc_raw c)) in
    modify (fun e => set_anchor_raw (_anchor_raw e ++ [a]) e)
  else ret tt.

(** Start of the [try] block after the hardware is set up; the same in both
    variants: empty the buffers, start the leeches, synchronise and subscribe
    the camera. *)
Definition prepare (c : Config) : M Locals :=
  let* e := get in
  exec modify (set_acq_data (map (fun _ => []) (streams e))) ;;
  exec modify (set_raw []) ;;
  exec modify (set_anchor_raw []) ;;
  let leech_np := fst (start_leeches c) in
  exec modify (df_synchronizedOn (last_id e) true) ;;
  exec modify (df_subscribe (last_id e)) ;;
  ret {| n_done := 0; leech_np := leech_np; prev_spos := (0, 0) |}.

Definition is_CancelledError (ex : exn) : bool :=
  match ex with
  | CancelledError => true
  | _ => false
  end.

(** The [except Exception as exp] clause: the exception that leaves it and
    the engine. *)
Definition on_exception (ex : exn) (e : Engine) : exn * Engine :=
  let e := if is_CancelledError ex then e else emit (Log ERROR) e in
  let e := for_each (stream_ids e) df_unsubscribe e in
  let e := df_synchronizedOn (last_id e) false e in
  let e := set_raw [] e in
  let e := set_anchor_raw [] e in
  if negb (is_CancelledError ex) && AcqState_eqb (_acq_state e) CANCELLED
  then (CancelledError, emit (Log WARNING) e)
  else (ex, e).

(** The end of the [finally] clause, common to both variants. *)
Definition release (e : Engine) : Engine :=
  let e := set_acq_data (map (fun _ => []) (streams e)) e in
  emit AcqDoneSet e.

(** [try: body / except: on_exception / else: return self.raw / finally: fin] *)
Definition try_acquire (body : M unit) (fin : Engine -> Engine)
  : M (list DataArray) :=
  fun e =>
    match body e with
    | Next _ e' => Next (raw e') (fin e')
    | Throw ex e' =>
      let '(ex', e'') := on_exception ex e' in
      Throw ex' (fin e'')
    | OutOfFuel => OutOfFuel
    end.

(** *** The scan stage variant *)

(** [sstage.moveAbsSync] / [sstage.moveAbs(...).result()]: the axes given are
    moved to their targets. *)
Definition move_stage (x y : option Q) (e : Engine) : Engine :=
  let e := emit (MoveAbs x y) e in
  match _sstage e with
  | Some st =>
    set_sstage (Some {| range_x := range_x st; range_y := range_y st;
                        position := (default (fst (position st)) x,
                                     default (snd (position st)) y) |}) e
  | None => e
  end.

Definition in_range (rng : Q * Q) (v : Q) : bool :=
  Qle_bool (fst rng) v && Qle_bool v (snd rng).

(** [min(max(lo, v), hi)] *)
Definition clamp (rng : Q * Q) (v : Q) : Q :=
  let m := if Qlt_bool v (fst rng) then fst rng else v in   (* max(lo, v) *)
  if Qlt_bool (snd rng) m then snd rng else m.              (* min(m, hi) *)

(** Top of the loop over the pixels (scan stage): move the stage. *)
Definition move_to_pixel (c : Config) (st : ScanStage)
    (stage_pos : list (list (Q * Q))) (i : nat * nat) (penv : PixelEnv)
    (loc : Locals) : M (Q * Q * Locals) :=
  let* spos := lift (lookup2 stage_pos (snd i) (fst i)) in   (* stage_pos[i[::-1]] *)
  let sub_pxs := emitter_pixelSize (settings c) in
  let drift_shift := if has_dc c
                     then (fst (px_drift penv) * fst sub_pxs,
                           - snd (px_drift penv) * snd sub_pxs)
                     else (0, 0) in
  let cspos := (fst spos - fst drift_shift, snd spos - snd drift_shift) in
  let out := negb (in_range (range_x st) (fst cspos) && in_range (range_y st) (snd cspos)) in
  exec (if out then call (Log ERROR) else ret tt) ;;
  let cspos := if out
               then (clamp (range_x st) (fst cspos), clamp (range_y st) (snd cspos))
               else cspos in
  (* axes already at their target are not moved *)
  let mx := if Qeq_bool (fst (prev_spos loc)) (fst cspos) then None else Some (fst cspos) in
  let my := if Qeq_bool (snd (prev_spos loc)) (snd cspos) then None else Some (snd cspos) in
  exec modify (move_stage mx my) ;;
  let loc := set_prev_spos (default (fst (prev_spos loc)) mx,
                            default (snd (prev_spos loc)) my) loc in
  ret (spos, loc).

(** The position written on the last data of every stream (scan stage). *)
Definition patch_position_stage (orig_spos spos : Q * Q) : M unit :=
  let* e := get in
  let* d0 := lift (last_data 0 e) in
  let* raw_pos := lift (of_option KeyError (MD_POS (metadata d0))) in
  let strans := (fst spos - fst orig_spos, snd spos - snd orig_spos) in
  let cor_pos := (fst raw_pos + fst strans, snd raw_pos + snd strans) in
  (fix each (ks : list nat) : M unit :=
     match ks with
     | [] => ret tt
     | k :: ks' => exec liftE (set_last_pos cor_pos k) ;; each ks'
     end) (seq 0 (length (_acq_data e))).

(** Before an AnchorDriftCorrector runs, the stage goes back to where it was. *)
Definition leech_pre_stage (c : Config) (orig_spos : Q * Q) (li : nat)
    (loc : Locals) : M Locals :=
  match leeches c !! li with
  | Some l =>
    if is_AnchorDriftCorrector l then
      exec modify (move_stage (Some (fst orig_spos)) (Some (snd orig_spos))) ;;
      ret (set_prev_spos orig_spos loc)
    else ret loc
  | None => ret loc
  end.

Fixpoint scan_pixels_stage (c : Config) (st : ScanStage) (orig_spos : Q * Q)
    (stage_pos : list (list (Q * Q)))
    (pixels : list (nat * nat)) (loc : Locals) : M Locals :=
  match pixels with
  | [] => ret loc
  | i :: rest =>
    let penv := pixel c (n_done loc) in
    let* r := move_to_pixel c st stage_pos i penv loc in
    let '(spos, loc) := r in
    let* loc := retry_loop 3 c (patch_position_stage orig_spos spos)
                  (leech_pre_stage c orig_spos) penv 0 loc in
    scan_pixels_stage c st orig_spos stage_pos rest loc
  end.

(** The [try] block of [_runAcquisitionScanStage]. *)
Definition body_stage (c : Config) : M unit :=
  let* e := get in
  let* st := lift (of_option (ValueError NoScanStage) (_sstage e)) in
  let orig_spos := position st in
  exec call AcqDoneClear ;;
  (* _adjustHardwareSettingsScanStage(): the e-beam goes to the centre *)
  exec call (SetTranslation (0, 0)) ;;
  let* stage_pos := Binary64._getScanStagePositions (settings c) st in
  let rep := repetition (settings c) in
  let* loc := prepare c in
  let loc := set_prev_spos orig_spos loc in
  let* loc := scan_pixels_stage c st orig_spos stage_pos
                (ndindex (Pos.to_nat (snd rep)) (Pos.to_nat (fst rep))) loc in
  finish c.

(** The [finally] clause of [_runAcquisitionScanStage]. *)
Definition park_and_release (e : Engine) : Engine :=
  let e := match _sstage e with
           | Some st =>
             let pos0 := ((fst (range_x st) + snd (range_x st)) / 2,
                          (fst (range_y st) + snd (range_y st)) / 2) in
             move_stage (Some (fst pos0)) (Some (snd pos0)) e
           | None => e
           end in
  release e.

Definition _runAcquisitionScanStage (c : Config) : M (list DataArray) :=
  try_acquire (body_stage c) park_and_release.

(** *** The e-beam scan *)

(** The [try] block of [_runAcquisition]. *)
Definition body (c : Config) : M unit :=
  exec call AcqDoneClear ;;
  let spot_pos := _getSpotPositions (settings c) in
  let rep := repetition (settings c) in
  let* loc := prepare c in
  let* loc := scan_pixels c spot_pos
                (ndindex (Pos.to_nat (snd rep)) (Pos.to_nat (fst rep))) loc in
  finish c.

Definition _runAcquisition (c : Config) : M (list DataArray) :=
  if useScanStage c then _runAcquisitionScanStage c
  else try_acquire (body c) release.

End SEMCCDMDStream.

(** ** SEM + spectrometer ([SEMSpectrumMDStream]) *)

Module SEMSpectrumMDStream.
Import MultipleDetectorStream.

(** Block [k] along the first axis of an array whose blocks hold [n] values. *)
Definition block (n k : nat) (v : list Z) : list Z := take n (drop (k * n) v).

(** [numpy.concatenate(arrays, axis=1)] on arrays given by shape and values:
    the first array must have at least two dimensions, and the others its
    shape but for the second dimension. *)
Definition concatenate_axis1 (arrays : list (list nat * list Z))
  : Result (list nat * list Z) :=
  match arrays with
  | [] => Raise (ValueError OtherMsg)
  | (sh0, _) :: _ =>
    match sh0 with
    | [] => Raise (ValueError OtherMsg)
    | [_] => Raise IndexError
    | d0 :: _ :: rest =>
      if forallb (fun a => match fst a with
                           | d :: _ :: r => (d =? d0)%nat && shape_eqb r rest
                           | _ => false
                           end) arrays
      then
        let width (a : list nat * list Z) := (nth 1 (fst a) 0 * prod rest)%nat in
        Ok (d0 :: list_sum (map (fun a => nth 1 (fst a) 0%nat) arrays) :: rest,
            concat (map (fun k => concat (map (fun a => block (width a) k (snd a)) arrays))
                        (seq 0 d0)))
      else Raise (ValueError OtherMsg)
    end
  end.

(** [_assembleSpecData(data_list, repetition)].  The shape of every array of
    [data_list] is reversed in place first; the arrays are not used again by
    the caller. *)
Definition _assembleSpecData (data_list : list DataArray)
    (repetition : positive * positive) : Result DataArray :=
  match data_list with
  | [] => Raise AssertionError
  | d0 :: _ =>
    let reversed := map (fun e => (rev (shape e), values e)) data_list in
    do spec_data <- concatenate_axis1 reversed;
    do spec_res <- of_option IndexError (head (rev (shape d0)));
    let new_shape := [spec_res; 1%nat; 1%nat;
                      Pos.to_nat (snd repetition); Pos.to_nat (fst repetition)] in
    if negb (prod (fst spec_data) =? prod new_shape)%nat
    then Raise (ValueError OtherMsg)
    else
      let md := metadata d0 in
      Ok {| shape := new_shape; values := snd spec_data; metadata := md |}
  end.

(** [_onCompletedData(n, raw_das)]; [tile_shape] is
    [self._emitter.resolution.value]. *)
Definition _onCompletedData (s : Settings) (tile_shape : nat * nat) (n : nat)
    (raw_das : list DataArray) (e : Engine) : Result Engine :=
  if (n <? pred (length (streams e)))%nat
  then SEMCCDMDStream._onCompletedData s n raw_das e
  else
    do d0 <- of_option IndexError (head raw_das);
    do h <- shape_m2 d0;
    if negb (h =? 1)%nat then Raise AssertionError
    else
      let rep := repetition s in
      do spec_data <- _assembleSpecData raw_das rep;
      do sem_data <- of_option IndexError (head (_raw e));
      do epxs <- of_option KeyError (MD_PIXEL_SIZE (metadata sem_data));
      let pxs := (fst epxs * N2Q (fst tile_shape), snd epxs * N2Q (snd tile_shape)) in
      do pos <- of_option KeyError (MD_POS (metadata sem_data));
      let md := set_MD_PIXEL_SIZE pxs (set_MD_POS pos (metadata spec_data)) in
      do name <- of_option IndexError (streams e !! n);
      let md := set_MD_DESCRIPTION name md in
      Ok (set_raw (_raw e ++ [with_metadata md spec_data]) e).

End SEMSpectrumMDStream.

(** ** Time-correlator stream ([ScannedRemoteTCStream]) *)

Module ScannedRemoteTCStream.

(** The scanner as the stream sees it.  Writing [dwellTime.value] lets the
    hardware pick the value it can do: [dwell_accept] is what is read back. *)
Record Scanner : Type := {
  scanner_shape : Z * Z;
  scale : Q * Q;
  resolution : positive * positive;
  translation : Q * Q;
  dwell_range : Q * Q;
  dwell_accept : Q -> Q;
  dwellTime : Q;
  tc_dwellTime : Q                  (* [self._tc_scanner.dwellTime.value] *)
}.

Definition write_roi (sc_ : Q * Q) (res : positive * positive) (trans : Q * Q)
    (sc : Scanner) : Scanner :=
  {| scanner_shape := scanner_shape sc; scale := sc_; resolution := res;
     translation := trans; dwell_range := dwell_range sc;
     dwell_accept := dwell_accept sc; dwellTime := dwellTime sc;
     tc_dwellTime := tc_dwellTime sc |}.

Definition write_dwellTime (v : Q) (sc : Scanner) : Scanner :=
  {| scanner_shape := scanner_shape sc; scale := scale sc;
     resolution := resolution sc; translation := translation sc;
     dwell_range := dwell_range sc; dwell_accept := dwell_accept sc;
     dwellTime := dwell_accept sc v; tc_dwellTime := tc_dwellTime sc |}.

Definition write_tc_dwellTime (v : Q) (sc : Scanner) : Scanner :=
  {| scanner_shape := scanner_shape sc; scale := scale sc;
     resolution := resolution sc; translation := translation sc;
     dwell_range := dwell_range sc; dwell_accept := dwell_accept sc;
     dwellTime := dwellTime sc; tc_dwellTime := v |}.

(** [_computeROISettings(roi)]: (scale, res, trans). *)
Definition _computeROISettings (rep : positive * positive) (sc : Scanner)
    (roi : Q * Q * Q * Q) : (Q * Q) * (positive * positive) * (Q * Q) :=
  let '(roi0, roi1, roi2, roi3) := roi in
  let center := ((roi0 + roi2) / 2, (roi1 + roi3) / 2) in
  let width := (roi2 - roi0, roi3 - roi1) in
  let shape := scanner_shape sc in
  let trans := (Z2Q (fst shape) * (fst center - 0.5),
                Z2Q (snd shape) * (snd center - 0.5)) in
  let res := rep in
  let scale := (fst width * Z2Q (fst shape) / P2Q (fst res),
                snd width * Z2Q (snd shape) / P2Q (snd res)) in
  (scale, res, trans).

(** Python's [min(a, b)]. *)
Definition py_min (a b : Q) : Q := if Qlt_bool b a then b else a.

(** [_prepareHardware()]; [total] is [self._dwellTime.value].  Returns
    [(px_dt, nfr)] and the scanner as it is left.  The number of frames is
    the ceiling of the quotient as binary64 gives it; an infinite quotient
    makes [int] raise. *)
Definition _prepareHardware (rep : positive * positive) (roi : Q * Q * Q * Q)
    (total : Q) (sc : Scanner) : Result (Q * Z * Scanner) :=
  let '(scale, res, trans) := _computeROISettings rep sc roi in
  let sc := write_roi scale res trans sc in
  let px_dt := py_min total (snd (dwell_range sc)) in
  let sc := write_dwellTime px_dt sc in
  let px_dt := dwellTime sc in
  do q <- py_div (fl total) (fl px_dt);
  do q <- of_option OverflowError (f64 q);
  let nfr := Qceiling q in   (* int(math.ceil(...)) *)
  do px_dt <- py_div total (Z2Q nfr);
  let sc := write_dwellTime px_dt sc in
  let sc := write_tc_dwellTime total sc in
  Ok (px_dt, nfr, sc).

(** What the frame thread works on. *)
Record Frames : Type := {
  raw : list DataArray;
  _new_acquisition : bool;
  errors : nat                      (* calls of [logging.error] *)
}.

Definition uint32 (z : Z) : Z := (z mod 2 ^ 32)%Z.

(** [data.astype(numpy.uint32)] *)
Definition astype_uint32 (da : DataArray) : DataArray :=
  {| shape := shape da; values := map uint32 (values da); metadata := metadata da |}.

(** [a += b] on uint32 arrays of the same shape. *)
Definition iadd_uint32 (a b : list Z) : list Z :=
  zip_with (fun x y => uint32 (x + y)) a b.

(** How the processing of one frame leaves the thread. *)
Inductive Thread : Type :=
| Running (f : Frames)
| Died (ex : exn) (f : Frames).

(** [data[0]], evaluated for the debug message. *)
Definition first_row_exists (da : DataArray) : bool :=
  match shape da with
  | [] | O :: _ => false
  | _ => true
  end.

(** Body of the loop of [_frameThread] for one frame taken from the queue. *)
Definition process_frame (data : DataArray) (f : Frames) : Thread :=
  if _new_acquisition f then
    if negb (first_row_exists data) then Died IndexError f
    else
      let data := astype_uint32 data in
      Running {| raw := [data]; _new_acquisition := false; errors := errors f |}
  else
    match raw f with
    | [] => Died IndexError f
    | r0 :: rest =>
      if shape_eqb (shape r0) (shape data) then
        if negb (first_row_exists data) then Died IndexError f
        else
          let data := astype_uint32 data in
          let r0 := {| shape := shape r0; values := iadd_uint32 (values r0) (values data);
                       metadata := metadata r0 |} in
          let f := {| raw := r0 :: rest; _new_acquisition := false; errors := errors f |} in
          match MD_DWELL_TIME (metadata r0), MD_DWELL_TIME (metadata data) with
          | Some a, Some b =>
            let r0 := with_metadata (set_MD_DWELL_TIME (a + b) (metadata r0)) r0 in
            Running {| raw := r0 :: rest; _new_acquisition := false; errors := errors f |}
          | _, _ => Died KeyError f
          end
      else
        Running {| raw := raw f; _new_acquisition := false; errors := S (errors f) |}
    end.

(** [_frameThread] on the frames that pass through the queue, in order. *)
Fixpoint _frameThread (queue : list DataArray) (f : Frames) : Thread :=
  match queue with
  | [] => Running f
  | data :: rest =>
    match process_frame data f with
    | Running f' => _frameThread rest f'
    | Died ex f' => Died ex f'
    end
  end.

End ScannedRemoteTCStream.

(** ** Shapes of the environment *)

(** The engine when the pass starts, when the camera has been triggered, when
    the wait on the camera event returns, and when the outcome of the pass is
    decided. *)
Definition at_start (att : Attempt) (e : Engine) : Engine :=
  deliver_all (att_before att) e.

Definition armed (att : Attempt) (e : Engine) : Engine :=
  let e := at_start att e in
  let e := SEMCCDMDStream.clear_events (set_acq_min_date (Some (att_start att)) e) in
  emit Notify (emit (Sleep 0.01) (for_each (SEMCCDMDStream.sem_ids e) df_subscribe e)).

Definition at_wait_end (att : Attempt) (e : Engine) : Engine :=
  deliver_all (att_wait att) (armed att e).

Definition at_check (att : Attempt) (e : Engine) : Engine :=
  deliver_all (att_late att) (at_wait_end att e).

Definition is_cancel (ev : Event) : bool :=
  match ev with
  | EvCancel => true
  | EvData _ _ => false
  end.

Definition no_cancel (evs : list Event) : bool :=
  forallb (fun ev => negb (is_cancel ev)) evs.

(** The first array pushed to stream [k] that is not older than [start]. *)
Fixpoint accepted (k : nat) (start : Q) (evs : list Event) : option DataArray :=
  match evs with
  | [] => None
  | EvData m d :: rest =>
    if (m =? k)%nat && negb (MultipleDetectorStream.too_early (Some start) d)
    then Some d
    else accepted k start rest
  | EvCancel :: rest => accepted k start rest
  end.

(** The per-stream lists of the engine have one entry per stream. *)
Definition well_formed (e : Engine) : Prop :=
  length (_acq_complete e) = length (streams e) /\
  length (_acq_data e) = length (streams e) /\
  length (subscribed e) = length (streams e) /\
  length (synchronized e) = length (streams e).

(** A pass that fails to synchronise (SEM: stream 0, camera: stream 1): no
    callback runs before the pass starts, nobody cancels, and the camera
    gives nothing valid before the wait ends, or the pass is over in less
    than 95 % of the time of a pixel. *)
Definition failing (c : Config) (att : Attempt) : Prop :=
  att_before att = [] /\
  no_cancel (att_wait att) = true /\ no_cancel (att_late att) = true /\
  (accepted 1 (att_start att) (att_wait att) = None \/
   att_dur att < rep_time c * 0.95).

(** A tile of the given shape (rows, columns) with the metadata the assembler
    reads. *)
Definition tile_ok (ts : nat * nat) (d : DataArray) : Prop :=
  shape d = [fst ts; snd ts] /\
  is_Some (MD_POS (metadata d)) /\ is_Some (MD_PIXEL_SIZE (metadata d)).

(** A pass that goes well: no callback runs before the pass starts, nobody
    cancels, the camera gives a valid tile before the wait ends and not too
    early, and the SEM gives one before its own wait ends. *)
Definition succeeding (c : Config) (sem_shape ccd_shape : nat * nat)
    (att : Attempt) : Prop :=
  att_before att = [] /\
  no_cancel (att_wait att) = true /\ no_cancel (att_late att) = true /\
  no_cancel (att_sem att 0) = true /\
  (forall li, no_cancel (att_leech_ev att li) = true) /\
  rep_time c * 0.95 <= att_dur att /\
  (exists dc, accepted 1 (att_start att) (att_wait att) = Some dc /\
              tile_ok ccd_shape dc) /\
  (exists ds, accepted 0 (att_start att)
                (att_wait att ++ att_late att ++ att_sem att 0) = Some ds /\
              tile_ok sem_shape ds).

(** A pixel acquired after at most two failures. *)
Definition pixel_ok (c : Config) (sem_shape ccd_shape : nat * nat)
    (p : PixelEnv) : Prop :=
  exists k, (k <= 2)%nat /\
    (forall j, (j < k)%nat -> failing c (px_attempt p j)) /\
    succeeding c sem_shape ccd_shape (px_attempt p k).

(** A pixel whose first three passes fail. *)
Definition pixel_fails (c : Config) (p : PixelEnv) : Prop :=
  forall j, (j < 3)%nat -> failing c (px_attempt p j).

(** The engine as the worker finds it: two streams, not cancelled. *)
Definition ready (e : Engine) : Prop :=
  well_formed e /\ length (streams e) = 2%nat /\ _acq_state e = RUNNING.

(** The engine between two passes, with [n] pixels acquired: each of the two
    accumulators holds [n] tiles of the shape of its stream. *)
Definition acquiring (sem_shape ccd_shape : nat * nat) (n : nat) (e : Engine) : Prop :=
  ready e /\
  exists a0 a1, _acq_data e = [a0; a1] /\
    length a0 = n /\ length a1 = n /\
    Forall (tile_ok sem_shape) a0 /\ Forall (tile_ok ccd_shape) a1.

(** A piece of the worker that does not touch the outputs. *)
Definition keeps_raw {A : Type} (m : M A) : Prop :=
  forall e, match m e with
            | Next _ e' | Throw _ e' => _raw e' = _raw e
            | OutOfFuel => True
            end.

(** A piece of the worker that always falls through or raises. *)
Definition never_stuck {A : Type} (m : M A) : Prop :=
  forall e, m e <> OutOfFuel.

(** ** Inputs of the examples and statements of the specification *)

(** The inputs of the examples below: a 2 x 2 repetition over the whole
    field of a 4 x 4 emitter with unit pixels, and received arrays with
    position (0, 0). *)
Definition example_settings : Settings :=
  {| repetition := (2%positive, 2%positive); roi := (0, 0, 1, 1);
     emitter_shape := (4%Z, 4%Z); emitter_pixelSize := (1, 1) |}.

Definition example_md (pxs : Q * Q) : Metadata :=
  {| MD_POS := Some (0, 0); MD_PIXEL_SIZE := Some pxs; MD_ACQ_DATE := Some 1;
     MD_DWELL_TIME := None; MD_DESCRIPTION := None; MD_AD_LIST := None |}.

(** A 2 x 2 tile whose metadata carries the sub-pixel size 1 = 2 / 2. *)
Definition example_tile : DataArray :=
  {| shape := [2%nat; 2%nat]; values := [1%Z; 2%Z; 3%Z; 4%Z];
     metadata := example_md (1, 1) |}.

(** A single point. *)
Definition example_point : DataArray :=
  {| shape := [1%nat; 1%nat]; values := [7%Z]; metadata := example_md (2, 2) |}.

(** An array of two points in a row, with the pixel size of the grid. *)
Definition example_pair : DataArray :=
  {| shape := [1%nat; 2%nat]; values := [7%Z; 8%Z]; metadata := example_md (2, 2) |}.

(** The pixel size of the specification: ROI width x emitter field of view /
    repetition, along each axis. *)
Definition spec_pixel_size (s : Settings) : Q * Q :=
  let '(l, t, r, b) := roi s in
  ((r - l) * (Z2Q (fst (emitter_shape s)) * fst (emitter_pixelSize s))
     / P2Q (fst (repetition s)),
   (b - t) * (Z2Q (snd (emitter_shape s)) * snd (emitter_pixelSize s))
     / P2Q (snd (repetition s))).

(** The centre of the specification: the position of the first received
    array plus ((rep - 1) / 2) (px, -py). *)
Definition spec_center (pos pxs : Q * Q) (rep : positive * positive) : Q * Q :=
  (fst pos + (P2Q (fst rep) - 1) / 2 * fst pxs,
   snd pos - (P2Q (snd rep) - 1) / 2 * snd pxs).

(** An engine with two streams (SEM, camera), as [acquire] leaves it. *)
Definition example_engine : Engine :=
  {| streams := ["sem"%string; "ccd"%string];
     _acq_state := RUNNING;
     _acq_complete := [false; false];
     _acq_data := [[]; []];
     _acq_min_date := None;
     _prog_sum := 0;
     _raw := [];
     _anchor_raw := [];
     subscribed := [false; false];
     synchronized := [false; false];
     future_end := 0;
     _sstage := None;
     trace := [] |}.

(** The engine while the worker waits for a pixel: the camera (last stream)
    is synchronised on the software trigger and both dataflows are
    subscribed. *)
Definition example_running : Engine :=
  {| streams := ["sem"%string; "ccd"%string];
     _acq_state := RUNNING;
     _acq_complete := [false; false];
     _acq_data := [[]; []];
     _acq_min_date := Some 10;
     _prog_sum := 0;
     _raw := [];
     _anchor_raw := [];
     subscribed := [true; true];
     synchronized := [false; true];
     future_end := 0;
     _sstage := None;
     trace := [] |}.



(** A frame of the given shape whose pixels all hold [v], acquired with
    per-frame dwell time [dt]. *)
Definition const_frame (shp : list nat) (v : Z) (dt : Q) : DataArray :=
  {| shape := shp; values := replicate (prod shp) v;
     metadata := {| MD_POS := None; MD_PIXEL_SIZE := None; MD_ACQ_DATE := None;
                    MD_DWELL_TIME := Some dt; MD_DESCRIPTION := None;
                    MD_AD_LIST := None |} |}.

(** A scanner that takes the dwell time it is given, up to 0.5 s. *)
Definition example_scanner : ScannedRemoteTCStream.Scanner :=
  {| ScannedRemoteTCStream.scanner_shape := (512%Z, 512%Z);
     ScannedRemoteTCStream.scale := (1, 1);
     ScannedRemoteTCStream.resolution := (1%positive, 1%positive);
     ScannedRemoteTCStream.translation := (0, 0);
     ScannedRemoteTCStream.dwell_range := (0.000001, 0.5);
     ScannedRemoteTCStream.dwell_accept := fun v => v;
     ScannedRemoteTCStream.dwellTime := 0.000001;
     ScannedRemoteTCStream.tc_dwellTime := 0 |}.

(** A scanner that takes the dwell time it is given, up to 10 ms. *)
Definition fast_scanner : ScannedRemoteTCStream.Scanner :=
  {| ScannedRemoteTCStream.scanner_shape := (512%Z, 512%Z);
     ScannedRemoteTCStream.scale := (1, 1);
     ScannedRemoteTCStream.resolution := (1%positive, 1%positive);
     ScannedRemoteTCStream.translation := (0, 0);
     ScannedRemoteTCStream.dwell_range := (0.000001, 0.01);
     ScannedRemoteTCStream.dwell_accept := fun v => v;
     ScannedRemoteTCStream.dwellTime := 0.000001;
     ScannedRemoteTCStream.tc_dwellTime := 0 |}.

(** The centre of the ranges of the stage. *)
Definition stage_centre (st : ScanStage) : Q * Q :=
  ((fst (range_x st) + snd (range_x st)) / 2,
   (fst (range_y st) + snd (range_y st)) / 2).

(** Nothing happens. *)
Definition no_events : nat -> list Event := fun _ => [].

(** A received array of one point acquired at [date]. *)
Definition sample (date : Q) (v : Z) : DataArray :=
  {| shape := [1%nat; 1%nat]; values := [v];
     metadata := {| MD_POS := Some (0, 0); MD_PIXEL_SIZE := Some (1, 1);
                    MD_ACQ_DATE := Some date; MD_DWELL_TIME := None;
                    MD_DESCRIPTION := None; MD_AD_LIST := None |} |}.

(** The camera misses the trigger: nothing is received, the wait times out. *)
Definition miss (start : Q) : Attempt :=
  {| att_before := []; att_start := start; att_wait := []; att_late := []; att_dur := 6;
     att_sem := no_events; att_dur_done := 6; att_now := start + 6;
     att_leech := fun _ => None; att_leech_ev := no_events |}.

(** The SEM and the camera both answer the trigger, after the exposure. *)
Definition hit (start : Q) : Attempt :=
  {| att_before := []; att_start := start;
     att_wait := [EvData 0 (sample (start + 0.1) 1); EvData 1 (sample (start + 0.1) 2)];
     att_late := []; att_dur := 0.11;
     att_sem := no_events; att_dur_done := 0.11; att_now := start + 0.11;
     att_leech := fun _ => None; att_leech_ev := no_events |}.

(** A mock camera that misses its first [k] triggers on pixel number 1 and
    answers all the others. *)
Definition mock_pixel (k : nat) (n : nat) : PixelEnv :=
  {| px_drift := (0, 0);
     px_attempt := fun failures =>
       if (n =? 1)%nat && (failures <? k)%nat
       then miss (100 * N2Q n + 10 * N2Q failures)
       else hit (100 * N2Q n + 10 * N2Q failures) |}.

(** A 2 x 2 acquisition with an exposure of 0.1 s, no leech, and that camera. *)
Definition mock_config (k : nat) : Config :=
  {| settings := example_settings;
     useScanStage := false;
     rep_time := 0.1;
     sem_time := 0.1;
     translation_clip := fun p => p;
     leeches := [];
     dc_raw := [];
     pixel := mock_pixel k |}.

(** A scan stage of range [-5e-3, 5e-3] on both axes, 1 mm off its centre;
    with a field of view of 0.1 m the whole ROI does not fit. *)
Definition example_stage : ScanStage :=
  {| range_x := (-0.005, 0.005); range_y := (-0.005, 0.005);
     position := (0.001, 0) |}.

Definition stage_config : Config :=
  {| settings := {| repetition := (2%positive, 2%positive); roi := (0, 0, 1, 1);
                    emitter_shape := (100%Z, 100%Z);
                    emitter_pixelSize := (0.001, 0.001) |};
     useScanStage := true;
     rep_time := 0.1;
     sem_time := 0.1;
     translation_clip := fun p => p;
     leeches := [];
     dc_raw := [];
     pixel := mock_pixel 0 |}.

Definition stage_engine : Engine := set_sstage (Some example_stage) example_engine.

(** Settings whose field of view (4 mm) fits in the range of [example_stage]. *)
Definition small_fov_settings : Settings :=
  {| repetition := (2%positive, 2%positive); roi := (0, 0, 1, 1);
     emitter_shape := (4%Z, 4%Z); emitter_pixelSize := (0.001, 0.001) |}.

(** The 2 x 2 acquisition with the scan stage over that field of view; the
    camera misses its first trigger on pixel number 1. *)
Definition small_stage_config : Config :=
  {| settings := small_fov_settings;
     useScanStage := true;
     rep_time := 0.1;
     sem_time := 0.1;
     translation_clip := fun p => p;
     leeches := [];
     dc_raw := [];
     pixel := mock_pixel 1 |}.

(** Sums over a list. *)
Definition Zsum (l : list Z) : Z := fold_right Z.add 0%Z l.
Definition Qsum (l : list Q) : Q := fold_right Qplus 0 l.

(** Pixel [i] of a frame, and its dwell time (0 when the metadata has none). *)
Definition pixel_of (i : nat) (d : DataArray) : Z := nth i (values d) 0%Z.
Definition dwell_of (d : DataArray) : Q := default 0 (MD_DWELL_TIME (metadata d)).

(** A pass before which no callback runs and during which the user cancels
    while the worker waits for the camera, or before it looks at the outcome
    of the wait. *)
Definition cancelled_pass (att : Attempt) : Prop :=
  att_before att = [] /\
  no_cancel (att_wait att ++ att_late att) = false.

(** A pass before which no callback runs, in which nobody cancels and the
    camera answers in time and not too early, but the SEM gives nothing valid
    before the wait on its event ends. *)
Definition sem_silent (c : Config) (att : Attempt) : Prop :=
  att_before att = [] /\
  no_cancel (att_wait att) = true /\ no_cancel (att_late att) = true /\
  no_cancel (att_sem att 0) = true /\
  rep_time c * 0.95 <= att_dur att /\
  is_Some (accepted 1 (att_start att) (att_wait att)) /\
  accepted 0 (att_start att) (att_wait att ++ att_late att ++ att_sem att 0) = None.

(** The user cancels while the worker waits for the camera. *)
Definition cancelled (start : Q) : Attempt :=
  {| att_before := []; att_start := start; att_wait := [EvCancel]; att_late := []; att_dur := 0.05;
     att_sem := no_events; att_dur_done := 0.05; att_now := start + 0.05;
     att_leech := fun _ => None; att_leech_ev := no_events |}.

(** The camera answers the trigger, the SEM does not. *)
Definition camera_only (start : Q) : Attempt :=
  {| att_before := []; att_start := start;
     att_wait := [EvData 1 (sample (start + 0.1) 2)];
     att_late := []; att_dur := 0.11;
     att_sem := no_events; att_dur_done := 0.11; att_now := start + 0.11;
     att_leech := fun _ => None; att_leech_ev := no_events |}.

(** The 2 x 2 acquisition of [mock_config] in which every pass on pixel
    number 1 goes as [bad] and the other pixels are acquired at once. *)
Definition mock_config_with (bad : Attempt) : Config :=
  {| settings := example_settings;
     useScanStage := false;
     rep_time := 0.1;
     sem_time := 0.1;
     translation_clip := fun p => p;
     leeches := [];
     dc_raw := [];
     pixel := fun n => if (n =? 1)%nat
                       then {| px_drift := (0, 0); px_attempt := fun _ => bad |}
                       else mock_pixel 0 n |}.

(** The pass after a time-out: the frame of the missed trigger, acquired 1 s
    before, reaches the callback of the camera once the camera is subscribed
    again, before the pass starts; then the SEM and the camera answer the
    trigger of the pass. *)
Definition late_frame (start : Q) : Attempt :=
  {| att_before := [EvData 1 (sample (start - 1) 9)]; att_start := start;
     att_wait := [EvData 0 (sample (start + 0.1) 1); EvData 1 (sample (start + 0.1) 2)];
     att_late := []; att_dur := 0.11;
     att_sem := no_events; att_dur_done := 0.11; att_now := start + 0.11;
     att_leech := fun _ => None; att_leech_ev := no_events |}.

(** The 2 x 2 acquisition of [mock_config] in which the camera misses the
    first trigger on pixel number 1 and its frame comes late. *)
Definition late_config : Config :=
  {| settings := example_settings;
     useScanStage := false;
     rep_time := 0.1;
     sem_time := 0.1;
     translation_clip := fun p => p;
     leeches := [];
     dc_raw := [];
     pixel := fun n =>
       if (n =? 1)%nat
       then {| px_drift := (0, 0);
               px_attempt := fun failures =>
                 if (failures =? 0)%nat then miss 100 else late_frame 110 |}
       else mock_pixel 0 n |}.

(** A camera with an exposure time of 1 s, read in 10 ms. *)
Definition example_camera : SEMCCDMDStream.Camera :=
  {| SEMCCDMDStream.exposureTime := 1;
     SEMCCDMDStream.ccd_resolution := (1%positive, 1%positive);
     SEMCCDMDStream.readoutRate := 100 |}.

(** A spectrum of three channels. *)
Definition example_spectrum (k : Z) : DataArray :=
  {| shape := [1%nat; 3%nat]; values := [k; (10 + k)%Z; (20 + k)%Z];
     metadata := example_md (1, 1) |}.

(** ** What the worker asks of the stage and of the e-beam *)

(** The ranges of the axes of the scan stage of the engine. *)
Definition stage_ranges (e : Engine) : option ((Q * Q) * (Q * Q)) :=
  option_map (fun st => (range_x st, range_y st)) (_sstage e).

(** A call that is allowed when the moves of the stage have to satisfy [Pm]
    and the translations of the e-beam [Pt]; the other calls always are. *)
Definition allowed (Pm : option Q -> option Q -> Prop) (Pt : Q * Q -> Prop)
    (a : Action) : Prop :=
  match a with
  | MoveAbs x y => Pm x y
  | SetTranslation p => Pt p
  | _ => True
  end.

(** A change of the engine that only adds calls satisfying [ok] to the trace
    and keeps the ranges of the stage. *)
Definition quiet (ok : Action -> Prop) (f : Engine -> Engine) : Prop :=
  forall e, (exists l, trace (f e) = trace e ++ l /\ Forall ok l) /\
            stage_ranges (f e) = stage_ranges e.

(** The same for a piece of the worker, however it ends. *)
Definition steady (ok : Action -> Prop) {A : Type} (m : M A) : Prop :=
  forall e, match m e with
            | Next _ e' | Throw _ e' =>
              (exists l, trace e' = trace e ++ l /\ Forall ok l) /\
              stage_ranges e' = stage_ranges e
            | OutOfFuel => True
            end.

(** A target of a move of the stage within the ranges of its axes; an axis
    that is not moved has no target. *)
Definition target_in_range (rx ry : Q * Q) (x y : option Q) : Prop :=
  (forall v, x = Some v -> fst rx <= v /\ v <= snd rx) /\
  (forall v, y = Some v -> fst ry <= v /\ v <= snd ry).

(** ** The worker of the time-correlator stream ([ScannedRemoteTCStream]) *)

Module TCAcquisition.

(** The fields of the stream that the worker and the callbacks use. *)
Record TC : Type := {
  _acq_state : AcqState;
  _acq_done : bool;                 (* threading.Event, [true] when set *)
  _frame_done : bool;               (* threading.Event, [true] when set *)
  _new_acquisition : bool;
  _data_queue : list DataArray;     (* the frames put in the queue, oldest first *)
  frame_thread_started : bool;      (* [self._frame_thread] has been started *)
  pdetector_subscribed : bool;      (* [_onNewData] on [self._pdetector.data] *)
  time_correlator_subscribed : bool;(* [_onAcqStop] on [self._time_correlator.data] *)
  emissions : list Q;               (* [self._emitter.emissions.value] *)
  hw_linked : bool                  (* [self._stream._linkHwVAs()] in force *)
}.

Definition set_acq_state (v : AcqState) (t : TC) : TC :=
  {| _acq_state := v; _acq_done := _acq_done t; _frame_done := _frame_done t;
     _new_acquisition := _new_acquisition t; _data_queue := _data_queue t;
     frame_thread_started := frame_thread_started t;
     pdetector_subscribed := pdetector_subscribed t;
     time_correlator_subscribed := time_correlator_subscribed t;
     emissions := emissions t; hw_linked := hw_linked t |}.
Definition set_acq_done (v : bool) (t : TC) : TC :=
  {| _acq_state := _acq_state t; _acq_done := v; _frame_done := _frame_done t;
     _new_acquisition := _new_acquisition t; _data_queue := _data_queue t;
     frame_thread_started := frame_thread_started t;
     pdetector_subscribed := pdetector_subscribed t;
     time_correlator_subscribed := time_correlator_subscribed t;
     emissions := emissions t; hw_linked := hw_linked t |}.
Definition set_frame_done (v : bool) (t : TC) : TC :=
  {| _acq_state := _acq_state t; _acq_done := _acq_done t; _frame_done := v;
     _new_acquisition := _new_acquisition t; _data_queue := _data_queue t;
     frame_thread_started := frame_thread_started t;
     pdetector_subscribed := pdetector_subscribed t;
     time_correlator_subscribed := time_correlator_subscribed t;
     emissions := emissions t; hw_linked := hw_linked t |}.
Definition set_new_acquisition (v : bool) (t : TC) : TC :=
  {| _acq_state := _acq_state t; _acq_done := _acq_done t; _frame_done := _frame_done t;
     _new_acquisition := v; _data_queue := _data_queue t;
     frame_thread_started := frame_thread_started t;
     pdetector_subscribed := pdetector_subscribed t;
     time_correlator_subscribed := time_correlator_subscribed t;
     emissions := emissions t; hw_linked := hw_linked t |}.
Definition set_data_queue (v : list DataArray) (t : TC) : TC :=
  {| _acq_state := _acq_state t; _acq_done := _acq_done t; _frame_done := _frame_done t;
     _new_acquisition := _new_acquisition t; _data_queue := v;
     frame_thread_started := frame_thread_started t;
     pdetector_subscribed := pdetector_subscribed t;
     time_correlator_subscribed := time_correlator_subscribed t;
     emissions := emissions t; hw_linked := hw_linked t |}.
Definition set_frame_thread_started (v : bool) (t : TC) : TC :=
  {| _acq_state := _acq_state t; _acq_done := _acq_done t; _frame_done := _frame_done t;
     _new_acquisition := _new_acquisition t; _data_queue := _data_queue t;
     frame_thread_started := v;
     pdetector_subscribed := pdetector_subscribed t;
     time_correlator_subscribed := time_correlator_subscribed t;
     emissions := emissions t; hw_linked := hw_linked t |}.
Definition set_pdetector_subscribed (v : bool) (t : TC) : TC :=
  {| _acq_state := _acq_state t; _acq_done := _acq_done t; _frame_done := _frame_done t;
     _new_acquisition := _new_acquisition t; _data_queue := _data_queue t;
     frame_thread_started := frame_thread_started t;
     pdetector_subscribed := v;
     time_correlator_subscribed := time_correlator_subscribed t;
     emissions := emissions t; hw_linked := hw_linked t |}.
Definition set_time_correlator_subscribed (v : bool) (t : TC) : TC :=
  {| _acq_state := _acq_state t; _acq_done := _acq_done t; _frame_done := _frame_done t;
     _new_acquisition := _new_acquisition t; _data_queue := _data_queue t;
     frame_thread_started := frame_thread_started t;
     pdetector_subscribed := pdetector_subscribed t;
     time_correlator_subscribed := v;
     emissions := emissions t; hw_linked := hw_linked t |}.
Definition set_hw_linked (v : bool) (t : TC) : TC :=
  {| _acq_state := _acq_state t; _acq_done := _acq_done t; _frame_done := _frame_done t;
     _new_acquisition := _new_acquisition t; _data_queue := _data_queue t;
     frame_thread_started := frame_thread_started t;
     pdetector_subscribed := pdetector_subscribed t;
     time_correlator_subscribed := time_correlator_subscribed t;
     emissions := emissions t; hw_linked := v |}.

(** [_setEmission(value)]: every light emission gets the value. *)
Definition _setEmission (value : Q) (t : TC) : TC :=
  {| _acq_state := _acq_state t; _acq_done := _acq_done t; _frame_done := _frame_done t;
     _new_acquisition := _new_acquisition t; _data_queue := _data_queue t;
     frame_thread_started := frame_thread_started t;
     pdetector_subscribed := pdetector_subscribed t;
     time_correlator_subscribed := time_correlator_subscribed t;
     emissions := map (fun _ => value) (emissions t); hw_linked := hw_linked t |}.

(** [_onNewData(dataflow, data)]: the frame is queued and the worker woken. *)
Definition _onNewData (data : DataArray) (t : TC) : TC :=
  let t := set_data_queue (_data_queue t ++ [data]) t in
  set_frame_done true t.

(** [_cancelAcquisition(future)]: the value returned and the stream.  The
    two [join(5)] at the end wait at most 5 s and change nothing. *)
Definition _cancelAcquisition (t : TC) : bool * TC :=
  if AcqState_eqb (_acq_state t) FINISHED then (false, t)
  else
    let t := set_acq_state CANCELLED t in
    let t := set_acq_done true t in
    let t := set_frame_done true t in
    (true, t).

(** What the other threads do while the worker runs: the detector delivers a
    frame to its subscribers, or the caller cancels the future. *)
Inductive TCEvent : Type :=
| NewData (data : DataArray)
| Cancel.

Definition deliver (ev : TCEvent) (t : TC) : TC :=
  match ev with
  | NewData data => if pdetector_subscribed t then _onNewData data t else t
  | Cancel => snd (_cancelAcquisition t)
  end.

Definition deliver_all (evs : list TCEvent) (t : TC) : TC :=
  fold_left (fun t ev => deliver ev t) evs t.

(** The events around one pass of the loop over the frames: before the test
    of [_acq_done], between that test and [_frame_done.clear()], and from
    there to the end of [_frame_done.wait()] (none: the wait times out). *)
Record FrameEnv : Type := {
  fr_before : list TCEvent;
  fr_race : list TCEvent;
  fr_wait : list TCEvent
}.

(** The events of a whole run: before [_acq_done.clear()], from there to the
    subscription of the detector, and around every frame.  Nothing arrives
    once the loop over the frames is left. *)
Record Env : Type := {
  ev_start : list TCEvent;
  ev_setup : list TCEvent;
  frame_env : nat -> FrameEnv
}.

(** The exceptions that can leave the worker. *)
Inductive Raised : Type :=
| Cancelled                         (* CancelledError("Acquisition canceled") *)
| FrameTimeout                      (* IOError("Timed out waiting for frame ...") *)
| HardwareError (ex : exn)          (* raised by [_prepareHardware] *)
| JoinNotStarted.                   (* RuntimeError of [Thread.join] on a thread
                                       that was never started *)

(** [for i in range(nfr)]: frames [i], [i + 1], ... ([n] of them). *)
Fixpoint frame_loop (env : Env) (i n : nat) (t : TC) : option Raised * TC :=
  match n with
  | O => (None, t)
  | S n' =>
    let fe := frame_env env i in
    let t := deliver_all (fr_before fe) t in
    if _acq_done t then (Some Cancelled, t)
    else
      let t := deliver_all (fr_race fe) t in
      let t := set_frame_done false t in
      let t := deliver_all (fr_wait fe) t in
      if negb (_frame_done t) then (Some FrameTimeout, t)
      else frame_loop env (S i) n' t
  end.

(** The [finally] clause: [join] raises when the thread was not started, and
    the rest of the clause is then skipped. *)
Definition finally (r : option Raised) (t : TC) : option Raised * TC :=
  let t := set_acq_done true t in
  if negb (frame_thread_started t) then (Some JoinNotStarted, t)
  else
    let t := set_hw_linked false t in
    let t := set_acq_state FINISHED t in
    let t := set_pdetector_subscribed false t in
    let t := set_time_correlator_subscribed false t in
    let t := _setEmission 0 t in
    (r, t).

(** [_runAcquisition(future)]: the exception raised, if any, and the stream
    at the end.  [sc] is the scanner at the start. *)
Definition _runAcquisition (rep : positive * positive) (roi : Q * Q * Q * Q)
    (total : Q) (sc : ScannedRemoteTCStream.Scanner) (env : Env) (t : TC)
  : option Raised * TC :=
  let t := set_frame_thread_started false t in   (* a new Thread object *)
  let t := deliver_all (ev_start env) t in
  let t := set_new_acquisition true t in
  let t := set_acq_done false t in
  match ScannedRemoteTCStream._prepareHardware rep roi total sc with
  | Raise ex => finally (Some (HardwareError ex)) t
  | Ok (_, nfr, _) =>
    let t := deliver_all (ev_setup env) t in
    let t := set_time_correlator_subscribed true t in
    let t := _setEmission 1 t in
    let t := set_pdetector_subscribed true t in
    let t := set_new_acquisition true t in
    let t := set_frame_thread_started true t in
    let '(r, t) := frame_loop env 0 (Z.to_nat nfr) t in
    let t := match r with
             | Some Cancelled => set_acq_state CANCELLED t   (* except CancelledError *)
             | _ => t
             end in
    finally r t
  end.

(** The frames of a list of events, and whether the caller cancels in it. *)
Definition frames_of (evs : list TCEvent) : list DataArray :=
  flat_map (fun ev => match ev with NewData d => [d] | Cancel => [] end) evs.

Definition has_cancel (evs : list TCEvent) : bool :=
  existsb (fun ev => match ev with Cancel => true | NewData _ => false end) evs.

(** All the events around frame [i], and around the first [n] frames. *)
Definition frame_events (env : Env) (i : nat) : list TCEvent :=
  fr_before (frame_env env i) ++ fr_race (frame_env env i) ++ fr_wait (frame_env env i).

Definition events_upto (env : Env) (n : nat) : list TCEvent :=
  flat_map (frame_events env) (seq 0 n).

(** The events between [_acq_done.clear()] and the test of [_acq_done] made
    for frame [i]. *)
Definition events_before_test (env : Env) (i : nat) : list TCEvent :=
  ev_setup env ++ events_upto env i ++ fr_before (frame_env env i).

(** Frame [i] goes well: nobody has cancelled when [_acq_done] is tested, and
    something happens before the wait times out. *)
Definition frame_goes_well (env : Env) (i : nat) : Prop :=
  has_cancel (events_before_test env i) = false /\ fr_wait (frame_env env i) <> [].

End TCAcquisition.

(** A stream that has just been given to [acquire()], and a scanner. *)
Definition example_tc : TCAcquisition.TC :=
  {| TCAcquisition._acq_state := RUNNING; TCAcquisition._acq_done := false;
     TCAcquisition._frame_done := false; TCAcquisition._new_acquisition := false;
     TCAcquisition._data_queue := [];
     TCAcquisition.frame_thread_started := false;
     TCAcquisition.pdetector_subscribed := false;
     TCAcquisition.time_correlator_subscribed := false;
     TCAcquisition.emissions := [0; 0]; TCAcquisition.hw_linked := true |}.

(** The detector gives one frame during every wait. *)
Definition frame_per_wait : TCAcquisition.FrameEnv :=
  {| TCAcquisition.fr_before := []; TCAcquisition.fr_race := [];
     TCAcquisition.fr_wait := [TCAcquisition.NewData (const_frame [1%nat; 1%nat] 1 0.5)] |}.

(** A run in which the caller cancels during the wait for frame [k]. *)
Definition cancel_at (k : nat) : TCAcquisition.Env :=
  {| TCAcquisition.ev_start := []; TCAcquisition.ev_setup := [];
     TCAcquisition.frame_env := fun i =>
       if (i =? k)%nat
       then {| TCAcquisition.fr_before := []; TCAcquisition.fr_race := [];
               TCAcquisition.fr_wait := [TCAcquisition.Cancel] |}
       else frame_per_wait |}.

(** * Properties *)

Import MultipleDetectorStream.

(** Split a conjunction without going under an implication. *)
Ltac split_all :=
  repeat match goal with
         | |- _ /\ _ => split
         end.

(** ** Binary64 *)

Lemma pow2_pos (e : Z) : 0 < 2 ^ e.
Proof. apply Qpower_0_lt. reflexivity. Qed.

Lemma pow2_Z (k : Z) : (0 <= k)%Z -> inject_Z (2 ^ k) == 2 ^ k.
Proof. intros H. rewrite Zpower_Qpower by exact H. reflexivity. Qed.

Lemma pow2_mono (a b : Z) : (a <= b)%Z -> 2 ^ a <= 2 ^ b.
Proof. intros H. apply Qpower_le_compat_l; [exact H | discriminate]. Qed.

Lemma pow2_plus (a b : Z) : 2 ^ (a + b) == 2 ^ a * 2 ^ b.
Proof. apply Qpower_plus. discriminate. Qed.

Lemma Qlog2_spec (x : Q) : 0 < x -> 2 ^ Qlog2 x <= x /\ x < 2 ^ (Qlog2 x + 1).
Proof.
  intros Hx. unfold Qlog2. destruct (Qle_bool 1 x) eqn:E.
  - apply Qle_bool_iff in E.
    assert (Hf : (1 <= Qfloor x)%Z).
    { change 1%Z with (Qfloor (inject_Z 1)). apply Qfloor_resp_le. exact E. }
    destruct (Z.log2_spec (Qfloor x) ltac:(lia)) as [L1 L2].
    pose proof (Z.log2_nonneg (Qfloor x)) as L0.
    split.
    + rewrite <- pow2_Z by exact L0.
      apply Qle_trans with (inject_Z (Qfloor x)); [| apply Qfloor_le].
      rewrite <- Zle_Qle. exact L1.
    + apply Qlt_le_trans with (inject_Z (Qfloor x + 1)); [apply Qlt_floor |].
      rewrite <- pow2_Z by lia. rewrite <- Zle_Qle. lia.
  - assert (Hlt : x < 1).
    { apply Qnot_le_lt. intros H. apply Qle_bool_iff in H. congruence. }
    set (y := / x).
    assert (Hy : 1 < y).
    { unfold y. apply Qlt_shift_inv_l; [exact Hx |]. lra. }
    assert (Hxy : x * y == 1).
    { unfold y. apply Qmult_inv_r. lra. }
    set (c := Qceiling y).
    assert (Hc : (1 < c)%Z).
    { pose proof (Qle_ceiling y) as H. fold c in H.
      rewrite Zlt_Qlt. change (inject_Z 1) with 1. lra. }
    destruct (Z.log2_up_spec c Hc) as [L1 L2].
    pose proof (Z.log2_up_pos c Hc) as L0.
    set (L := Z.log2_up c) in *.
    assert (Hup : y <= 2 ^ L).
    { apply Qle_trans with (inject_Z c); [apply Qle_ceiling |].
      rewrite <- pow2_Z by lia. rewrite <- Zle_Qle. exact L2. }
    assert (Hlo : 2 ^ (L - 1) < y).
    { apply Qle_lt_trans with (inject_Z (c - 1)); [| apply Qceiling_lt].
      rewrite <- (pow2_Z (L - 1)) by lia. rewrite <- Zle_Qle.
      replace (Z.pred L) with (L - 1)%Z in L1 by lia. lia. }
    pose proof (pow2_pos L) as P1. pose proof (pow2_pos (L - 1)) as P2.
    pose proof (pow2_pos (- L)) as P3. pose proof (pow2_pos (- L + 1)) as P4.
    assert (E1 : 2 ^ (- L) * 2 ^ L == 1).
    { rewrite <- pow2_plus. replace (- L + L)%Z with 0%Z by lia. reflexivity. }
    assert (E2 : 2 ^ (- L + 1) * 2 ^ (L - 1) == 1).
    { rewrite <- pow2_plus. replace (- L + 1 + (L - 1))%Z with 0%Z by lia. reflexivity. }
    split.
    + (* 2^-L <= x : from x*y = 1, y <= 2^L *)
      apply Qnot_lt_le. intros H.
      assert (x * y < 2 ^ (- L) * 2 ^ L).
      { apply Qle_lt_trans with (x * 2 ^ L).
        - apply Qmult_le_l; [exact Hx | exact Hup].
        - apply Qmult_lt_r; [exact P1 | exact H]. }
      lra.
    + apply Qnot_le_lt. intros H.
      assert (2 ^ (- L + 1) * 2 ^ (L - 1) < x * y).
      { apply Qle_lt_trans with (x * 2 ^ (L - 1)).
        - apply Qmult_le_r; [exact P2 | exact H].
        - apply Qmult_lt_l; [exact Hx | exact Hlo]. }
      lra.
Qed.

Lemma Qlog2_mono (x y : Q) : 0 < x -> x <= y -> (Qlog2 x <= Qlog2 y)%Z.
Proof.
  intros Hx Hxy.
  destruct (Qlog2_spec x Hx) as [A _].
  destruct (Qlog2_spec y ltac:(lra)) as [_ B].
  assert (H : 2 ^ Qlog2 x < 2 ^ (Qlog2 y + 1)) by lra.
  apply Qpower_lt_compat_l_inv in H; [lia | reflexivity].
Qed.

Lemma Qrint_bounds (x : Q) : (Qfloor x <= Qrint x <= Qfloor x + 1)%Z.
Proof.
  unfold Qrint. destruct (Qcompare _ _); [destruct (Z.even _) | |]; lia.
Qed.

Lemma Qrint_Z (k : Z) : Qrint (inject_Z k) = k.
Proof.
  unfold Qrint. rewrite Qfloor_Z.
  destruct (Qcompare_spec (inject_Z k - inject_Z k) (1 # 2)) as [E | E | E];
    [exfalso; lra | reflexivity | exfalso; lra].
Qed.

Lemma Qrint_mono (x y : Q) : x <= y -> (Qrint x <= Qrint y)%Z.
Proof.
  intros Hxy. pose proof (Qfloor_resp_le _ _ Hxy) as Hf.
  pose proof (Qrint_bounds x) as Bx. pose proof (Qrint_bounds y) as By.
  destruct (Z.eq_dec (Qfloor x) (Qfloor y)) as [E | N]; [| lia].
  unfold Qrint in *. rewrite <- E in *.
  destruct (Qcompare_spec (x - inject_Z (Qfloor x)) (1 # 2)) as [X | X | X];
    destruct (Qcompare_spec (y - inject_Z (Qfloor x)) (1 # 2)) as [Y | Y | Y];
    try destruct (Z.even (Qfloor x)); try lia; exfalso; lra.
Qed.

Lemma Qrint_comp (x y : Q) : x == y -> Qrint x = Qrint y.
Proof.
  intros E. apply Z.le_antisymm; apply Qrint_mono; rewrite E; apply Qle_refl.
Qed.

Lemma Qrint_le_Z (x : Q) (k : Z) : x <= inject_Z k -> (Qrint x <= k)%Z.
Proof. intros H. rewrite <- (Qrint_Z k). apply Qrint_mono. exact H. Qed.

Lemma Qrint_ge_Z (x : Q) (k : Z) : inject_Z k <= x -> (k <= Qrint x)%Z.
Proof. intros H. rewrite <- (Qrint_Z k) at 1. apply Qrint_mono. exact H. Qed.

Lemma f64_pos_eq (x : Q) :
  0 < x ->
  f64 x = if Qle_bool (2 ^ 1024) (inject_Z (f64_sig x) * 2 ^ f64_exp x) then None
          else Some (inject_Z (f64_sig x) * 2 ^ f64_exp x).
Proof.
  intros Hx. unfold f64.
  assert (E0 : Qeq_bool x 0 = false).
  { destruct (Qeq_bool x 0) eqn:E; [| reflexivity]. apply Qeq_bool_iff in E. lra. }
  rewrite E0. cbv zeta.
  assert (Ea : Qabs x = x).
  { destruct x as [n d]. unfold Qlt in Hx. simpl in Hx.
    unfold Qabs. destruct n; try lia; reflexivity. }
  rewrite Ea. fold (f64_exp x). fold (f64_sig x).
  assert (E1 : Qle_bool 0 x = true) by (apply Qle_bool_iff; lra).
  rewrite E1. reflexivity.
Qed.

Lemma f64_sig_upper (x : Q) : 0 < x -> (f64_sig x <= 2 ^ 53)%Z.
Proof.
  intros Hx. unfold f64_sig. apply Qrint_le_Z.
  rewrite pow2_Z by lia.
  destruct (Qlog2_spec x Hx) as [_ B].
  pose proof (pow2_pos (f64_exp x)) as P.
  apply Qle_shift_div_r; [exact P |].
  rewrite <- pow2_plus.
  apply Qle_trans with (2 ^ (Qlog2 x + 1)); [lra |].
  apply pow2_mono. unfold f64_exp. lia.
Qed.

Lemma f64_sig_lower (x : Q) :
  0 < x -> (- 1074 <= Qlog2 x - 52)%Z -> (2 ^ 52 <= f64_sig x)%Z.
Proof.
  intros Hx Hn. unfold f64_sig. apply Qrint_ge_Z.
  rewrite pow2_Z by lia.
  destruct (Qlog2_spec x Hx) as [A _].
  pose proof (pow2_pos (f64_exp x)) as P.
  apply Qle_shift_div_l; [exact P |].
  rewrite <- pow2_plus.
  apply Qle_trans with (2 ^ Qlog2 x); [| exact A].
  apply pow2_mono. unfold f64_exp. lia.
Qed.

Lemma f64_sig_nonneg (x : Q) : 0 < x -> (0 <= f64_sig x)%Z.
Proof.
  intros Hx. unfold f64_sig. apply Qrint_ge_Z. change (inject_Z 0) with 0.
  apply Qle_shift_div_l; [apply pow2_pos | lra].
Qed.

(** Rounding is monotone on the positive numbers. *)
Lemma f64_value_mono (x y : Q) :
  0 < x -> x <= y ->
  inject_Z (f64_sig x) * 2 ^ f64_exp x <= inject_Z (f64_sig y) * 2 ^ f64_exp y.
Proof.
  intros Hx Hxy. assert (Hy : 0 < y) by lra.
  pose proof (Qlog2_mono x y Hx Hxy) as Hl.
  pose proof (pow2_pos (f64_exp x)) as Px. pose proof (pow2_pos (f64_exp y)) as Py.
  destruct (Z.eq_dec (f64_exp x) (f64_exp y)) as [E | N].
  - rewrite <- E. apply Qmult_le_compat_r; [| lra].
    rewrite <- Zle_Qle. unfold f64_sig. rewrite <- E. apply Qrint_mono.
    apply Qmult_le_compat_r; [exact Hxy |]. apply Qinv_le_0_compat. lra.
  - assert (Hlt : (f64_exp x < f64_exp y)%Z) by (unfold f64_exp in *; lia).
    assert (Hny : (- 1074 <= Qlog2 y - 52)%Z) by (unfold f64_exp in *; lia).
    pose proof (f64_sig_upper x Hx) as U.
    pose proof (f64_sig_lower y Hy Hny) as L.
    apply Qle_trans with (2 ^ 53 * 2 ^ f64_exp x).
    + apply Qmult_le_compat_r; [| lra].
      rewrite <- pow2_Z by lia. rewrite <- Zle_Qle. exact U.
    + apply Qle_trans with (2 ^ 52 * 2 ^ f64_exp y).
      * rewrite <- !pow2_plus. apply pow2_mono. lia.
      * apply Qmult_le_compat_r; [| lra].
        rewrite <- pow2_Z by lia. rewrite <- Zle_Qle. exact L.
Qed.

Lemma f64_mono (x y ry : Q) :
  0 < x -> x <= y -> f64 y = Some ry ->
  exists rx, f64 x = Some rx /\ 0 <= rx /\ rx <= ry.
Proof.
  intros Hx Hxy Hry. assert (Hy : 0 < y) by lra.
  rewrite (f64_pos_eq y Hy) in Hry. rewrite (f64_pos_eq x Hx).
  pose proof (f64_value_mono x y Hx Hxy) as Hm.
  destruct (Qle_bool (2 ^ 1024) (inject_Z (f64_sig y) * 2 ^ f64_exp y)) eqn:Ey;
    [discriminate Hry |].
  injection Hry as <-.
  destruct (Qle_bool (2 ^ 1024) (inject_Z (f64_sig x) * 2 ^ f64_exp x)) eqn:Ex.
  - exfalso. apply Qle_bool_iff in Ex.
    assert (H : Qle_bool (2 ^ 1024) (inject_Z (f64_sig y) * 2 ^ f64_exp y) = true).
    { apply Qle_bool_iff. lra. }
    congruence.
  - eexists. split; [reflexivity |]. split; [| exact Hm].
    apply Qmult_le_0_compat; [| apply Qlt_le_weak, pow2_pos].
    change 0 with (inject_Z 0). rewrite <- Zle_Qle. apply f64_sig_nonneg. exact Hx.
Qed.

(** The integers up to 2^53 are binary64 numbers. *)
Lemma f64_Z (k : Z) :
  (0 < k <= 2 ^ 53)%Z -> exists r, f64 (inject_Z k) = Some r /\ r == inject_Z k.
Proof.
  intros Hk.
  assert (Hx : 0 < inject_Z k).
  { change 0 with (inject_Z 0). rewrite <- Zlt_Qlt. lia. }
  rewrite (f64_pos_eq _ Hx).
  assert (Hl : Qlog2 (inject_Z k) = Z.log2 k).
  { unfold Qlog2.
    assert (E : Qle_bool 1 (inject_Z k) = true).
    { apply Qle_bool_iff. change 1 with (inject_Z 1). rewrite <- Zle_Qle. lia. }
    rewrite E, Qfloor_Z. reflexivity. }
  destruct (Z.log2_spec k ltac:(lia)) as [L1 L2].
  pose proof (Z.log2_nonneg k) as L0.
  assert (L53 : (Z.log2 k <= 53)%Z).
  { destruct (Z.le_gt_cases (Z.log2 k) 53) as [H | H]; [exact H |].
    exfalso. assert (2 ^ 54 <= 2 ^ Z.log2 k)%Z by (apply Z.pow_le_mono_r; lia). lia. }
  set (e := f64_exp (inject_Z k)).
  assert (He : e = (Z.log2 k - 52)%Z) by (unfold e, f64_exp; rewrite Hl; lia).
  assert (Hv : inject_Z (f64_sig (inject_Z k)) * 2 ^ e == inject_Z k).
  { unfold f64_sig. fold e.
    destruct (Z.le_gt_cases e 0) as [Hle | Hgt].
    - assert (E : inject_Z k / 2 ^ e == inject_Z (k * 2 ^ (- e))).
      { rewrite inject_Z_mult, pow2_Z by lia. rewrite Qpower_opp. reflexivity. }
      rewrite (Qrint_comp _ _ E), Qrint_Z.
      rewrite inject_Z_mult, pow2_Z by lia.
      rewrite <- Qmult_assoc, <- pow2_plus.
      replace (- e + e)%Z with 0%Z by lia. change (2 ^ 0) with 1. ring.
    - assert (Hk53 : k = (2 ^ 53)%Z).
      { assert (2 ^ 53 <= 2 ^ Z.log2 k)%Z by (apply Z.pow_le_mono_r; lia). lia. }
      unfold e, f64_exp. rewrite Hl. subst k. vm_compute. reflexivity. }
  assert (Hb : Qle_bool (2 ^ 1024) (inject_Z (f64_sig (inject_Z k)) * 2 ^ e) = false).
  { destruct (Qle_bool _ _) eqn:E; [| reflexivity]. exfalso.
    apply Qle_bool_iff in E. rewrite Hv in E.
    assert (H : inject_Z k <= 2 ^ 53).
    { rewrite <- pow2_Z by lia. rewrite <- Zle_Qle. lia. }
    assert (H' : 2 ^ 53 < 2 ^ 1024) by (apply Qpower_lt_compat_l; [lia | reflexivity]).
    lra. }
  rewrite Hb. eexists. split; [reflexivity | exact Hv].
Qed.

(** What the code relies on when it takes the ceiling of a rounded quotient:
    the result lies between the floor and the ceiling of the exact one. *)
Lemma f64_ceiling_bounds (q r : Q) :
  0 < q -> q <= 2 ^ 53 -> f64 q = Some r ->
  (Qfloor q <= Qceiling r <= Qceiling q)%Z.
Proof.
  intros Hq Hle Hr.
  assert (Hc : (0 < Qceiling q <= 2 ^ 53)%Z).
  { split.
    - rewrite Zlt_Qlt. apply Qlt_le_trans with q; [exact Hq | apply Qle_ceiling].
    - change (2 ^ 53)%Z with (Qceiling (inject_Z (2 ^ 53))).
      apply Qceiling_resp_le. rewrite pow2_Z by lia. exact Hle. }
  destruct (f64_Z _ Hc) as (rc & Erc & Hrc).
  destruct (f64_mono q _ rc Hq (Qle_ceiling q) Erc) as (r' & Er' & _ & Hle').
  rewrite Hr in Er'. injection Er' as <-.
  split.
  - destruct (Z.le_gt_cases (Qfloor q) 0) as [H0 | H0].
    + destruct (f64_mono q _ rc Hq (Qle_ceiling q) Erc) as (r' & Er' & Hnn & _).
      rewrite Hr in Er'. injection Er' as <-.
      apply Z.le_trans with 0%Z; [exact H0 |].
      change 0%Z with (Qceiling (inject_Z 0)). apply Qceiling_resp_le. exact Hnn.
    + assert (Hf : (0 < Qfloor q <= 2 ^ 53)%Z).
      { split; [exact H0 |]. pose proof (Qfloor_le q) as F.
        apply Z.le_trans with (Qceiling q); [| apply Hc].
        pose proof (Qle_ceiling q). rewrite Zle_Qle. lra. }
      destruct (f64_Z _ Hf) as (rf & Erf & Hrf).
      assert (Hfq : 0 < inject_Z (Qfloor q)).
      { change 0 with (inject_Z 0). rewrite <- Zlt_Qlt. exact H0. }
      destruct (f64_mono _ q r Hfq (Qfloor_le q) Hr) as (rf' & Erf' & _ & Hlf).
      rewrite Erf in Erf'. injection Erf' as <-.
      rewrite <- (Qceiling_Z (Qfloor q)). apply Qceiling_resp_le. lra.
  - rewrite <- (Qceiling_Z (Qceiling q)). apply Qceiling_resp_le. lra.
Qed.

Lemma f64_defined (q : Q) :
  0 < q -> q <= 2 ^ 53 -> exists r, f64 q = Some r /\ 0 <= r.
Proof.
  intros Hq Hle.
  assert (E53' : exists r, f64 (2 ^ 53) = Some r).
  { vm_compute. eexists. reflexivity. }
  destruct E53' as (r & Er).
  destruct (f64_mono q _ r Hq Hle Er) as (rq & Erq & Hnn & _).
  exists rq. split; assumption.
Qed.

Lemma f64_positive (q r : Q) :
  / 2 ^ 1022 <= q -> f64 q = Some r -> 0 < r.
Proof.
  intros Hq Hr.
  assert (Hq0 : 0 < q).
  { apply Qlt_le_trans with (/ 2 ^ 1022); [| exact Hq].
    apply Qinv_lt_0_compat. apply pow2_pos. }
  assert (Em : exists m, f64 (/ 2 ^ 1022) = Some m /\ 0 < m).
  { vm_compute. eexists. split; reflexivity. }
  destruct Em as (m & Em & Hm).
  assert (H0 : 0 < / 2 ^ 1022) by (apply Qinv_lt_0_compat; apply pow2_pos).
  destruct (f64_mono _ q r H0 Hq Hr) as (m' & Em' & _ & Hle).
  rewrite Em in Em'. injection Em' as <-. lra.
Qed.

(** ** Arithmetic helpers *)

Lemma N2Q_S (n : nat) : N2Q (S n) == N2Q n + 1.
Proof.
  unfold N2Q. rewrite Nat2Z.inj_succ, <- Z.add_1_r, inject_Z_plus. reflexivity.
Qed.

Lemma N2Q_nonneg (n : nat) : 0 <= N2Q n.
Proof.
  unfold N2Q. change 0 with (inject_Z 0). rewrite <- Zle_Qle. lia.
Qed.

Lemma P2Q_pos (p : positive) : 0 < P2Q p.
Proof.
  unfold P2Q. change 0 with (inject_Z 0). rewrite <- Zlt_Qlt. lia.
Qed.

Lemma P2Q_N2Q (p : positive) : P2Q p = N2Q (Pos.to_nat p).
Proof.
  unfold P2Q, N2Q. rewrite positive_nat_Z. reflexivity.
Qed.

Lemma Qeq_bool_false_neq (a b : Q) : Qeq_bool a b = false -> ~ a == b.
Proof. intros H E. apply Qeq_eq_bool in E. congruence. Qed.

Lemma Qlt_bool_iff (a b : Q) : Qlt_bool a b = true <-> a < b.
Proof.
  unfold Qlt_bool. rewrite negb_true_iff.
  destruct (Qle_bool b a) eqn:E.
  - apply Qle_bool_iff in E. split; [discriminate | intros H; exfalso; lra].
  - split; [intros _ | reflexivity].
    destruct (Qlt_le_dec a b) as [H | H]; [exact H |].
    apply Qle_bool_iff in H. congruence.
Qed.

(** ** [numpy.linspace] *)

Lemma linspace_length (a b : Q) (n : nat) : length (linspace a b n) = n.
Proof.
  destruct n as [| [| n]]; simpl; try reflexivity.
  rewrite length_map, length_seq. reflexivity.
Qed.

Lemma linspace_lookup (a b : Q) (n i : nat) :
  (i < n)%nat ->
  exists v, linspace a b n !! i = Some v /\
            ((n = 1%nat /\ v = a) \/
             ((2 <= n)%nat /\ v == a + N2Q i * ((b - a) / N2Q (n - 1)))).
Proof.
  intros Hi. destruct n as [| [| n]].
  - lia.
  - assert (i = 0%nat) by lia. subst. exists a. split; [reflexivity | left; auto].
  - unfold linspace.
    exists (a + N2Q i * ((b - a) / N2Q (S (S n) - 1))). split.
    + rewrite list_lookup_fmap, lookup_seq_lt by lia. reflexivity.
    + right. split; [lia | reflexivity].
Qed.

(** The samples of an interval inset by half a step are the centres of the
    steps, mapped to scanner coordinates. *)
Lemma centre_sample (S_ l r : Q) (p : positive) (x : nat) :
  (x < Pos.to_nat p)%nat ->
  let w := (r - l) / P2Q p in
  exists v,
    linspace (S_ * (l + w / 2 - 0.5)) (S_ * (r - w / 2 - 0.5)) (Pos.to_nat p) !! x = Some v /\
    v == S_ * ((l + w / 2 + N2Q x * w) - 0.5).
Proof.
  intros Hx w.
  destruct (linspace_lookup (S_ * (l + w / 2 - 0.5)) (S_ * (r - w / 2 - 0.5))
              (Pos.to_nat p) x Hx) as [v [Hv [[Hn ->] | [Hn Ev]]]].
  - exists (S_ * (l + w / 2 - 0.5)). split; [exact Hv |].
    assert (x = 0%nat) by lia. subst x. unfold N2Q. simpl. ring.
  - exists v. split; [exact Hv |]. rewrite Ev.
    assert (HP : P2Q p == N2Q (Pos.to_nat p - 1) + 1).
    { rewrite P2Q_N2Q. destruct (Pos.to_nat p) as [| k]; [lia |].
      rewrite N2Q_S. replace (S k - 1)%nat with k by lia. reflexivity. }
    assert (Hk : 0 < N2Q (Pos.to_nat p - 1)).
    { destruct (Pos.to_nat p) as [| [| k]]; try lia.
      replace (S (S k) - 1)%nat with (S k) by lia.
      rewrite N2Q_S. pose proof (N2Q_nonneg k). lra. }
    unfold w. rewrite HP. field. split; lra.
Qed.

(** ** The beam grid *)

Lemma lookup_map_pairs_l {A B : Type} (f : A -> B -> A * B) (la : list A) (lb : list B)
    (i j : nat) (a : A) (b : B) :
  la !! i = Some a -> lb !! j = Some b ->
  exists row, map (fun u => map (fun v => f u v) lb) la !! i = Some row /\
              row !! j = Some (f a b).
Proof.
  intros Ha Hb. exists (map (fun v => f a v) lb). split.
  - rewrite list_lookup_fmap, Ha. reflexivity.
  - rewrite list_lookup_fmap, Hb. reflexivity.
Qed.

(** C4.  For a ROI (l, t, r, b), a repetition (rx, ry) of positive integers
    and an emitter of shape (Sx, Sy), [_getSpotPositions] returns ry rows of
    rx points (Y is the first index, X the second); the point at row y,
    column x is the centre of pixel (x, y) of the ROI, u = l + w/2 + x w and
    v = t + h/2 + y h with w = (r - l)/rx and h = (b - t)/ry, mapped to the
    translation (Sx (u - 0.5), Sy (v - 0.5)); the last column and the last
    row sit half a pixel inside the right and bottom limits of the ROI. *)
Theorem getSpotPositions_pixel_centers
    (rx ry : positive) (l t r b : Q) (Sx Sy : Z) (epxs : Q * Q) (y x : nat) :
  let s := {| repetition := (rx, ry); roi := (l, t, r, b);
              emitter_shape := (Sx, Sy); emitter_pixelSize := epxs |} in
  let w := (r - l) / P2Q rx in
  let h := (b - t) / P2Q ry in
  let pos := _getSpotPositions s in
  (y < Pos.to_nat ry)%nat ->
  (x < Pos.to_nat rx)%nat ->
  length pos = Pos.to_nat ry /\
  Forall (fun row => length row = Pos.to_nat rx) pos /\
  (exists row tx ty,
      pos !! y = Some row /\ row !! x = Some (tx, ty) /\
      tx == Z2Q Sx * ((l + w / 2 + N2Q x * w) - 0.5) /\
      ty == Z2Q Sy * ((t + h / 2 + N2Q y * h) - 0.5)) /\
  l + w / 2 + N2Q (Pos.to_nat rx - 1) * w == r - w / 2 /\
  t + h / 2 + N2Q (Pos.to_nat ry - 1) * h == b - h / 2.
Proof.
  intros s w h pos Hy Hx.
  assert (Hpos : pos =
    map (fun ty => map (fun tx => (tx, ty))
           (linspace (Z2Q Sx * (l + w / 2 - 0.5)) (Z2Q Sx * (r - w / 2 - 0.5)) (Pos.to_nat rx)))
        (linspace (Z2Q Sy * (t + h / 2 - 0.5)) (Z2Q Sy * (b - h / 2 - 0.5)) (Pos.to_nat ry)))
    by reflexivity.
  assert (Hlast : forall (p : positive) (lo hi : Q),
             lo + (hi - lo) / P2Q p / 2 + N2Q (Pos.to_nat p - 1) * ((hi - lo) / P2Q p)
             == hi - (hi - lo) / P2Q p / 2).
  { intros p lo hi.
    assert (HP : P2Q p == N2Q (Pos.to_nat p - 1) + 1).
    { rewrite P2Q_N2Q. pose proof (Pos2Nat.is_pos p).
      destruct (Pos.to_nat p) as [| k]; [lia |].
      rewrite N2Q_S. replace (S k - 1)%nat with k by lia. reflexivity. }
    pose proof (N2Q_nonneg (Pos.to_nat p - 1)).
    rewrite HP. field. lra. }
  repeat split.
  - rewrite Hpos, length_map, linspace_length. reflexivity.
  - rewrite Hpos. apply Forall_forall. intros row Hin.
    apply list_elem_of_fmap in Hin. destruct Hin as [ty [-> _]].
    rewrite length_map, linspace_length. reflexivity.
  - destruct (centre_sample (Z2Q Sx) l r rx x Hx) as [tx [Htx Etx]].
    destruct (centre_sample (Z2Q Sy) t b ry y Hy) as [ty [Hty Ety]].
    destruct (lookup_map_pairs_l (fun v u => (u, v)) _ _ y x ty tx Hty Htx)
      as [row [Hrow Hcell]].
    exists row, tx, ty. rewrite Hpos. auto.
  - apply Hlast.
  - apply Hlast.
Qed.

Lemma getSpotPositions_pixel_centers_witness :
  let s := {| repetition := (2%positive, 2%positive); roi := (0, 0, 1, 1);
              emitter_shape := (512%Z, 512%Z); emitter_pixelSize := (1, 1) |} in
  exists row tx ty,
    _getSpotPositions s !! 1%nat = Some row /\ row !! 0%nat = Some (tx, ty) /\
    tx == -128 /\ ty == 128.
Proof.
  intros s.
  destruct (getSpotPositions_pixel_centers 2 2 0 0 1 1 512 512 (1, 1) 1 0)
    as (_ & _ & (row & tx & ty & Hr & Hc & Ex & Ey) & _); [simpl; lia | simpl; lia |].
  exists row, tx, ty. repeat split; try assumption.
  - rewrite Ex. reflexivity.
  - rewrite Ey. reflexivity.
Defined.

(** ** The assembler: centre and pixel size *)

Tactic Notation "inv_bind" hyp(H) "as" ident(E) :=
  match type of H with
  | bind ?r _ = Ok _ => destruct r eqn:E; simpl in H; [| discriminate H]
  end.

Lemma of_option_Ok {A : Type} (e : exn) (o : option A) (a : A) :
  of_option e o = Ok a -> o = Some a.
Proof. destruct o; simpl; congruence. Qed.

Lemma py_div_Ok (a b q : Q) : py_div a b = Ok q -> ~ b == 0 /\ q = a / b.
Proof.
  unfold py_div. destruct (Qeq_bool b 0) eqn:E; [discriminate |].
  intros H. injection H as <-. split; [| reflexivity].
  apply Qeq_bool_false_neq. exact E.
Qed.

(** What [_get_center_pxs] returns, spelled out. *)
Lemma get_center_pxs_inv (s : Settings) (rep : positive * positive)
    (sub_shape : nat * nat) (datatl : DataArray) (center pxs : Q * Q) :
  _get_center_pxs s rep sub_shape datatl = Ok (center, pxs) ->
  exists center_tl dpxs W H,
    MD_POS (metadata datatl) = Some center_tl /\
    MD_PIXEL_SIZE (metadata datatl) = Some dpxs /\
    last (shape datatl) = Some W /\
    last (removelast (shape datatl)) = Some H /\
    ~ N2Q (fst sub_shape) == 0 /\ ~ N2Q (snd sub_shape) == 0 /\
    pxs = (_getPixelSize s / N2Q (fst sub_shape), _getPixelSize s / N2Q (snd sub_shape)) /\
    center =
      (fst center_tl - (fst dpxs * (N2Q W - 1)) / 2
         + (fst pxs * (P2Q (fst rep) * N2Q (fst sub_shape) - 1)) / 2,
       snd center_tl + (snd dpxs * (N2Q H - 1)) / 2
         - (snd pxs * (P2Q (snd rep) * N2Q (snd sub_shape) - 1)) / 2).
Proof.
  unfold _get_center_pxs, shape_m1, shape_m2. intros H.
  inv_bind H as E0. apply of_option_Ok in E0.
  inv_bind H as E1. apply of_option_Ok in E1.
  inv_bind H as E2. apply of_option_Ok in E2.
  inv_bind H as E3. apply of_option_Ok in E3.
  inv_bind H as E4. apply py_div_Ok in E4. destruct E4 as [N4 ->].
  inv_bind H as E5. apply py_div_Ok in E5. destruct E5 as [N5 ->].
  injection H as <- <-.
  exists a, a0, a1, a2. repeat split; assumption.
Qed.

Lemma assemble2DData_inv (s : Settings) (rep : positive * positive)
    (data_list : list DataArray) (da : DataArray) :
  _assemble2DData s rep data_list = Ok da ->
  exists d0, head data_list = Some d0 /\
    ((shape d0 = [0%nat] /\ da = d0) \/
     (shape d0 <> [0%nat] /\
      exists center pxs,
        _get_center_pxs s rep (1%nat, 1%nat) d0 = Ok (center, pxs) /\
        MD_POS (metadata da) = Some center /\
        MD_PIXEL_SIZE (metadata da) = Some pxs /\
        shape da = [Pos.to_nat (snd rep); Pos.to_nat (fst rep)] /\
        values da = concat (map values data_list))).
Proof.
  unfold _assemble2DData. destruct data_list as [| d0 rest]; [discriminate |].
  intros H. exists d0. split; [reflexivity |].
  unfold shape_eqb in H. destruct (bool_decide (shape d0 = [0%nat])) eqn:E.
  - apply bool_decide_eq_true in E. left. split; [exact E | congruence].
  - apply bool_decide_eq_false in E. right. split; [exact E |].
    inv_bind H as E1. destruct a as [center pxs].
    destruct (negb _); [discriminate |].
    injection H as <-. exists center, pxs. simpl. auto.
Qed.

Lemma assembleTiles_inv (s : Settings) (rep : positive * positive)
    (data_list : list DataArray) (da : DataArray) :
  _assembleTiles s rep data_list = Ok da ->
  exists d0 T_ S_ center pxs,
    head data_list = Some d0 /\ shape d0 = [T_; S_] /\
    length data_list = (Pos.to_nat (snd rep) * Pos.to_nat (fst rep))%nat /\
    _get_center_pxs s rep (T_, S_) d0 = Ok (center, pxs) /\
    MD_POS (metadata da) = Some center /\
    MD_PIXEL_SIZE (metadata da) = Some pxs /\
    shape da = [(Pos.to_nat (snd rep) * T_)%nat; (Pos.to_nat (fst rep) * S_)%nat].
Proof.
  unfold _assembleTiles. intros H.
  inv_bind H as E0. apply of_option_Ok in E0. rename a into d0.
  destruct (shape d0) as [| T_ [| S_ [| ? ?]]] eqn:Es; simpl in H; try discriminate.
  destruct (forallb _ _ && _) eqn:Ef; simpl in H; [| discriminate].
  apply andb_true_iff in Ef. destruct Ef as [_ Hlen].
  apply Nat.eqb_eq in Hlen.
  inv_bind H as E1. destruct a as [center pxs].
  injection H as <-.
  exists d0, T_, S_, center, pxs. simpl. auto 10.
Qed.

(** C3, as stated, fails on a tiled image: with 2 x 2 tiles the assembled
    pixel size is that of the sub-pixels, 1, while ROI width x field of view /
    repetition is 2. *)
Lemma assembled_pixel_size_counterexample :
  exists da px py,
    _assembleTiles example_settings (repetition example_settings)
      [example_tile; example_tile; example_tile; example_tile] = Ok da /\
    MD_PIXEL_SIZE (metadata da) = Some (px, py) /\
    ~ (px == fst (spec_pixel_size example_settings) /\
       py == snd (spec_pixel_size example_settings)).
Proof.
  eexists. eexists. eexists. split; [vm_compute; reflexivity |].
  split; [reflexivity |].
  intros [H _]. vm_compute in H. discriminate H.
Qed.

(** C3 (amended).  The pixel size of an assembled image is computed from the
    X extent only: with P = ROI width x emitter field of view along X /
    rep_x, a flat 2-D image gets (P, P) and a tiled image of square T x T
    tiles gets (P / T, P / T).  Along Y the flat value is ROI height x field
    of view along Y / rep_y whenever that quantity equals P (square
    pixels). *)
Theorem assembled_pixel_size (s : Settings) (data_list : list DataArray)
    (d0 da : DataArray) :
  head data_list = Some d0 ->
  let P := fst (spec_pixel_size s) in
  (shape d0 <> [0%nat] ->
   _assemble2DData s (repetition s) data_list = Ok da ->
   exists px py, MD_PIXEL_SIZE (metadata da) = Some (px, py) /\
                 px == P /\ py == P /\
                 (snd (spec_pixel_size s) == P -> py == snd (spec_pixel_size s))) /\
  (forall T_, shape d0 = [T_; T_] ->
   _assembleTiles s (repetition s) data_list = Ok da ->
   exists px py, MD_PIXEL_SIZE (metadata da) = Some (px, py) /\
                 px == P / N2Q T_ /\ py == P / N2Q T_).
Proof.
  intros Hd P.
  assert (HP : _getPixelSize s == P).
  { unfold P, _getPixelSize, spec_pixel_size.
    destruct (roi s) as [[[l t] r] b]. simpl.
    pose proof (P2Q_pos (fst (repetition s))). field. lra. }
  split.
  - intros Hs H. apply assemble2DData_inv in H.
    destruct H as (d0' & Hd' & [[Hs' _] | (_ & center & pxs & Hc & _ & Hp & _)]).
    { congruence. }
    assert (d0' = d0) by congruence. subst d0'.
    apply get_center_pxs_inv in Hc.
    destruct Hc as (? & ? & ? & ? & _ & _ & _ & _ & _ & _ & -> & _).
    eexists. eexists. split; [exact Hp |]. simpl.
    assert (E : _getPixelSize s / N2Q 1 == P).
    { rewrite HP. unfold N2Q. simpl. field. }
    repeat split; try exact E. intros Hy. rewrite E, Hy. reflexivity.
  - intros T_ Hs H. apply assembleTiles_inv in H.
    destruct H as (d0' & T' & S' & center & pxs & Hd' & Hs' & _ & Hc & _ & Hp & _).
    assert (d0' = d0) by congruence. subst d0'.
    assert (T' = T_ /\ S' = T_) as [-> ->] by (split; congruence).
    apply get_center_pxs_inv in Hc.
    destruct Hc as (? & ? & ? & ? & _ & _ & _ & _ & N1 & N2 & -> & _).
    eexists. eexists. split; [exact Hp |]. simpl in *.
    rewrite HP. split; reflexivity.
Qed.

Lemma assembled_pixel_size_witness :
  exists da px py,
    _assemble2DData example_settings (repetition example_settings)
      [example_point; example_point; example_point; example_point] = Ok da /\
    MD_PIXEL_SIZE (metadata da) = Some (px, py) /\ px == 2 /\ py == 2.
Proof.
  destruct (_assemble2DData example_settings (repetition example_settings)
              [example_point; example_point; example_point; example_point])
    as [da |] eqn:E; [| vm_compute in E; discriminate E].
  destruct (assembled_pixel_size example_settings
              [example_point; example_point; example_point; example_point]
              example_point da eq_refl) as [H _].
  destruct (H ltac:(discriminate) E) as (px & py & Hp & Hx & Hy & _).
  exists da, px, py. repeat split; try assumption.
  - rewrite Hx. reflexivity.
  - rewrite Hy. reflexivity.
Defined.

(** C1, as stated, fails when the first received array is more than a single
    point.  Two arrays of 1 x 2 points fill the 2 x 2 grid; the first one is
    centred at (0, 0), its pixel size is that of the grid (2), and the image
    is centred at X = 0, not at 0 + ((2 - 1) / 2) 2 = 1. *)
Lemma assembled_center_counterexample :
  exists da c,
    _assemble2DData example_settings (repetition example_settings)
      [example_pair; example_pair] = Ok da /\
    MD_POS (metadata da) = Some c /\
    MD_POS (metadata example_pair) = Some (0, 0) /\
    _getPixelSize example_settings == 2 /\
    ~ fst c == fst (spec_center (0, 0) (2, 2) (repetition example_settings)).
Proof.
  eexists. eexists. split; [vm_compute; reflexivity |].
  split; [reflexivity |]. split; [reflexivity |]. split; [reflexivity |].
  intros H. vm_compute in H. discriminate H.
Qed.

(** C1 (amended).  Let P be the pixel size re-derived from ROI, repetition
    and emitter geometry ([_getPixelSize]), used along both axes.  The centre
    written on an assembled image is the position of the first received array
    plus ((rep - 1) / 2) (P, -P) when that array is a single point (flat 2-D
    assembly), or a square tile whose pixel-size metadata is the re-derived
    sub-pixel size P / T (tiled assembly).  In general the centre of the
    top-left pixel is first derived from the position, the shape (H, W) and
    the pixel-size metadata of that array, and the centre of the image from
    it with the re-derived pixel size. *)
Theorem assembled_center (s : Settings) (data_list : list DataArray)
    (d0 da : DataArray) (pos dpxs : Q * Q) :
  head data_list = Some d0 ->
  MD_POS (metadata d0) = Some pos ->
  MD_PIXEL_SIZE (metadata d0) = Some dpxs ->
  let P := _getPixelSize s in
  let rep := repetition s in
  (last (shape d0) = Some 1%nat ->
   last (removelast (shape d0)) = Some 1%nat ->
   _assemble2DData s rep data_list = Ok da ->
   exists c, MD_POS (metadata da) = Some c /\
             fst c == fst (spec_center pos (P, P) rep) /\
             snd c == snd (spec_center pos (P, P) rep)) /\
  (forall T_, shape d0 = [T_; T_] ->
   fst dpxs == P / N2Q T_ -> snd dpxs == P / N2Q T_ ->
   _assembleTiles s rep data_list = Ok da ->
   exists c, MD_POS (metadata da) = Some c /\
             fst c == fst (spec_center pos (P, P) rep) /\
             snd c == snd (spec_center pos (P, P) rep)) /\
  (forall sub_shape center pxs W H,
   last (shape d0) = Some W ->
   last (removelast (shape d0)) = Some H ->
   _get_center_pxs s rep sub_shape d0 = Ok (center, pxs) ->
   fst pxs == P / N2Q (fst sub_shape) /\ snd pxs == P / N2Q (snd sub_shape) /\
   fst center == fst pos - fst dpxs * (N2Q W - 1) / 2
                 + fst pxs * (P2Q (fst rep) * N2Q (fst sub_shape) - 1) / 2 /\
   snd center == snd pos + snd dpxs * (N2Q H - 1) / 2
                 - snd pxs * (P2Q (snd rep) * N2Q (snd sub_shape) - 1) / 2).
Proof.
  intros Hd Hpos Hpxs P rep.
  assert (Hgen : forall sub_shape center pxs W H,
    last (shape d0) = Some W ->
    last (removelast (shape d0)) = Some H ->
    _get_center_pxs s rep sub_shape d0 = Ok (center, pxs) ->
    ~ N2Q (fst sub_shape) == 0 /\ ~ N2Q (snd sub_shape) == 0 /\
    fst pxs == P / N2Q (fst sub_shape) /\ snd pxs == P / N2Q (snd sub_shape) /\
    fst center == fst pos - fst dpxs * (N2Q W - 1) / 2
                  + fst pxs * (P2Q (fst rep) * N2Q (fst sub_shape) - 1) / 2 /\
    snd center == snd pos + snd dpxs * (N2Q H - 1) / 2
                  - snd pxs * (P2Q (snd rep) * N2Q (snd sub_shape) - 1) / 2).
  { intros sub_shape center pxs W H HW HH Hc.
    apply get_center_pxs_inv in Hc.
    destruct Hc as (pos' & dpxs' & W' & H' & Hp' & Hx' & HW' & HH' & N1 & N2 & -> & ->).
    assert (pos' = pos) by congruence.
    assert (dpxs' = dpxs) by congruence.
    assert (W' = W) by congruence.
    assert (H' = H) by congruence. subst. simpl.
    repeat split; try assumption; reflexivity. }
  split; [| split].
  - intros HW HH H. apply assemble2DData_inv in H.
    destruct H as (d0' & Hd' & [[Hs' _] | (_ & center & pxs & Hc & Hp & _)]).
    { assert (d0' = d0) by congruence. subst d0'. rewrite Hs' in HW. discriminate HW. }
    assert (d0' = d0) by congruence. subst d0'.
    destruct (Hgen _ _ _ _ _ HW HH Hc) as (_ & _ & E1 & E2 & Ex & Ey).
    exists center. split; [exact Hp |]. simpl in *.
    rewrite Ex, Ey, E1, E2. unfold N2Q. simpl. split; field.
  - intros T_ Hs Edx Edy H. apply assembleTiles_inv in H.
    destruct H as (d0' & T' & S' & center & pxs & Hd' & Hs' & _ & Hc & Hp & _).
    assert (d0' = d0) by congruence. subst d0'.
    assert (T' = T_ /\ S' = T_) as [-> ->] by (split; congruence).
    assert (HW : last (shape d0) = Some T_) by (rewrite Hs; reflexivity).
    assert (HH : last (removelast (shape d0)) = Some T_) by (rewrite Hs; reflexivity).
    destruct (Hgen _ _ _ _ _ HW HH Hc) as (N1 & _ & E1 & E2 & Ex & Ey).
    exists center. split; [exact Hp |]. simpl in *.
    rewrite Ex, Ey, E1, E2, Edx, Edy. split; field; exact N1.
  - intros sub_shape center pxs W H HW HH Hc.
    destruct (Hgen _ _ _ _ _ HW HH Hc) as (_ & _ & E1 & E2 & Ex & Ey). auto.
Qed.

Lemma assembled_center_witness :
  exists da c,
    _assemble2DData example_settings (repetition example_settings)
      [example_point; example_point; example_point; example_point] = Ok da /\
    MD_POS (metadata da) = Some c /\ fst c == 1 /\ snd c == -1.
Proof.
  destruct (_assemble2DData example_settings (repetition example_settings)
              [example_point; example_point; example_point; example_point])
    as [da |] eqn:E; [| vm_compute in E; discriminate E].
  destruct (assembled_center example_settings
              [example_point; example_point; example_point; example_point]
              example_point da (0, 0) (2, 2) eq_refl eq_refl eq_refl) as [H _].
  destruct (H eq_refl eq_refl E) as (c & Hc & Hx & Hy).
  exists da, c. repeat split; try assumption.
  - rewrite Hx. reflexivity.
  - rewrite Hy. reflexivity.
Defined.

(** ** Progress *)

(** C9.  A progress update with at most one pixel done changes nothing (the
    estimated end time and the recorded sum stay as they are).  With n > 1
    pixels done, the duration is added to the recorded sum and the estimated
    end becomes
    now + (recorded sum) (tot - n) / (n - 1) + 0.001 tot + bonus + 0.1,
    which is published on the future. *)
Theorem updateProgress_end (now dur bonus : Q) (n tot : Z) (e : Engine) :
  let e' := _updateProgress now dur n tot bonus e in
  ((n <= 1)%Z -> e' = e) /\
  ((1 < n)%Z ->
   _prog_sum e' == _prog_sum e + dur /\
   future_end e' == now + _prog_sum e' * Z2Q (tot - n) / Z2Q (n - 1)
                    + 0.001 * Z2Q tot + bonus + 0.1 /\
   trace e' = trace e ++ [SetProgress (future_end e')]).
Proof.
  intros e'. unfold e', _updateProgress. split.
  - intros Hn. apply Z.leb_le in Hn. rewrite Hn. reflexivity.
  - intros Hn. assert (Hb : (n <=? 1)%Z = false) by (apply Z.leb_gt; exact Hn).
    rewrite Hb. destruct e. simpl.
    assert (Hne : ~ Z2Q (n - 1) == 0).
    { unfold Z2Q. change 0 with (inject_Z 0). rewrite inject_Z_injective. lia. }
    repeat split; try reflexivity.
    field. exact Hne.
Qed.

Lemma updateProgress_end_witness :
  let e' := _updateProgress 100 2 3%Z 5%Z 0 example_engine in
  _prog_sum e' == 2 /\ future_end e' == 100 + 2 + 0.005 + 0.1.
Proof.
  intros e'.
  destruct (updateProgress_end 100 2 0 3 5 example_engine) as [_ H].
  destruct (H ltac:(lia)) as (Hs & He & _).
  fold e' in Hs, He. split.
  - rewrite Hs. reflexivity.
  - rewrite He, Hs. reflexivity.
Defined.

(** ** Loops over the streams *)

Lemma fold_insert_length {A : Type} (v : A) (idx : list nat) (l : list A) :
  length (fold_left (fun l i => <[i := v]> l) idx l) = length l.
Proof.
  revert l. induction idx as [| i idx IH]; intros l; simpl; [reflexivity |].
  rewrite IH, length_insert. reflexivity.
Qed.

Lemma fold_insert_lookup_notin {A : Type} (v : A) (idx : list nat) (l : list A) (i : nat) :
  ~ In i idx -> fold_left (fun l i => <[i := v]> l) idx l !! i = l !! i.
Proof.
  revert l. induction idx as [| j idx IH]; intros l Hn; simpl; [reflexivity |].
  rewrite IH by (intros H; apply Hn; right; exact H).
  apply list_lookup_insert_ne. intros ->. apply Hn. left. reflexivity.
Qed.

Lemma fold_insert_lookup_in {A : Type} (v : A) (idx : list nat) (l : list A) (i : nat) :
  In i idx -> (i < length l)%nat ->
  fold_left (fun l i => <[i := v]> l) idx l !! i = Some v.
Proof.
  revert l. induction idx as [| j idx IH]; intros l Hin Hlt; simpl; [destruct Hin |].
  destruct (in_dec Nat.eq_dec i idx) as [Hi | Hi].
  - apply IH; [exact Hi | rewrite length_insert; exact Hlt].
  - rewrite fold_insert_lookup_notin by exact Hi.
    destruct Hin as [-> | Hin]; [| contradiction].
    apply list_lookup_insert_eq. exact Hlt.
Qed.

Lemma for_each_unsubscribe (idx : list nat) (e : Engine) :
  for_each idx df_unsubscribe e =
  set_trace (trace e ++ map Unsubscribe idx)
    (set_subscribed (fold_left (fun l i => <[i := false]> l) idx (subscribed e)) e).
Proof.
  unfold for_each. revert e. induction idx as [| i idx IH]; intros e.
  - destruct e. simpl. rewrite app_nil_r. reflexivity.
  - simpl. rewrite IH. destruct e. simpl. rewrite <- app_assoc. reflexivity.
Qed.

Lemma for_each_set_events (idx : list nat) (e : Engine) :
  for_each idx (fun i st => set_acq_complete (<[i := true]> (_acq_complete st)) st) e =
  set_acq_complete (fold_left (fun l i => <[i := true]> l) idx (_acq_complete e)) e.
Proof.
  unfold for_each. revert e. induction idx as [| i idx IH]; intros e.
  - destruct e. reflexivity.
  - simpl. rewrite IH. destruct e. reflexivity.
Qed.

(** ** Cancellation *)

Lemma AcqState_eqb_eq (a b : AcqState) : AcqState_eqb a b = true <-> a = b.
Proof. destruct a, b; simpl; split; intros H; congruence. Qed.

Lemma AcqState_eqb_neq (a b : AcqState) : AcqState_eqb a b = false <-> a <> b.
Proof. destruct a, b; simpl; split; intros H; congruence. Qed.

Lemma in_stream_ids (e : Engine) (i : nat) :
  In i (stream_ids e) <-> (i < length (streams e))%nat.
Proof. unfold stream_ids. rewrite in_seq. lia. Qed.



(** ** The data callback *)

Lemma onData_Ok (n : nat) (data : DataArray) (e e' : Engine) :
  _onData n data e = Ok e' ->
  (n < length (streams e))%nat /\
  ((too_early (_acq_min_date e) data = true /\ e' = emit (Log WARNING) e) \/
   (too_early (_acq_min_date e) data = false /\
    _acq_complete e !! n = Some true /\ e' = e) \/
   (too_early (_acq_min_date e) data = false /\
    _acq_complete e !! n = Some false /\
    exists ad, _acq_data e !! n = Some ad /\
      e' = set_acq_complete (<[n := true]> (_acq_complete e))
             (set_acq_data (<[n := ad ++ [data]]> (_acq_data e)) e))).
Proof.
  unfold _onData. intros H.
  inv_bind H as E0. apply of_option_Ok in E0.
  split; [apply lookup_lt_Some in E0; exact E0 |].
  destruct (too_early (_acq_min_date e) data) eqn:Et.
  - left. split; [reflexivity | congruence].
  - right. inv_bind H as E1. apply of_option_Ok in E1.
    destruct a0; simpl in H.
    + left. split; [reflexivity |]. split; [exact E1 | congruence].
    + right. split; [reflexivity |]. split; [exact E1 |].
      inv_bind H as E2. apply of_option_Ok in E2.
      exists a0. split; [exact E2 |].
      injection H as <-. destruct e; reflexivity.
Qed.

Lemma onData_total (n : nat) (data : DataArray) (e : Engine) :
  well_formed e -> (n < length (streams e))%nat ->
  exists e', _onData n data e = Ok e'.
Proof.
  intros (Hc & Hd & _) Hn. unfold _onData.
  destruct (lookup_lt_is_Some_2 (streams e) n Hn) as [s Es]. rewrite Es. simpl.
  destruct (too_early _ _); [eexists; reflexivity |].
  destruct (lookup_lt_is_Some_2 (_acq_complete e) n ltac:(lia)) as [b Eb].
  rewrite Eb. simpl.
  destruct b; simpl; [eexists; reflexivity |].
  destruct (lookup_lt_is_Some_2 (_acq_data e) n ltac:(lia)) as [ad Ea].
  rewrite Ea. simpl. eexists; reflexivity.
Qed.

(** C7.  A sample pushed to the callback of stream n whose acquisition date
    (0 when the metadata has none) is earlier than the start of the current
    pixel is dropped: the callback returns normally, and the only call it
    made is one warning of the logger (so the trigger is not notified);
    no accumulator, event, flag or state of the engine changes, and the
    worker goes on as if the sample had not come. *)
Theorem onData_drops_stale (n : nat) (data : DataArray) (e : Engine) (t_start : Q) :
  (n < length (streams e))%nat ->
  _acq_min_date e = Some t_start ->
  default 0 (MD_ACQ_DATE (metadata data)) < t_start ->
  exists e',
    _onData n data e = Ok e' /\
    trace e' = trace e ++ [Log WARNING] /\
    _acq_data e' = _acq_data e /\
    _acq_complete e' = _acq_complete e /\
    _acq_state e' = _acq_state e /\
    _acq_min_date e' = _acq_min_date e /\
    subscribed e' = subscribed e /\
    synchronized e' = synchronized e /\
    _raw e' = _raw e.
Proof.
  intros Hn Hm Hd. exists (emit (Log WARNING) e). split.
  - unfold _onData.
    destruct (lookup_lt_is_Some_2 (streams e) n Hn) as [s Es]. rewrite Es. simpl.
    unfold too_early. rewrite Hm.
    apply Qlt_bool_iff in Hd. rewrite Hd. reflexivity.
  - destruct e. simpl. repeat split; reflexivity.
Qed.

Lemma onData_drops_stale_witness :
  let stale := {| shape := [1%nat; 1%nat]; values := [7%Z];
                  metadata := example_md (1, 1) |} in
  exists e', _onData 1 stale example_running = Ok e' /\
             _acq_data e' = [[]; []] /\ trace e' = [Log WARNING].
Proof.
  intros stale.
  destruct (onData_drops_stale 1 stale example_running 10)
    as (e' & H & Ht & Hd & _);
    [simpl; lia | reflexivity | simpl; lra |].
  exists e'. auto.
Defined.

Lemma cancelAcquisition_fields (e : Engine) :
  let e' := snd (_cancelAcquisition e) in
  streams e' = streams e /\ _acq_data e' = _acq_data e /\
  _acq_min_date e' = _acq_min_date e /\
  length (_acq_complete e') = length (_acq_complete e) /\
  length (subscribed e') = length (subscribed e) /\
  length (synchronized e') = length (synchronized e) /\
  (forall n, _acq_complete e !! n = Some true -> _acq_complete e' !! n = Some true).
Proof.
  unfold _cancelAcquisition. cbv zeta.
  destruct (AcqState_eqb (_acq_state (emit LockAcquire e)) FINISHED).
  - destruct e. simpl. repeat split; auto.
  - rewrite for_each_unsubscribe. unfold df_synchronizedOn.
    rewrite for_each_set_events. destruct e. unfold stream_ids. simpl.
    repeat split; try reflexivity.
    + apply fold_insert_length.
    + apply fold_insert_length.
    + apply length_insert.
    + intros n Hn.
      destruct (in_dec Nat.eq_dec n (seq 0 (length streams0))) as [Hi | Hi].
      * apply fold_insert_lookup_in; [exact Hi |]. apply lookup_lt_Some in Hn. exact Hn.
      * rewrite fold_insert_lookup_notin by exact Hi. exact Hn.
Qed.

Lemma deliver_well_formed (ev : Event) (e : Engine) :
  well_formed e ->
  well_formed (deliver ev e) /\ streams (deliver ev e) = streams e.
Proof.
  intros (Hc & Hd & Hs & Hy). destruct ev as [n da |]; simpl.
  - destruct (_onData n da e) as [e' |] eqn:E; [| repeat split; assumption].
    apply onData_Ok in E.
    destruct E as [_ [[_ ->] | [(_ & _ & ->) | (_ & _ & ad & _ & ->)]]].
    + destruct e. simpl in *. repeat split; assumption.
    + repeat split; assumption.
    + destruct e. simpl in *. unfold well_formed. simpl.
      rewrite !length_insert. repeat split; assumption.
  - pose proof (cancelAcquisition_fields e) as H. cbv zeta in H.
    destruct H as (H1 & H2 & _ & H3 & H4 & H5 & _).
    unfold well_formed. rewrite H1, H2, H3, H4, H5. repeat split; assumption.
Qed.

(** What one action of another thread can do to the accumulator and to the
    event of stream [n]. *)
Lemma deliver_streams (ev : Event) (e : Engine) : streams (deliver ev e) = streams e.
Proof.
  destruct ev as [n da |]; simpl.
  - destruct (_onData n da e) as [e' |] eqn:E; [| reflexivity].
    apply onData_Ok in E.
    destruct E as [_ [[_ ->] | [(_ & _ & ->) | (_ & _ & ad & _ & ->)]]];
      destruct e; reflexivity.
  - pose proof (cancelAcquisition_fields e) as H. cbv zeta in H. apply H.
Qed.

Lemma deliver_all_streams (evs : list Event) (e : Engine) :
  streams (deliver_all evs e) = streams e.
Proof.
  revert e. induction evs as [| ev evs IH]; intros e; simpl; [reflexivity |].
  unfold deliver_all in IH. rewrite IH. apply deliver_streams.
Qed.

Lemma deliver_step (n : nat) (ev : Event) (e : Engine) (ad : list DataArray) :
  _acq_data e !! n = Some ad ->
  let e' := deliver ev e in
  (_acq_complete e !! n = Some true ->
   _acq_complete e' !! n = Some true /\ _acq_data e' !! n = Some ad) /\
  (_acq_data e' !! n = Some ad \/
   exists d, ev = EvData n d /\ _acq_data e' !! n = Some (ad ++ [d]) /\
             _acq_complete e' !! n = Some true).
Proof.
  intros Ha e'. unfold e'. destruct ev as [m da |]; simpl.
  - destruct (_onData m da e) as [e1 |] eqn:E; [| auto].
    apply onData_Ok in E.
    destruct E as [Hm [[_ ->] | [(_ & _ & ->) | (_ & Hf & ad' & Ha' & ->)]]].
    + destruct e. simpl in *. auto.
    + auto.
    + destruct (Nat.eq_dec m n) as [-> | Hne].
      * assert (ad' = ad) by congruence. subst ad'. split.
        { intros Ht. congruence. }
        right. exists da. split; [reflexivity |].
        destruct e. simpl in *. split.
        { apply list_lookup_insert_eq. apply lookup_lt_Some in Ha. exact Ha. }
        { apply list_lookup_insert_eq. apply lookup_lt_Some in Hf. exact Hf. }
      * destruct e. simpl in *.
        rewrite !list_lookup_insert_ne by exact Hne. auto.
  - pose proof (cancelAcquisition_fields e) as H. cbv zeta in H.
    destruct H as (_ & H2 & _ & _ & _ & _ & H6).
    rewrite H2. split; [| left; exact Ha].
    intros Ht. split; [apply H6; exact Ht | exact Ha].
Qed.

(** C10.  Between two clears of the completion event of stream n, whatever
    the other threads do (callbacks of any stream, with any data, and
    cancellation), the callback appends at most one array to the accumulator
    of stream n, and that array is one pushed to stream n, after which the
    event is set.  A sample that is not too early and arrives while the event
    is clear is appended and sets the event; one that arrives while the event
    is set leaves the engine exactly as it is; and once the event is set the
    accumulator does not change any more. *)
Theorem onData_at_most_one (n : nat) (e : Engine) (evs : list Event)
    (ad : list DataArray) :
  well_formed e ->
  (n < length (streams e))%nat ->
  _acq_data e !! n = Some ad ->
  let e' := deliver_all evs e in
  (_acq_data e' !! n = Some ad \/
   exists d, In (EvData n d) evs /\ _acq_data e' !! n = Some (ad ++ [d]) /\
             _acq_complete e' !! n = Some true) /\
  (_acq_complete e !! n = Some true -> _acq_data e' !! n = Some ad) /\
  (forall data,
     too_early (_acq_min_date e) data = false ->
     _acq_complete e !! n = Some false ->
     exists e1, _onData n data e = Ok e1 /\
                _acq_data e1 !! n = Some (ad ++ [data]) /\
                _acq_complete e1 !! n = Some true) /\
  (forall data,
     too_early (_acq_min_date e) data = false ->
     _acq_complete e !! n = Some true ->
     _onData n data e = Ok e).
Proof.
  intros Hwf Hn Ha e'.
  assert (Hset : forall evs e, _acq_data e !! n = Some ad ->
            _acq_complete e !! n = Some true ->
            _acq_data (deliver_all evs e) !! n = Some ad).
  { clear. intros evs. induction evs as [| ev evs IH]; intros e Ha Ht; [exact Ha |].
    simpl. destruct (deliver_step n ev e ad Ha) as [H _].
    destruct (H Ht) as [Ht' Ha']. apply IH; assumption. }
  split; [| split; [| split]].
  - unfold e'. clear e' Hwf Hn. revert e Ha.
    induction evs as [| ev evs IH]; intros e Ha; [left; exact Ha |].
    simpl. destruct (deliver_step n ev e ad Ha) as [_ [H | (d & -> & Hd & Ht)]].
    + destruct (IH _ H) as [H' | (d & Hin & H')]; [left; exact H' |].
      right. exists d. split; [right; exact Hin | exact H'].
    + right. exists d. split; [left; reflexivity |].
      assert (Hkeep : forall evs e, _acq_data e !! n = Some (ad ++ [d]) ->
                _acq_complete e !! n = Some true ->
                _acq_data (deliver_all evs e) !! n = Some (ad ++ [d]) /\
                _acq_complete (deliver_all evs e) !! n = Some true).
      { clear. intros evs. induction evs as [| ev evs IH]; intros e Ha Ht; [auto |].
        simpl. destruct (deliver_step n ev e (ad ++ [d]) Ha) as [H _].
        destruct (H Ht) as [Ht' Ha']. apply IH; assumption. }
      apply Hkeep; assumption.
  - intros Ht. apply Hset; assumption.
  - intros data Hearly Hf. unfold _onData.
    destruct (lookup_lt_is_Some_2 (streams e) n Hn) as [s Es]. rewrite Es. simpl.
    rewrite Hearly, Hf. simpl. rewrite Ha. simpl. eexists. split; [reflexivity |].
    destruct e. simpl in *. split.
    + apply list_lookup_insert_eq. apply lookup_lt_Some in Ha. exact Ha.
    + apply list_lookup_insert_eq. apply lookup_lt_Some in Hf. exact Hf.
  - intros data Hearly Ht. unfold _onData.
    destruct (lookup_lt_is_Some_2 (streams e) n Hn) as [s Es]. rewrite Es. simpl.
    rewrite Hearly, Ht. reflexivity.
Qed.

Lemma onData_at_most_one_witness :
  let d := {| shape := [1%nat; 1%nat]; values := [7%Z];
              metadata := {| MD_POS := Some (0, 0); MD_PIXEL_SIZE := Some (1, 1);
                             MD_ACQ_DATE := Some 11; MD_DWELL_TIME := None;
                             MD_DESCRIPTION := None; MD_AD_LIST := None |} |} in
  exists e1, _onData 1 d example_running = Ok e1 /\
             _acq_data e1 !! 1%nat = Some [d] /\
             _acq_data (deliver_all [EvData 1 d; EvData 1 d] example_running) !! 1%nat
             = Some [d].
Proof.
  intros d.
  assert (W : well_formed example_running) by (repeat split; reflexivity).
  destruct (onData_at_most_one 1 example_running [EvData 1 d; EvData 1 d] [] W
              ltac:(simpl; lia) eq_refl) as (_ & _ & H & _).
  destruct (H d eq_refl eq_refl) as (e1 & H1 & H2 & _).
  exists e1. split; [exact H1 | split; [exact H2 | reflexivity]].
Defined.

(** ** The time-correlator stream *)

Import ScannedRemoteTCStream.

Lemma py_min_spec (a b : Q) :
  py_min a b <= a /\ py_min a b <= b /\ (py_min a b = a \/ py_min a b = b).
Proof.
  unfold py_min. destruct (Qlt_bool b a) eqn:E.
  - apply Qlt_bool_iff in E. repeat split; try lra. right. reflexivity.
  - assert (~ b < a) by (intros H; apply Qlt_bool_iff in H; congruence).
    repeat split; try lra. left. reflexivity.
Qed.

Lemma py_div_nonzero (a b : Q) : ~ b == 0 -> py_div a b = Ok (a / b).
Proof.
  intros H. unfold py_div. destruct (Qeq_bool b 0) eqn:E; [| reflexivity].
  apply Qeq_bool_iff in E. contradiction.
Qed.

Lemma uint32_small (z : Z) : (0 <= z < 2 ^ 32)%Z -> uint32 z = z.
Proof. intros H. unfold uint32. apply Z.mod_small. exact H. Qed.

Lemma shape_eqb_refl (l : list nat) : shape_eqb l l = true.
Proof. unfold shape_eqb. apply bool_decide_eq_true_2. reflexivity. Qed.

(** Adding [k] frames of ones to an accumulator that holds [m] everywhere. *)
Lemma accumulate_ones (shp : list nat) (dt : Q) (k : nat) :
  first_row_exists (const_frame shp 1 dt) = true ->
  forall (m : Z) (q : Q) (md : Metadata) (errs : nat),
    (0 <= m)%Z -> (m + Z.of_nat k < 2 ^ 32)%Z ->
    MD_DWELL_TIME md = Some q ->
    exists r q',
      _frameThread (replicate k (const_frame shp 1 dt))
        {| raw := [{| shape := shp; values := replicate (prod shp) m; metadata := md |}];
           _new_acquisition := false; errors := errs |}
      = Running {| raw := [r]; _new_acquisition := false; errors := errs |} /\
      shape r = shp /\
      values r = replicate (prod shp) (m + Z.of_nat k)%Z /\
      MD_DWELL_TIME (metadata r) = Some q' /\
      q' == q + N2Q k * dt.
Proof.
  intros Hrow. induction k as [| k IH]; intros m q md errs Hm Hk Hq.
  - simpl. eexists. exists q. repeat split; simpl.
    + rewrite Z.add_0_r. reflexivity.
    + exact Hq.
    + unfold N2Q. simpl. ring.
  - simpl replicate. cbn [_frameThread].
    unfold process_frame. cbn [_new_acquisition raw shape].
    change (shape (const_frame shp 1 dt)) with shp.
    rewrite shape_eqb_refl, Hrow. cbn [negb].
    cbn [values metadata astype_uint32 const_frame MD_DWELL_TIME].
    rewrite Hq.
    unfold iadd_uint32. rewrite fmap_replicate, zip_with_replicate.
    change (uint32 1) with 1%Z.
    rewrite (uint32_small (m + 1)) by lia.
    destruct (IH (m + 1)%Z (q + dt)
                (set_MD_DWELL_TIME (q + dt) md) errs ltac:(lia) ltac:(lia) eq_refl)
      as (r & q' & Hrun & Hs & Hv & Hd & Eq).
    exists r, q'. unfold with_metadata. cbn [shape values metadata].
    split; [exact Hrun |]. split; [exact Hs |]. split.
    + rewrite Hv. f_equal. lia.
    + split; [exact Hd |]. rewrite Eq, N2Q_S. ring.
Qed.

(** C8.  [_prepareHardware] asks the scanner for min(total, maximum dwell
    time), reads back the per-frame dwell time the scanner took, and divides
    the total dwell time by it as floats divide.  When the quotient is finite
    and its ceiling N is positive, N is the number of frames and total / N
    the per-frame dwell time given to the scanner; a quotient from 2^-1022
    to 2^53 is such a one, and N then lies between the floor and the ceiling
    of the exact quotient.  The frame thread starts the accumulator from the
    first frame with every value reduced modulo 2^32 (the conversion to
    uint32), adds to it every further frame of the same shape, element by
    element and modulo 2^32, and sums the dwell-time metadata; a frame of
    another shape is reported as an error and dropped.  Hence N frames of
    ones (N within the range of uint32), each with the per-frame dwell time,
    give N in every pixel and a dwell-time metadata equal to [total]. *)
Theorem frame_accumulation (rep : positive * positive) (roi : Q * Q * Q * Q)
    (total : Q) (sc : Scanner) (shp : list nat) (old : list DataArray) (errs : nat) :
  let asked := py_min total (snd (dwell_range sc)) in
  let quotient := fl total / fl (dwell_accept sc asked) in
  first_row_exists (const_frame shp 1 0) = true ->
  (asked <= total /\ asked <= snd (dwell_range sc) /\
   (asked = total \/ asked = snd (dwell_range sc))) /\
  (forall q, f64 quotient = Some q -> (0 < Qceiling q)%Z ->
   exists px_dt sc',
     _prepareHardware rep roi total sc = Ok (px_dt, Qceiling q, sc') /\
     px_dt == total / Z2Q (Qceiling q) /\
     dwellTime sc' = dwell_accept sc px_dt /\
     ((Qceiling q < 2 ^ 32)%Z ->
      exists r d,
        _frameThread (replicate (Z.to_nat (Qceiling q)) (const_frame shp 1 px_dt))
          {| raw := old; _new_acquisition := true; errors := errs |}
        = Running {| raw := [r]; _new_acquisition := false; errors := errs |} /\
        shape r = shp /\
        values r = replicate (prod shp) (Qceiling q) /\
        MD_DWELL_TIME (metadata r) = Some d /\
        d == total)) /\
  (/ 2 ^ 1022 <= quotient -> quotient <= 2 ^ 53 ->
   exists q, f64 quotient = Some q /\ (0 < Qceiling q)%Z /\
             (Qfloor quotient <= Qceiling q <= Qceiling quotient)%Z) /\
  (forall data f,
     _new_acquisition f = true -> first_row_exists data = true ->
     process_frame data f
     = Running {| raw := [{| shape := shape data;
                             values := map (fun v => (v mod 2 ^ 32)%Z) (values data);
                             metadata := metadata data |}];
                  _new_acquisition := false; errors := errors f |}) /\
  (forall data f r0 rest a b,
     _new_acquisition f = false -> raw f = r0 :: rest ->
     shape r0 = shape data -> first_row_exists data = true ->
     MD_DWELL_TIME (metadata r0) = Some a ->
     MD_DWELL_TIME (metadata data) = Some b ->
     process_frame data f
     = Running {| raw := {| shape := shape r0;
                            values := zip_with
                                        (fun x y => ((x + y mod 2 ^ 32) mod 2 ^ 32)%Z)
                                        (values r0) (values data);
                            metadata := set_MD_DWELL_TIME (a + b) (metadata r0) |} :: rest;
                  _new_acquisition := false; errors := errors f |}) /\
  (forall data f r0 rest,
     _new_acquisition f = false -> raw f = r0 :: rest ->
     shape r0 <> shape data ->
     process_frame data f
     = Running {| raw := raw f; _new_acquisition := false; errors := S (errors f) |}).
Proof.
  intros asked quotient Hrow.
  split; [apply py_min_spec |].
  split; [| split; [| split; [| split]]].
  - intros q Hq Hn.
    set (px1 := dwell_accept sc asked) in *.
    set (nfr := Qceiling q) in *.
    assert (HnQ : 0 < Z2Q nfr).
    { unfold Z2Q. change 0 with (inject_Z 0). rewrite <- Zlt_Qlt. exact Hn. }
    assert (Hpx : ~ fl px1 == 0).
    { intros E. unfold quotient in Hq.
      assert (E0 : fl total / fl px1 == 0).
      { unfold Qdiv. rewrite E. unfold Qinv. simpl. ring. }
      assert (Eb : Qeq_bool (fl total / fl px1) 0 = true) by (apply Qeq_bool_iff; exact E0).
      unfold f64 in Hq. rewrite Eb in Hq. subst nfr. injection Hq as <-.
      vm_compute in Hn. discriminate Hn. }
    unfold _prepareHardware.
    destruct (_computeROISettings rep sc roi) as [[scale0 res0] trans0].
    exists (total / Z2Q nfr). eexists.
    split; [| split; [reflexivity | split]].
    + cbn [write_roi write_dwellTime dwellTime dwell_range dwell_accept].
      fold asked. fold px1.
      rewrite (py_div_nonzero (fl total) (fl px1)) by exact Hpx. cbn [bind].
      fold quotient. rewrite Hq. cbn [of_option bind]. fold nfr.
      rewrite (py_div_nonzero total (Z2Q nfr)) by lra. cbn [bind].
      reflexivity.
    + reflexivity.
    + intros Hlt.
      assert (HN : Z.to_nat nfr = S (Z.to_nat nfr - 1)) by lia.
      rewrite HN. simpl replicate. cbn [_frameThread].
      unfold process_frame at 1. cbn [_new_acquisition].
      assert (Hrow' : first_row_exists (const_frame shp 1 (total / Z2Q nfr)) = true)
        by exact Hrow.
      rewrite Hrow'. cbn [negb].
      unfold astype_uint32, const_frame. cbn [shape values metadata errors].
      rewrite fmap_replicate. change (uint32 1) with 1%Z.
      destruct (accumulate_ones shp (total / Z2Q nfr) (Z.to_nat nfr - 1) Hrow' 1
                  (total / Z2Q nfr)
                  {| MD_POS := None; MD_PIXEL_SIZE := None; MD_ACQ_DATE := None;
                     MD_DWELL_TIME := Some (total / Z2Q nfr); MD_DESCRIPTION := None;
                     MD_AD_LIST := None |} errs ltac:(lia) ltac:(lia) eq_refl)
        as (r & d & Hrun & Hs & Hv & Hd & Eq).
      exists r, d. split; [exact Hrun |]. split; [exact Hs |]. split.
      * rewrite Hv. f_equal. lia.
      * split; [exact Hd |]. rewrite Eq.
        assert (EN : N2Q (Z.to_nat nfr - 1) == Z2Q nfr - 1).
        { unfold N2Q, Z2Q. rewrite Nat2Z.inj_sub by lia. rewrite Z2Nat.id by lia.
          simpl. unfold Zminus. rewrite inject_Z_plus. reflexivity. }
        rewrite EN. field. lra.
  - intros Hlo Hhi.
    assert (Hq0 : 0 < quotient).
    { apply Qlt_le_trans with (/ 2 ^ 1022); [| exact Hlo].
      apply Qinv_lt_0_compat, pow2_pos. }
    destruct (f64_defined quotient Hq0 Hhi) as (q & Hq & _).
    pose proof (f64_positive quotient q Hlo Hq) as Hpos.
    exists q. split; [exact Hq |]. split.
    + rewrite Zlt_Qlt. apply Qlt_le_trans with q; [exact Hpos | apply Qle_ceiling].
    + exact (f64_ceiling_bounds quotient q Hq0 Hhi Hq).
  - intros data f Hnew Hr. unfold process_frame. rewrite Hnew, Hr. reflexivity.
  - intros data f r0 rest a b Hnew Hraw Hs Hr Ha Hb.
    unfold process_frame. rewrite Hnew, Hraw, Hs, shape_eqb_refl, Hr. cbn [negb].
    cbn [metadata astype_uint32]. rewrite Ha, Hb.
    unfold with_metadata, iadd_uint32. cbn [shape values metadata].
    unfold astype_uint32. cbn [values errors].
    rewrite zip_with_fmap_r. reflexivity.
  - intros data f r0 rest Hnew Hraw Hs.
    unfold process_frame. rewrite Hnew, Hraw.
    unfold shape_eqb. rewrite bool_decide_eq_false_2 by exact Hs. reflexivity.
Qed.

Lemma frame_accumulation_witness :
  exists px_dt sc' r d,
    _prepareHardware (1%positive, 1%positive) (0, 0, 1, 1) 0.1 fast_scanner
    = Ok (px_dt, 10%Z, sc') /\
    _frameThread (replicate 10 (const_frame [2%nat; 2%nat] 1 px_dt))
      {| raw := []; _new_acquisition := true; errors := 0 |}
    = Running {| raw := [r]; _new_acquisition := false; errors := 0 |} /\
    values r = [10%Z; 10%Z; 10%Z; 10%Z] /\
    MD_DWELL_TIME (metadata r) = Some d /\ d == 0.1.
Proof.
  destruct (frame_accumulation (1%positive, 1%positive) (0, 0, 1, 1) 0.1 fast_scanner
              [2%nat; 2%nat] [] 0 eq_refl)
    as (_ & Hp & _).
  assert (Hq : exists q, f64 (fl 0.1 / fl 0.01) = Some q /\ Qceiling q = 10%Z).
  { vm_compute. eexists. split; reflexivity. }
  destruct Hq as (q & Hq & Hc).
  destruct (Hp q Hq ltac:(rewrite Hc; reflexivity))
    as (px_dt & sc' & Hp' & _ & _ & Hrun).
  rewrite Hc in Hp', Hrun.
  destruct (Hrun ltac:(reflexivity)) as (r & d & Hr & _ & Hv & Hd & Eq).
  exists px_dt, sc', r, d. auto.
Defined.

(** ** The scan stage variant *)

Import SEMCCDMDStream.

Lemma chain4_true (a b c d : Q) :
  chain4 a b c d = true <-> a <= b /\ b <= c /\ c <= d.
Proof.
  unfold chain4. rewrite !andb_true_iff, !Qle_bool_iff. tauto.
Qed.

(** The call of the worker: the warning when the stage is off its centre,
    then the grid or OutOfRange. *)
Lemma getScanStagePositions_call (s : Settings) (st : ScanStage) (e : Engine) :
  let warn := if Binary64.off_centre st then [Log WARNING] else [] in
  Binary64._getScanStagePositions s st e
  = if Binary64.in_range s st
    then Next (Binary64.grid s st) (set_trace (trace e ++ warn) e)
    else Throw (ValueError OutOfRange) (set_trace (trace e ++ warn) e).
Proof.
  unfold Binary64._getScanStagePositions. unfold bindM.
  destruct (Binary64.off_centre st); destruct (Binary64.in_range s st);
    cbn; unfold emit; rewrite ?app_nil_r; destruct e; reflexivity.
Qed.





(** ** The retry loop of the camera-synchronised acquisition *)

Lemma deliver_all_app (a b : list Event) (e : Engine) :
  deliver_all (a ++ b) e = deliver_all b (deliver_all a e).
Proof. unfold deliver_all. apply fold_left_app. Qed.

Lemma no_cancel_app (a b : list Event) :
  no_cancel (a ++ b) = no_cancel a && no_cancel b.
Proof. unfold no_cancel. apply forallb_app. Qed.

(** Without cancellation, what the other threads do to stream [k] is to
    append the first valid array pushed to it, if its event is clear. *)
Lemma deliver_all_accepted (k : nat) (start : Q) (evs : list Event) :
  forall (e : Engine) (ad : list DataArray) (b : bool),
    well_formed e -> (k < length (streams e))%nat ->
    _acq_min_date e = Some start ->
    no_cancel evs = true ->
    _acq_data e !! k = Some ad ->
    _acq_complete e !! k = Some b ->
    let e' := deliver_all evs e in
    well_formed e' /\ streams e' = streams e /\
    _acq_state e' = _acq_state e /\ _acq_min_date e' = Some start /\
    _acq_data e' !! k
      = Some (ad ++ (if b then [] else option_list (accepted k start evs))) /\
    _acq_complete e' !! k
      = Some (b || match accepted k start evs with Some _ => true | None => false end).
Proof.
  induction evs as [| ev evs IH]; intros e ad b Hwf Hk Hm Hnc Ha Hb; simpl.
  - repeat split; try assumption; try apply Hwf.
    + destruct b; rewrite app_nil_r; exact Ha.
    + rewrite orb_false_r. exact Hb.
  - simpl in Hnc. apply andb_true_iff in Hnc. destruct Hnc as [Hev Hnc].
    destruct ev as [m d |]; [| discriminate Hev]. cbn [deliver accepted].
    destruct (_onData m d e) as [e1 |] eqn:E.
    + pose proof E as E'. apply onData_Ok in E'.
      destruct E' as [Hm' [[He ->] | [(He & Ht & ->) | (He & Hf & ad' & Ha' & ->)]]].
      * (* too early *)
        rewrite Hm in He. cbn [too_early] in He. rewrite He. rewrite andb_false_r.
        assert (W : well_formed (emit (Log WARNING) e)) by (destruct e; exact Hwf).
        destruct (IH (emit (Log WARNING) e) ad b W) as (I1 & I2 & I3 & I4 & I5 & I6);
          try (destruct e; assumption).
        repeat split; try assumption; try apply I1.
        { rewrite I2. destruct e; reflexivity. }
        { rewrite I3. destruct e; reflexivity. }
      * (* event already set *)
        rewrite Hm in He. cbn [too_early] in He. rewrite He. cbn [negb]. rewrite andb_true_r.
        destruct (Nat.eqb_spec m k) as [-> | Hne].
        { assert (b = true) by congruence. subst b.
          destruct (IH e ad true Hwf Hk Hm Hnc Ha Hb) as (I1 & I2 & I3 & I4 & I5 & I6).
          repeat split; try assumption; apply I1. }
        { destruct (IH e ad b Hwf Hk Hm Hnc Ha Hb) as (I1 & I2 & I3 & I4 & I5 & I6).
          repeat split; try assumption; apply I1. }
      * (* appended *)
        rewrite Hm in He. cbn [too_early] in He. rewrite He. cbn [negb]. rewrite andb_true_r.
        set (e1 := set_acq_complete _ _).
        assert (W : well_formed e1).
        { destruct Hwf as (W1 & W2 & W3 & W4). unfold e1. destruct e. simpl in *.
          unfold well_formed. simpl. rewrite !length_insert. auto. }
        assert (S1 : streams e1 = streams e) by (unfold e1; destruct e; reflexivity).
        assert (S2 : _acq_state e1 = _acq_state e) by (unfold e1; destruct e; reflexivity).
        assert (S3 : _acq_min_date e1 = Some start) by (unfold e1; destruct e; exact Hm).
        assert (D1 : _acq_data e1 = <[m := ad' ++ [d]]> (_acq_data e))
          by (unfold e1; destruct e; reflexivity).
        assert (C1 : _acq_complete e1 = <[m := true]> (_acq_complete e))
          by (unfold e1; destruct e; reflexivity).
        destruct (Nat.eqb_spec m k) as [-> | Hne].
        { assert (b = false) by congruence. subst b.
          assert (ad' = ad) by congruence. subst ad'.
          destruct (IH e1 (ad ++ [d]) true W) as (I1 & I2 & I3 & I4 & I5 & I6);
            try assumption.
          { rewrite S1. exact Hk. }
          { rewrite D1. apply list_lookup_insert_eq. apply lookup_lt_Some in Ha. exact Ha. }
          { rewrite C1. apply list_lookup_insert_eq. apply lookup_lt_Some in Hb. exact Hb. }
          repeat split; try assumption; try apply I1; try congruence.
          rewrite I5. rewrite app_nil_r. reflexivity. }
        { destruct (IH e1 ad b W) as (I1 & I2 & I3 & I4 & I5 & I6); try assumption.
          { rewrite S1. exact Hk. }
          { rewrite D1, list_lookup_insert_ne by exact Hne. exact Ha. }
          { rewrite C1, list_lookup_insert_ne by exact Hne. exact Hb. }
          repeat split; try assumption; try apply I1; congruence. }
    + (* the callback raised: the index is not one of a stream *)
      assert (Hne : (m =? k)%nat = false).
      { apply Nat.eqb_neq. intros ->.
        destruct (onData_total k d e Hwf Hk) as [e1 E1]. congruence. }
      rewrite Hne. cbn [andb].
      apply IH; assumption.
Qed.

Lemma set_fields_state (att : Attempt) (e : Engine) :
  _acq_state (clear_events (set_acq_min_date (Some (att_start att)) e)) = _acq_state e.
Proof. destruct e; reflexivity. Qed.

Lemma arm_eval (att : Attempt) (e : Engine) :
  arm att e =
  if AcqState_eqb (_acq_state (at_start att e)) CANCELLED
  then Throw CancelledError
         (clear_events (set_acq_min_date (Some (att_start att)) (at_start att e)))
  else Next tt (armed att e).
Proof.
  unfold arm, armed, at_start, bindM, modify, check_cancelled, get, call, throw, ret.
  unfold bindM, get, throw, ret. cbv zeta.
  rewrite set_fields_state.
  destruct (AcqState_eqb (_acq_state (deliver_all (att_before att) e)) CANCELLED);
    reflexivity.
Qed.

Lemma armed_streams (att : Attempt) (e : Engine) : streams (armed att e) = streams e.
Proof.
  unfold armed, at_start, for_each. cbv zeta.
  set (e0 := clear_events (set_acq_min_date (Some (att_start att))
                             (deliver_all (att_before att) e))).
  assert (H0 : streams e0 = streams e).
  { rewrite <- (deliver_all_streams (att_before att) e). unfold e0.
    destruct (deliver_all (att_before att) e); reflexivity. }
  rewrite <- H0. generalize (sem_ids e0). intros l. revert e0 H0.
  induction l as [| i l IH]; intros e0 H0; simpl.
  - destruct e0; reflexivity.
  - assert (H1 : forall st, streams (fold_left (fun st i => df_subscribe i st) l st)
                            = streams st).
    { clear. induction l as [| j l IH]; intros st; simpl; [reflexivity |].
      rewrite IH. destruct st; reflexivity. }
    transitivity (streams (emit Notify (emit (Sleep 0.01) (df_subscribe i e0)))).
    + destruct (fold_left _ l (df_subscribe i e0)) eqn:E.
      pose proof (H1 (df_subscribe i e0)) as H2. rewrite E in H2. simpl in H2.
      simpl. rewrite H2. destruct e0; reflexivity.
    + destruct e0; reflexivity.
Qed.

(** How a pass goes, in terms of the engine when the wait on the camera ends
    and when the outcome is decided. *)
Lemma attempt_eval (c : Config) (patch : M unit) (leech_pre : nat -> Locals -> M Locals)
    (att : Attempt) (failures : nat) (loc : Locals) (e : Engine) :
  attempt c patch leech_pre att failures loc e =
  if AcqState_eqb (_acq_state (at_start att e)) CANCELLED
  then Throw CancelledError
         (clear_events (set_acq_min_date (Some (att_start att)) (at_start att e)))
  else
    match _acq_complete (at_wait_end att e) !! last_id e with
    | None => Throw IndexError (at_wait_end att e)
    | Some got =>
      if AcqState_eqb (_acq_state (at_check att e)) CANCELLED
      then Throw CancelledError (at_check att e)
      else if negb got || Qlt_bool (att_dur att) (rep_time c * 0.95)
           then on_failure (n_done loc) failures (at_check att e)
           else on_acquired c patch leech_pre att loc (at_check att e)
    end.
Proof.
  unfold attempt. unfold bindM at 1. rewrite arm_eval.
  destruct (AcqState_eqb (_acq_state (at_start att e)) CANCELLED); [reflexivity |].
  unfold bindM at 1. unfold get at 1.
  unfold bindM at 1. unfold wait_event. unfold bindM at 1. unfold modify at 1.
  unfold bindM at 1. unfold get at 1. unfold lift at 1.
  fold (at_wait_end att e).
  replace (last_id (armed att e)) with (last_id e)
    by (unfold last_id; rewrite armed_streams; reflexivity).
  destruct (_acq_complete (at_wait_end att e) !! last_id e) as [got |]; [| reflexivity].
  cbn [of_option].
  unfold bindM at 1. unfold modify at 1. fold (at_check att e).
  unfold bindM at 1. unfold check_cancelled. unfold bindM at 1. unfold get at 1.
  destruct (AcqState_eqb (_acq_state (at_check att e)) CANCELLED); [reflexivity |].
  unfold ret. destruct (negb got || Qlt_bool (att_dur att) (rep_time c * 0.95)); reflexivity.
Qed.

Lemma on_failure_eval (n failures : nat) (e : Engine) :
  on_failure n failures e =
  if (3 <=? S failures)%nat
  then Throw (IOError SyncFailure) (emit (Log WARNING) e)
  else Next (Continue (S failures))
         (df_subscribe (last_id e)
            (emit (Sleep 1)
               (for_each (stream_ids e) (drop_run n) (emit (Log WARNING) e)))).
Proof.
  unfold on_failure, bindM, call, modify, get, throw, ret.
  destruct (3 <=? S failures)%nat; [reflexivity |].
  destruct e; reflexivity.
Qed.

Lemma fold_alter_length {A : Type} (f : A -> A) (idx : list nat) (l : list A) :
  length (fold_left (fun l i => alter f i l) idx l) = length l.
Proof.
  revert l. induction idx as [| i idx IH]; intros l; simpl; [reflexivity |].
  rewrite IH, length_alter. reflexivity.
Qed.

Lemma fold_alter_lookup {A : Type} (f : A -> A) (idx : list nat) (l : list A) (i : nat) :
  List.NoDup idx ->
  fold_left (fun l i => alter f i l) idx l !! i
  = if in_dec Nat.eq_dec i idx then f <$> l !! i else l !! i.
Proof.
  revert l. induction idx as [| j idx IH]; intros l Hnd; simpl; [reflexivity |].
  inversion Hnd as [| ? ? Hj Hnd']; subst.
  rewrite IH by exact Hnd'.
  destruct (Nat.eq_dec j i) as [-> | Hne].
  - destruct (in_dec Nat.eq_dec i idx); [contradiction |].
    apply list_lookup_alter_eq.
  - destruct (in_dec Nat.eq_dec i idx);
      rewrite list_lookup_alter_ne by exact Hne; reflexivity.
Qed.

Lemma fold_alter_all {A : Type} (f : A -> A) (l : list A) :
  fold_left (fun l i => alter f i l) (seq 0 (length l)) l = map f l.
Proof.
  apply list_eq. intros i.
  rewrite fold_alter_lookup by apply List.seq_NoDup.
  change (map f l) with (f <$> l). rewrite list_lookup_fmap.
  destruct (in_dec Nat.eq_dec i (seq 0 (length l))) as [Hi | Hi]; [reflexivity |].
  assert (Hge : (length l <= i)%nat).
  { destruct (le_lt_dec (length l) i) as [H | H]; [exact H |].
    exfalso. apply Hi. apply in_seq. lia. }
  rewrite (lookup_ge_None_2 l i Hge). reflexivity.
Qed.

Lemma for_each_drop_run (n : nat) (idx : list nat) (e : Engine) :
  for_each idx (drop_run n) e =
  set_trace (trace e ++ map Unsubscribe idx)
    (set_subscribed (fold_left (fun l i => <[i := false]> l) idx (subscribed e))
       (set_acq_data (fold_left (fun l i => alter (take n) i l) idx (_acq_data e)) e)).
Proof.
  unfold for_each. revert e. induction idx as [| i idx IH]; intros e.
  - destruct e. simpl. rewrite app_nil_r. reflexivity.
  - simpl. rewrite IH. destruct e. simpl. rewrite <- app_assoc. reflexivity.
Qed.

Lemma for_each_subscribe (idx : list nat) (e : Engine) :
  for_each idx df_subscribe e =
  set_trace (trace e ++ map Subscribe idx)
    (set_subscribed (fold_left (fun l i => <[i := true]> l) idx (subscribed e)) e).
Proof.
  unfold for_each. revert e. induction idx as [| i idx IH]; intros e.
  - destruct e. simpl. rewrite app_nil_r. reflexivity.
  - simpl. rewrite IH. destruct e. simpl. rewrite <- app_assoc. reflexivity.
Qed.

Lemma deliver_all_well_formed (evs : list Event) (e : Engine) :
  well_formed e ->
  well_formed (deliver_all evs e) /\ streams (deliver_all evs e) = streams e.
Proof.
  revert e. induction evs as [| ev evs IH]; intros e Hwf; simpl; [auto |].
  destruct (deliver_well_formed ev e Hwf) as [W S1].
  destruct (IH _ W) as [W' S2]. split; [exact W' | congruence].
Qed.

Lemma armed_well_formed (att : Attempt) (e : Engine) :
  well_formed e -> well_formed (armed att e).
Proof.
  intros Hwf.
  destruct (deliver_all_well_formed (att_before att) e Hwf) as [(W1 & W2 & W3 & W4) _].
  unfold armed, at_start. cbv zeta.
  rewrite for_each_subscribe. destruct (deliver_all (att_before att) e).
  unfold well_formed. simpl in *.
  rewrite length_map, fold_insert_length. auto.
Qed.

Lemma at_check_well_formed (att : Attempt) (e : Engine) :
  well_formed e ->
  well_formed (at_check att e) /\ streams (at_check att e) = streams e.
Proof.
  intros Hwf. unfold at_check, at_wait_end.
  pose proof (armed_well_formed att e Hwf) as W0.
  destruct (deliver_all_well_formed (att_wait att) _ W0) as [W1 S1].
  destruct (deliver_all_well_formed (att_late att) _ W1) as [W2 S2].
  split; [exact W2 |]. rewrite S2, S1. apply armed_streams.
Qed.

(** The retry step.  In a pass that is not cancelled, when the wait on the
    camera event timed out or the pass took less than 95 % of the time of a
    pixel: a failure (the first or the second) makes the worker log a
    warning, unsubscribe every dataflow, cut every accumulator back to the
    [n] pixels acquired, sleep 1 s, subscribe the camera again and go for
    another pass on the same pixel; the third failure raises SyncFailure. *)
Lemma attempt_failure_step (c : Config) (patch : M unit)
    (leech_pre : nat -> Locals -> M Locals)
    (att : Attempt) (failures : nat) (loc : Locals) (e : Engine) (got : bool) :
  well_formed e ->
  _acq_state (at_start att e) <> CANCELLED ->
  _acq_complete (at_wait_end att e) !! last_id e = Some got ->
  _acq_state (at_check att e) <> CANCELLED ->
  got = false \/ att_dur att < rep_time c * 0.95 ->
  ((failures < 2)%nat ->
   exists e',
     attempt c patch leech_pre att failures loc e = Next (Continue (S failures)) e' /\
     _acq_data e' = map (take (n_done loc)) (_acq_data (at_check att e)) /\
     (forall i, (i < length (streams e))%nat ->
                subscribed e' !! i = Some (bool_decide (i = last_id e))) /\
     trace e' = trace (at_check att e) ++ [Log WARNING]
                ++ map Unsubscribe (stream_ids e) ++ [Sleep 1; Subscribe (last_id e)] /\
     streams e' = streams e /\ _acq_state e' = _acq_state (at_check att e) /\
     _acq_min_date e' = _acq_min_date (at_check att e) /\
     well_formed e') /\
  ((2 <= failures)%nat ->
   attempt c patch leech_pre att failures loc e
   = Throw (IOError SyncFailure) (emit (Log WARNING) (at_check att e))).
Proof.
  intros Hwf Hst Hgot Hst' Hfail.
  destruct (at_check_well_formed att e Hwf) as [(Hlc & Hld & Hls & Hly) Hss].
  rewrite Hss in Hlc, Hld, Hls, Hly.
  rewrite attempt_eval, Hgot.
  apply AcqState_eqb_neq in Hst. rewrite Hst.
  apply AcqState_eqb_neq in Hst'. rewrite Hst'.
  assert (Hc : negb got || Qlt_bool (att_dur att) (rep_time c * 0.95) = true).
  { destruct Hfail as [-> | Hd]; [reflexivity |].
    apply Qlt_bool_iff in Hd. rewrite Hd. apply orb_true_r. }
  rewrite Hc, on_failure_eval. split.
  - intros Hf.
    assert (Hlt : (3 <=? S failures)%nat = false) by (apply Nat.leb_gt; lia).
    rewrite Hlt. eexists. split; [reflexivity |].
    rewrite for_each_drop_run.
    set (e1 := at_check att e) in *.
    unfold stream_ids, last_id.
    destruct e1 as [sts a cpl dat md ps rw arw sub syn fe ss tr] eqn:E1.
    simpl in *. subst sts.
    split_all; try reflexivity.
    + rewrite <- Hld. apply fold_alter_all.
    + intros i Hi.
      destruct (Nat.eq_dec i (pred (length (streams e)))) as [-> | Hne].
      * rewrite bool_decide_eq_true_2 by reflexivity.
        apply list_lookup_insert_eq. rewrite fold_insert_length. lia.
      * rewrite bool_decide_eq_false_2 by exact Hne.
        rewrite list_lookup_insert_ne by congruence.
        apply fold_insert_lookup_in; [apply in_seq; lia | lia].
    + rewrite <- !app_assoc. reflexivity.
    + unfold well_formed. simpl.
      rewrite fold_alter_length, length_insert, fold_insert_length. auto.
  - intros Hf.
    assert (Hge : (3 <=? S failures)%nat = true) by (apply Nat.leb_le; lia).
    rewrite Hge. reflexivity.
Qed.

Lemma list_two {A : Type} (l : list A) (x y : A) :
  length l = 2%nat -> l !! 0%nat = Some x -> l !! 1%nat = Some y -> l = [x; y].
Proof.
  destruct l as [| a [| b [| ? ?]]]; simpl; intros H H0 H1; try discriminate.
  congruence.
Qed.

Lemma emit_fields (a : Action) (e : Engine) :
  streams (emit a e) = streams e /\ _acq_state (emit a e) = _acq_state e /\
  _acq_complete (emit a e) = _acq_complete e /\ _acq_data (emit a e) = _acq_data e /\
  _acq_min_date (emit a e) = _acq_min_date e /\
  subscribed (emit a e) = subscribed e /\ synchronized (emit a e) = synchronized e /\
  (well_formed e -> well_formed (emit a e)).
Proof. destruct e. simpl. split_all; try reflexivity. intros H. exact H. Qed.

Lemma updateProgress_fields (now dur : Q) (n tot : Z) (bonus : Q) (e : Engine) :
  let e' := _updateProgress now dur n tot bonus e in
  streams e' = streams e /\ _acq_state e' = _acq_state e /\
  _acq_complete e' = _acq_complete e /\ _acq_data e' = _acq_data e /\
  _acq_min_date e' = _acq_min_date e /\
  subscribed e' = subscribed e /\ synchronized e' = synchronized e /\
  (well_formed e -> well_formed e').
Proof.
  unfold _updateProgress. destruct (n <=? 1)%Z.
  - split_all; try reflexivity. intros H. exact H.
  - destruct e. simpl. split_all; try reflexivity. intros H. exact H.
Qed.

(** With two streams whose events are set and nobody cancelling, what the
    other threads push changes neither the accumulators nor the events. *)
Lemma deliver_all_ignored (start : Q) (evs : list Event) (e : Engine)
    (d0 d1 : list DataArray) :
  well_formed e -> length (streams e) = 2%nat ->
  _acq_min_date e = Some start -> no_cancel evs = true ->
  _acq_data e = [d0; d1] -> _acq_complete e = [true; true] ->
  let e' := deliver_all evs e in
  well_formed e' /\ streams e' = streams e /\ _acq_state e' = _acq_state e /\
  _acq_min_date e' = Some start /\
  _acq_data e' = [d0; d1] /\ _acq_complete e' = [true; true].
Proof.
  intros Hwf Hl Hm Hnc Hd Hc e'.
  destruct (deliver_all_accepted 0 start evs e d0 true Hwf ltac:(lia) Hm Hnc)
    as (W & S1 & S2 & S3 & A0 & C0); [rewrite Hd; reflexivity | rewrite Hc; reflexivity |].
  destruct (deliver_all_accepted 1 start evs e d1 true Hwf ltac:(lia) Hm Hnc)
    as (_ & _ & _ & _ & A1 & C1); [rewrite Hd; reflexivity | rewrite Hc; reflexivity |].
  fold e' in W, S1, S2, S3, A0, C0, A1, C1.
  rewrite app_nil_r in A0, A1. simpl in C0, C1.
  destruct W as (W1 & W2 & W3 & W4).
  repeat split; try assumption.
  - apply list_two; [rewrite W2, S1; exact Hl | exact A0 | exact A1].
  - apply list_two; [rewrite W1, S1; exact Hl | exact C0 | exact C1].
Qed.

(** The leeches after a pixel of the e-beam scan: they run, in order, and
    leave the buffers as they are when nobody cancels. *)
Lemma leech_loop_ok (start : Q) (att : Attempt) (lis : list nat) :
  forall (loc : Locals) (e : Engine) (d0 d1 : list DataArray),
    (forall li, In li lis -> (li < length (leech_np loc))%nat) ->
    (forall li, no_cancel (att_leech_ev att li) = true) ->
    well_formed e -> length (streams e) = 2%nat -> _acq_state e = RUNNING ->
    _acq_min_date e = Some start ->
    _acq_data e = [d0; d1] -> _acq_complete e = [true; true] ->
    exists loc' e',
      leech_loop (fun _ l => ret l) att lis loc e = Next loc' e' /\
      n_done loc' = n_done loc /\
      length (leech_np loc') = length (leech_np loc) /\
      well_formed e' /\ streams e' = streams e /\ _acq_state e' = RUNNING /\
      _acq_min_date e' = Some start /\
      _acq_data e' = [d0; d1] /\ _acq_complete e' = [true; true].
Proof.
  induction lis as [| li lis IH]; intros loc e d0 d1 Hin Hnc Hwf Hl Hs Hm Hd Hc.
  - exists loc, e. simpl. unfold ret. split_all; try assumption; reflexivity.
  - cbn [leech_loop].
    destruct (lookup_lt_is_Some_2 (leech_np loc) li (Hin li (or_introl eq_refl)))
      as [np Enp].
    unfold bindM at 1. unfold lift at 1. rewrite Enp. cbn [of_option].
    destruct np as [np |].
    + destruct (np - 1 =? 0)%Z.
      * unfold bindM at 1. unfold ret at 1.
        unfold bindM at 1. unfold call at 1, modify at 1.
        unfold bindM at 1. unfold modify at 1.
        set (loc1 := set_leech_np _ (set_leech_np _ loc)).
        set (e1 := deliver_all (att_leech_ev att li) (emit (LeechNext li) e)).
        destruct (emit_fields (LeechNext li) e) as (F1 & F2 & F3 & F4 & F5 & _ & _ & F8).
        destruct (deliver_all_ignored start (att_leech_ev att li) (emit (LeechNext li) e)
                    d0 d1 (F8 Hwf) ltac:(congruence) ltac:(congruence) (Hnc li)
                    ltac:(congruence) ltac:(congruence))
          as (W & S1 & S2 & S3 & S4 & S5). fold e1 in W, S1, S2, S3, S4, S5.
        unfold bindM at 1. unfold check_cancelled at 1. unfold bindM at 1. unfold get at 1.
        assert (Hr : _acq_state e1 = RUNNING) by congruence.
        rewrite Hr. cbn [AcqState_eqb]. unfold ret at 1.
        destruct (IH loc1 e1 d0 d1) as (loc' & e' & Hrun & N1 & N2 & R);
          try assumption; try congruence.
        { intros lj Hj. unfold loc1. simpl. rewrite !length_insert.
          apply Hin. right. exact Hj. }
        exists loc', e'. split; [exact Hrun |].
        split; [rewrite N1; reflexivity |].
        split; [rewrite N2; unfold loc1; simpl; rewrite !length_insert; reflexivity |].
        destruct R as (R1 & R2 & R3 & R4 & R5 & R6).
        split_all; try assumption. congruence.
      * set (loc1 := set_leech_np _ loc).
        destruct (IH loc1 e d0 d1) as (loc' & e' & Hrun & N1 & N2 & R); try assumption.
        { intros lj Hj. unfold loc1. simpl. rewrite length_insert.
          apply Hin. right. exact Hj. }
        exists loc', e'. split; [exact Hrun |].
        split; [rewrite N1; reflexivity |].
        split; [rewrite N2; unfold loc1; simpl; rewrite length_insert; reflexivity |].
        exact R.
    + destruct (IH loc e d0 d1) as (loc' & e' & Hrun & R); try assumption.
      { intros lj Hj. apply Hin. right. exact Hj. }
      exists loc', e'. split; [exact Hrun | exact R].
Qed.

(** *** Passes of the two-stream engine *)

Lemma acquiring_shape (ss cs : nat * nat) (n : nat) (e : Engine) :
  acquiring ss cs n e ->
  exists s0 s1 c0 c1 a0 a1,
    streams e = [s0; s1] /\ _acq_complete e = [c0; c1] /\ _acq_data e = [a0; a1] /\
    length a0 = n /\ length a1 = n /\
    Forall (tile_ok ss) a0 /\ Forall (tile_ok cs) a1.
Proof.
  intros ((Hwf & Hl & Hs) & a0 & a1 & Hd & L0 & L1 & F0 & F1).
  destruct Hwf as (W1 & _).
  destruct (streams e) as [| s0 [| s1 [| ? ?]]] eqn:Es; try discriminate Hl.
  destruct (_acq_complete e) as [| c0 [| c1 [| ? ?]]] eqn:Ec; try discriminate W1.
  exists s0, s1, c0, c1, a0, a1. auto 10.
Qed.

(** The engine right after the trigger. *)
Lemma armed_acquiring (ss cs : nat * nat) (n : nat) (att : Attempt) (e : Engine)
    (a0 a1 : list DataArray) :
  att_before att = [] ->
  acquiring ss cs n e -> _acq_data e = [a0; a1] ->
  well_formed (armed att e) /\ streams (armed att e) = streams e /\
  _acq_state (armed att e) = RUNNING /\
  _acq_min_date (armed att e) = Some (att_start att) /\
  _acq_data (armed att e) = [a0; a1] /\
  _acq_complete (armed att e) = [false; false].
Proof.
  intros Hb Hacq Hd.
  destruct (acquiring_shape _ _ _ _ Hacq) as (s0 & s1 & c0 & c1 & ? & ? & Es & Ec & _).
  destruct Hacq as ((Hwf & Hl & Hs) & _).
  unfold armed, at_start, sem_ids, for_each. rewrite Hb. cbn [deliver_all fold_left].
  destruct e as [sts a cpl dat md ps rw arw sub syn fe sg tr].
  simpl in *. subst. simpl.
  destruct Hwf as (W1 & W2 & W3 & W4). simpl in *.
  unfold well_formed. simpl. rewrite length_insert. auto 10.
Qed.

Lemma accepted_app_Some (k : nat) (start : Q) (a b : list Event) (d : DataArray) :
  accepted k start a = Some d -> accepted k start (a ++ b) = Some d.
Proof.
  induction a as [| ev a IH]; cbn [accepted app]; [discriminate |].
  destruct ev as [m x |]; [| exact IH].
  destruct ((m =? k)%nat && negb (too_early (Some start) x)); [auto | exact IH].
Qed.

Lemma take_app_length' {A : Type} (l k : list A) (n : nat) :
  length l = n -> take n (l ++ k) = l.
Proof. intros <-. apply take_app_length. Qed.

(** What a failing pass leaves: the engine is as before the pass, up to the
    trace and the subscriptions. *)
Lemma attempt_failing_ok (c : Config) (patch : M unit)
    (leech_pre : nat -> Locals -> M Locals) (ss cs : nat * nat)
    (att : Attempt) (failures : nat) (loc : Locals) (e : Engine) :
  acquiring ss cs (n_done loc) e ->
  failing c att ->
  ((failures < 2)%nat ->
   exists e', attempt c patch leech_pre att failures loc e
              = Next (Continue (S failures)) e' /\
              acquiring ss cs (n_done loc) e') /\
  ((2 <= failures)%nat ->
   exists e', attempt c patch leech_pre att failures loc e
              = Throw (IOError SyncFailure) e' /\
              streams e' = streams e /\ _acq_state e' = RUNNING).
Proof.
  intros Hacq (Hb & Hn1 & Hn2 & Hfail).
  destruct (acquiring_shape _ _ _ _ Hacq)
    as (s0 & s1 & c0 & c1 & a0 & a1 & Es & Ec & Ed & L0 & L1 & F0 & F1).
  destruct (armed_acquiring _ _ _ att e a0 a1 Hb Hacq Ed) as (W & S1 & S2 & S3 & S4 & S5).
  assert (Hst0 : at_start att e = e) by (unfold at_start; rewrite Hb; reflexivity).
  pose proof Hacq as ((Hwf & Hl & Hs) & _).
  assert (Hl' : length (streams (armed att e)) = 2%nat) by congruence.
  (* when the wait on the camera ends *)
  destruct (deliver_all_accepted 1 (att_start att) (att_wait att) (armed att e) a1 false
              W ltac:(lia) S3 Hn1)
    as (W1 & T1 & T2 & T3 & _ & T5);
    [rewrite S4; reflexivity | rewrite S5; reflexivity |].
  fold (at_wait_end att e) in W1, T1, T2, T3, T5. cbn [orb] in T5.
  (* when the outcome is decided *)
  assert (Hnc : no_cancel (att_wait att ++ att_late att) = true)
    by (rewrite no_cancel_app, Hn1, Hn2; reflexivity).
  assert (Hck : at_check att e = deliver_all (att_wait att ++ att_late att) (armed att e))
    by (unfold at_check, at_wait_end; rewrite deliver_all_app; reflexivity).
  destruct (deliver_all_accepted 0 (att_start att) _ (armed att e) a0 false
              W ltac:(lia) S3 Hnc)
    as (W2 & U1 & U2 & U3 & U4 & _);
    [rewrite S4; reflexivity | rewrite S5; reflexivity |].
  destruct (deliver_all_accepted 1 (att_start att) _ (armed att e) a1 false
              W ltac:(lia) S3 Hnc)
    as (_ & _ & _ & _ & V4 & _);
    [rewrite S4; reflexivity | rewrite S5; reflexivity |].
  rewrite <- Hck in W2, U1, U2, U3, U4, V4.
  assert (Hdat : _acq_data (at_check att e)
                 = [a0 ++ option_list (accepted 0 (att_start att) (att_wait att ++ att_late att));
                    a1 ++ option_list (accepted 1 (att_start att) (att_wait att ++ att_late att))]).
  { apply list_two; [| exact U4 | exact V4].
    destruct W2 as (_ & W2 & _). rewrite W2, U1, S1. exact Hl. }
  assert (Hlast : last_id e = 1%nat) by (unfold last_id; rewrite Hl; reflexivity).
  assert (Hgot : exists got, _acq_complete (at_wait_end att e) !! last_id e = Some got /\
                             (got = false \/ att_dur att < rep_time c * 0.95)).
  { rewrite Hlast, T5. eexists. split; [reflexivity |].
    destruct Hfail as [-> | Hd]; [left; reflexivity | right; exact Hd]. }
  destruct Hgot as (got & Hgot & Hor).
  destruct (attempt_failure_step c patch leech_pre att failures loc e got Hwf
              ltac:(rewrite Hst0; congruence) Hgot ltac:(congruence) Hor)
    as [Hretry Hgiveup].
  split.
  - intros Hf. destruct (Hretry Hf) as (e' & Hrun & D & _ & _ & R1 & R2 & R3 & R4).
    exists e'. split; [exact Hrun |].
    split; [unfold ready; split_all; [exact R4 | congruence | congruence] |].
    exists a0, a1. rewrite D, Hdat. simpl.
    rewrite !take_app_length' by assumption. auto.
  - intros Hf. rewrite (Hgiveup Hf). eexists. split; [reflexivity |].
    destruct (emit_fields (Log WARNING) (at_check att e)) as (F1' & F2' & _).
    split; congruence.
Qed.

(** The rest of a pass of the two-stream engine once the camera answered. *)
Lemma on_acquired_eval2 (c : Config) (patch : M unit)
    (leech_pre : nat -> Locals -> M Locals) (att : Attempt) (loc : Locals)
    (e1 : Engine) :
  length (streams e1) = 2%nat ->
  on_acquired c patch leech_pre att loc e1 =
  let e2 := deliver_all (att_sem att 0) e1 in
  match _acq_complete e2 !! 0%nat with
  | None => Throw IndexError e2
  | Some false => Throw (TimeoutError SEMPixelTimeout) e2
  | Some true =>
    let e3 := df_unsubscribe 0 e2 in
    if AcqState_eqb (_acq_state e3) CANCELLED then Throw CancelledError e3
    else
      match patch e3 with
      | Next _ e4 =>
        let n := S (n_done loc) in
        let e5 := _updateProgress (att_now att) (att_dur_done att)
                    (Z.of_nat n) (Z.of_nat (tot_num c))
                    (N2Q (tot_num c - n) * (snd (start_leeches c) / N2Q (tot_num c)))
                    e4 in
        match leech_loop leech_pre att (seq 0 (length (leeches c)))
                (set_n_done n loc) e5 with
        | Next loc' e6 => Next (Break loc') e6
        | Throw ex e6 => Throw ex e6
        | OutOfFuel => OutOfFuel
        end
      | Throw ex e4 => Throw ex e4
      | OutOfFuel => OutOfFuel
      end
  end.
Proof.
  intros Hl. unfold on_acquired.
  unfold bindM at 1. unfold get at 1.
  unfold sem_ids. rewrite Hl. cbn [pred seq wait_sem].
  unfold bindM at 1. unfold bindM at 1. unfold wait_event.
  unfold bindM at 1. unfold modify at 1.
  unfold bindM at 1. unfold get at 1. unfold lift at 1.
  cbv zeta.
  destruct (_acq_complete (deliver_all (att_sem att 0) e1) !! 0%nat) as [[|] |];
    cbn [of_option]; try reflexivity.
  unfold bindM at 1. unfold modify at 1. unfold ret at 1.
  unfold bindM at 1. unfold check_cancelled. unfold bindM at 1. unfold get at 1.
  destruct (AcqState_eqb _ CANCELLED); [reflexivity |].
  unfold ret at 1.
  unfold bindM at 1. destruct (patch _) as [[] e4 | ex e4 |]; reflexivity.
Qed.

Lemma set_last_snoc {A : Type} (l : list A) (x y : A) :
  set_last y (l ++ [x]) = l ++ [y].
Proof.
  unfold set_last. rewrite length_app. simpl.
  replace (pred (length l + 1)) with (length l + 0)%nat by lia.
  rewrite insert_app_r. reflexivity.
Qed.

(** The position written on the camera tile of the pixel (e-beam scan). *)
Lemma patch_position_ok (c : Config) (penv : PixelEnv) (e : Engine)
    (a0 a1 : list DataArray) (ds dc : DataArray) (pos : Q * Q) :
  length (streams e) = 2%nat ->
  _acq_data e = [a0 ++ [ds]; a1 ++ [dc]] ->
  MD_POS (metadata ds) = Some pos ->
  exists p,
    patch_position c penv e
    = Next tt (set_acq_data [a0 ++ [ds];
                             a1 ++ [with_metadata (set_MD_POS p (metadata dc)) dc]] e).
Proof.
  intros Hl Hd Hp. unfold patch_position.
  unfold bindM at 1. unfold get at 1.
  unfold bindM at 1. unfold lift at 1. unfold last_data at 1.
  rewrite Hd. cbn [lookup list_lookup of_option bind]. rewrite last_snoc. cbn [of_option].
  unfold bindM at 1. unfold lift at 1. rewrite Hp. cbn [of_option].
  eexists. unfold liftE, set_last_pos, last_data, last_id.
  rewrite Hl, Hd. cbn [pred lookup list_lookup of_option bind].
  rewrite last_snoc. cbn [of_option bind].
  cbn [alter list_alter]. rewrite set_last_snoc. reflexivity.
Qed.

Lemma df_unsubscribe_fields (i : nat) (e : Engine) :
  streams (df_unsubscribe i e) = streams e /\
  _acq_state (df_unsubscribe i e) = _acq_state e /\
  _acq_complete (df_unsubscribe i e) = _acq_complete e /\
  _acq_data (df_unsubscribe i e) = _acq_data e /\
  _acq_min_date (df_unsubscribe i e) = _acq_min_date e /\
  (well_formed e -> well_formed (df_unsubscribe i e)).
Proof.
  destruct e. simpl. split_all; try reflexivity.
  unfold well_formed. simpl. rewrite length_insert. auto.
Qed.

Lemma tile_ok_set_pos (ts : nat * nat) (p : Q * Q) (d : DataArray) :
  tile_ok ts d -> tile_ok ts (with_metadata (set_MD_POS p (metadata d)) d).
Proof.
  intros (H1 & H2 & H3). unfold tile_ok. simpl. split_all; [exact H1 | eauto | exact H3].
Qed.

(** What a pass that goes well leaves: one more pixel in each accumulator. *)
Lemma attempt_succeeding_ok (c : Config) (penv : PixelEnv) (ss cs : nat * nat)
    (att : Attempt) (failures : nat) (loc : Locals) (e : Engine) :
  acquiring ss cs (n_done loc) e ->
  length (leech_np loc) = length (leeches c) ->
  succeeding c ss cs att ->
  exists loc' e',
    attempt c (patch_position c penv) (fun _ l => ret l) att failures loc e
    = Next (Break loc') e' /\
    n_done loc' = S (n_done loc) /\
    length (leech_np loc') = length (leeches c) /\
    acquiring ss cs (S (n_done loc)) e'.
Proof.
  intros Hacq Hnp (Hb & Hn1 & Hn2 & Hn3 & Hnl & Hdur & (dc & Adc & Tdc) & (ds & Ads & Tds)).
  destruct (acquiring_shape _ _ _ _ Hacq)
    as (s0 & s1 & c0 & c1 & a0 & a1 & Es & Ec & Ed & L0 & L1 & F0 & F1).
  destruct (armed_acquiring _ _ _ att e a0 a1 Hb Hacq Ed) as (W & S1 & S2 & S3 & S4 & S5).
  assert (Hst0 : at_start att e = e) by (unfold at_start; rewrite Hb; reflexivity).
  pose proof Hacq as ((Hwf & Hl & Hs) & _).
  assert (Hlast : last_id e = 1%nat) by (unfold last_id; rewrite Hl; reflexivity).
  assert (Hl' : length (streams (armed att e)) = 2%nat) by congruence.
  (* when the wait on the camera ends *)
  destruct (deliver_all_accepted 1 (att_start att) (att_wait att) (armed att e) a1 false
              W ltac:(lia) S3 Hn1)
    as (_ & _ & _ & _ & _ & T5);
    [rewrite S4; reflexivity | rewrite S5; reflexivity |].
  fold (at_wait_end att e) in T5. rewrite Adc in T5. cbn [orb] in T5.
  (* when the outcome is decided *)
  assert (Hnc : no_cancel (att_wait att ++ att_late att) = true)
    by (rewrite no_cancel_app, Hn1, Hn2; reflexivity).
  assert (Hck : at_check att e = deliver_all (att_wait att ++ att_late att) (armed att e))
    by (unfold at_check, at_wait_end; rewrite deliver_all_app; reflexivity).
  destruct (deliver_all_accepted 0 (att_start att) _ (armed att e) a0 false
              W ltac:(lia) S3 Hnc)
    as (W2 & U1 & U2 & U3 & _ & _);
    [rewrite S4; reflexivity | rewrite S5; reflexivity |].
  rewrite <- Hck in W2, U1, U2, U3.
  rewrite attempt_eval, Hst0, Hs, Hlast, T5. cbn [AcqState_eqb].
  rewrite U2, S2. cbn [AcqState_eqb negb orb].
  assert (Hq : Qlt_bool (att_dur att) (rep_time c * 0.95) = false).
  { destruct (Qlt_bool (att_dur att) (rep_time c * 0.95)) eqn:E; [| reflexivity].
    apply Qlt_bool_iff in E. exfalso. apply (Qlt_not_le _ _ E). exact Hdur. }
  rewrite Hq.
  rewrite on_acquired_eval2 by congruence. cbv zeta.
  (* when the wait on the SEM ends *)
  set (L := att_wait att ++ att_late att ++ att_sem att 0).
  assert (HL : no_cancel L = true).
  { unfold L. rewrite !no_cancel_app, Hn1, Hn2, Hn3. reflexivity. }
  assert (He2 : deliver_all (att_sem att 0) (at_check att e) = deliver_all L (armed att e)).
  { unfold L, at_check, at_wait_end. rewrite !deliver_all_app. reflexivity. }
  rewrite He2. set (e2 := deliver_all L (armed att e)).
  destruct (deliver_all_accepted 0 (att_start att) L (armed att e) a0 false
              W ltac:(lia) S3 HL)
    as (W3 & X1 & X2 & X3 & X4 & X5);
    [rewrite S4; reflexivity | rewrite S5; reflexivity |].
  destruct (deliver_all_accepted 1 (att_start att) L (armed att e) a1 false
              W ltac:(lia) S3 HL)
    as (_ & _ & _ & _ & Y4 & Y5);
    [rewrite S4; reflexivity | rewrite S5; reflexivity |].
  fold e2 in W3, X1, X2, X3, X4, X5, Y4, Y5.
  fold L in Ads. rewrite Ads in X4, X5.
  assert (AdcL : accepted 1 (att_start att) L = Some dc)
    by (unfold L; apply accepted_app_Some; exact Adc).
  rewrite AdcL in Y4, Y5. cbn [orb option_list] in X4, X5, Y4, Y5.
  assert (Hl2 : length (streams e2) = 2%nat) by congruence.
  assert (D2 : _acq_data e2 = [a0 ++ [ds]; a1 ++ [dc]]).
  { apply list_two; [| exact X4 | exact Y4].
    destruct W3 as (_ & W3 & _). rewrite W3. exact Hl2. }
  assert (C2 : _acq_complete e2 = [true; true]).
  { apply list_two; [| exact X5 | exact Y5].
    destruct W3 as (W3 & _). rewrite W3. exact Hl2. }
  rewrite X5.
  (* the SEM is unsubscribed, the position is written *)
  destruct (df_unsubscribe_fields 0 e2) as (G1 & G2 & G3 & G4 & G5 & G6).
  set (e3 := df_unsubscribe 0 e2) in *.
  rewrite G2, X2, S2. cbn [AcqState_eqb].
  destruct Tds as (Tds1 & [pos Tds2] & Tds3).
  destruct (patch_position_ok c penv e3 a0 a1 ds dc pos ltac:(congruence)
              ltac:(congruence) Tds2) as (p & Hpatch).
  rewrite Hpatch.
  set (dc' := with_metadata (set_MD_POS p (metadata dc)) dc).
  set (e4 := set_acq_data [a0 ++ [ds]; a1 ++ [dc']] e3).
  assert (H4 : well_formed e4 /\ streams e4 = streams e3 /\ _acq_state e4 = _acq_state e3 /\
               _acq_min_date e4 = _acq_min_date e3 /\
               _acq_complete e4 = _acq_complete e3 /\
               _acq_data e4 = [a0 ++ [ds]; a1 ++ [dc']]).
  { pose proof (G6 W3) as (K1 & K2 & K3 & K4).
    unfold e4. destruct e3. simpl in *. unfold well_formed. simpl.
    split_all; try reflexivity; try assumption. congruence. }
  destruct H4 as (W4 & Z1 & Z2 & Z3 & Z4 & Z5).
  (* the progress is updated, the leeches run *)
  match goal with
  | |- context [leech_loop _ _ _ _ ?x] => set (e5 := x)
  end.
  destruct (updateProgress_fields (att_now att) (att_dur_done att)
              (Z.of_nat (S (n_done loc))) (Z.of_nat (tot_num c))
              (N2Q (tot_num c - S (n_done loc)) * (snd (start_leeches c) / N2Q (tot_num c)))
              e4) as (P1 & P2 & P3 & P4 & P5 & _ & _ & P8).
  fold e5 in P1, P2, P3, P4, P5, P8.
  destruct (leech_loop_ok (att_start att) att (seq 0 (length (leeches c)))
              (set_n_done (S (n_done loc)) loc) e5
              (a0 ++ [ds]) (a1 ++ [dc']))
    as (loc' & e6 & Hrun & N1 & N2 & W6 & R1 & R2 & R3 & R4 & R5);
    try congruence.
  { intros li Hli. apply in_seq in Hli. simpl. lia. }
  { apply P8. exact W4. }
  rewrite Hrun. exists loc', e6. split; [reflexivity |].
  split; [rewrite N1; reflexivity |].
  split; [rewrite N2; simpl; exact Hnp |].
  split.
  - unfold ready. split_all; [exact W6 | congruence | exact R2].
  - exists (a0 ++ [ds]), (a1 ++ [dc']). split; [exact R4 |].
    rewrite !length_app. simpl.
    split; [lia |]. split; [lia |]. split.
    + apply Forall_app. split; [exact F0 |].
      constructor; [| constructor]. unfold tile_ok. eauto.
    + apply Forall_app. split; [exact F1 |].
      constructor; [| constructor]. apply tile_ok_set_pos. exact Tdc.
Qed.

(** *** The loop of a pixel *)

Lemma retry_loop_step (fuel : nat) (c : Config) (patch : M unit)
    (leech_pre : nat -> Locals -> M Locals) (penv : PixelEnv) (failures : nat)
    (loc : Locals) (e : Engine) :
  retry_loop (S fuel) c patch leech_pre penv failures loc e =
  match attempt c patch leech_pre (px_attempt penv failures) failures loc e with
  | Next (Continue failures') e' => retry_loop fuel c patch leech_pre penv failures' loc e'
  | Next (Break loc') e' => Next loc' e'
  | Throw ex e' => Throw ex e'
  | OutOfFuel => OutOfFuel
  end.
Proof.
  cbn [retry_loop]. unfold bindM.
  destruct (attempt _ _ _ _ _ _ _) as [[f' | loc'] e' | ex e' |]; reflexivity.
Qed.

(** After [k] failing passes, with [k] at most two, and a pass that goes well,
    the pixel is acquired. *)
Lemma retry_loop_ok (c : Config) (penv : PixelEnv) (ss cs : nat * nat) (k : nat) :
  forall (fuel failures : nat) (loc : Locals) (e : Engine),
    (k < fuel)%nat -> (failures + k <= 2)%nat ->
    acquiring ss cs (n_done loc) e ->
    length (leech_np loc) = length (leeches c) ->
    (forall j, (j < k)%nat -> failing c (px_attempt penv (failures + j))) ->
    succeeding c ss cs (px_attempt penv (failures + k)) ->
    exists loc' e',
      retry_loop fuel c (patch_position c penv) (fun _ l => ret l) penv failures loc e
      = Next loc' e' /\
      n_done loc' = S (n_done loc) /\
      length (leech_np loc') = length (leeches c) /\
      acquiring ss cs (S (n_done loc)) e'.
Proof.
  induction k as [| k IH]; intros fuel failures loc e Hfuel Hk Hacq Hnp Hfail Hgood.
  - destruct fuel as [| fuel]; [lia |]. rewrite retry_loop_step.
    rewrite Nat.add_0_r in Hgood.
    destruct (attempt_succeeding_ok c penv ss cs _ failures loc e Hacq Hnp Hgood)
      as (loc' & e' & Hrun & R).
    rewrite Hrun. exists loc', e'. split; [reflexivity | exact R].
  - destruct fuel as [| fuel]; [lia |]. rewrite retry_loop_step.
    assert (Hbad : failing c (px_attempt penv failures)).
    { specialize (Hfail 0%nat ltac:(lia)). rewrite Nat.add_0_r in Hfail. exact Hfail. }
    destruct (attempt_failing_ok c (patch_position c penv) (fun _ l => ret l) ss cs
                _ failures loc e Hacq Hbad) as [Hretry _].
    destruct (Hretry ltac:(lia)) as (e' & Hrun & Hacq').
    rewrite Hrun.
    apply (IH fuel (S failures) loc e'); try assumption; try lia.
    + intros j Hj. replace (S failures + j)%nat with (failures + S j)%nat by lia.
      apply Hfail. lia.
    + replace (S failures + k)%nat with (failures + S k)%nat by lia. exact Hgood.
Qed.

(** Three failing passes end the acquisition. *)
Lemma retry_loop_gives_up (c : Config) (patch : M unit)
    (leech_pre : nat -> Locals -> M Locals) (penv : PixelEnv) (ss cs : nat * nat)
    (loc : Locals) (e : Engine) :
  acquiring ss cs (n_done loc) e ->
  pixel_fails c penv ->
  exists e',
    retry_loop 3 c patch leech_pre penv 0 loc e = Throw (IOError SyncFailure) e' /\
    length (streams e') = 2%nat /\ _acq_state e' = RUNNING.
Proof.
  intros Hacq Hfail.
  rewrite retry_loop_step.
  destruct (attempt_failing_ok c patch leech_pre ss cs _ 0 loc e Hacq
              (Hfail 0%nat ltac:(lia))) as [H0 _].
  destruct (H0 ltac:(lia)) as (e1 & Hrun1 & Hacq1). rewrite Hrun1.
  rewrite retry_loop_step.
  destruct (attempt_failing_ok c patch leech_pre ss cs _ 1 loc e1 Hacq1
              (Hfail 1%nat ltac:(lia))) as [H1 _].
  destruct (H1 ltac:(lia)) as (e2 & Hrun2 & Hacq2). rewrite Hrun2.
  rewrite retry_loop_step.
  destruct (attempt_failing_ok c patch leech_pre ss cs _ 2 loc e2 Hacq2
              (Hfail 2%nat ltac:(lia))) as [_ H2].
  destruct (H2 ltac:(lia)) as (e3 & Hrun3 & S3 & T3). rewrite Hrun3.
  exists e3. split; [reflexivity |]. split; [| exact T3].
  rewrite S3. destruct Hacq2 as ((_ & Hl & _) & _). exact Hl.
Qed.

(** *** The loop over the pixels *)

Lemma getSpotPositions_lookup (s : Settings) (y x : nat) :
  (y < Pos.to_nat (snd (repetition s)))%nat ->
  (x < Pos.to_nat (fst (repetition s)))%nat ->
  exists t, lookup2 (_getSpotPositions s) y x = Ok t.
Proof.
  intros Hy Hx. unfold _getSpotPositions.
  destruct (roi s) as [[[l t] r] b]. cbv zeta.
  match goal with
  | |- context [map _ (linspace ?a ?b (Pos.to_nat (snd (repetition s))))] =>
    destruct (lookup_lt_is_Some_2 (linspace a b (Pos.to_nat (snd (repetition s)))) y)
      as [ty Hty]; [rewrite linspace_length; exact Hy |]
  end.
  match goal with
  | |- context [map _ (linspace ?a ?b (Pos.to_nat (fst (repetition s))))] =>
    destruct (lookup_lt_is_Some_2 (linspace a b (Pos.to_nat (fst (repetition s)))) x)
      as [tx Htx]; [rewrite linspace_length; exact Hx |]
  end.
  destruct (lookup_map_pairs_l (fun v u => (u, v)) _ _ y x ty tx Hty Htx)
    as [row [Hrow Hcell]].
  exists (tx, ty). unfold lookup2. rewrite Hrow. simpl. rewrite Hcell. reflexivity.
Qed.

Lemma in_ndindex (ry rx : nat) (i : nat * nat) :
  In i (ndindex ry rx) -> (fst i < ry)%nat /\ (snd i < rx)%nat.
Proof.
  unfold ndindex. rewrite in_flat_map. intros (y & Hy & Hi).
  apply in_map_iff in Hi. destruct Hi as (x & <- & Hx).
  apply in_seq in Hy. apply in_seq in Hx. simpl. lia.
Qed.

Lemma ndindex_length (ry rx : nat) : length (ndindex ry rx) = (ry * rx)%nat.
Proof.
  unfold ndindex. generalize 0%nat at 2. induction ry as [| ry IH]; intros a; simpl.
  - reflexivity.
  - rewrite length_app, length_map, length_seq, IH. reflexivity.
Qed.

Lemma acquiring_emit (ss cs : nat * nat) (n : nat) (a : Action) (e : Engine) :
  acquiring ss cs n e -> acquiring ss cs n (emit a e).
Proof. unfold acquiring, ready, well_formed. destruct e. simpl. auto. Qed.

Lemma move_beam_ok (c : Config) (ss cs : nat * nat) (n : nat) (i : nat * nat)
    (penv : PixelEnv) (e : Engine) :
  (fst i < Pos.to_nat (snd (repetition (settings c))))%nat ->
  (snd i < Pos.to_nat (fst (repetition (settings c))))%nat ->
  acquiring ss cs n e ->
  exists e', move_beam c (_getSpotPositions (settings c)) i penv e = Next tt e' /\
             acquiring ss cs n e'.
Proof.
  intros Hy Hx Hacq.
  destruct (getSpotPositions_lookup (settings c) _ _ Hy Hx) as [t Ht].
  unfold move_beam. unfold bindM at 1. unfold lift at 1. rewrite Ht.
  unfold bindM at 1.
  destruct (negb _).
  - unfold call, modify. eexists. split; [reflexivity |].
    apply acquiring_emit, acquiring_emit. exact Hacq.
  - unfold ret, call, modify. eexists. split; [reflexivity |].
    apply acquiring_emit. exact Hacq.
Qed.

(** When every pixel is acquired after at most two failures, the scan goes
    through all of them. *)
Lemma scan_pixels_ok (c : Config) (ss cs : nat * nat) (pixels : list (nat * nat)) :
  forall (loc : Locals) (e : Engine),
    (forall i, In i pixels ->
       (fst i < Pos.to_nat (snd (repetition (settings c))))%nat /\
       (snd i < Pos.to_nat (fst (repetition (settings c))))%nat) ->
    acquiring ss cs (n_done loc) e ->
    length (leech_np loc) = length (leeches c) ->
    (forall j, (j < length pixels)%nat -> pixel_ok c ss cs (pixel c (n_done loc + j))) ->
    exists loc' e',
      scan_pixels c (_getSpotPositions (settings c)) pixels loc e = Next loc' e' /\
      n_done loc' = (n_done loc + length pixels)%nat /\
      acquiring ss cs (n_done loc + length pixels) e'.
Proof.
  induction pixels as [| i pixels IH]; intros loc e Hin Hacq Hnp Hok.
  - exists loc, e. simpl. rewrite Nat.add_0_r. unfold ret. auto.
  - cbn [scan_pixels].
    destruct (Hin i (or_introl eq_refl)) as [Hy Hx].
    destruct (move_beam_ok c ss cs _ i (pixel c (n_done loc)) e Hy Hx Hacq)
      as (e1 & Hmove & Hacq1).
    unfold bindM at 1. rewrite Hmove.
    pose proof (Hok 0%nat ltac:(simpl; lia)) as Hp. rewrite Nat.add_0_r in Hp.
    destruct Hp as (k & Hk & Hbad & Hgood).
    destruct (retry_loop_ok c (pixel c (n_done loc)) ss cs k 3 0 loc e1
                ltac:(lia) ltac:(lia) Hacq1 Hnp Hbad Hgood)
      as (loc1 & e2 & Hrun & N1 & N2 & Hacq2).
    unfold bindM at 1. rewrite Hrun.
    rewrite <- N1 in Hacq2.
    destruct (IH loc1 e2) as (loc' & e' & Hscan & N' & Hacq'); try assumption.
    + intros j Hj. apply Hin. right. exact Hj.
    + intros j Hj. rewrite N1.
      replace (S (n_done loc) + j)%nat with (n_done loc + S j)%nat by lia.
      apply Hok. simpl. lia.
    + exists loc', e'. split; [exact Hscan |].
      rewrite N1 in N', Hacq'. simpl length.
      replace (n_done loc + S (length pixels))%nat
        with (S (n_done loc) + length pixels)%nat by lia.
      auto.
Qed.

(** When a pixel fails three times, after pixels that were acquired, the scan
    ends there with SyncFailure. *)
Lemma scan_pixels_gives_up (c : Config) (ss cs : nat * nat) (pixels : list (nat * nat)) :
  forall (m : nat) (loc : Locals) (e : Engine),
    (forall i, In i pixels ->
       (fst i < Pos.to_nat (snd (repetition (settings c))))%nat /\
       (snd i < Pos.to_nat (fst (repetition (settings c))))%nat) ->
    acquiring ss cs (n_done loc) e ->
    length (leech_np loc) = length (leeches c) ->
    (m < length pixels)%nat ->
    (forall j, (j < m)%nat -> pixel_ok c ss cs (pixel c (n_done loc + j))) ->
    pixel_fails c (pixel c (n_done loc + m)) ->
    exists e',
      scan_pixels c (_getSpotPositions (settings c)) pixels loc e
      = Throw (IOError SyncFailure) e' /\
      length (streams e') = 2%nat /\ _acq_state e' = RUNNING.
Proof.
  induction pixels as [| i pixels IH]; intros m loc e Hin Hacq Hnp Hm Hok Hbad.
  - simpl in Hm. lia.
  - cbn [scan_pixels].
    destruct (Hin i (or_introl eq_refl)) as [Hy Hx].
    destruct (move_beam_ok c ss cs _ i (pixel c (n_done loc)) e Hy Hx Hacq)
      as (e1 & Hmove & Hacq1).
    unfold bindM at 1. rewrite Hmove.
    destruct m as [| m].
    + rewrite Nat.add_0_r in Hbad.
      destruct (retry_loop_gives_up c (patch_position c (pixel c (n_done loc)))
                  (fun _ l => ret l) (pixel c (n_done loc)) ss cs loc e1 Hacq1 Hbad)
        as (e' & Hrun & R).
      unfold bindM at 1. rewrite Hrun. exists e'. split; [reflexivity | exact R].
    + pose proof (Hok 0%nat ltac:(lia)) as Hp. rewrite Nat.add_0_r in Hp.
      destruct Hp as (k & Hk & Hb & Hgood).
      destruct (retry_loop_ok c (pixel c (n_done loc)) ss cs k 3 0 loc e1
                  ltac:(lia) ltac:(lia) Hacq1 Hnp Hb Hgood)
        as (loc1 & e2 & Hrun & N1 & N2 & Hacq2).
      unfold bindM at 1. rewrite Hrun.
      rewrite <- N1 in Hacq2.
      apply (IH m loc1 e2); try assumption.
      * intros j Hj. apply Hin. right. exact Hj.
      * simpl in Hm. lia.
      * intros j Hj. rewrite N1.
        replace (S (n_done loc) + j)%nat with (n_done loc + S j)%nat by lia.
        apply Hok. lia.
      * rewrite N1.
        replace (S (n_done loc) + m)%nat with (n_done loc + S m)%nat by lia.
        exact Hbad.
Qed.

(** *** Start and end of the acquisition *)

Lemma start_leeches_length (c : Config) :
  length (fst (start_leeches c)) = length (leeches c).
Proof.
  unfold start_leeches.
  assert (H : forall (ls : list Leech) (acc : list (option Z) * Q),
             length (fst (fold_left
               (fun acc l =>
                  match leech_estimate l with
                  | Some dt => (fst acc ++ [leech_start l], snd acc + dt)
                  | None => (fst acc ++ [None], snd acc)
                  end) ls acc)) = (length (fst acc) + length ls)%nat).
  { induction ls as [| l ls IH]; intros acc; simpl; [lia |].
    rewrite IH. destruct (leech_estimate l); simpl; rewrite length_app; simpl; lia. }
  rewrite H. reflexivity.
Qed.

Lemma prepare_ok (c : Config) (ss cs : nat * nat) (e : Engine) :
  ready e ->
  exists loc e',
    prepare c e = Next loc e' /\ n_done loc = 0%nat /\
    length (leech_np loc) = length (leeches c) /\
    acquiring ss cs 0 e'.
Proof.
  intros ((W1 & W2 & W3 & W4) & Hl & Hs).
  unfold prepare, bindM, get, modify, ret.
  eexists. eexists. split; [reflexivity |].
  split; [reflexivity |]. split; [apply start_leeches_length |].
  destruct e as [sts a cpl dat md ps rw arw sub syn fe sg tr]. simpl in *.
  destruct sts as [| s0 [| s1 [| ? ?]]]; try discriminate Hl.
  unfold acquiring, ready, well_formed, last_id. simpl.
  rewrite !length_insert.
  split; [auto |]. exists [], []. auto.
Qed.

Lemma for_each_emit (f : nat -> Action) (idx : list nat) (e : Engine) :
  for_each idx (fun i => emit (f i)) e = set_trace (trace e ++ map f idx) e.
Proof.
  unfold for_each. revert e. induction idx as [| i idx IH]; intros e.
  - destruct e. simpl. rewrite app_nil_r. reflexivity.
  - simpl. rewrite IH. destruct e. simpl. rewrite <- app_assoc. reflexivity.
Qed.

Lemma fold_left_emit (f : nat -> Action) (idx : list nat) (e : Engine) :
  fold_left (fun st i => emit (f i) st) idx e = set_trace (trace e ++ map f idx) e.
Proof. apply (for_each_emit f idx e). Qed.

(** Tiles of one shape, as many as the grid has pixels, are assembled. *)
Lemma assembleTiles_ok (s : Settings) (ts : nat * nat) (l : list DataArray) :
  Forall (tile_ok ts) l ->
  length l = (Pos.to_nat (snd (repetition s)) * Pos.to_nat (fst (repetition s)))%nat ->
  fst ts <> 0%nat -> snd ts <> 0%nat ->
  exists da, _assembleTiles s (repetition s) l = Ok da /\
             shape da = [(Pos.to_nat (snd (repetition s)) * fst ts)%nat;
                         (Pos.to_nat (fst (repetition s)) * snd ts)%nat].
Proof.
  intros Hall Hlen HT HS.
  destruct l as [| d0 l'].
  { simpl in Hlen. pose proof (Pos2Nat.is_pos (snd (repetition s))).
    pose proof (Pos2Nat.is_pos (fst (repetition s))). nia. }
  pose proof (Forall_inv Hall) as (Hs0 & [pos Hp] & [pxs Hx]).
  unfold _assembleTiles. cbn [head of_option bind]. rewrite Hs0. cbn [bind].
  assert (Hf : forallb (fun d => shape_eqb (shape d) [fst ts; snd ts]) (d0 :: l') = true).
  { apply forallb_forall. intros d Hd.
    rewrite Forall_forall in Hall. apply list_elem_of_In in Hd.
    destruct (Hall d Hd) as (Hsd & _). rewrite Hsd. apply shape_eqb_refl. }
  rewrite Hf, Hlen, Nat.eqb_refl. cbn [andb negb].
  unfold _get_center_pxs, shape_m1, shape_m2. rewrite Hp, Hx, Hs0.
  cbn [of_option bind last removelast fst snd].
  assert (N1 : ~ N2Q (fst ts) == 0).
  { unfold N2Q. change 0 with (inject_Z 0). rewrite inject_Z_injective. lia. }
  assert (N2 : ~ N2Q (snd ts) == 0).
  { unfold N2Q. change 0 with (inject_Z 0). rewrite inject_Z_injective. lia. }
  rewrite (py_div_nonzero _ _ N1). cbn [bind].
  rewrite (py_div_nonzero _ _ N2). cbn [bind].
  eexists. split; reflexivity.
Qed.

Lemma tot_num_eq (c : Config) :
  tot_num c = (Pos.to_nat (snd (repetition (settings c)))
               * Pos.to_nat (fst (repetition (settings c))))%nat.
Proof. unfold tot_num, prod. simpl. lia. Qed.

Lemma onCompletedData_ok (s : Settings) (ts : nat * nat) (n : nat) (name : string)
    (l : list DataArray) (e : Engine) :
  Forall (tile_ok ts) l ->
  length l = (Pos.to_nat (snd (repetition s)) * Pos.to_nat (fst (repetition s)))%nat ->
  fst ts <> 0%nat -> snd ts <> 0%nat ->
  streams e !! n = Some name ->
  exists da, SEMCCDMDStream._onCompletedData s n l e = Ok (set_raw (_raw e ++ [da]) e) /\
             shape da = [(Pos.to_nat (snd (repetition s)) * fst ts)%nat;
                         (Pos.to_nat (fst (repetition s)) * snd ts)%nat] /\
             MD_DESCRIPTION (metadata da) = Some name.
Proof.
  intros Hall Hlen HT HS Hn.
  destruct (assembleTiles_ok s ts l Hall Hlen HT HS) as (da & Hda & Hsh).
  unfold SEMCCDMDStream._onCompletedData. rewrite Hda. cbn [bind].
  rewrite Hn. cbn [of_option bind].
  eexists. split; [reflexivity |]. split; [exact Hsh | reflexivity].
Qed.

(** From "Done!" to the end of the try block. *)
Lemma finish_outcome (c : Config) (ss cs : nat * nat) (e : Engine) :
  acquiring ss cs (tot_num c) e ->
  fst ss <> 0%nat -> snd ss <> 0%nat -> fst cs <> 0%nat -> snd cs <> 0%nat ->
  exists e' d0 d1,
    finish c e
    = match (if has_dc c then Some (_assembleAnchorData (dc_raw c)) else None) with
      | Some (Raise ex) => Throw ex e'
      | _ => Next tt e'
      end /\
    _acq_state e' = FINISHED /\
    _raw e' = _raw e ++ [d0; d1] /\
    shape d0 = [(Pos.to_nat (snd (repetition (settings c))) * fst ss)%nat;
                (Pos.to_nat (fst (repetition (settings c))) * snd ss)%nat] /\
    shape d1 = [(Pos.to_nat (snd (repetition (settings c))) * fst cs)%nat;
                (Pos.to_nat (fst (repetition (settings c))) * snd cs)%nat] /\
    subscribed e' = [false; false] /\
    synchronized e' !! 1%nat = Some false /\
    streams e' = streams e.
Proof.
  intros Hacq Hs1 Hs2 Hc1 Hc2.
  destruct (acquiring_shape _ _ _ _ Hacq)
    as (s0 & s1 & c0 & c1 & a0 & a1 & Es & Ec & Ed & L0 & L1 & F0 & F1).
  destruct Hacq as (((W1 & W2 & W3 & W4) & Hl & Hst) & _).
  rewrite tot_num_eq in L0, L1.
  destruct e as [sts a cpl dat md ps rw arw sub syn fe sg tr]. simpl in *. subst.
  destruct sub as [| b0 [| b1 [| ? ?]]]; try discriminate W3.
  destruct syn as [| y0 [| y1 [| ? ?]]]; try discriminate W4.
  unfold finish.
  unfold bindM at 1. unfold get at 1.
  unfold bindM at 1. unfold modify at 1.
  unfold bindM at 1. unfold modify at 1.
  unfold bindM at 1. unfold call at 1, modify at 1.
  unfold bindM at 1. unfold get at 1.
  unfold stream_ids, last_id, for_each.
  cbn -[complete_data has_dc _assembleAnchorData SEMCCDMDStream._onCompletedData].
  cbn [complete_data].
  unfold bindM at 1. unfold bindM at 1. unfold liftE at 1.
  match goal with
  | |- context [SEMCCDMDStream._onCompletedData ?s 0 a0 ?e0] =>
    destruct (onCompletedData_ok s ss 0 s0 a0 e0 F0 L0 Hs1 Hs2 eq_refl)
      as (d0 & Hd0 & Sh0 & _); rewrite Hd0
  end.
  unfold bindM at 1. unfold liftE at 1.
  match goal with
  | |- context [SEMCCDMDStream._onCompletedData ?s 1 a1 ?e1] =>
    destruct (onCompletedData_ok s cs 1 s1 a1 e1 F1 L1 Hc1 Hc2 eq_refl)
      as (d1 & Hd1 & Sh1 & _); rewrite Hd1
  end.
  unfold ret at 1.
  unfold bindM at 1. unfold modify at 1.
  cbv beta. rewrite fold_left_emit.
  destruct (has_dc c) eqn:Edc.
  - unfold bindM, lift.
    destruct (_assembleAnchorData (dc_raw c)) as [an | ex]; unfold modify;
      (eexists; exists d0, d1; split; [reflexivity |];
       simpl; rewrite <- app_assoc; split_all; reflexivity || assumption).
  - unfold ret.
    eexists. exists d0, d1. split; [reflexivity |].
    simpl. rewrite <- app_assoc. split_all; reflexivity || assumption.
Qed.

Lemma finish_ok (c : Config) (ss cs : nat * nat) (e : Engine) :
  acquiring ss cs (tot_num c) e ->
  fst ss <> 0%nat -> snd ss <> 0%nat -> fst cs <> 0%nat -> snd cs <> 0%nat ->
  (has_dc c = true -> exists a, _assembleAnchorData (dc_raw c) = Ok a) ->
  exists e' d0 d1,
    finish c e = Next tt e' /\
    _acq_state e' = FINISHED /\
    _raw e' = _raw e ++ [d0; d1] /\
    shape d0 = [(Pos.to_nat (snd (repetition (settings c))) * fst ss)%nat;
                (Pos.to_nat (fst (repetition (settings c))) * snd ss)%nat] /\
    shape d1 = [(Pos.to_nat (snd (repetition (settings c))) * fst cs)%nat;
                (Pos.to_nat (fst (repetition (settings c))) * snd cs)%nat] /\
    subscribed e' = [false; false] /\
    synchronized e' !! 1%nat = Some false /\
    streams e' = streams e.
Proof.
  intros Hacq Hs1 Hs2 Hc1 Hc2 Hdc.
  destruct (finish_outcome c ss cs e Hacq Hs1 Hs2 Hc1 Hc2) as (e' & d0 & d1 & Hf & R).
  exists e', d0, d1. split; [| exact R].
  rewrite Hf. destruct (has_dc c); [| reflexivity].
  destruct (Hdc eq_refl) as [a ->]. reflexivity.
Qed.

(** When the anchor regions of the drift corrector cannot be put together,
    the end of the acquisition raises, the state being FINISHED already. *)
Lemma finish_anchor_fails (c : Config) (ss cs : nat * nat) (e : Engine) (ex : exn) :
  acquiring ss cs (tot_num c) e ->
  fst ss <> 0%nat -> snd ss <> 0%nat -> fst cs <> 0%nat -> snd cs <> 0%nat ->
  has_dc c = true -> _assembleAnchorData (dc_raw c) = Raise ex ->
  exists e', finish c e = Throw ex e' /\ _acq_state e' = FINISHED.
Proof.
  intros Hacq Hs1 Hs2 Hc1 Hc2 Hdc Han.
  destruct (finish_outcome c ss cs e Hacq Hs1 Hs2 Hc1 Hc2) as (e' & d0 & d1 & Hf & R & _).
  exists e'. split; [| exact R].
  rewrite Hf, Hdc, Han. reflexivity.
Qed.

(** What the except clause does to an exception raised with the state
    FINISHED: it goes on as it is, and the outputs are emptied. *)
Lemma on_exception_finished (ex : exn) (e : Engine) :
  _acq_state e = FINISHED ->
  fst (on_exception ex e) = ex /\
  _raw (snd (on_exception ex e)) = [] /\ _anchor_raw (snd (on_exception ex e)) = [] /\
  _acq_state (snd (on_exception ex e)) = FINISHED.
Proof.
  intros Hs. unfold on_exception. rewrite for_each_unsubscribe.
  destruct e as [sts a cpl dat md ps rw arw sub syn fe sg tr]. simpl in Hs. subst a.
  destruct (is_CancelledError ex); cbn; auto.
Qed.

(** *** The outputs are written at the end only *)

Lemma keeps_raw_bind {A B : Type} (m : M A) (k : A -> M B) :
  keeps_raw m -> (forall a, keeps_raw (k a)) -> keeps_raw (bindM m k).
Proof.
  intros Hm Hk e. unfold bindM. specialize (Hm e).
  destruct (m e) as [a e1 | ex e1 |]; try exact Hm.
  specialize (Hk a e1). destruct (k a e1); try exact I; congruence.
Qed.

Lemma keeps_raw_modify (f : Engine -> Engine) :
  (forall e, _raw (f e) = _raw e) -> keeps_raw (modify f).
Proof. intros H e. apply H. Qed.

Lemma keeps_raw_ret {A : Type} (a : A) : keeps_raw (ret a).
Proof. intros e. reflexivity. Qed.

Lemma keeps_raw_throw {A : Type} (ex : exn) : keeps_raw (@throw A ex).
Proof. intros e. reflexivity. Qed.

Lemma keeps_raw_get : keeps_raw get.
Proof. intros e. reflexivity. Qed.

Lemma keeps_raw_lift {A : Type} (r : Result A) : keeps_raw (lift r).
Proof. intros e. unfold lift. destruct r; reflexivity. Qed.

Lemma keeps_raw_liftE (f : Engine -> Result Engine) :
  (forall e e', f e = Ok e' -> _raw e' = _raw e) -> keeps_raw (liftE f).
Proof.
  intros H e. unfold liftE. destruct (f e) eqn:E; [apply H; exact E | reflexivity].
Qed.

Lemma keeps_raw_call (a : Action) : keeps_raw (call a).
Proof. apply keeps_raw_modify. intros e. destruct e; reflexivity. Qed.

Lemma keeps_raw_check_cancelled : keeps_raw check_cancelled.
Proof.
  unfold check_cancelled. apply keeps_raw_bind; [apply keeps_raw_get |].
  intros e. destruct (AcqState_eqb _ _); [apply keeps_raw_throw | apply keeps_raw_ret].
Qed.

Lemma raw_for_each (f : nat -> Engine -> Engine) (idx : list nat) (e : Engine) :
  (forall i st, _raw (f i st) = _raw st) -> _raw (for_each idx f e) = _raw e.
Proof.
  intros H. unfold for_each. revert e.
  induction idx as [| i idx IH]; intros e; simpl; [reflexivity |].
  rewrite IH. apply H.
Qed.

Lemma raw_deliver_all (evs : list Event) (e : Engine) :
  _raw (deliver_all evs e) = _raw e.
Proof.
  revert e. induction evs as [| ev evs IH]; intros e; simpl; [reflexivity |].
  rewrite IH. destruct ev as [n d |]; simpl.
  - destruct (_onData n d e) as [e1 |] eqn:E; [| reflexivity].
    apply onData_Ok in E.
    destruct E as [_ [[_ ->] | [(_ & _ & ->) | (_ & _ & ad & _ & ->)]]];
      destruct e; reflexivity.
  - unfold _cancelAcquisition. cbv zeta.
    destruct (AcqState_eqb _ _); [destruct e; reflexivity |].
    cbn [snd]. change (emit (AcqDoneWait 5) ?x) with (emit (AcqDoneWait 5) x).
    rewrite for_each_unsubscribe. unfold df_synchronizedOn.
    rewrite for_each_set_events. destruct e; reflexivity.
Qed.

Create HintDb keeps.

#[local] Hint Resolve keeps_raw_call keeps_raw_check_cancelled keeps_raw_get
  keeps_raw_ret keeps_raw_throw keeps_raw_lift : keeps.

Ltac keeps :=
  repeat first
    [ assumption
    | solve [auto with keeps nocore]
    | apply keeps_raw_bind; [| intros ?] ].

Lemma keeps_raw_deliver (evs : list Event) : keeps_raw (modify (deliver_all evs)).
Proof. apply keeps_raw_modify. apply raw_deliver_all. Qed.

#[local] Hint Resolve keeps_raw_deliver : keeps.

Lemma keeps_raw_wait_event (k : nat) (evs : list Event) : keeps_raw (wait_event k evs).
Proof. unfold wait_event. keeps. Qed.

#[local] Hint Resolve keeps_raw_wait_event : keeps.

Lemma keeps_raw_arm (att : Attempt) : keeps_raw (arm att).
Proof.
  unfold arm. keeps.
  - apply keeps_raw_modify. intros e. destruct e; reflexivity.
  - apply keeps_raw_modify. intros e. destruct e; reflexivity.
  - apply keeps_raw_modify. intros e. apply raw_for_each.
    intros i st. destruct st; reflexivity.
Qed.

Lemma keeps_raw_on_failure (n failures : nat) : keeps_raw (on_failure n failures).
Proof.
  unfold on_failure. keeps.
  destruct (3 <=? S failures)%nat; keeps.
  - apply keeps_raw_modify. intros e. apply raw_for_each.
    intros i st. destruct st; reflexivity.
  - apply keeps_raw_modify. intros e. destruct e; reflexivity.
Qed.

Lemma keeps_raw_wait_sem (ks : list nat) (att : Attempt) : keeps_raw (wait_sem ks att).
Proof.
  induction ks as [| k ks IH]; cbn [wait_sem]; keeps.
  match goal with |- keeps_raw (if ?b then _ else _) => destruct b end; keeps.
  apply keeps_raw_modify. intros e. destruct e; reflexivity.
Qed.

Lemma raw_set_last_pos (p : Q * Q) (k : nat) (e e' : Engine) :
  set_last_pos p k e = Ok e' -> _raw e' = _raw e.
Proof.
  unfold set_last_pos. intros H. inv_bind H as E. injection H as <-.
  destruct e; reflexivity.
Qed.

Lemma keeps_raw_patch_position (c : Config) (penv : PixelEnv) :
  keeps_raw (patch_position c penv).
Proof.
  unfold patch_position. keeps.
  apply keeps_raw_liftE. apply raw_set_last_pos.
Qed.

#[local] Hint Resolve keeps_raw_arm keeps_raw_on_failure keeps_raw_wait_sem
  keeps_raw_patch_position : keeps.

Lemma keeps_raw_leech_loop (leech_pre : nat -> Locals -> M Locals) (att : Attempt)
    (lis : list nat) :
  (forall li loc, keeps_raw (leech_pre li loc)) ->
  forall loc, keeps_raw (leech_loop leech_pre att lis loc).
Proof.
  intros Hpre. induction lis as [| li lis IH]; intros loc; cbn [leech_loop]; keeps.
  match goal with |- keeps_raw (match ?x with _ => _ end) => destruct x as [np |] end;
    [| apply IH].
  destruct (np - 1 =? 0)%Z; [| apply IH].
  keeps; try apply Hpre; try apply IH.
Qed.

Lemma keeps_raw_on_acquired (c : Config) (patch : M unit)
    (leech_pre : nat -> Locals -> M Locals) (att : Attempt) (loc : Locals) :
  keeps_raw patch -> (forall li l, keeps_raw (leech_pre li l)) ->
  keeps_raw (on_acquired c patch leech_pre att loc).
Proof.
  intros Hp Hl. unfold on_acquired. keeps.
  - apply keeps_raw_modify. intros e.
    unfold _updateProgress. destruct (_ <=? 1)%Z; destruct e; reflexivity.
  - apply keeps_raw_leech_loop. exact Hl.
Qed.

Lemma keeps_raw_attempt (c : Config) (patch : M unit)
    (leech_pre : nat -> Locals -> M Locals) (att : Attempt) (failures : nat)
    (loc : Locals) :
  keeps_raw patch -> (forall li l, keeps_raw (leech_pre li l)) ->
  keeps_raw (attempt c patch leech_pre att failures loc).
Proof.
  intros Hp Hl. unfold attempt. keeps.
  match goal with |- keeps_raw (if ?b then _ else _) => destruct b end.
  - apply keeps_raw_on_failure.
  - apply keeps_raw_on_acquired; assumption.
Qed.

Lemma keeps_raw_retry_loop (fuel : nat) (c : Config) (patch : M unit)
    (leech_pre : nat -> Locals -> M Locals) (penv : PixelEnv) :
  keeps_raw patch -> (forall li l, keeps_raw (leech_pre li l)) ->
  forall failures loc, keeps_raw (retry_loop fuel c patch leech_pre penv failures loc).
Proof.
  intros Hp Hl. induction fuel as [| fuel IH]; intros failures loc; cbn [retry_loop].
  - intros e. exact I.
  - apply keeps_raw_bind; [apply keeps_raw_attempt; assumption | intros r].
    destruct r; [apply IH | apply keeps_raw_ret].
Qed.

Lemma keeps_raw_scan_pixels (c : Config) (spot_pos : list (list (Q * Q)))
    (pixels : list (nat * nat)) :
  forall loc, keeps_raw (scan_pixels c spot_pos pixels loc).
Proof.
  induction pixels as [| i pixels IH]; intros loc; cbn [scan_pixels].
  apply keeps_raw_ret.
  apply keeps_raw_bind; [| intros _].
  - unfold move_beam. keeps.
    match goal with |- keeps_raw (if ?b then _ else _) => destruct b end; keeps.
  - apply keeps_raw_bind; [| intros loc'; apply IH].
    apply keeps_raw_retry_loop;
      [apply keeps_raw_patch_position | intros; apply keeps_raw_ret].
Qed.

Lemma ready_emit (a : Action) (e : Engine) : ready e -> ready (emit a e).
Proof. unfold ready, well_formed. destruct e. simpl. auto. Qed.

Lemma prepare_raw (c : Config) (e e' : Engine) (loc : Locals) :
  prepare c e = Next loc e' -> _raw e' = [].
Proof.
  unfold prepare, bindM, get, modify, ret. intros H. injection H as _ <-.
  destruct e; reflexivity.
Qed.

(** The e-beam scan when every pixel is acquired after at most two failures. *)
Lemma runAcquisition_completes (c : Config) (ss cs : nat * nat) (e : Engine) :
  ready e -> useScanStage c = false ->
  fst ss <> 0%nat -> snd ss <> 0%nat -> fst cs <> 0%nat -> snd cs <> 0%nat ->
  (has_dc c = true -> exists a, _assembleAnchorData (dc_raw c) = Ok a) ->
  (forall j, (j < tot_num c)%nat -> pixel_ok c ss cs (pixel c j)) ->
  exists r e' d0 d1,
    _runAcquisition c e = Next r e' /\
    r = MultipleDetectorStream.raw e' /\
    _acq_state e' = FINISHED /\
    _raw e' = [d0; d1] /\
    shape d0 = [(Pos.to_nat (snd (repetition (settings c))) * fst ss)%nat;
                (Pos.to_nat (fst (repetition (settings c))) * snd ss)%nat] /\
    shape d1 = [(Pos.to_nat (snd (repetition (settings c))) * fst cs)%nat;
                (Pos.to_nat (fst (repetition (settings c))) * snd cs)%nat].
Proof.
  intros Hr Hu Hs1 Hs2 Hc1 Hc2 Hdc Hok.
  unfold _runAcquisition. rewrite Hu. unfold try_acquire, body.
  unfold bindM at 1. unfold call at 1, modify at 1.
  destruct (prepare_ok c ss cs (emit AcqDoneClear e) (ready_emit _ _ Hr))
    as (loc0 & e2 & Hprep & N0 & Hnp & Hacq).
  unfold bindM at 1. rewrite Hprep.
  pose proof (prepare_raw _ _ _ _ Hprep) as Hraw2.
  set (pixels := ndindex (Pos.to_nat (snd (repetition (settings c))))
                         (Pos.to_nat (fst (repetition (settings c))))).
  assert (Hlen : length pixels = tot_num c)
    by (unfold pixels; rewrite ndindex_length, tot_num_eq; reflexivity).
  rewrite <- N0 in Hacq.
  destruct (scan_pixels_ok c ss cs pixels loc0 e2) as (loc' & e3 & Hscan & N3 & Hacq3);
    try assumption.
  { intros i Hi. apply in_ndindex. exact Hi. }
  { intros j Hj. rewrite N0. apply Hok. rewrite <- Hlen. exact Hj. }
  pose proof (keeps_raw_scan_pixels c (_getSpotPositions (settings c)) pixels loc0 e2)
    as Hraw3.
  rewrite Hscan in Hraw3.
  unfold bindM at 1. rewrite Hscan.
  rewrite N0, Hlen in Hacq3. simpl in Hacq3.
  destruct (finish_ok c ss cs e3 Hacq3 Hs1 Hs2 Hc1 Hc2 Hdc)
    as (e4 & d0 & d1 & Hfin & F1 & F2 & F3 & F4 & _).
  rewrite Hfin.
  eexists. eexists. exists d0, d1. split; [reflexivity |].
  rewrite Hraw3, Hraw2 in F2. simpl in F2.
  destruct e4. simpl in *. subst. auto 10.
Qed.

Lemma release_fields (e : Engine) :
  _raw (release e) = _raw e /\ _anchor_raw (release e) = _anchor_raw e /\
  _acq_state (release e) = _acq_state e.
Proof. destruct e; cbn; auto. Qed.

(** The e-beam scan when every pixel is acquired but the anchor regions
    cannot be put together. *)
Lemma runAcquisition_anchor_fails (c : Config) (ss cs : nat * nat) (e : Engine)
    (ex : exn) :
  ready e -> useScanStage c = false ->
  fst ss <> 0%nat -> snd ss <> 0%nat -> fst cs <> 0%nat -> snd cs <> 0%nat ->
  has_dc c = true -> _assembleAnchorData (dc_raw c) = Raise ex ->
  (forall j, (j < tot_num c)%nat -> pixel_ok c ss cs (pixel c j)) ->
  exists e',
    _runAcquisition c e = Throw ex e' /\
    _raw e' = [] /\ _anchor_raw e' = [] /\ _acq_state e' = FINISHED.
Proof.
  intros Hr Hu Hs1 Hs2 Hc1 Hc2 Hdc Han Hok.
  unfold _runAcquisition. rewrite Hu. unfold try_acquire, body.
  unfold bindM at 1. unfold call at 1, modify at 1.
  destruct (prepare_ok c ss cs (emit AcqDoneClear e) (ready_emit _ _ Hr))
    as (loc0 & e2 & Hprep & N0 & Hnp & Hacq).
  unfold bindM at 1. rewrite Hprep.
  set (pixels := ndindex (Pos.to_nat (snd (repetition (settings c))))
                         (Pos.to_nat (fst (repetition (settings c))))).
  assert (Hlen : length pixels = tot_num c)
    by (unfold pixels; rewrite ndindex_length, tot_num_eq; reflexivity).
  rewrite <- N0 in Hacq.
  destruct (scan_pixels_ok c ss cs pixels loc0 e2) as (loc' & e3 & Hscan & N3 & Hacq3);
    try assumption.
  { intros i Hi. apply in_ndindex. exact Hi. }
  { intros j Hj. rewrite N0. apply Hok. rewrite <- Hlen. exact Hj. }
  unfold bindM at 1. rewrite Hscan.
  rewrite N0, Hlen in Hacq3. simpl in Hacq3.
  destruct (finish_anchor_fails c ss cs e3 ex Hacq3 Hs1 Hs2 Hc1 Hc2 Hdc Han)
    as (e4 & Hfin & F1).
  rewrite Hfin.
  destruct (on_exception_finished ex e4 F1) as (X1 & X2 & X3 & X4).
  destruct (on_exception ex e4) as [ex' e5]. simpl in X1, X2, X3, X4. subst ex'.
  destruct (release_fields e5) as (R1 & R2 & R3).
  eexists. split; [reflexivity |]. split_all; congruence.
Qed.

(** The e-beam scan when a pixel fails three times. *)
Lemma runAcquisition_gives_up (c : Config) (ss cs : nat * nat) (e : Engine) (m : nat) :
  ready e -> useScanStage c = false ->
  (m < tot_num c)%nat ->
  (forall j, (j < m)%nat -> pixel_ok c ss cs (pixel c j)) ->
  pixel_fails c (pixel c m) ->
  exists e',
    _runAcquisition c e = Throw (IOError SyncFailure) e' /\
    _acq_state e' = RUNNING /\ _raw e' = [] /\ _anchor_raw e' = [] /\
    MultipleDetectorStream.raw e' = [].
Proof.
  intros Hr Hu Hm Hok Hbad.
  unfold _runAcquisition. rewrite Hu. unfold try_acquire, body.
  unfold bindM at 1. unfold call at 1, modify at 1.
  destruct (prepare_ok c ss cs (emit AcqDoneClear e) (ready_emit _ _ Hr))
    as (loc0 & e2 & Hprep & N0 & Hnp & Hacq).
  unfold bindM at 1. rewrite Hprep.
  set (pixels := ndindex (Pos.to_nat (snd (repetition (settings c))))
                         (Pos.to_nat (fst (repetition (settings c))))).
  assert (Hlen : length pixels = tot_num c)
    by (unfold pixels; rewrite ndindex_length, tot_num_eq; reflexivity).
  rewrite <- N0 in Hacq.
  destruct (scan_pixels_gives_up c ss cs pixels m loc0 e2) as (e3 & Hscan & L3 & S3);
    try assumption.
  { intros i Hi. apply in_ndindex. exact Hi. }
  { rewrite Hlen. exact Hm. }
  { intros j Hj. rewrite N0. apply Hok. exact Hj. }
  { rewrite N0. exact Hbad. }
  unfold bindM at 1. rewrite Hscan.
  unfold on_exception. cbn [is_CancelledError negb andb].
  rewrite for_each_unsubscribe.
  destruct e3 as [sts a cpl dat md ps rw arw sub syn fe sg tr]. simpl in L3, S3. subst a.
  cbn. eexists. split; [reflexivity |]. cbn. auto.
Qed.

(** *** Three passes are enough fuel *)

Lemma never_stuck_bind {A B : Type} (m : M A) (k : A -> M B) :
  never_stuck m -> (forall a, never_stuck (k a)) -> never_stuck (bindM m k).
Proof.
  intros Hm Hk e. unfold bindM. specialize (Hm e).
  destruct (m e) as [a e1 | ex e1 |]; [apply Hk | discriminate | contradiction].
Qed.

Lemma never_stuck_modify (f : Engine -> Engine) : never_stuck (modify f).
Proof. intros e. discriminate. Qed.

Lemma never_stuck_call (a : Action) : never_stuck (call a).
Proof. intros e. discriminate. Qed.

Lemma never_stuck_ret {A : Type} (a : A) : never_stuck (ret a).
Proof. intros e. discriminate. Qed.

Lemma never_stuck_throw {A : Type} (ex : exn) : never_stuck (@throw A ex).
Proof. intros e. discriminate. Qed.

Lemma never_stuck_get : never_stuck get.
Proof. intros e. discriminate. Qed.

Lemma never_stuck_lift {A : Type} (r : Result A) : never_stuck (lift r).
Proof. intros e. unfold lift. destruct r; discriminate. Qed.

Lemma never_stuck_liftE (f : Engine -> Result Engine) : never_stuck (liftE f).
Proof. intros e. unfold liftE. destruct (f e); discriminate. Qed.

Lemma never_stuck_check_cancelled : never_stuck check_cancelled.
Proof.
  unfold check_cancelled. apply never_stuck_bind; [apply never_stuck_get |].
  intros e. destruct (AcqState_eqb _ _); [apply never_stuck_throw | apply never_stuck_ret].
Qed.

Create HintDb stuck.

#[local] Hint Resolve never_stuck_modify never_stuck_call never_stuck_ret
  never_stuck_throw never_stuck_get never_stuck_lift never_stuck_liftE
  never_stuck_check_cancelled : stuck.

Ltac unstuck :=
  repeat first
    [ assumption
    | solve [auto with stuck nocore]
    | apply never_stuck_bind; [| intros ?] ].

Lemma never_stuck_wait_sem (ks : list nat) (att : Attempt) : never_stuck (wait_sem ks att).
Proof.
  induction ks as [| k ks IH]; cbn [wait_sem]; [apply never_stuck_ret |].
  apply never_stuck_bind; [unfold wait_event; unstuck | intros got].
  destruct got; unstuck.
Qed.

Lemma never_stuck_patch_position (c : Config) (penv : PixelEnv) :
  never_stuck (patch_position c penv).
Proof. unfold patch_position. unstuck. Qed.

Lemma never_stuck_leech_loop (leech_pre : nat -> Locals -> M Locals) (att : Attempt)
    (lis : list nat) :
  (forall li loc, never_stuck (leech_pre li loc)) ->
  forall loc, never_stuck (leech_loop leech_pre att lis loc).
Proof.
  intros Hpre. induction lis as [| li lis IH]; intros loc; cbn [leech_loop];
    [apply never_stuck_ret |].
  apply never_stuck_bind; [apply never_stuck_lift | intros np].
  destruct np as [np |]; [| apply IH].
  destruct (np - 1 =? 0)%Z; [| apply IH].
  apply never_stuck_bind; [apply Hpre | intros loc1].
  unstuck; apply IH.
Qed.

Lemma never_stuck_attempt (c : Config) (patch : M unit)
    (leech_pre : nat -> Locals -> M Locals) (att : Attempt) (failures : nat)
    (loc : Locals) :
  never_stuck patch -> (forall li l, never_stuck (leech_pre li l)) ->
  never_stuck (attempt c patch leech_pre att failures loc).
Proof.
  intros Hp Hl. unfold attempt.
  apply never_stuck_bind; [unfold arm; unstuck | intros _].
  apply never_stuck_bind; [apply never_stuck_get | intros e].
  apply never_stuck_bind; [unfold wait_event; unstuck | intros got].
  apply never_stuck_bind; [apply never_stuck_modify | intros _].
  apply never_stuck_bind; [apply never_stuck_check_cancelled | intros _].
  destruct (negb got || _).
  - unfold on_failure.
    apply never_stuck_bind; [apply never_stuck_call | intros _].
    destruct (3 <=? S failures)%nat; unstuck.
  - unfold on_acquired.
    apply never_stuck_bind; [apply never_stuck_get | intros e1].
    apply never_stuck_bind; [apply never_stuck_wait_sem | intros _].
    apply never_stuck_bind; [apply never_stuck_check_cancelled | intros _].
    apply never_stuck_bind; [exact Hp | intros _].
    apply never_stuck_bind; [apply never_stuck_modify | intros _].
    apply never_stuck_bind; [apply never_stuck_leech_loop; exact Hl | intros loc1].
    apply never_stuck_ret.
Qed.

(** A pass asks for another one only after a first or a second failure. *)
Lemma attempt_continue (c : Config) (patch : M unit)
    (leech_pre : nat -> Locals -> M Locals) (att : Attempt) (failures f' : nat)
    (loc : Locals) (e e' : Engine) :
  attempt c patch leech_pre att failures loc e = Next (Continue f') e' ->
  f' = S failures /\ (f' < 3)%nat.
Proof.
  intros H. rewrite attempt_eval in H.
  destruct (AcqState_eqb (_acq_state (at_start att e)) CANCELLED); [discriminate H |].
  destruct (_acq_complete (at_wait_end att e) !! last_id e) as [got |]; [| discriminate H].
  destruct (AcqState_eqb (_acq_state (at_check att e)) CANCELLED); [discriminate H |].
  destruct (negb got || Qlt_bool (att_dur att) (rep_time c * 0.95)).
  - rewrite on_failure_eval in H.
    destruct (3 <=? S failures)%nat eqn:E; [discriminate H |].
    apply Nat.leb_gt in E. injection H as <- _. split; [reflexivity | exact E].
  - exfalso. revert H. unfold on_acquired.
    unfold bindM at 1. unfold get at 1.
    unfold bindM at 1. destruct (wait_sem _ _ _) as [? e1 | |]; try discriminate.
    unfold bindM at 1. destruct (check_cancelled e1) as [? e2 | |]; try discriminate.
    unfold bindM at 1. destruct (patch e2) as [? e3 | |]; try discriminate.
    unfold bindM at 1. unfold modify at 1.
    unfold bindM at 1. destruct (leech_loop _ _ _ _ _) as [? e4 | |]; discriminate.
Qed.

(** The loop of a pixel, started with fuel for three passes, always ends: it
    returns the pixel or raises. *)
Lemma retry_loop_never_stuck (c : Config) (patch : M unit)
    (leech_pre : nat -> Locals -> M Locals) (penv : PixelEnv) (loc : Locals) :
  never_stuck patch -> (forall li l, never_stuck (leech_pre li l)) ->
  never_stuck (retry_loop 3 c patch leech_pre penv 0 loc).
Proof.
  intros Hp Hl e.
  assert (Hstep : forall fuel f e0,
            (f < 3)%nat -> (3 <= fuel + f)%nat ->
            retry_loop fuel c patch leech_pre penv f loc e0 <> OutOfFuel).
  { induction fuel as [| fuel IH]; intros f e0 Hf Hfuel; [lia |].
    rewrite retry_loop_step.
    pose proof (never_stuck_attempt c patch leech_pre (px_attempt penv f) f loc Hp Hl e0)
      as Hns.
    destruct (attempt c patch leech_pre (px_attempt penv f) f loc e0)
      as [[f' | loc'] e1 | ex e1 |] eqn:E; try discriminate; [| contradiction].
    apply attempt_continue in E. destruct E as [-> Hlt].
    apply IH; lia. }
  apply Hstep; lia.
Qed.

(** C2, as stated, fails: a pass that took less than 0.95 times the time of
    a pixel does not always count as a failure.  Here the user cancels while
    the worker waits for the camera on pixel number 1; the wait returns after
    0.05 s for a pixel of 0.1 s, and the acquisition ends with CancelledError:
    no warning is logged, the pixel is not tried again. *)
Lemma camera_sync_retry_counterexample :
  att_dur (cancelled 100) < rep_time (mock_config_with (cancelled 100)) * 0.95 /\
  exists e',
    _runAcquisition (mock_config_with (cancelled 100)) example_engine
    = Throw CancelledError e' /\
    ~ In (Log WARNING) (trace e') /\ ~ In (Sleep 1) (trace e').
Proof.
  split; [reflexivity |].
  eexists. split; [vm_compute; reflexivity |].
  split; intros H; cbn in H;
    repeat (destruct H as [H | H]; [discriminate H |]); exact H.
Qed.

(** C2 (amended).  In the loop of a pixel of the camera-synchronised
    acquisition, take a pass in which the wait on the completion event of the
    camera timed out, or which took less than 0.95 times the time of a pixel.
    When the acquisition is cancelled by then (before the pass or during it),
    the pass raises CancelledError and no failure is counted.  Otherwise a
    failure is counted: at the first and at the second failure the worker
    logs a warning, unsubscribes the dataflow of every stream, cuts every
    accumulator back to the [n] pixels already acquired, sleeps 1 s,
    subscribes the camera again and makes another pass on the same pixel; at
    the third failure it raises SyncFailure.  The loop of a pixel needs no
    more than three passes.  So, for the engine with its two streams, when no
    callback runs between a pass and the next and nobody cancels: if some
    pixel fails three times (the pixels before it being acquired), the
    acquisition fails with SyncFailure and leaves no output; if every pixel is
    acquired after at most two failures, the acquisition completes, the state
    is FINISHED and the output holds the two assembled images, unless there
    is a drift corrector whose anchor regions cannot be put together: then
    the acquisition raises that error and leaves no output. *)
Theorem camera_sync_retry (c : Config) (ss cs : nat * nat) (e : Engine) :
  ready e -> useScanStage c = false ->
  fst ss <> 0%nat -> snd ss <> 0%nat -> fst cs <> 0%nat -> snd cs <> 0%nat ->
  (forall patch leech_pre att failures loc e0 got,
     well_formed e0 ->
     _acq_complete (at_wait_end att e0) !! last_id e0 = Some got ->
     got = false \/ att_dur att < rep_time c * 0.95 ->
     (_acq_state (at_start att e0) = CANCELLED ->
      exists e',
        attempt c patch leech_pre att failures loc e0 = Throw CancelledError e' /\
        trace e' = trace (at_start att e0)) /\
     (_acq_state (at_start att e0) <> CANCELLED ->
      _acq_state (at_check att e0) = CANCELLED ->
      attempt c patch leech_pre att failures loc e0
      = Throw CancelledError (at_check att e0)) /\
     (_acq_state (at_start att e0) <> CANCELLED ->
      _acq_state (at_check att e0) <> CANCELLED ->
      ((failures < 2)%nat ->
       exists e',
         attempt c patch leech_pre att failures loc e0 = Next (Continue (S failures)) e' /\
         _acq_data e' = map (take (n_done loc)) (_acq_data (at_check att e0)) /\
         (forall i, (i < length (streams e0))%nat ->
                    subscribed e' !! i = Some (bool_decide (i = last_id e0))) /\
         trace e' = trace (at_check att e0) ++ [Log WARNING]
                    ++ map Unsubscribe (stream_ids e0)
                    ++ [Sleep 1; Subscribe (last_id e0)]) /\
      ((2 <= failures)%nat ->
       attempt c patch leech_pre att failures loc e0
       = Throw (IOError SyncFailure) (emit (Log WARNING) (at_check att e0))))) /\
  (forall penv loc,
     never_stuck (retry_loop 3 c (patch_position c penv) (fun _ l => ret l) penv 0 loc)) /\
  (forall m,
     (m < tot_num c)%nat ->
     (forall j, (j < m)%nat -> pixel_ok c ss cs (pixel c j)) ->
     pixel_fails c (pixel c m) ->
     exists e',
       _runAcquisition c e = Throw (IOError SyncFailure) e' /\
       _raw e' = [] /\ MultipleDetectorStream.raw e' = []) /\
  ((forall j, (j < tot_num c)%nat -> pixel_ok c ss cs (pixel c j)) ->
   (has_dc c = true -> exists a, _assembleAnchorData (dc_raw c) = Ok a) ->
   exists r e' d0 d1,
     _runAcquisition c e = Next r e' /\
     r = MultipleDetectorStream.raw e' /\
     _acq_state e' = FINISHED /\
     _raw e' = [d0; d1] /\
     shape d0 = [(Pos.to_nat (snd (repetition (settings c))) * fst ss)%nat;
                 (Pos.to_nat (fst (repetition (settings c))) * snd ss)%nat] /\
     shape d1 = [(Pos.to_nat (snd (repetition (settings c))) * fst cs)%nat;
                 (Pos.to_nat (fst (repetition (settings c))) * snd cs)%nat]) /\
  (forall ex,
     (forall j, (j < tot_num c)%nat -> pixel_ok c ss cs (pixel c j)) ->
     has_dc c = true -> _assembleAnchorData (dc_raw c) = Raise ex ->
     exists e',
       _runAcquisition c e = Throw ex e' /\ _raw e' = [] /\ _anchor_raw e' = []).
Proof.
  intros Hr Hu Hs1 Hs2 Hc1 Hc2.
  split; [| split; [| split; [| split]]].
  - intros patch leech_pre att failures loc e0 got Hwf Hgot Hfail.
    split; [| split].
    + intros Hst. rewrite attempt_eval, Hst. cbn [AcqState_eqb].
      eexists. split; [reflexivity |]. destruct (at_start att e0); reflexivity.
    + intros Hst Hst'. rewrite attempt_eval, Hgot.
      apply AcqState_eqb_neq in Hst. rewrite Hst, Hst'. reflexivity.
    + intros Hst Hst'.
      destruct (attempt_failure_step c patch leech_pre att failures loc e0 got
                  Hwf Hst Hgot Hst' Hfail) as [Hretry Hgiveup].
      split; [| exact Hgiveup].
      intros Hf. destruct (Hretry Hf) as (e' & H1 & H2 & H3 & H4 & _).
      exists e'. auto.
  - intros penv loc. apply retry_loop_never_stuck.
    + apply never_stuck_patch_position.
    + intros li l. apply never_stuck_ret.
  - intros m Hm Hok Hbad.
    destruct (runAcquisition_gives_up c ss cs e m Hr Hu Hm Hok Hbad)
      as (e' & H1 & _ & H3 & _ & H5).
    exists e'. auto.
  - intros Hok Hdc.
    exact (runAcquisition_completes c ss cs e Hr Hu Hs1 Hs2 Hc1 Hc2 Hdc Hok).
  - intros ex Hok Hdc Han.
    destruct (runAcquisition_anchor_fails c ss cs e ex Hr Hu Hs1 Hs2 Hc1 Hc2 Hdc Han Hok)
      as (e' & H1 & H2 & H3 & _).
    exists e'. auto.
Qed.

Lemma mock_ready : ready example_engine.
Proof. unfold ready, well_formed. simpl. auto. Qed.

Lemma mock_hit (k : nat) (start : Q) :
  succeeding (mock_config k) (1%nat, 1%nat) (1%nat, 1%nat) (hit start).
Proof.
  assert (Hfresh : forall v, too_early (Some start) (sample (start + 0.1) v) = false).
  { intros v. unfold too_early, sample. simpl.
    destruct (Qlt_bool (start + 0.1) start) eqn:E; [| reflexivity].
    apply Qlt_bool_iff in E. exfalso. lra. }
  unfold succeeding. split_all; try reflexivity.
  - unfold Qle. simpl. lia.
  - exists (sample (start + 0.1) 2). split.
    + cbn [hit att_wait att_start accepted Nat.eqb andb]. rewrite Hfresh. reflexivity.
    + unfold tile_ok. simpl. eauto.
  - exists (sample (start + 0.1) 1). split.
    + cbn [hit att_wait att_start accepted Nat.eqb andb app]. rewrite Hfresh. reflexivity.
    + unfold tile_ok. simpl. eauto.
Qed.

Lemma mock_miss (k : nat) (start : Q) : failing (mock_config k) (miss start).
Proof. unfold failing. simpl. auto. Qed.

Lemma mock_pixel_ok (k j : nat) :
  (k <= 2)%nat ->
  pixel_ok (mock_config k) (1%nat, 1%nat) (1%nat, 1%nat) (mock_pixel k j).
Proof.
  intros Hk. unfold pixel_ok.
  destruct (Nat.eqb_spec j 1) as [-> | Hne].
  - exists k. split; [exact Hk |]. split.
    + intros i Hi. unfold mock_pixel. cbn [px_attempt Nat.eqb andb].
      apply Nat.ltb_lt in Hi. rewrite Hi. apply mock_miss.
    + unfold mock_pixel. cbn [px_attempt Nat.eqb andb].
      rewrite Nat.ltb_irrefl. apply mock_hit.
  - exists 0%nat. split; [lia |]. split; [intros i Hi; lia |].
    unfold mock_pixel. cbn [px_attempt].
    apply Nat.eqb_neq in Hne. rewrite Hne. apply mock_hit.
Qed.

Lemma camera_sync_retry_witness :
  (exists r e', _runAcquisition (mock_config 2) example_engine = Next r e' /\
                _acq_state e' = FINISHED /\ length (_raw e') = 2%nat) /\
  (exists e', _runAcquisition (mock_config 3) example_engine
              = Throw (IOError SyncFailure) e').
Proof.
  split.
  - destruct (camera_sync_retry (mock_config 2) (1%nat, 1%nat) (1%nat, 1%nat)
                example_engine mock_ready eq_refl
                ltac:(discriminate) ltac:(discriminate)
                ltac:(discriminate) ltac:(discriminate)) as (_ & _ & _ & H & _).
    destruct H as (r & e' & d0 & d1 & H1 & _ & H3 & H4 & _).
    + intros j _. apply mock_pixel_ok. lia.
    + discriminate.
    + exists r, e'. rewrite H4. auto.
  - destruct (camera_sync_retry (mock_config 3) (1%nat, 1%nat) (1%nat, 1%nat)
                example_engine mock_ready eq_refl
                ltac:(discriminate) ltac:(discriminate)
                ltac:(discriminate) ltac:(discriminate)) as (_ & _ & H & _).
    destruct (H 1%nat) as (e' & H1 & _).
    + vm_compute. lia.
    + intros j Hj. assert (j = 0%nat) by lia. subst j.
      exists 0%nat. split; [lia |]. split; [intros i Hi; lia |]. apply mock_hit.
    + intros i Hi. unfold mock_config, mock_pixel. cbn [pixel px_attempt Nat.eqb andb].
      apply Nat.ltb_lt in Hi. rewrite Hi. apply mock_miss.
    + exists e'. exact H1.
Defined.

(** What a callback between two passes can do.  The camera misses the first
    trigger on pixel number 1, the wait times out and the pixel is tried
    again; the frame of the missed trigger arrives when the camera has been
    subscribed again and before the events are cleared: it is not older than
    the start of the failed pass, the event of the camera is not set, so it
    is stored, and the frame of the second pass is stored after it.  The
    pixel had one failure only, yet the acquisition does not complete: the
    camera has given five frames for four pixels and the assembly fails. *)
Lemma late_frame_breaks_completion :
  accepted 1 100 (att_before (late_frame 110)) = Some (sample 109 9) /\
  _acq_data (armed (late_frame 110)
               (set_acq_min_date (Some 100) example_engine))
  = [[]; [sample 109 9]] /\
  exists ex e',
    _runAcquisition late_config example_engine = Throw ex e' /\
    ex <> CancelledError /\ ex <> IOError SyncFailure /\
    _acq_state e' = FINISHED /\ _raw e' = [].
Proof.
  split; [vm_compute; reflexivity |].
  split; [vm_compute; reflexivity |].
  eexists. eexists. split; [vm_compute; reflexivity |].
  split; [discriminate |]. split; [discriminate |]. split; reflexivity.
Qed.

(** ** Cancelling *)








(** * Further properties of the acquisition code *)

(** ** The grids of positions *)

Lemma N2Q_le (i j : nat) : (i <= j)%nat -> N2Q i <= N2Q j.
Proof. intros H. unfold N2Q. rewrite <- Zle_Qle. lia. Qed.

Lemma N2Q_pos (n : nat) : (0 < n)%nat -> 0 < N2Q n.
Proof. intros H. unfold N2Q. replace 0 with (inject_Z 0) by reflexivity.
  rewrite <- Zlt_Qlt. lia. Qed.

(** The samples of [linspace] lie between its two ends. *)
Lemma linspace_between (a b : Q) (n : nat) (v : Q) :
  In v (linspace a b n) ->
  (a <= b -> a <= v /\ v <= b) /\ (b <= a -> b <= v /\ v <= a).
Proof.
  intros Hin. apply list_elem_of_In, list_elem_of_lookup_1 in Hin.
  destruct Hin as [i Hi].
  pose proof (lookup_lt_Some _ _ _ Hi) as Hlt. rewrite linspace_length in Hlt.
  destruct (linspace_lookup a b n i Hlt) as (v' & Hv' & Hcase).
  rewrite Hi in Hv'. injection Hv' as <-.
  destruct Hcase as [[_ ->] | [Hn Hv]].
  - split; intros H; split; lra.
  - assert (Hpos : 0 < N2Q (n - 1)) by (apply N2Q_pos; lia).
    assert (Hi1 : N2Q i <= N2Q (n - 1)) by (apply N2Q_le; lia).
    pose proof (N2Q_nonneg i) as Hi0.
    assert (Hfull : N2Q (n - 1) * ((b - a) / N2Q (n - 1)) == b - a)
      by (field; lra).
    set (d := (b - a) / N2Q (n - 1)) in *.
    split; intros Hab.
    + assert (Hd : 0 <= d).
      { unfold d. apply Qle_shift_div_l; [exact Hpos | lra]. }
      assert (H1 : 0 <= N2Q i * d) by (apply Qmult_le_0_compat; assumption).
      assert (H2 : N2Q i * d <= N2Q (n - 1) * d)
        by (apply Qmult_le_compat_r; assumption).
      split; lra.
    + assert (Hd : 0 <= - d).
      { assert (Hd' : d <= 0).
        { unfold d. apply Qle_shift_div_r; [exact Hpos | lra]. }
        lra. }
      assert (H1 : 0 <= N2Q i * - d) by (apply Qmult_le_0_compat; assumption).
      assert (H2 : N2Q i * - d <= N2Q (n - 1) * - d)
        by (apply Qmult_le_compat_r; assumption).
      split; lra.
Qed.

(** What a grid of stage positions is made of, when the box fits. *)
Lemma getScanStagePositions_Ok (s : Settings) (st : ScanStage)
    (g : list (list (Q * Q))) (l t r b : Q) :
  roi s = (l, t, r, b) ->
  _getScanStagePositions s st = Ok g ->
  let w := (r - l) / P2Q (fst (repetition s)) in
  let h := (b - t) / P2Q (snd (repetition s)) in
  let fx := Z2Q (fst (emitter_shape s)) * fst (emitter_pixelSize s) in
  let fy := Z2Q (snd (emitter_shape s)) * snd (emitter_pixelSize s) in
  exists x0 x1 y0 y1,
    g = map (fun sx => map (fun sy => (sx, sy))
                         (linspace y0 y1 (Pos.to_nat (snd (repetition s)))))
            (linspace x0 x1 (Pos.to_nat (fst (repetition s)))) /\
    fst (range_x st) <= x0 /\ x0 <= x1 /\ x1 <= snd (range_x st) /\
    fst (range_y st) <= y1 /\ y1 <= y0 /\ y0 <= snd (range_y st) /\
    x0 == fst (position st) + fx * (l + w / 2 - 0.5) /\
    x1 == fst (position st) + fx * (r - w / 2 - 0.5) /\
    y0 == snd (position st) - fy * (t + h / 2 - 0.5) /\
    y1 == snd (position st) - fy * (b - h / 2 - 0.5).
Proof.
  intros Hroi. unfold _getScanStagePositions. rewrite Hroi. cbv zeta. cbn [fst snd].
  match goal with
  | |- (if negb ?c then _ else _) = _ -> _ => destruct c eqn:E
  end; [| discriminate].
  cbn [negb]. intros H. injection H as <-.
  apply andb_true_iff in E. destruct E as [E1 E2].
  apply chain4_true in E1. apply chain4_true in E2.
  destruct E1 as (A1 & A2 & A3). destruct E2 as (B1 & B2 & B3).
  eexists. eexists. eexists. eexists.
  split; [reflexivity |].
  split_all; try assumption; ring.
Qed.

(** X1.  When [_getScanStagePositions] returns a grid, the grid has one
    column of stage positions per pixel along X and one entry per pixel along
    Y in each column, and every position of the grid lies within the ranges
    of the two axes of the stage: the scan never asks the stage to leave its
    range. *)
Theorem getScanStagePositions_within_range (s : Settings) (st : ScanStage)
    (g : list (list (Q * Q))) :
  _getScanStagePositions s st = Ok g ->
  length g = Pos.to_nat (fst (repetition s)) /\
  Forall (fun col => length col = Pos.to_nat (snd (repetition s))) g /\
  (forall col p, In col g -> In p col ->
     fst (range_x st) <= fst p /\ fst p <= snd (range_x st) /\
     fst (range_y st) <= snd p /\ snd p <= snd (range_y st)).
Proof.
  intros Hg. destruct (roi s) as [[[l t] r] b] eqn:Hroi.
  destruct (getScanStagePositions_Ok s st g l t r b Hroi Hg)
    as (x0 & x1 & y0 & y1 & -> & A1 & A2 & A3 & B1 & B2 & B3 & _).
  split; [rewrite length_map; apply linspace_length |].
  split.
  - apply Forall_forall. intros col Hcol.
    apply list_elem_of_In, in_map_iff in Hcol. destruct Hcol as (sx & <- & _).
    rewrite length_map. apply linspace_length.
  - intros col p Hcol Hp.
    apply in_map_iff in Hcol. destruct Hcol as (sx & <- & Hsx).
    apply in_map_iff in Hp. destruct Hp as (sy & <- & Hsy).
    cbn [fst snd].
    destruct (linspace_between _ _ _ _ Hsx) as [Hx _].
    destruct (linspace_between _ _ _ _ Hsy) as [_ Hy].
    specialize (Hx A2). specialize (Hy B2).
    destruct Hx, Hy. split_all; lra.
Qed.

Lemma getScanStagePositions_within_range_witness :
  exists g,
    _getScanStagePositions small_fov_settings example_stage = Ok g /\
    length g = 2%nat.
Proof.
  destruct (_getScanStagePositions small_fov_settings example_stage) as [g | ex] eqn:E;
    [| vm_compute in E; discriminate E].
  exists g. split; [reflexivity |].
  exact (proj1 (getScanStagePositions_within_range small_fov_settings example_stage g E)).
Defined.

Lemma Qhalf (w : Q) : w / 2 == w * (1 # 2).
Proof. field. Qed.

Lemma P2Q_pred (p : positive) : N2Q (Pos.to_nat p - 1) == P2Q p - 1.
Proof.
  rewrite P2Q_N2Q. pose proof (Pos2Nat.is_pos p).
  destruct (Pos.to_nat p) as [| k]; [lia |].
  rewrite N2Q_S. replace (S k - 1)%nat with k by lia. ring.
Qed.

(** Sample [x] of an interval whose ends are the images, by an affine map,
    of the ends of the ROI inset by half a step. *)
Lemma affine_sample (c k l r a0 a1 : Q) (p : positive) (x : nat) :
  (x < Pos.to_nat p)%nat ->
  let w := (r - l) / P2Q p in
  a0 == c + k * (l + w / 2 - 0.5) ->
  a1 == c + k * (r - w / 2 - 0.5) ->
  exists v, linspace a0 a1 (Pos.to_nat p) !! x = Some v /\
            v == c + k * ((l + w / 2 + N2Q x * w) - 0.5).
Proof.
  intros Hx w H0 H1.
  destruct (linspace_lookup a0 a1 (Pos.to_nat p) x Hx) as [v [Hv [[Hn ->] | [Hn Ev]]]].
  - exists a0. split; [exact Hv |].
    assert (x = 0%nat) by lia. subst x. rewrite H0. unfold N2Q. simpl. ring.
  - exists v. split; [exact Hv |]. rewrite Ev, H0, H1.
    pose proof (P2Q_pred p) as HP.
    assert (Hk : 0 < N2Q (Pos.to_nat p - 1)) by (apply N2Q_pos; lia).
    assert (HP' : P2Q p == N2Q (Pos.to_nat p - 1) + 1) by lra.
    unfold w. rewrite HP'. field. split; lra.
Qed.

(** The cell of the beam grid for pixel (x, y). *)
Lemma getSpotPositions_cell (s : Settings) (l t r b : Q) (y x : nat) :
  roi s = (l, t, r, b) ->
  (y < Pos.to_nat (snd (repetition s)))%nat ->
  (x < Pos.to_nat (fst (repetition s)))%nat ->
  let w := (r - l) / P2Q (fst (repetition s)) in
  let h := (b - t) / P2Q (snd (repetition s)) in
  exists row tx ty,
    _getSpotPositions s !! y = Some row /\ row !! x = Some (tx, ty) /\
    tx == Z2Q (fst (emitter_shape s)) * ((l + w / 2 + N2Q x * w) - 0.5) /\
    ty == Z2Q (snd (emitter_shape s)) * ((t + h / 2 + N2Q y * h) - 0.5).
Proof.
  intros Hroi Hy Hx w h. unfold _getSpotPositions. rewrite Hroi. cbv zeta. cbn [fst snd].
  destruct (centre_sample (Z2Q (fst (emitter_shape s))) l r (fst (repetition s)) x Hx)
    as (tx & Htx & Ex).
  destruct (centre_sample (Z2Q (snd (emitter_shape s))) t b (snd (repetition s)) y Hy)
    as (ty & Hty & Ey).
  destruct (lookup_map_pairs_l (fun v u => (u, v)) _ _ y x ty tx Hty Htx)
    as [row [Hrow Hcell]].
  exists row, tx, ty. auto.
Qed.

(** X2.  The grid of the scan stage covers the same points of the sample as
    the grid of the e-beam: the stage position for pixel (x, y) is the
    current position of the stage plus the e-beam translation for that pixel
    times the size of a pixel of the emitter, Y being inverted (the stage grid
    is indexed X first, the beam grid Y first). *)
Theorem stage_grid_follows_beam_grid (s : Settings) (st : ScanStage)
    (g : list (list (Q * Q))) (x y : nat) :
  _getScanStagePositions s st = Ok g ->
  (x < Pos.to_nat (fst (repetition s)))%nat ->
  (y < Pos.to_nat (snd (repetition s)))%nat ->
  exists col sx sy row tx ty,
    g !! x = Some col /\ col !! y = Some (sx, sy) /\
    _getSpotPositions s !! y = Some row /\ row !! x = Some (tx, ty) /\
    sx == fst (position st) + fst (emitter_pixelSize s) * tx /\
    sy == snd (position st) - snd (emitter_pixelSize s) * ty.
Proof.
  intros Hg Hx Hy. destruct (roi s) as [[[l t] r] b] eqn:Hroi.
  destruct (getScanStagePositions_Ok s st g l t r b Hroi Hg)
    as (x0 & x1 & y0 & y1 & -> & _ & _ & _ & _ & _ & _ & X0 & X1 & Y0 & Y1).
  destruct (getSpotPositions_cell s l t r b y x Hroi Hy Hx)
    as (row & tx & ty & Hrow & Hcell & Etx & Ety).
  destruct (affine_sample (fst (position st))
              (Z2Q (fst (emitter_shape s)) * fst (emitter_pixelSize s))
              l r x0 x1 (fst (repetition s)) x Hx X0 X1) as (sx & Hsx & Esx).
  assert (Y0' : y0 == snd (position st)
                      + - (Z2Q (snd (emitter_shape s)) * snd (emitter_pixelSize s))
                        * (t + (b - t) / P2Q (snd (repetition s)) / 2 - 0.5))
    by (rewrite Y0; ring).
  assert (Y1' : y1 == snd (position st)
                      + - (Z2Q (snd (emitter_shape s)) * snd (emitter_pixelSize s))
                        * (b - (b - t) / P2Q (snd (repetition s)) / 2 - 0.5))
    by (rewrite Y1; ring).
  destruct (affine_sample (snd (position st))
              (- (Z2Q (snd (emitter_shape s)) * snd (emitter_pixelSize s)))
              t b y0 y1 (snd (repetition s)) y Hy Y0' Y1') as (sy & Hsy & Esy).
  destruct (lookup_map_pairs_l (fun u v => (u, v)) _ _ x y sx sy Hsx Hsy)
    as [col [Hcol Hc]].
  exists col, sx, sy, row, tx, ty.
  split_all; try assumption.
  - rewrite Esx, Etx. ring.
  - rewrite Esy, Ety. ring.
Qed.

Lemma stage_grid_follows_beam_grid_witness :
  exists sx sy tx ty,
    lookup2 (_getSpotPositions small_fov_settings) 1 0 = Ok (tx, ty) /\
    sx == 0.001 + 0.001 * tx /\ sy == 0 - 0.001 * ty /\
    sx == 0 /\ sy == -0.001.
Proof.
  destruct (_getScanStagePositions small_fov_settings example_stage) as [g | ex] eqn:E;
    [| vm_compute in E; discriminate E].
  destruct (stage_grid_follows_beam_grid small_fov_settings example_stage g 0 1 E
              ltac:(vm_compute; lia) ltac:(vm_compute; lia))
    as (col & sx & sy & row & tx & ty & Hcol & Hc & Hrow & Hcell & Ex & Ey).
  exists sx, sy, tx, ty.
  vm_compute in Hrow. injection Hrow as <-.
  vm_compute in Hcell. injection Hcell as <- <-.
  split; [vm_compute; reflexivity |].
  split; [exact Ex |]. split; [exact Ey |].
  split; [rewrite Ex | rewrite Ey]; reflexivity.
Defined.

(** The ROI inset by half a pixel on each side is not empty and lies in the
    ROI. *)
Lemma inset_bounds (l r : Q) (p : positive) :
  l <= r ->
  let w := (r - l) / P2Q p in
  0 <= w /\ l + w / 2 <= r - w / 2.
Proof.
  intros Hlr w. pose proof (P2Q_pos p) as Hp.
  assert (H1 : 1 <= P2Q p).
  { unfold P2Q. replace 1 with (inject_Z 1) by reflexivity. rewrite <- Zle_Qle. lia. }
  assert (Hw : 0 <= w) by (unfold w; apply Qle_shift_div_l; [exact Hp | lra]).
  assert (Hfull : w * P2Q p == r - l) by (unfold w; field; lra).
  assert (Hle : w * 1 <= w * P2Q p).
  { rewrite !(Qmult_comm w). apply Qmult_le_compat_r; assumption. }
  clearbody w. split; [exact Hw |].
  assert (Hhalf : w / 2 == w * (1 # 2)) by field.
  lra.
Qed.

(** X3.  For a ROI with left <= right and top <= bottom and an emitter of
    non-negative shape, every e-beam translation of the grid of
    [_getSpotPositions] lies inside the ROI, expressed in pixels of the
    emitter from its centre; so for a ROI within the unit square no spot is
    further than half the shape of the emitter from the centre, and the
    translation is never clipped for lying outside the field of view. *)
Theorem getSpotPositions_inside_roi (s : Settings) (l t r b : Q)
    (row : list (Q * Q)) (p : Q * Q) :
  roi s = (l, t, r, b) ->
  l <= r -> t <= b ->
  (0 <= fst (emitter_shape s))%Z -> (0 <= snd (emitter_shape s))%Z ->
  In row (_getSpotPositions s) -> In p row ->
  let Sx := Z2Q (fst (emitter_shape s)) in
  let Sy := Z2Q (snd (emitter_shape s)) in
  (Sx * (l - 0.5) <= fst p /\ fst p <= Sx * (r - 0.5) /\
   Sy * (t - 0.5) <= snd p /\ snd p <= Sy * (b - 0.5)) /\
  (0 <= l -> r <= 1 -> - (Sx / 2) <= fst p /\ fst p <= Sx / 2) /\
  (0 <= t -> b <= 1 -> - (Sy / 2) <= snd p /\ snd p <= Sy / 2).
Proof.
  intros Hroi Hlr Htb HSx HSy Hrow Hp Sx Sy.
  assert (HSx' : 0 <= Sx).
  { unfold Sx, Z2Q. replace 0 with (inject_Z 0) by reflexivity.
    rewrite <- Zle_Qle. exact HSx. }
  assert (HSy' : 0 <= Sy).
  { unfold Sy, Z2Q. replace 0 with (inject_Z 0) by reflexivity.
    rewrite <- Zle_Qle. exact HSy. }
  unfold _getSpotPositions in Hrow. rewrite Hroi in Hrow.
  cbv zeta in Hrow. cbn [fst snd] in Hrow.
  apply in_map_iff in Hrow. destruct Hrow as (ty & <- & Hty).
  apply in_map_iff in Hp. destruct Hp as (tx & <- & Htx).
  cbn [fst snd].
  destruct (inset_bounds l r (fst (repetition s)) Hlr) as [Hw Hwi].
  destruct (inset_bounds t b (snd (repetition s)) Htb) as [Hh Hhi].
  set (w := (r - l) / P2Q (fst (repetition s))) in *.
  set (h := (b - t) / P2Q (snd (repetition s))) in *.
  fold Sx in Htx. fold Sy in Hty.
  assert (mono : forall k u v, 0 <= k -> u <= v -> k * u <= k * v).
  { intros k u v Hk Huv. rewrite !(Qmult_comm k).
    apply Qmult_le_compat_r; assumption. }
  clearbody w h.
  pose proof (Qhalf w) as Hw2. pose proof (Qhalf h) as Hh2.
  pose proof (Qhalf Sx) as HSx2. pose proof (Qhalf Sy) as HSy2.
  assert (Ix : Sx * (l + w / 2 - 0.5) <= Sx * (r - w / 2 - 0.5))
    by (apply mono; [exact HSx' | lra]).
  assert (Iy : Sy * (t + h / 2 - 0.5) <= Sy * (b - h / 2 - 0.5))
    by (apply mono; [exact HSy' | lra]).
  destruct (linspace_between _ _ _ _ Htx) as [Hx _].
  destruct (linspace_between _ _ _ _ Hty) as [Hy _].
  specialize (Hx Ix). specialize (Hy Iy).
  destruct Hx as [Hx0 Hx1]. destruct Hy as [Hy0 Hy1].
  pose proof (mono Sx (l - 0.5) (l + w / 2 - 0.5) HSx' ltac:(lra)) as A1.
  pose proof (mono Sx (r - w / 2 - 0.5) (r - 0.5) HSx' ltac:(lra)) as A2.
  pose proof (mono Sy (t - 0.5) (t + h / 2 - 0.5) HSy' ltac:(lra)) as B1.
  pose proof (mono Sy (b - h / 2 - 0.5) (b - 0.5) HSy' ltac:(lra)) as B2.
  split; [split_all; lra |].
  split.
  - intros H0 H1.
    pose proof (mono Sx (- (1 # 2)) (l - 0.5) HSx' ltac:(lra)) as C1.
    pose proof (mono Sx (r - 0.5) (1 # 2) HSx' ltac:(lra)) as C2.
    split; lra.
  - intros H0 H1.
    pose proof (mono Sy (- (1 # 2)) (t - 0.5) HSy' ltac:(lra)) as C1.
    pose proof (mono Sy (b - 0.5) (1 # 2) HSy' ltac:(lra)) as C2.
    split; lra.
Qed.

Lemma getSpotPositions_inside_roi_witness :
  exists row p,
    In row (_getSpotPositions example_settings) /\ In p row /\
    - 2 <= fst p /\ fst p <= 2.
Proof.
  assert (Hin : exists row p, In row (_getSpotPositions example_settings) /\ In p row).
  { destruct (_getSpotPositions example_settings) as [| row rows] eqn:E;
      [vm_compute in E; discriminate E |].
    destruct row as [| p row]; [vm_compute in E; discriminate E |].
    exists (p :: row), p. split; left; reflexivity. }
  destruct Hin as (row & p & Hrow & Hp).
  exists row, p. split; [exact Hrow |]. split; [exact Hp |].
  destruct (getSpotPositions_inside_roi example_settings 0 0 1 1 row p eq_refl
              ltac:(lra) ltac:(lra) ltac:(simpl; lia) ltac:(simpl; lia) Hrow Hp)
    as (_ & H & _).
  specialize (H ltac:(lra) ltac:(lra)). simpl in H.
  destruct H as [H1 H2]. split.
  - refine (Qle_trans _ _ _ _ H1). vm_compute. discriminate.
  - refine (Qle_trans _ _ _ H2 _). vm_compute. discriminate.
Defined.

(** ** The time-correlator stream: region of interest and frames *)

(** X4.  [_computeROISettings] gives the scanner a resolution equal to the
    repetition and a scale and a translation (in pixels of the scanner, from
    its centre) such that the scanned area, of resolution times scale pixels
    around the translation, is exactly the ROI: its left, right, top and
    bottom edges are shape x (edge of the ROI - 0.5). *)
Theorem computeROISettings_covers_roi (rep : positive * positive) (sc : Scanner)
    (l t r b : Q) :
  let S_ := scanner_shape sc in
  let '(scale, res, trans) := _computeROISettings rep sc (l, t, r, b) in
  res = rep /\
  fst trans - P2Q (fst res) * fst scale / 2 == Z2Q (fst S_) * (l - 0.5) /\
  fst trans + P2Q (fst res) * fst scale / 2 == Z2Q (fst S_) * (r - 0.5) /\
  snd trans - P2Q (snd res) * snd scale / 2 == Z2Q (snd S_) * (t - 0.5) /\
  snd trans + P2Q (snd res) * snd scale / 2 == Z2Q (snd S_) * (b - 0.5).
Proof.
  unfold _computeROISettings. cbn [fst snd].
  pose proof (P2Q_pos (fst rep)). pose proof (P2Q_pos (snd rep)).
  split; [reflexivity |]. split_all; field; lra.
Qed.

Lemma Z2Q_pos (z : Z) : (0 < z)%Z -> 0 < Z2Q z.
Proof. intros H. unfold Z2Q. change 0 with (inject_Z 0). rewrite <- Zlt_Qlt. exact H. Qed.

(** X5.  Let [acc] be the dwell time the scanner accepts when asked for
    min(total, maximum), and [quotient] the exact quotient of the binary64
    values of the total dwell time and of [acc].  With a positive total dwell
    time and a quotient from 2^-1022 to 2^53, [_prepareHardware] succeeds;
    the number of frames N is the ceiling of the quotient rounded to
    binary64, it is at least 1 and lies between the floor and the ceiling of
    the exact quotient; the per-frame dwell time it returns is positive, N
    times it is the total dwell time, and it is not longer than [acc] when
    both are binary64 numbers and N is not below the exact quotient.  The
    time-correlator scanner is given the total dwell time and the scanner the
    scale, resolution and translation of [_computeROISettings]. *)
Theorem prepareHardware_frames (rep : positive * positive) (roi : Q * Q * Q * Q)
    (total : Q) (sc : Scanner) :
  let acc := dwell_accept sc (py_min total (snd (dwell_range sc))) in
  let quotient := fl total / fl acc in
  0 < total ->
  / 2 ^ 1022 <= quotient -> quotient <= 2 ^ 53 ->
  exists px_dt nfr sc' q,
    f64 quotient = Some q /\ nfr = Qceiling q /\
    _prepareHardware rep roi total sc = Ok (px_dt, nfr, sc') /\
    (1 <= nfr)%Z /\
    (Qfloor quotient <= nfr <= Qceiling quotient)%Z /\
    px_dt * Z2Q nfr == total /\
    0 < px_dt /\
    (fl total == total -> fl acc == acc -> quotient <= Z2Q nfr -> px_dt <= acc) /\
    tc_dwellTime sc' = total /\
    (scale sc', resolution sc', translation sc') = _computeROISettings rep sc roi.
Proof.
  intros acc quotient Htot Hlo Hhi.
  assert (Hq0 : 0 < quotient).
  { apply Qlt_le_trans with (/ 2 ^ 1022); [| exact Hlo].
    apply Qinv_lt_0_compat, pow2_pos. }
  destruct (f64_defined quotient Hq0 Hhi) as (q & Hq & _).
  pose proof (f64_positive quotient q Hlo Hq) as Hpos.
  pose proof (f64_ceiling_bounds quotient q Hq0 Hhi Hq) as Hb.
  set (nfr := Qceiling q) in *.
  assert (Hn : (0 < nfr)%Z).
  { rewrite Zlt_Qlt. apply Qlt_le_trans with q; [exact Hpos | apply Qle_ceiling]. }
  pose proof (Z2Q_pos nfr Hn) as HnQ.
  assert (Hacc : ~ fl acc == 0).
  { intros E. unfold quotient in Hq0. unfold Qdiv in Hq0. rewrite E in Hq0.
    unfold Qinv in Hq0. simpl in Hq0. lra. }
  unfold _prepareHardware.
  destruct (_computeROISettings rep sc roi) as [[scale0 res0] trans0] eqn:Eroi.
  cbn [write_roi write_dwellTime dwellTime dwell_range dwell_accept].
  fold acc.
  rewrite (py_div_nonzero (fl total) (fl acc)) by exact Hacc. cbn [bind].
  fold quotient. rewrite Hq. cbn [of_option bind]. fold nfr.
  rewrite (py_div_nonzero total (Z2Q nfr)) by lra. cbn [bind].
  eexists. exists nfr. eexists. exists q.
  split; [reflexivity |]. split; [reflexivity |]. split; [reflexivity |].
  cbn [write_tc_dwellTime tc_dwellTime scale resolution translation].
  split; [lia |].
  split; [exact Hb |].
  split; [field; lra |].
  split; [apply Qlt_shift_div_l; lra |].
  split; [| split; reflexivity].
  intros Et Ea Hle.
  assert (Hquo : quotient == total / acc) by (unfold quotient; rewrite Et, Ea; reflexivity).
  assert (Ha0 : 0 < acc).
  { destruct (Qlt_le_dec 0 acc) as [H | H]; [exact H |]. exfalso.
    assert (Hne : ~ acc == 0) by (intros E; apply Hacc; rewrite Ea; exact E).
    assert (Hneg : acc < 0) by (destruct (Qle_lt_or_eq _ _ H) as [L | L]; [exact L | contradiction]).
    assert (Hi : / acc < 0).
    { assert (H1 : 0 < / (- acc)) by (apply Qinv_lt_0_compat; lra).
      assert (H2 : / (- acc) == - / acc) by (field; exact Hne). lra. }
    assert (Hm : total * / acc < 0).
    { assert (H3 : 0 < total * (- / acc)) by (apply Qmult_lt_0_compat; lra). lra. }
    unfold Qdiv in Hquo. lra. }
  apply Qle_shift_div_r; [exact HnQ |].
  assert (Hmul : total / acc * acc <= Z2Q nfr * acc).
  { apply Qmult_le_compat_r; [lra | lra]. }
  assert (Heq : total / acc * acc == total) by (field; lra).
  rewrite (Qmult_comm acc). lra.
Qed.

Lemma prepareHardware_frames_witness :
  exists px_dt sc',
    _prepareHardware (1%positive, 1%positive) (0, 0, 1, 1) 0.1 fast_scanner
    = Ok (px_dt, 10%Z, sc') /\ px_dt * 10 == 0.1.
Proof.
  destruct (prepareHardware_frames (1%positive, 1%positive) (0, 0, 1, 1) 0.1
              fast_scanner ltac:(reflexivity)
              ltac:(vm_compute; discriminate) ltac:(vm_compute; discriminate))
    as (px_dt & nfr & sc' & q & Hq & Hn & Hrun & _ & _ & Hmul & _).
  assert (E : nfr = 10%Z).
  { vm_compute in Hq. injection Hq as <-. rewrite Hn. reflexivity. }
  subst nfr. rewrite E in Hrun, Hmul. exists px_dt, sc'. split; [exact Hrun | exact Hmul].
Defined.

(** ** The frame thread on any frames *)

Lemma uint32_add_l (a b : Z) : uint32 (uint32 a + b) = uint32 (a + b).
Proof. unfold uint32. apply Zplus_mod_idemp_l. Qed.

Lemma uint32_add_r (a b : Z) : uint32 (a + uint32 b) = uint32 (a + b).
Proof. unfold uint32. apply Zplus_mod_idemp_r. Qed.

Lemma first_row_exists_shape (a b : DataArray) :
  shape a = shape b -> first_row_exists a = first_row_exists b.
Proof. unfold first_row_exists. intros ->. reflexivity. Qed.

Lemma uint32_idem (a : Z) : uint32 (uint32 a) = uint32 a.
Proof. unfold uint32. apply Zmod_mod. Qed.

(** The accumulator [r0] takes the frames of its shape and leaves the others,
    counting an error for each. *)
Lemma accumulate_frames (n : nat) (queue : list DataArray) :
  forall (r0 : DataArray) (errs : nat) (q : Q),
    first_row_exists r0 = true ->
    length (values r0) = n ->
    Forall (fun v => uint32 v = v) (values r0) ->
    MD_DWELL_TIME (metadata r0) = Some q ->
    Forall (fun d => is_Some (MD_DWELL_TIME (metadata d)) /\ length (values d) = n)
           (filter (fun d => shape d = shape r0) queue) ->
    exists r q',
      _frameThread queue {| raw := [r0]; _new_acquisition := false; errors := errs |}
      = Running {| raw := [r]; _new_acquisition := false;
                   errors := errs + length (filter (fun d => shape d <> shape r0) queue) |} /\
      shape r = shape r0 /\ length (values r) = n /\
      (forall i, (i < n)%nat ->
         values r !! i
         = Some (uint32 (pixel_of i r0
                         + Zsum (map (pixel_of i)
                                   (filter (fun d => shape d = shape r0) queue))))) /\
      MD_DWELL_TIME (metadata r) = Some q' /\
      q' == q + Qsum (map dwell_of (filter (fun d => shape d = shape r0) queue)).
Proof.
  induction queue as [| d queue IH]; intros r0 errs q Hrow Hlen Hu Hq Hall.
  - exists r0, q. cbn. split; [do 2 f_equal; lia |].
    split; [reflexivity |]. split; [exact Hlen |]. split.
    + intros i Hi. unfold pixel_of. rewrite Z.add_0_r.
      destruct (lookup_lt_is_Some_2 (values r0) i ltac:(lia)) as [v Hv].
      rewrite Hv. rewrite (nth_lookup_Some _ _ _ _ Hv).
      rewrite Forall_lookup in Hu. rewrite (Hu i v Hv). reflexivity.
    + split; [exact Hq | ring].
  - cbn [_frameThread]. unfold process_frame. cbn [_new_acquisition raw].
    unfold shape_eqb.
    destruct (decide (shape d = shape r0)) as [Hs | Hs].
    + (* a frame of the shape of the accumulator *)
      rewrite bool_decide_eq_true_2 by (symmetry; exact Hs).
      rewrite (first_row_exists_shape d r0 Hs), Hrow. cbn [negb].
      rewrite (filter_cons_True (fun d => shape d = shape r0)) in Hall by exact Hs.
      apply Forall_cons in Hall. destruct Hall as [[[qd Hqd] Hld] Hall].
      cbn [values metadata astype_uint32 shape]. rewrite Hq, Hqd.
      rewrite (filter_cons_True (fun d => shape d = shape r0)) by exact Hs.
      rewrite (filter_cons_False (fun d => shape d <> shape r0))
        by (intros H; apply H; exact Hs).
      set (r1 := with_metadata _ _).
      assert (Hs1 : shape r1 = shape r0) by reflexivity.
      assert (Hl1 : length (values r1) = n).
      { unfold r1, with_metadata, iadd_uint32. cbn [values].
        rewrite length_zip_with, length_map. lia. }
      assert (Hv1 : forall i, (i < n)%nat ->
                 values r1 !! i = Some (uint32 (pixel_of i r0 + pixel_of i d))).
      { intros i Hi. unfold r1, with_metadata, iadd_uint32, pixel_of. cbn [values].
        destruct (lookup_lt_is_Some_2 (values r0) i ltac:(lia)) as [x Hx].
        destruct (lookup_lt_is_Some_2 (values d) i ltac:(lia)) as [y Hy].
        rewrite lookup_zip_with, Hx. cbn. rewrite list_lookup_fmap, Hy. cbn.
        rewrite (nth_lookup_Some _ _ _ _ Hx), (nth_lookup_Some _ _ _ _ Hy).
        rewrite uint32_add_r. reflexivity. }
      assert (Hu1 : Forall (fun v => uint32 v = v) (values r1)).
      { apply Forall_lookup. intros i v Hv.
        pose proof (lookup_lt_Some _ _ _ Hv) as Hi. rewrite Hl1 in Hi.
        rewrite (Hv1 i Hi) in Hv. injection Hv as <-. apply uint32_idem. }
      destruct (IH r1 errs (q + qd) Hrow Hl1 Hu1 eq_refl) as (r & q' & Hrun & R1 & R2 & R3 & R4 & R5).
      { rewrite Hs1. exact Hall. }
      rewrite Hs1 in Hrun, R3, R5.
      exists r, q'. split; [exact Hrun |]. split; [rewrite R1; exact Hs1 |].
      split; [exact R2 |]. split.
      * intros i Hi. rewrite (R3 i Hi). f_equal. cbn [map Zsum fold_right].
        assert (Hp : pixel_of i r1 = uint32 (pixel_of i r0 + pixel_of i d)).
        { unfold pixel_of at 1. apply nth_lookup_Some. apply Hv1. exact Hi. }
        rewrite Hp, uint32_add_l. f_equal. fold (Zsum (map (pixel_of i)
          (filter (fun d0 => shape d0 = shape r0) queue))). lia.
      * split; [exact R4 |]. rewrite R5. cbn [map Qsum fold_right].
        unfold dwell_of at 2. rewrite Hqd. cbn [from_option id].
        fold (Qsum (map dwell_of (filter (fun d0 => shape d0 = shape r0) queue))). ring.
    + (* a frame of another shape *)
      rewrite bool_decide_eq_false_2 by (intros H; apply Hs; symmetry; exact H).
      rewrite (filter_cons_False (fun d => shape d = shape r0)) in Hall by exact Hs.
      rewrite (filter_cons_False (fun d => shape d = shape r0)) by exact Hs.
      rewrite (filter_cons_True (fun d => shape d <> shape r0)) by exact Hs.
      destruct (IH r0 (S errs) q Hrow Hlen Hu Hq Hall) as (r & q' & Hrun & R).
      exists r, q'. split; [| exact R].
      cbn [errors]. rewrite Hrun. cbn [length]. do 2 f_equal. lia.
Qed.

(** X6.  The frame thread on any frames.  The first frame taken from the
    queue after the start of an acquisition replaces what the stream held; of
    the frames that follow, those of the shape of the first are added to it
    and each of the others is reported by one error and left out.  When the
    frames that are kept hold [n] values each, have a first row and a
    dwell-time metadata, the thread ends with one array of the shape of the
    first frame, in which every pixel is the sum of that pixel over the kept
    frames, modulo 2^32 (the counts are held in uint32 and wrap around), and
    whose dwell-time metadata is the sum of theirs. *)
Theorem frameThread_accumulates (first : DataArray) (rest old : list DataArray)
    (errs n : nat) :
  let kept := first :: filter (fun d => shape d = shape first) rest in
  first_row_exists first = true ->
  Forall (fun d => is_Some (MD_DWELL_TIME (metadata d)) /\ length (values d) = n) kept ->
  exists r q,
    _frameThread (first :: rest)
      {| raw := old; _new_acquisition := true; errors := errs |}
    = Running {| raw := [r]; _new_acquisition := false;
                 errors := errs + length (filter (fun d => shape d <> shape first) rest) |} /\
    shape r = shape first /\ length (values r) = n /\
    (forall i, (i < n)%nat ->
       values r !! i = Some (uint32 (Zsum (map (pixel_of i) kept)))) /\
    MD_DWELL_TIME (metadata r) = Some q /\
    q == Qsum (map dwell_of kept).
Proof.
  intros kept Hrow Hall. unfold kept in *.
  apply Forall_cons in Hall. destruct Hall as [[[q0 Hq0] Hl0] Hall].
  cbn [_frameThread]. unfold process_frame. cbn [_new_acquisition].
  rewrite Hrow. cbn [negb errors].
  destruct (accumulate_frames n rest (astype_uint32 first) errs q0)
    as (r & q & Hrun & R1 & R2 & R3 & R4 & R5).
  - exact Hrow.
  - unfold astype_uint32. cbn [values]. rewrite length_map. exact Hl0.
  - unfold astype_uint32. cbn [values]. apply Forall_forall. intros v Hv.
    apply list_elem_of_In, in_map_iff in Hv. destruct Hv as (x & <- & _).
    apply uint32_idem.
  - exact Hq0.
  - exact Hall.
  - change (shape (astype_uint32 first)) with (shape first) in *.
    exists r, q. split; [exact Hrun |]. split; [exact R1 |]. split; [exact R2 |].
    split.
    + intros i Hi. rewrite (R3 i Hi). f_equal. cbn [map Zsum fold_right].
      assert (Hp : pixel_of i (astype_uint32 first) = uint32 (pixel_of i first)).
      { unfold pixel_of, astype_uint32. cbn [values].
        destruct (lookup_lt_is_Some_2 (values first) i ltac:(lia)) as [x Hx].
        rewrite (nth_lookup_Some _ _ _ _ Hx).
        apply nth_lookup_Some. rewrite list_lookup_fmap, Hx. reflexivity. }
      rewrite Hp. apply uint32_add_l.
    + split; [exact R4 |]. rewrite R5. cbn [map Qsum fold_right].
      unfold dwell_of at 2. rewrite Hq0. cbn [from_option id]. reflexivity.
Qed.

Lemma frameThread_accumulates_witness :
  exists r,
    _frameThread [const_frame [2%nat; 2%nat] 4294967295 1;
                  const_frame [1%nat; 2%nat] 5 1;
                  const_frame [2%nat; 2%nat] 3 2]
      {| raw := []; _new_acquisition := true; errors := 0 |}
    = Running {| raw := [r]; _new_acquisition := false; errors := 1 |} /\
    values r !! 0%nat = Some 2%Z.
Proof.
  destruct (frameThread_accumulates (const_frame [2%nat; 2%nat] 4294967295 1)
              [const_frame [1%nat; 2%nat] 5 1; const_frame [2%nat; 2%nat] 3 2]
              [] 0 4 eq_refl)
    as (r & q & Hrun & _ & _ & Hv & _).
  - vm_compute. repeat constructor; eauto.
  - exists r. split; [exact Hrun |]. exact (Hv 0%nat ltac:(lia)).
Defined.

(** ** Assembling the data of the pixels *)

Lemma length_concat_uniform {A : Type} (ls : list (list A)) (n : nat) :
  Forall (fun l => length l = n) ls -> length (concat ls) = (length ls * n)%nat.
Proof.
  induction 1 as [| l ls Hl _ IH]; [reflexivity |].
  cbn [concat length]. rewrite length_app, IH, Hl. lia.
Qed.

(** Element [j] of block [i] of a concatenation of blocks of [n] elements. *)
Lemma lookup_concat_uniform {A : Type} (ls : list (list A)) (n : nat) :
  Forall (fun l => length l = n) ls ->
  forall i j, (j < n)%nat ->
    concat ls !! (i * n + j)%nat = ls !! i ≫= (fun l => l !! j).
Proof.
  induction 1 as [| l ls Hl _ IH]; intros i j Hj.
  - cbn. rewrite !lookup_nil. reflexivity.
  - cbn [concat]. destruct i as [| i].
    + cbn. rewrite lookup_app_l by lia. reflexivity.
    + rewrite lookup_app_r by (rewrite Hl; lia).
      replace (S i * n + j - length l)%nat with (i * n + j)%nat by (rewrite Hl; lia).
      rewrite IH by exact Hj. reflexivity.
Qed.

Lemma lookup_concat_map_seq {A : Type} (f : nat -> list A) (N n i j : nat) :
  (forall k, (k < N)%nat -> length (f k) = n) ->
  (i < N)%nat -> (j < n)%nat ->
  concat (map f (seq 0 N)) !! (i * n + j)%nat = f i !! j.
Proof.
  intros Hlen Hi Hj.
  rewrite (lookup_concat_uniform _ n).
  - rewrite list_lookup_fmap, lookup_seq_lt by exact Hi. reflexivity.
  - apply Forall_forall. intros l Hl. apply list_elem_of_In, in_map_iff in Hl.
    destruct Hl as (k & <- & Hk). apply in_seq in Hk. apply Hlen. lia.
  - exact Hj.
Qed.

Lemma length_concat_map_seq {A : Type} (f : nat -> list A) (N n : nat) :
  (forall k, (k < N)%nat -> length (f k) = n) ->
  length (concat (map f (seq 0 N))) = (N * n)%nat.
Proof.
  intros Hlen. rewrite (length_concat_uniform _ n).
  - rewrite length_map, length_seq. reflexivity.
  - apply Forall_forall. intros l Hl. apply list_elem_of_In, in_map_iff in Hl.
    destruct Hl as (k & <- & Hk). apply in_seq in Hk. apply Hlen. lia.
Qed.

Lemma index_lt (a b i j : nat) : (i < a)%nat -> (j < b)%nat -> (i * b + j < a * b)%nat.
Proof.
  intros Hi Hj.
  assert (H : (S i * b <= a * b)%nat) by (apply Nat.mul_le_mono_r; lia).
  lia.
Qed.

Lemma tile_row_length (S_ T_ t : nat) (v : list Z) :
  length v = (T_ * S_)%nat -> (t < T_)%nat -> length (tile_row S_ t v) = S_.
Proof.
  intros Hv Ht. unfold tile_row. rewrite length_take, length_drop, Hv.
  assert (H : (S t * S_ <= T_ * S_)%nat) by (apply Nat.mul_le_mono_r; lia).
  lia.
Qed.

Lemma tile_row_lookup (S_ t u : nat) (v : list Z) :
  (u < S_)%nat -> tile_row S_ t v !! u = v !! (t * S_ + u)%nat.
Proof.
  intros Hu. unfold tile_row. rewrite lookup_take_lt by exact Hu.
  rewrite lookup_drop. reflexivity.
Qed.

(** Where the values of a tile go when the tiles are laid out. *)
Lemma retile_lookup (X Y T_ S_ : nat) (tiles : list (list Z)) (y x t u : nat) :
  Forall (fun v => length v = (T_ * S_)%nat) tiles ->
  length tiles = (Y * X)%nat ->
  (y < Y)%nat -> (x < X)%nat -> (t < T_)%nat -> (u < S_)%nat ->
  retile X Y T_ S_ tiles !! ((y * T_ + t) * (X * S_) + (x * S_ + u))%nat
  = nth (y * X + x) tiles [] !! (t * S_ + u)%nat.
Proof.
  intros Hall Hlen Hy Hx Ht Hu. unfold retile.
  assert (Htile : forall y' x', (y' < Y)%nat -> (x' < X)%nat ->
             length (nth (y' * X + x') tiles []) = (T_ * S_)%nat).
  { intros y' x' Hy' Hx'.
    assert (Hi : (y' * X + x' < length tiles)%nat)
      by (rewrite Hlen; apply index_lt; assumption).
    destruct (lookup_lt_is_Some_2 tiles _ Hi) as [v Hv].
    rewrite (nth_lookup_Some _ _ _ _ Hv).
    rewrite Forall_lookup in Hall. exact (Hall _ _ Hv). }
  assert (Hrow : forall y' t', (y' < Y)%nat -> (t' < T_)%nat ->
             length (concat (map (fun x' => tile_row S_ t' (nth (y' * X + x') tiles []))
                                 (seq 0 X))) = (X * S_)%nat).
  { intros y' t' Hy' Ht'. apply length_concat_map_seq.
    intros k Hk. apply (tile_row_length S_ T_); [apply Htile; assumption | exact Ht']. }
  replace ((y * T_ + t) * (X * S_) + (x * S_ + u))%nat
    with (y * (T_ * (X * S_)) + (t * (X * S_) + (x * S_ + u)))%nat by lia.
  rewrite (lookup_concat_map_seq _ Y (T_ * (X * S_))); try assumption.
  - rewrite (lookup_concat_map_seq _ T_ (X * S_)); try assumption.
    + rewrite (lookup_concat_map_seq _ X S_); try assumption.
      * apply tile_row_lookup. exact Hu.
      * intros k Hk. apply (tile_row_length S_ T_); [apply Htile; assumption | exact Ht].
    + intros k Hk. apply Hrow; assumption.
    + apply index_lt; assumption.
  - intros k Hk. apply length_concat_map_seq. intros k' Hk'. apply Hrow; assumption.
  - apply index_lt; [exact Ht | apply index_lt; assumption].
Qed.

Lemma assembleTiles_values (s : Settings) (rep : positive * positive)
    (data_list : list DataArray) (da d0 : DataArray) (T_ S_ : nat) :
  head data_list = Some d0 -> shape d0 = [T_; S_] ->
  _assembleTiles s rep data_list = Ok da ->
  let X := Pos.to_nat (fst rep) in
  let Y := Pos.to_nat (snd rep) in
  Forall (fun d => shape d = [T_; S_]) data_list /\
  length data_list = (Y * X)%nat /\
  shape da = [(Y * T_)%nat; (X * S_)%nat] /\
  values da = if ((T_ =? 1) && (S_ =? 1))%nat
              then concat (map values data_list)
              else retile X Y T_ S_ (map values data_list).
Proof.
  intros Hhead Hshape. unfold _assembleTiles. rewrite Hhead. cbn [of_option bind].
  rewrite Hshape. cbn [bind].
  destruct (forallb _ data_list && _) eqn:E; cbn [negb]; [| discriminate].
  apply andb_true_iff in E. destruct E as [E1 E2].
  intros H. inv_bind H as Ecp. destruct a as [center pxs].
  injection H as <-. cbn [shape values].
  split.
  - apply Forall_forall. intros d Hd. rewrite forallb_forall in E1.
    apply list_elem_of_In in Hd. specialize (E1 d Hd).
    unfold shape_eqb in E1. apply bool_decide_eq_true_1 in E1. exact E1.
  - apply Nat.eqb_eq in E2. auto.
Qed.

(** X7.  [_assembleTiles] lays the tiles out on the grid: with tiles of T
    rows and S columns (each holding T x S values), the value at row t and
    column u of the tile acquired for pixel (x, y), which is number y X + x
    of the list, is found at row y T + t and column x S + u of the image of
    shape (Y T, X S).  This holds on the fast path (T = S = 1) as on the
    general one. *)
Theorem assembleTiles_places_tiles (s : Settings) (data_list : list DataArray)
    (da d0 : DataArray) (T_ S_ y x t u : nat) :
  head data_list = Some d0 -> shape d0 = [T_; S_] ->
  Forall (fun d => length (values d) = (T_ * S_)%nat) data_list ->
  _assembleTiles s (repetition s) data_list = Ok da ->
  let X := Pos.to_nat (fst (repetition s)) in
  let Y := Pos.to_nat (snd (repetition s)) in
  (y < Y)%nat -> (x < X)%nat -> (t < T_)%nat -> (u < S_)%nat ->
  shape da = [(Y * T_)%nat; (X * S_)%nat] /\
  exists d, data_list !! (y * X + x)%nat = Some d /\
            values da !! ((y * T_ + t) * (X * S_) + (x * S_ + u))%nat
            = values d !! (t * S_ + u)%nat.
Proof.
  intros Hhead Hshape Hvals Hrun X Y Hy Hx Ht Hu.
  destruct (assembleTiles_values s (repetition s) data_list da d0 T_ S_
              Hhead Hshape Hrun) as (Hsh & Hlen & Hda & Hv).
  fold X in Hlen, Hda, Hv. fold Y in Hlen, Hda, Hv.
  split; [exact Hda |].
  assert (Hi : (y * X + x < length data_list)%nat)
    by (rewrite Hlen; apply index_lt; assumption).
  destruct (lookup_lt_is_Some_2 data_list _ Hi) as [d Hd].
  exists d. split; [exact Hd |]. rewrite Hv.
  assert (Hmv : map values data_list !! (y * X + x)%nat = Some (values d))
    by (rewrite list_lookup_fmap, Hd; reflexivity).
  assert (Hall : Forall (fun v => length v = (T_ * S_)%nat) (map values data_list)).
  { apply Forall_forall. intros v Hin. apply list_elem_of_In, in_map_iff in Hin.
    destruct Hin as (d' & <- & Hd'). rewrite Forall_forall in Hvals.
    apply Hvals, list_elem_of_In. exact Hd'. }
  destruct ((T_ =? 1)%nat && (S_ =? 1)%nat) eqn:E.
  - apply andb_true_iff in E. destruct E as [E1 E2].
    apply Nat.eqb_eq in E1, E2. subst T_ S_.
    assert (t = 0%nat) by lia. assert (u = 0%nat) by lia. subst t u.
    replace ((y * 1 + 0) * (X * 1) + (x * 1 + 0))%nat with ((y * X + x) * 1 + 0)%nat by lia.
    rewrite (lookup_concat_uniform _ 1 Hall) by lia.
    rewrite Hmv. reflexivity.
  - rewrite retile_lookup; try assumption.
    + rewrite (nth_lookup_Some _ _ _ _ Hmv). reflexivity.
    + rewrite length_map. exact Hlen.
Qed.

Lemma assembleTiles_places_tiles_witness :
  exists da,
    _assembleTiles example_settings (repetition example_settings)
      [example_tile; example_tile; example_tile; example_tile] = Ok da /\
    shape da = [4%nat; 4%nat] /\
    values da !! 14%nat = Some 3%Z.
Proof.
  destruct (_assembleTiles example_settings (repetition example_settings)
              [example_tile; example_tile; example_tile; example_tile])
    as [da | ex] eqn:E; [| vm_compute in E; discriminate E].
  destruct (assembleTiles_places_tiles example_settings
              [example_tile; example_tile; example_tile; example_tile]
              da example_tile 2 2 1 1 1 0 eq_refl eq_refl
              ltac:(repeat constructor) E
              ltac:(vm_compute; lia) ltac:(vm_compute; lia) ltac:(lia) ltac:(lia))
    as (Hs & d & Hd & Hv).
  exists da. split; [reflexivity |]. split; [exact Hs |].
  vm_compute in Hd. injection Hd as <-. exact Hv.
Defined.






(** X9.  [_assembleAnchorData] on N >= 1 images of the anchor region, all of
    shape (Y, X): when every image has an acquisition date, the result has
    shape (1, N, 1, Y, X), holds the images one after the other, keeps the
    position of the first image, is described as "Anchor region" and lists
    the acquisition dates of the images, in their order; when one image has no
    acquisition date, KeyError is raised.  An empty list, or a first image
    that is not two-dimensional, fails the assertions. *)
Theorem assembleAnchorData_outcome (data_list : list DataArray) (d0 : DataArray) :
  head data_list = Some d0 ->
  (forall Y X, shape d0 = [Y; X] ->
   Forall (fun d => shape d = [Y; X]) data_list ->
   (forall dates,
      map (fun d => MD_ACQ_DATE (metadata d)) data_list = map Some dates ->
      exists da,
        _assembleAnchorData data_list = Ok da /\
        shape da = [1%nat; length data_list; 1%nat; Y; X] /\
        values da = concat (map values data_list) /\
        MD_AD_LIST (metadata da) = Some dates /\
        MD_DESCRIPTION (metadata da) = Some "Anchor region"%string /\
        MD_POS (metadata da) = MD_POS (metadata d0)) /\
   (Exists (fun d => MD_ACQ_DATE (metadata d) = None) data_list ->
    _assembleAnchorData data_list = Raise KeyError)) /\
  (length (shape d0) <> 2%nat ->
   _assembleAnchorData data_list = Raise AssertionError) /\
  _assembleAnchorData [] = Raise AssertionError.
Proof.
  intros Hhead.
  destruct data_list as [| d rest]; [discriminate Hhead |].
  injection Hhead as ->.
  split; [| split; [| reflexivity]].
  - intros Y X Hs Hall.
    assert (Hfb : forallb (fun d => shape_eqb (shape d) [Y; X]) (d0 :: rest) = true).
    { apply forallb_forall. intros d Hd. rewrite Forall_forall in Hall.
      apply bool_decide_eq_true_2, Hall, list_elem_of_In. exact Hd. }
    unfold _assembleAnchorData. rewrite Hs.
    set (dates_of := fix dates_of (l : list DataArray) : Result (list Q) :=
           match l with
           | [] => Ok []
           | d :: l' =>
             do a <- of_option KeyError (MD_ACQ_DATE (metadata d));
             do r <- dates_of l';
             Ok (a :: r)
           end).
    rewrite Hfb. cbn [negb].
    change (do a <- of_option KeyError (MD_ACQ_DATE (metadata d0));
            do r <- dates_of rest; Ok (a :: r))
      with (dates_of (d0 :: rest)).
    split.
    + intros dates Hdates.
      assert (Hd : dates_of (d0 :: rest) = Ok dates).
      { clear - Hdates. revert dates Hdates.
        induction (d0 :: rest) as [| d l IH]; intros dates Hdates.
        - destruct dates; [reflexivity | discriminate Hdates].
        - destruct dates as [| a dates]; [discriminate Hdates |].
          injection Hdates as Ha Hl. cbn [dates_of]. fold dates_of.
          rewrite Ha. cbn [of_option bind]. rewrite (IH dates Hl). reflexivity. }
      rewrite Hd. cbn [bind]. eexists. split; [reflexivity |].
      cbn. auto.
    + intros Hex.
      assert (Hd : dates_of (d0 :: rest) = Raise KeyError).
      { clear - Hex. induction Hex as [d l Hn | d l _ IH].
        - cbn [dates_of]. rewrite Hn. reflexivity.
        - cbn [dates_of]. fold dates_of. rewrite IH.
          destruct (MD_ACQ_DATE (metadata d)); reflexivity. }
      rewrite Hd. reflexivity.
  - intros Hn. unfold _assembleAnchorData.
    destruct (shape d0) as [| a [| b [| c l]]]; try reflexivity.
    simpl in Hn. lia.
Qed.

Lemma assembleAnchorData_outcome_witness :
  exists da,
    _assembleAnchorData [example_tile; example_tile] = Ok da /\
    shape da = [1%nat; 2%nat; 1%nat; 2%nat; 2%nat] /\
    MD_AD_LIST (metadata da) = Some [1; 1].
Proof.
  destruct (assembleAnchorData_outcome [example_tile; example_tile] example_tile eq_refl)
    as (H & _).
  destruct (H 2%nat 2%nat eq_refl ltac:(repeat constructor)) as (Hok & _).
  destruct (Hok [1; 1] eq_refl) as (da & Hrun & Hs & _ & Hd & _).
  exists da. auto.
Defined.

(** ** Cancellation and failures *)

(** The except clause: what it leaves, whatever the exception and the
    engine. *)
Lemma on_exception_effect (ex : exn) (e1 : Engine) :
  let ex' := fst (on_exception ex e1) in
  let e2 := snd (on_exception ex e1) in
  _raw e2 = [] /\ _anchor_raw e2 = [] /\
  streams e2 = streams e1 /\ _acq_state e2 = _acq_state e1 /\
  _sstage e2 = _sstage e1 /\
  (forall i b, (i < length (streams e1))%nat -> subscribed e2 !! i = Some b -> b = false) /\
  (forall b, synchronized e2 !! last_id e1 = Some b -> b = false) /\
  (_acq_state e1 = CANCELLED -> ex' = CancelledError) /\
  (_acq_state e1 <> CANCELLED -> ex' = ex).
Proof.
  unfold on_exception.
  set (ea := if is_CancelledError ex then e1 else emit (Log ERROR) e1).
  assert (Ha : streams ea = streams e1 /\ _acq_state ea = _acq_state e1 /\
               _sstage ea = _sstage e1)
    by (unfold ea; destruct (is_CancelledError ex); destruct e1; auto).
  destruct Ha as (A1 & A2 & A3). clearbody ea.
  rewrite for_each_unsubscribe. unfold df_synchronizedOn, stream_ids, last_id.
  destruct ea as [st a cpl dat md ps rw arw sub syn fe ss tr].
  cbn in A1, A2, A3. subst st a ss. cbn.
  assert (Hsub : forall i b, (i < length (streams e1))%nat ->
            fold_left (fun l i => <[i := false]> l) (seq 0 (length (streams e1))) sub !! i
            = Some b -> b = false).
  { intros i b Hi Hb.
    pose proof (lookup_lt_Some _ _ _ Hb) as Hlt. rewrite fold_insert_length in Hlt.
    rewrite fold_insert_lookup_in in Hb; [congruence | apply in_seq; lia | exact Hlt]. }
  assert (Hsyn : forall b, <[pred (length (streams e1)) := false]> syn
                           !! pred (length (streams e1)) = Some b -> b = false).
  { intros b Hb. pose proof (lookup_lt_Some _ _ _ Hb) as Hlt.
    rewrite length_insert in Hlt.
    rewrite list_lookup_insert_eq in Hb by exact Hlt. congruence. }
  destruct (is_CancelledError ex) eqn:Ec; cbn [negb andb].
  - cbn. split_all; auto.
    + intros _. destruct ex; try discriminate Ec. reflexivity.
  - destruct (AcqState_eqb (_acq_state e1) CANCELLED) eqn:Es; cbn.
    + split_all; auto.
      intros Hn. apply AcqState_eqb_eq in Es. contradiction.
    + split_all; auto.
      intros Hc. apply AcqState_eqb_neq in Es. contradiction.
Qed.

Lemma release_effect (e2 : Engine) :
  let e' := release e2 in
  _raw e' = _raw e2 /\ _anchor_raw e' = _anchor_raw e2 /\
  streams e' = streams e2 /\ _acq_state e' = _acq_state e2 /\
  _sstage e' = _sstage e2 /\
  subscribed e' = subscribed e2 /\ synchronized e' = synchronized e2 /\
  _acq_data e' = map (fun _ => []) (streams e2) /\
  last (trace e') = Some AcqDoneSet.
Proof.
  unfold release. destruct e2. cbn. split_all; try reflexivity.
  apply last_snoc.
Qed.

Lemma move_stage_effect (x y : option Q) (e2 : Engine) :
  let e' := move_stage x y e2 in
  _raw e' = _raw e2 /\ _anchor_raw e' = _anchor_raw e2 /\
  streams e' = streams e2 /\ _acq_state e' = _acq_state e2 /\
  subscribed e' = subscribed e2 /\ synchronized e' = synchronized e2.
Proof.
  unfold move_stage. destruct e2 as [st a cpl dat md ps rw arw sub syn fe ss tr].
  cbn. destruct ss; cbn; auto 10.
Qed.

(** X11.  However the acquisition of the SEM + camera engine fails (e-beam
    scan or scan stage), the engine is left clean: the outputs are empty, the
    buffers of received data are emptied, no dataflow of the engine is
    subscribed, the camera is not synchronised on the trigger any more, and
    the last thing done is to set the event of the end of the acquisition.  If
    the acquisition had been cancelled, the exception raised is
    CancelledError whatever went wrong; otherwise it is the exception of the
    failure.  With a scan stage, the stage is left at the centre of its
    ranges. *)
Theorem runAcquisition_failure_cleanup (c : Config) (e e' : Engine) (ex : exn) :
  _runAcquisition c e = Throw ex e' ->
  _raw e' = [] /\ _anchor_raw e' = [] /\ MultipleDetectorStream.raw e' = [] /\
  _acq_data e' = map (fun _ => []) (streams e') /\
  (forall i b, (i < length (streams e'))%nat -> subscribed e' !! i = Some b -> b = false) /\
  (forall b, synchronized e' !! last_id e' = Some b -> b = false) /\
  last (trace e') = Some AcqDoneSet /\
  (_acq_state e' = CANCELLED -> ex = CancelledError) /\
  (useScanStage c = true ->
   forall st, _sstage e' = Some st -> position st = stage_centre st).
Proof.
  intros Hrun.
  assert (Hshape : exists ex0 e1 (fin : Engine -> Engine) e2,
            ex = fst (on_exception ex0 e1) /\ e2 = snd (on_exception ex0 e1) /\
            e' = release (fin e2) /\
            (_raw (fin e2) = _raw e2 /\ _anchor_raw (fin e2) = _anchor_raw e2 /\
             streams (fin e2) = streams e2 /\ _acq_state (fin e2) = _acq_state e2 /\
             subscribed (fin e2) = subscribed e2 /\
             synchronized (fin e2) = synchronized e2) /\
            (useScanStage c = true ->
             forall st, _sstage (fin e2) = Some st -> position st = stage_centre st)).
  { unfold _runAcquisition in Hrun.
    destruct (useScanStage c) eqn:Hu.
    - unfold _runAcquisitionScanStage, try_acquire in Hrun.
      destruct (body_stage c e) as [u e1 | ex0 e1 |] eqn:Hb; try discriminate Hrun.
      destruct (on_exception ex0 e1) as [ex1 e2] eqn:Hoe.
      injection Hrun as <- <-.
      exists ex0, e1.
      exists (fun e2 => match _sstage e2 with
                        | Some st =>
                          move_stage (Some ((fst (range_x st) + snd (range_x st)) / 2))
                                     (Some ((fst (range_y st) + snd (range_y st)) / 2)) e2
                        | None => e2
                        end), e2.
      rewrite Hoe. split; [reflexivity |]. split; [reflexivity |].
      split; [reflexivity |]. split.
      + destruct (_sstage e2); [apply move_stage_effect | auto 10].
      + intros _ st. destruct (_sstage e2) as [st0 |] eqn:Hst.
        * unfold move_stage. destruct e2. cbn in Hst |- *. rewrite Hst. cbn.
          intros H. injection H as <-. reflexivity.
        * rewrite Hst. discriminate.
    - unfold try_acquire in Hrun.
      destruct (body c e) as [u e1 | ex0 e1 |] eqn:Hb; try discriminate Hrun.
      destruct (on_exception ex0 e1) as [ex1 e2] eqn:Hoe.
      injection Hrun as <- <-.
      exists ex0, e1, (fun e2 => e2), e2.
      rewrite Hoe. split; [reflexivity |]. split; [reflexivity |].
      split; [reflexivity |]. split; [auto 10 | discriminate]. }
  destruct Hshape as (ex0 & e1 & fin & e2 & -> & He2 & -> & (F1 & F2 & F3 & F4 & F5 & F6) & Hpark).
  destruct (on_exception_effect ex0 e1) as (O1 & O2 & O3 & O4 & O5 & O6 & O7 & O8 & O9).
  rewrite <- He2 in O1, O2, O3, O4, O5, O6, O7.
  destruct (release_effect (fin e2)) as (R1 & R2 & R3 & R4 & R5 & R6 & R7 & R8 & R9).
  split; [rewrite R1, F1; exact O1 |].
  split; [rewrite R2, F2; exact O2 |].
  split.
  { unfold MultipleDetectorStream.raw. rewrite R1, R2, F1, F2, O1, O2. reflexivity. }
  split; [rewrite R8, R3; reflexivity |].
  split.
  { intros i b Hi. rewrite R3, F3, O3 in Hi. rewrite R6, F5. apply O6. exact Hi. }
  split.
  { intros b. unfold last_id. rewrite R3, F3, O3, R7, F6. apply O7. }
  split; [exact R9 |].
  split.
  { rewrite R4, F4, O4. exact O8. }
  intros Hu st. rewrite R5. apply Hpark. exact Hu.
Qed.

Lemma runAcquisition_failure_cleanup_witness :
  exists ex e',
    _runAcquisition (mock_config 3) example_engine = Throw ex e' /\
    MultipleDetectorStream.raw e' = [] /\ _acq_data e' = [[]; []].
Proof.
  destruct (_runAcquisition (mock_config 3) example_engine) as [r e' | ex e' |] eqn:E;
    [vm_compute in E; discriminate E | | vm_compute in E; discriminate E].
  destruct (runAcquisition_failure_cleanup (mock_config 3) example_engine e' ex E)
    as (_ & _ & H3 & H4 & _).
  exists ex, e'. split; [reflexivity |]. split; [exact H3 |].
  rewrite H4. vm_compute in E. injection E as _ <-. reflexivity.
Defined.

(** *** Failures in the middle of the scan *)

Lemma cancelAcquisition_state (e : Engine) :
  _acq_state e <> FINISHED -> _acq_state (snd (_cancelAcquisition e)) = CANCELLED.
Proof.
  intros Hf. unfold _cancelAcquisition.
  assert (E : AcqState_eqb (_acq_state (emit LockAcquire e)) FINISHED = false).
  { apply AcqState_eqb_neq. destruct e. exact Hf. }
  rewrite E. cbv zeta.
  rewrite for_each_unsubscribe. unfold df_synchronizedOn.
  rewrite for_each_set_events. destruct e. reflexivity.
Qed.

Lemma deliver_state (ev : Event) (e : Engine) :
  _acq_state e <> FINISHED ->
  let e' := deliver ev e in
  _acq_state e' <> FINISHED /\
  (is_cancel ev = true -> _acq_state e' = CANCELLED) /\
  (is_cancel ev = false -> _acq_state e' = _acq_state e).
Proof.
  intros Hf. destruct ev as [n da |]; cbn [deliver is_cancel].
  - assert (Hs : _acq_state (match _onData n da e with Ok e' => e' | Raise _ => e end)
                 = _acq_state e).
    { destruct (_onData n da e) as [e1 |] eqn:E; [| reflexivity].
      apply onData_Ok in E.
      destruct E as [_ [[_ ->] | [(_ & _ & ->) | (_ & _ & ad & _ & ->)]]];
        destruct e; reflexivity. }
    cbv zeta. rewrite Hs. split; [exact Hf |]. split; [discriminate | reflexivity].
  - cbv zeta. rewrite (cancelAcquisition_state e Hf).
    split; [discriminate |]. split; [reflexivity | discriminate].
Qed.

(** A cancellation among the events leaves the state CANCELLED. *)
Lemma deliver_all_cancel (evs : list Event) :
  forall e, _acq_state e <> FINISHED ->
    (no_cancel evs = false \/ _acq_state e = CANCELLED) ->
    _acq_state (deliver_all evs e) = CANCELLED.
Proof.
  induction evs as [| ev evs IH]; intros e Hf Hor.
  - destruct Hor as [H | H]; [discriminate H | exact H].
  - cbn [deliver_all fold_left]. fold (deliver_all evs (deliver ev e)).
    destruct (deliver_state ev e Hf) as (D1 & D2 & D3).
    apply IH; [exact D1 |].
    destruct (is_cancel ev) eqn:Ec.
    + right. apply D2. reflexivity.
    + destruct Hor as [H | H].
      * left. unfold no_cancel in H |- *. cbn [forallb] in H. rewrite Ec in H. exact H.
      * right. rewrite D3 by reflexivity. exact H.
Qed.

(** A pass during which the user cancels ends with CancelledError. *)
Lemma attempt_cancelled (c : Config) (patch : M unit)
    (leech_pre : nat -> Locals -> M Locals) (ss cs : nat * nat)
    (att : Attempt) (failures : nat) (loc : Locals) (e : Engine) :
  acquiring ss cs (n_done loc) e ->
  cancelled_pass att ->
  attempt c patch leech_pre att failures loc e = Throw CancelledError (at_check att e) /\
  _acq_state (at_check att e) = CANCELLED.
Proof.
  intros Hacq (Hb & Hc).
  destruct (acquiring_shape _ _ _ _ Hacq)
    as (s0 & s1 & c0 & c1 & a0 & a1 & Es & Ec & Ed & L0 & L1 & F0 & F1).
  destruct (armed_acquiring _ _ _ att e a0 a1 Hb Hacq Ed) as (W & S1 & S2 & S3 & S4 & S5).
  assert (Hst0 : at_start att e = e) by (unfold at_start; rewrite Hb; reflexivity).
  pose proof Hacq as ((Hwf & Hl & Hs) & _).
  assert (Hck : at_check att e = deliver_all (att_wait att ++ att_late att) (armed att e))
    by (unfold at_check, at_wait_end; rewrite deliver_all_app; reflexivity).
  assert (Hst : _acq_state (at_check att e) = CANCELLED).
  { rewrite Hck. apply deliver_all_cancel; [rewrite S2; discriminate |].
    left. exact Hc. }
  split; [| exact Hst].
  rewrite attempt_eval, Hst0, Hs. cbn [AcqState_eqb].
  destruct (deliver_all_well_formed (att_wait att) (armed att e) W) as [(Wc & _) Wst].
  fold (at_wait_end att e) in Wc, Wst.
  destruct (lookup_lt_is_Some_2 (_acq_complete (at_wait_end att e)) (last_id e))
    as [got Hgot].
  { rewrite Wc, Wst, S1. unfold last_id. rewrite Hl. lia. }
  rewrite Hgot, Hst. reflexivity.
Qed.

(** A pass in which the SEM does not answer ends with a timeout, whatever
    the number of failures so far. *)
Lemma attempt_sem_silent (c : Config) (patch : M unit)
    (leech_pre : nat -> Locals -> M Locals) (ss cs : nat * nat)
    (att : Attempt) (failures : nat) (loc : Locals) (e : Engine) :
  acquiring ss cs (n_done loc) e ->
  sem_silent c att ->
  exists e', attempt c patch leech_pre att failures loc e
             = Throw (TimeoutError SEMPixelTimeout) e' /\
             _acq_state e' = RUNNING.
Proof.
  intros Hacq (Hb & Hn1 & Hn2 & Hn3 & Hdur & (dc & Adc) & Ads).
  destruct (acquiring_shape _ _ _ _ Hacq)
    as (s0 & s1 & c0 & c1 & a0 & a1 & Es & Ec & Ed & L0 & L1 & F0 & F1).
  destruct (armed_acquiring _ _ _ att e a0 a1 Hb Hacq Ed) as (W & S1 & S2 & S3 & S4 & S5).
  assert (Hst0 : at_start att e = e) by (unfold at_start; rewrite Hb; reflexivity).
  pose proof Hacq as ((Hwf & Hl & Hs) & _).
  assert (Hlast : last_id e = 1%nat) by (unfold last_id; rewrite Hl; reflexivity).
  assert (Hl' : length (streams (armed att e)) = 2%nat) by congruence.
  destruct (deliver_all_accepted 1 (att_start att) (att_wait att) (armed att e) a1 false
              W ltac:(lia) S3 Hn1)
    as (_ & _ & _ & _ & _ & T5);
    [rewrite S4; reflexivity | rewrite S5; reflexivity |].
  fold (at_wait_end att e) in T5. rewrite Adc in T5. cbn [orb] in T5.
  assert (Hnc : no_cancel (att_wait att ++ att_late att) = true)
    by (rewrite no_cancel_app, Hn1, Hn2; reflexivity).
  assert (Hck : at_check att e = deliver_all (att_wait att ++ att_late att) (armed att e))
    by (unfold at_check, at_wait_end; rewrite deliver_all_app; reflexivity).
  destruct (deliver_all_accepted 0 (att_start att) _ (armed att e) a0 false
              W ltac:(lia) S3 Hnc)
    as (W2 & U1 & U2 & U3 & _ & _);
    [rewrite S4; reflexivity | rewrite S5; reflexivity |].
  rewrite <- Hck in W2, U1, U2, U3.
  rewrite attempt_eval, Hst0, Hs, Hlast, T5. cbn [AcqState_eqb].
  rewrite U2, S2. cbn [AcqState_eqb negb orb].
  assert (Hq : Qlt_bool (att_dur att) (rep_time c * 0.95) = false).
  { destruct (Qlt_bool (att_dur att) (rep_time c * 0.95)) eqn:E; [| reflexivity].
    apply Qlt_bool_iff in E. exfalso. apply (Qlt_not_le _ _ E). exact Hdur. }
  rewrite Hq.
  rewrite on_acquired_eval2 by congruence. cbv zeta.
  set (L := att_wait att ++ att_late att ++ att_sem att 0).
  assert (HL : no_cancel L = true).
  { unfold L. rewrite !no_cancel_app, Hn1, Hn2, Hn3. reflexivity. }
  assert (He2 : deliver_all (att_sem att 0) (at_check att e) = deliver_all L (armed att e)).
  { unfold L, at_check, at_wait_end. rewrite !deliver_all_app. reflexivity. }
  rewrite He2.
  destruct (deliver_all_accepted 0 (att_start att) L (armed att e) a0 false
              W ltac:(lia) S3 HL)
    as (_ & _ & X2 & _ & _ & X5);
    [rewrite S4; reflexivity | rewrite S5; reflexivity |].
  fold L in Ads. rewrite Ads in X5. cbn [orb] in X5.
  rewrite X5. eexists. split; [reflexivity |]. congruence.
Qed.

(** Failing passes at the start of the loop of a pixel are passed over. *)
Lemma retry_loop_skip_failures (c : Config) (patch : M unit)
    (leech_pre : nat -> Locals -> M Locals) (penv : PixelEnv) (ss cs : nat * nat)
    (loc : Locals) (k : nat) :
  forall (fuel failures : nat) (e : Engine),
    (failures + k <= 2)%nat ->
    acquiring ss cs (n_done loc) e ->
    (forall j, (j < k)%nat -> failing c (px_attempt penv (failures + j))) ->
    exists ek,
      acquiring ss cs (n_done loc) ek /\
      retry_loop (k + fuel) c patch leech_pre penv failures loc e
      = retry_loop fuel c patch leech_pre penv (failures + k) loc ek.
Proof.
  induction k as [| k IH]; intros fuel failures e Hk Hacq Hfail.
  - exists e. rewrite Nat.add_0_r. auto.
  - cbn [Nat.add]. rewrite retry_loop_step.
    pose proof (Hfail 0%nat ltac:(lia)) as H0. rewrite Nat.add_0_r in H0.
    destruct (attempt_failing_ok c patch leech_pre ss cs _ failures loc e Hacq H0)
      as [Hretry _].
    destruct (Hretry ltac:(lia)) as (e1 & Hrun & Hacq1). rewrite Hrun.
    destruct (IH fuel (S failures) e1 ltac:(lia) Hacq1) as (ek & Hacqk & Hloop).
    { intros j Hj. replace (S failures + j)%nat with (failures + S j)%nat by lia.
      apply Hfail. lia. }
    exists ek. split; [exact Hacqk |]. rewrite Hloop. f_equal. lia.
Qed.

(** The scan ends at the pixel whose loop raises. *)
Lemma scan_pixels_throws (c : Config) (ss cs : nat * nat) (ex : exn)
    (P : Engine -> Prop) (pixels : list (nat * nat)) :
  forall (m : nat) (loc : Locals) (e : Engine),
    (forall i, In i pixels ->
       (fst i < Pos.to_nat (snd (repetition (settings c))))%nat /\
       (snd i < Pos.to_nat (fst (repetition (settings c))))%nat) ->
    acquiring ss cs (n_done loc) e ->
    length (leech_np loc) = length (leeches c) ->
    (m < length pixels)%nat ->
    (forall j, (j < m)%nat -> pixel_ok c ss cs (pixel c (n_done loc + j))) ->
    (forall loc1 e1,
       n_done loc1 = (n_done loc + m)%nat ->
       acquiring ss cs (n_done loc1) e1 ->
       exists e', retry_loop 3 c (patch_position c (pixel c (n_done loc1)))
                    (fun _ l => ret l) (pixel c (n_done loc1)) 0 loc1 e1
                  = Throw ex e' /\ P e') ->
    exists e',
      scan_pixels c (_getSpotPositions (settings c)) pixels loc e = Throw ex e' /\ P e'.
Proof.
  induction pixels as [| i pixels IH]; intros m loc e Hin Hacq Hnp Hm Hok Hbad.
  - simpl in Hm. lia.
  - cbn [scan_pixels].
    destruct (Hin i (or_introl eq_refl)) as [Hy Hx].
    destruct (move_beam_ok c ss cs _ i (pixel c (n_done loc)) e Hy Hx Hacq)
      as (e1 & Hmove & Hacq1).
    unfold bindM at 1. rewrite Hmove.
    destruct m as [| m].
    + destruct (Hbad loc e1 ltac:(lia) Hacq1) as (e' & Hrun & HP).
      unfold bindM at 1. rewrite Hrun. exists e'. auto.
    + pose proof (Hok 0%nat ltac:(lia)) as Hp. rewrite Nat.add_0_r in Hp.
      destruct Hp as (k & Hk & Hb & Hgood).
      destruct (retry_loop_ok c (pixel c (n_done loc)) ss cs k 3 0 loc e1
                  ltac:(lia) ltac:(lia) Hacq1 Hnp Hb Hgood)
        as (loc1 & e2 & Hrun & N1 & N2 & Hacq2).
      unfold bindM at 1. rewrite Hrun.
      rewrite <- N1 in Hacq2.
      apply (IH m loc1 e2); try assumption.
      * intros j Hj. apply Hin. right. exact Hj.
      * simpl in Hm. lia.
      * intros j Hj. rewrite N1.
        replace (S (n_done loc) + j)%nat with (n_done loc + S j)%nat by lia.
        apply Hok. lia.
      * intros loc2 e3 Hn2 Hacq3. apply Hbad; [| exact Hacq3]. lia.
Qed.

(** The e-beam scan when the loop of pixel [m] raises. *)
Lemma body_throws_at (c : Config) (ss cs : nat * nat) (e : Engine) (m : nat)
    (ex : exn) (P : Engine -> Prop) :
  ready e ->
  (m < tot_num c)%nat ->
  (forall j, (j < m)%nat -> pixel_ok c ss cs (pixel c j)) ->
  (forall loc1 e1,
     n_done loc1 = m -> acquiring ss cs m e1 ->
     exists e', retry_loop 3 c (patch_position c (pixel c m))
                  (fun _ l => ret l) (pixel c m) 0 loc1 e1
                = Throw ex e' /\ P e') ->
  exists e1, body c e = Throw ex e1 /\ P e1.
Proof.
  intros Hr Hm Hok Hbad. unfold body.
  unfold bindM at 1. unfold call at 1, modify at 1.
  destruct (prepare_ok c ss cs (emit AcqDoneClear e) (ready_emit _ _ Hr))
    as (loc0 & e2 & Hprep & N0 & Hnp & Hacq).
  unfold bindM at 1. rewrite Hprep.
  set (pixels := ndindex (Pos.to_nat (snd (repetition (settings c))))
                         (Pos.to_nat (fst (repetition (settings c))))).
  assert (Hlen : length pixels = tot_num c)
    by (unfold pixels; rewrite ndindex_length, tot_num_eq; reflexivity).
  rewrite <- N0 in Hacq.
  destruct (scan_pixels_throws c ss cs ex P pixels m loc0 e2) as (e3 & Hscan & HP);
    try assumption.
  { intros i Hi. apply in_ndindex. exact Hi. }
  { rewrite Hlen. exact Hm. }
  { intros j Hj. rewrite N0. apply Hok. exact Hj. }
  { intros loc1 e1 Hn Hacq1. rewrite N0 in Hn. simpl in Hn. rewrite Hn in *.
    apply Hbad; [exact Hn | exact Hacq1]. }
  unfold bindM at 1. rewrite Hscan. exists e3. auto.
Qed.

Lemma try_acquire_throws (body0 : M unit) (e e1 : Engine) (ex : exn) :
  body0 e = Throw ex e1 ->
  try_acquire body0 release e
  = Throw (fst (on_exception ex e1)) (release (snd (on_exception ex e1))).
Proof.
  intros Hb. unfold try_acquire. rewrite Hb.
  destruct (on_exception ex e1). reflexivity.
Qed.

(** X12.  Cancelling during the e-beam scan: when the pixels before pixel m
    were acquired and, on pixel m, after at most two failed passes, the user
    cancels while the worker waits for the camera (or just after), the worker
    does not count a failure nor retry: the acquisition ends with
    CancelledError, the state is CANCELLED, the outputs are empty and the
    buffers of received data are emptied. *)
Theorem runAcquisition_cancelled (c : Config) (ss cs : nat * nat) (e : Engine)
    (m k : nat) :
  ready e -> useScanStage c = false ->
  (m < tot_num c)%nat ->
  (forall j, (j < m)%nat -> pixel_ok c ss cs (pixel c j)) ->
  (k <= 2)%nat ->
  (forall j, (j < k)%nat -> failing c (px_attempt (pixel c m) j)) ->
  cancelled_pass (px_attempt (pixel c m) k) ->
  exists e',
    _runAcquisition c e = Throw CancelledError e' /\
    _acq_state e' = CANCELLED /\
    _raw e' = [] /\ _anchor_raw e' = [] /\ MultipleDetectorStream.raw e' = [] /\
    _acq_data e' = map (fun _ => []) (streams e').
Proof.
  intros Hr Hu Hm Hok Hk Hfail Hcancel.
  destruct (body_throws_at c ss cs e m CancelledError
              (fun e1 => _acq_state e1 = CANCELLED) Hr Hm Hok) as (e1 & Hbody & Hst).
  { intros loc1 e1 Hn Hacq. rewrite <- Hn in Hacq.
    destruct (retry_loop_skip_failures c (patch_position c (pixel c m))
                (fun _ l => ret l) (pixel c m) ss cs loc1 k (3 - k) 0 e1
                ltac:(lia) Hacq Hfail) as (ek & Hacqk & Hloop).
    replace (k + (3 - k))%nat with 3%nat in Hloop by lia.
    rewrite Hloop. replace (3 - k)%nat with (S (2 - k)) by lia.
    rewrite retry_loop_step.
    destruct (attempt_cancelled c (patch_position c (pixel c m)) (fun _ l => ret l)
                ss cs (px_attempt (pixel c m) (0 + k)) (0 + k) loc1 ek Hacqk Hcancel)
      as (Hrun & Hst).
    rewrite Hrun. eexists. split; [reflexivity | exact Hst]. }
  unfold _runAcquisition. rewrite Hu.
  rewrite (try_acquire_throws _ _ _ _ Hbody).
  destruct (on_exception_effect CancelledError e1) as (O1 & O2 & O3 & O4 & _ & _ & _ & O8 & _).
  destruct (release_effect (snd (on_exception CancelledError e1)))
    as (R1 & R2 & R3 & R4 & _ & _ & _ & R8 & _).
  eexists. split; [rewrite (O8 Hst); reflexivity |].
  split; [rewrite R4, O4; exact Hst |].
  split; [rewrite R1; exact O1 |].
  split; [rewrite R2; exact O2 |].
  split.
  { unfold MultipleDetectorStream.raw. rewrite R1, R2, O1, O2. reflexivity. }
  rewrite R8, R3. reflexivity.
Qed.

Lemma hit_succeeding (c : Config) (start : Q) :
  rep_time c = 0.1 -> succeeding c (1%nat, 1%nat) (1%nat, 1%nat) (hit start).
Proof.
  intros Hrt.
  assert (Hfresh : forall v, too_early (Some start) (sample (start + 0.1) v) = false).
  { intros v. unfold too_early, sample. simpl.
    destruct (Qlt_bool (start + 0.1) start) eqn:E; [| reflexivity].
    apply Qlt_bool_iff in E. exfalso. lra. }
  unfold succeeding. rewrite Hrt. split_all; try reflexivity.
  - unfold Qle. simpl. lia.
  - exists (sample (start + 0.1) 2). split.
    + cbn [hit att_wait att_start accepted Nat.eqb andb]. rewrite Hfresh. reflexivity.
    + unfold tile_ok. simpl. eauto.
  - exists (sample (start + 0.1) 1). split.
    + cbn [hit att_wait att_start accepted Nat.eqb andb app]. rewrite Hfresh. reflexivity.
    + unfold tile_ok. simpl. eauto.
Qed.

Lemma mock_config_with_first_pixel (bad : Attempt) (j : nat) :
  (j < 1)%nat ->
  pixel_ok (mock_config_with bad) (1%nat, 1%nat) (1%nat, 1%nat)
    (pixel (mock_config_with bad) j).
Proof.
  intros Hj. assert (j = 0%nat) by lia. subst j.
  exists 0%nat. split; [lia |]. split; [intros i Hi; lia |].
  apply hit_succeeding. reflexivity.
Qed.

Lemma runAcquisition_cancelled_witness :
  exists e',
    _runAcquisition (mock_config_with (cancelled 100)) example_engine
    = Throw CancelledError e' /\
    _acq_state e' = CANCELLED /\ MultipleDetectorStream.raw e' = [].
Proof.
  destruct (runAcquisition_cancelled (mock_config_with (cancelled 100))
              (1%nat, 1%nat) (1%nat, 1%nat) example_engine 1 0 mock_ready eq_refl
              ltac:(vm_compute; lia)
              (mock_config_with_first_pixel (cancelled 100))
              ltac:(lia) ltac:(intros j Hj; lia) (conj eq_refl eq_refl))
    as (e' & H1 & H2 & _ & _ & H5 & _).
  exists e'. auto.
Defined.

(** X13.  A pixel for which the camera answers but the SEM does not is not
    tried again: when the pixels before pixel m were acquired and, on pixel m,
    after at most two failed passes, the camera gives its image in time but
    the SEM gives nothing valid before the wait on its event ends, the
    acquisition ends with a TimeoutError (even at the first pass on the
    pixel), the state stays RUNNING, the outputs are empty and the buffers of
    received data are emptied. *)
Theorem runAcquisition_sem_timeout (c : Config) (ss cs : nat * nat) (e : Engine)
    (m k : nat) :
  ready e -> useScanStage c = false ->
  (m < tot_num c)%nat ->
  (forall j, (j < m)%nat -> pixel_ok c ss cs (pixel c j)) ->
  (k <= 2)%nat ->
  (forall j, (j < k)%nat -> failing c (px_attempt (pixel c m) j)) ->
  sem_silent c (px_attempt (pixel c m) k) ->
  exists e',
    _runAcquisition c e = Throw (TimeoutError SEMPixelTimeout) e' /\
    _acq_state e' = RUNNING /\
    _raw e' = [] /\ _anchor_raw e' = [] /\ MultipleDetectorStream.raw e' = [] /\
    _acq_data e' = map (fun _ => []) (streams e').
Proof.
  intros Hr Hu Hm Hok Hk Hfail Hsilent.
  destruct (body_throws_at c ss cs e m (TimeoutError SEMPixelTimeout)
              (fun e1 => _acq_state e1 = RUNNING) Hr Hm Hok) as (e1 & Hbody & Hst).
  { intros loc1 e1 Hn Hacq. rewrite <- Hn in Hacq.
    destruct (retry_loop_skip_failures c (patch_position c (pixel c m))
                (fun _ l => ret l) (pixel c m) ss cs loc1 k (3 - k) 0 e1
                ltac:(lia) Hacq Hfail) as (ek & Hacqk & Hloop).
    replace (k + (3 - k))%nat with 3%nat in Hloop by lia.
    rewrite Hloop. replace (3 - k)%nat with (S (2 - k)) by lia.
    rewrite retry_loop_step.
    destruct (attempt_sem_silent c (patch_position c (pixel c m)) (fun _ l => ret l)
                ss cs (px_attempt (pixel c m) (0 + k)) (0 + k) loc1 ek Hacqk Hsilent)
      as (e' & Hrun & Hst).
    rewrite Hrun. exists e'. split; [reflexivity | exact Hst]. }
  unfold _runAcquisition. rewrite Hu.
  rewrite (try_acquire_throws _ _ _ _ Hbody).
  destruct (on_exception_effect (TimeoutError SEMPixelTimeout) e1)
    as (O1 & O2 & O3 & O4 & _ & _ & _ & _ & O9).
  destruct (release_effect (snd (on_exception (TimeoutError SEMPixelTimeout) e1)))
    as (R1 & R2 & R3 & R4 & _ & _ & _ & R8 & _).
  eexists. split; [rewrite O9 by (rewrite Hst; discriminate); reflexivity |].
  split; [rewrite R4, O4; exact Hst |].
  split; [rewrite R1; exact O1 |].
  split; [rewrite R2; exact O2 |].
  split.
  { unfold MultipleDetectorStream.raw. rewrite R1, R2, O1, O2. reflexivity. }
  rewrite R8, R3. reflexivity.
Qed.

Lemma camera_only_sem_silent (c : Config) (start : Q) :
  rep_time c = 0.1 -> sem_silent c (camera_only start).
Proof.
  intros Hrt.
  assert (Hfresh : forall v, too_early (Some start) (sample (start + 0.1) v) = false).
  { intros v. unfold too_early, sample. simpl.
    destruct (Qlt_bool (start + 0.1) start) eqn:E; [| reflexivity].
    apply Qlt_bool_iff in E. exfalso. lra. }
  unfold sem_silent. rewrite Hrt. split_all; try reflexivity.
  - unfold Qle. simpl. lia.
  - cbn [camera_only att_wait att_start accepted Nat.eqb andb]. rewrite Hfresh. eauto.
Qed.

Lemma runAcquisition_sem_timeout_witness :
  exists e',
    _runAcquisition (mock_config_with (camera_only 100)) example_engine
    = Throw (TimeoutError SEMPixelTimeout) e' /\
    _acq_state e' = RUNNING /\ MultipleDetectorStream.raw e' = [].
Proof.
  destruct (runAcquisition_sem_timeout (mock_config_with (camera_only 100))
              (1%nat, 1%nat) (1%nat, 1%nat) example_engine 1 0 mock_ready eq_refl
              ltac:(vm_compute; lia)
              (mock_config_with_first_pixel (camera_only 100))
              ltac:(lia) ltac:(intros j Hj; lia)
              (camera_only_sem_silent (mock_config_with (camera_only 100)) 100 eq_refl))
    as (e' & H1 & H2 & _ & _ & H5 & _).
  exists e'. auto.
Defined.

(** ** The estimated time of an acquisition *)

Lemma linspace_first (a b : Q) (n : nat) (v : Q) :
  linspace a b n !! 0%nat = Some v -> v == a.
Proof.
  intros Hv. pose proof (lookup_lt_Some _ _ _ Hv) as Hlt. rewrite linspace_length in Hlt.
  destruct (linspace_lookup a b n 0 Hlt) as (v' & Hv' & Hcase).
  rewrite Hv in Hv'. injection Hv' as <-.
  destruct Hcase as [[_ ->] | [_ ->]]; [reflexivity |].
  unfold N2Q. simpl. ring.
Qed.

Lemma linspace_last (a b : Q) (n : nat) (v : Q) :
  (2 <= n)%nat -> linspace a b n !! (n - 1)%nat = Some v -> v == b.
Proof.
  intros Hn Hv.
  destruct (linspace_lookup a b n (n - 1) ltac:(lia)) as (v' & Hv' & Hcase).
  rewrite Hv in Hv'. injection Hv' as <-.
  destruct Hcase as [[H1 _] | [_ ->]]; [lia |].
  assert (Hpos : 0 < N2Q (n - 1)) by (apply N2Q_pos; lia).
  field. lra.
Qed.

(** X14.  [estimateAcquisitionTime] and the scan stage.  Let t be the estimate
    without a scan stage (the raw time plus what the leeches ask for).  When
    the scan stage is requested but the stream has none, the estimate is still
    t.  With a scan stage, the time of the moves is added: twice the distance
    to travel divided by the speed of the stage, plus 50 ms per pixel, where
    the distance is twice (back and forth) the X extent of the grid of
    [_getScanStagePositions] for each of the Y rows plus its Y extent once; a
    speed of zero raises ZeroDivisionError. *)
Theorem estimateAcquisitionTime_scan_stage (s : Settings) (raw_time : Q)
    (leech_estimates : list (Q -> Result Q)) (speed : Q) (st : ScanStage)
    (g : list (list (Q * Q))) (p0 p1 : Q * Q) (t : Q) :
  let X := Pos.to_nat (fst (repetition s)) in
  let Y := Pos.to_nat (snd (repetition s)) in
  estimateAcquisitionTime s raw_time leech_estimates false None = Ok t ->
  _getScanStagePositions s st = Ok g ->
  lookup2 g 0 0 = Ok p0 ->
  lookup2 g (X - 1) (Y - 1) = Ok p1 ->
  estimateAcquisitionTime s raw_time leech_estimates true None = Ok t /\
  (speed == 0 ->
   estimateAcquisitionTime s raw_time leech_estimates true (Some speed)
   = Raise ZeroDivisionError) /\
  (~ speed == 0 ->
   exists total,
     estimateAcquisitionTime s raw_time leech_estimates true (Some speed) = Ok total /\
     total == t + 2 * (2 * ((fst p1 - fst p0) * N2Q Y + (snd p0 - snd p1))) / speed
              + N2Q (X * Y) * 0.05).
Proof.
  intros X Y Ht Hg Hp0 Hp1.
  destruct (roi s) as [[[l tp] r] b] eqn:Hroi.
  destruct (getScanStagePositions_Ok s st g l tp r b Hroi Hg)
    as (x0 & x1 & y0 & y1 & -> & _ & _ & _ & _ & _ & _ & X0 & X1 & Y0 & Y1).
  fold X in Hp0, Hp1. fold Y in Hp0, Hp1.
  (* the corners of the grid *)
  assert (Hc0 : fst p0 == x0 /\ snd p0 == y0).
  { unfold lookup2 in Hp0. rewrite list_lookup_fmap in Hp0.
    destruct (linspace x0 x1 X !! 0%nat) as [sx |] eqn:Ex; [| discriminate Hp0].
    cbn in Hp0. rewrite list_lookup_fmap in Hp0.
    destruct (linspace y0 y1 Y !! 0%nat) as [sy |] eqn:Ey; [| discriminate Hp0].
    cbn in Hp0. injection Hp0 as <-. cbn [fst snd].
    split; [apply (linspace_first _ _ _ _ Ex) | apply (linspace_first _ _ _ _ Ey)]. }
  assert (Hends : forall (p : positive) (a b u v k c : Q),
            a == c + k * (u + (v - u) / P2Q p / 2 - 0.5) ->
            b == c + k * (v - (v - u) / P2Q p / 2 - 0.5) ->
            forall w, linspace a b (Pos.to_nat p) !! (Pos.to_nat p - 1)%nat = Some w ->
                      w == b).
  { intros p a b0 u v k c Ha Hb w Hw.
    destruct (le_lt_dec 2 (Pos.to_nat p)) as [H2 | H1].
    - apply (linspace_last _ _ _ _ H2 Hw).
    - assert (E1 : Pos.to_nat p = 1%nat) by (pose proof (Pos2Nat.is_pos p); lia).
      rewrite E1 in Hw. cbn in Hw. injection Hw as <-.
      assert (EP : P2Q p == 1) by (rewrite P2Q_N2Q, E1; reflexivity).
      rewrite Ha, Hb. rewrite EP. field. }
  assert (Hc1 : fst p1 == x1 /\ snd p1 == y1).
  { unfold lookup2 in Hp1. rewrite list_lookup_fmap in Hp1.
    destruct (linspace x0 x1 X !! (X - 1)%nat) as [sx |] eqn:Ex; [| discriminate Hp1].
    cbn in Hp1. rewrite list_lookup_fmap in Hp1.
    destruct (linspace y0 y1 Y !! (Y - 1)%nat) as [sy |] eqn:Ey; [| discriminate Hp1].
    cbn in Hp1. injection Hp1 as <-. cbn [fst snd]. split.
    - apply (Hends (fst (repetition s)) x0 x1 l r
               (Z2Q (fst (emitter_shape s)) * fst (emitter_pixelSize s))
               (fst (position st)) X0 X1 sx Ex).
    - apply (Hends (snd (repetition s)) y0 y1 tp b
               (- (Z2Q (snd (emitter_shape s)) * snd (emitter_pixelSize s)))
               (snd (position st))); [rewrite Y0; ring | rewrite Y1; ring | exact Ey]. }
  destruct Hc0 as [P0x P0y]. destruct Hc1 as [P1x P1y].
  (* the estimate *)
  unfold estimateAcquisitionTime in *. rewrite Hroi. cbv zeta in *.
  match goal with
  | H : bind ?F _ = Ok t |- _ => destruct F as [t0 |] eqn:EF; [| discriminate H]
  end.
  cbn [bind] in *. injection Ht as ->.
  split; [reflexivity |]. split.
  - intros Hz. unfold py_div.
    rewrite (proj2 (Qeq_bool_iff speed 0) Hz). reflexivity.
  - intros Hnz. rewrite py_div_nonzero by exact Hnz. cbn [bind fst snd].
    eexists. split; [reflexivity |].
    assert (EN : N2Q (prod [X; Y]) == N2Q (X * Y)).
    { cbn [prod fold_right]. rewrite Nat.mul_1_r. reflexivity. }
    fold X. fold Y. rewrite EN.
    rewrite P1x, P0x, P0y, P1y, X0, X1, Y0, Y1.
    assert (EY : N2Q Y == P2Q (snd (repetition s)))
      by (rewrite P2Q_N2Q; reflexivity).
    rewrite EY.
    pose proof (P2Q_pos (fst (repetition s))). pose proof (P2Q_pos (snd (repetition s))).
    field. repeat split; try exact Hnz; lra.
Qed.

Lemma estimateAcquisitionTime_scan_stage_witness :
  exists total,
    estimateAcquisitionTime small_fov_settings 10 [] true (Some 0.001) = Ok total /\
    total == 34.2.
Proof.
  destruct (_getScanStagePositions small_fov_settings example_stage) as [g | ex] eqn:E;
    [| vm_compute in E; discriminate E].
  assert (E0 : exists p0, lookup2 g 0 0 = Ok p0 /\ fst p0 == 0 /\ snd p0 == 0.001).
  { vm_compute in E. injection E as <-. eexists. split; [reflexivity |]. split; reflexivity. }
  assert (E1 : exists p1, lookup2 g 1 1 = Ok p1 /\ fst p1 == 0.002 /\ snd p1 == -0.001).
  { vm_compute in E. injection E as <-. eexists. split; [reflexivity |]. split; reflexivity. }
  destruct E0 as (p0 & E0 & P0x & P0y). destruct E1 as (p1 & E1 & P1x & P1y).
  destruct (estimateAcquisitionTime_scan_stage small_fov_settings 10 [] 0.001
              example_stage g p0 p1 10 eq_refl E E0 E1) as (_ & _ & H).
  destruct (H ltac:(intros Hz; vm_compute in Hz; discriminate Hz)) as (total & Hrun & Htot).
  exists total. split; [exact Hrun |]. rewrite Htot, P0x, P0y, P1x, P1y. reflexivity.
Defined.

(** ** The settings of the e-beam for a pixel of the camera *)

Lemma Qlt_bool_false (a b : Q) : Qlt_bool a b = false -> b <= a.
Proof.
  unfold Qlt_bool. intros H. apply negb_false_iff in H. apply Qle_bool_iff. exact H.
Qed.

(** X15.  [_adjustHardwareSettings] of the SEM + camera engine returns the
    exposure time plus the readout time of the camera, whether fuzzing is used
    or not.  It leaves the e-beam either in spot mode (resolution 1 x 1,
    scale 1, dwell time clipped from exposure + readout), which is always the
    case when fuzzing is not asked for, or, with fuzzing, scanning a square
    tile of ts x ts sub-pixels with ts >= 2 such that: the dwell time asked
    for lies within the range of the scanner and scanning the tile twice
    takes exactly the exposure time; the scale is at least 1 along both axes;
    and the ts sub-pixels, of scale times the pixel size of the e-beam each,
    span exactly one pixel of the acquisition. *)
Theorem adjustHardwareSettings_fuzzing (s : Settings) (cam : Camera) (fuzzing : bool)
    (rng : Q * Q) (dwell_clip : Q -> Q) (t : Q) (em : Emitter) :
  _adjustHardwareSettings s cam fuzzing rng dwell_clip = Ok (t, em) ->
  let res := ccd_resolution cam in
  let pxs := _getPixelSize s in
  let sem_pxs := emitter_pixelSize s in
  t = exposureTime cam
      + N2Q (prod [Pos.to_nat (fst res); Pos.to_nat (snd res)]) / readoutRate cam /\
  ((em_resolution em = (1%Z, 1%Z) /\ em_scale em = (1, 1) /\
    em_dwellTime em = dwell_clip t) \/
   (fuzzing = true /\
    exists ts dt,
      (2 <= ts)%Z /\ em_resolution em = (ts, ts) /\
      em_dwellTime em = dwell_clip dt /\
      fst rng <= dt /\ dt <= snd rng /\
      2 * (Z2Q ts * Z2Q ts * dt) == exposureTime cam /\
      1 <= fst (em_scale em) /\ 1 <= snd (em_scale em) /\
      Z2Q ts * (fst (em_scale em) * fst sem_pxs) == pxs /\
      Z2Q ts * (snd (em_scale em) * snd sem_pxs) == pxs)) /\
  (fuzzing = false -> em_resolution em = (1%Z, 1%Z)).
Proof.
  intros H res pxs sem_pxs.
  unfold _adjustHardwareSettings in H. cbv zeta in H. fold res in H.
  destruct fuzzing.
  - inv_bind H as Efz.
    destruct a as [[[tile_shape dt] scale] |].
    + injection H as <- <-. cbn [em_resolution em_scale em_dwellTime].
      split; [reflexivity |]. split; [| discriminate].
      right. split; [reflexivity |].
      inv_bind Efz as E1. inv_bind Efz as E2. inv_bind Efz as E3.
      inv_bind Efz as E4. inv_bind Efz as E5.
      fold pxs in E3, E4, E5, Efz. fold sem_pxs in E3, E4, E5, Efz.
      set (ts := Z.max 1 (Z.min a0 (py_int a1))) in *.
      destruct ((ts =? 1)%Z || _ || _ || _) eqn:Ec; [discriminate Efz |].
      injection Efz as <- <- <-.
      apply orb_false_iff in Ec. destruct Ec as [Ec C4].
      apply orb_false_iff in Ec. destruct Ec as [Ec C3].
      apply orb_false_iff in Ec. destruct Ec as [C1 C2].
      apply Z.eqb_neq in C1. apply negb_false_iff, andb_true_iff in C2.
      destruct C2 as [C2a C2b]. apply Qle_bool_iff in C2a, C2b.
      apply Qlt_bool_false in C3, C4. cbn [fst snd] in C3, C4.
      apply py_div_Ok in E4, E5. destruct E4 as [N4 ->]. destruct E5 as [N5 ->].
      assert (Hts : (2 <= ts)%Z) by (unfold ts in *; lia).
      assert (HtsQ : 0 < Z2Q ts) by (apply Z2Q_pos; lia).
      exists ts, (exposureTime cam / Z2Q (ts * ts) / 2).
      assert (Emul : Z2Q (ts * ts) == Z2Q ts * Z2Q ts)
        by (unfold Z2Q; rewrite inject_Z_mult; reflexivity).
      cbn [fst snd].
      split_all; try assumption; try reflexivity.
      * rewrite Emul. field. lra.
      * field. split; [lra | exact N4].
      * field. split; [lra | exact N5].
    + injection H as <- <-. cbn [em_resolution em_scale em_dwellTime].
      split; [reflexivity |]. split; [left; auto | reflexivity].
  - cbn [bind] in H. injection H as <- <-. cbn [em_resolution em_scale em_dwellTime].
    split; [reflexivity |]. split; [left; auto | reflexivity].
Qed.

Lemma adjustHardwareSettings_fuzzing_witness :
  exists t em,
    _adjustHardwareSettings example_settings example_camera true (0.01, 10) (fun v => v)
    = Ok (t, em) /\
    em_resolution em = (2%Z, 2%Z) /\ t == 1.01.
Proof.
  destruct (_adjustHardwareSettings example_settings example_camera true (0.01, 10)
              (fun v => v)) as [[t em] | ex] eqn:E; [| vm_compute in E; discriminate E].
  destruct (adjustHardwareSettings_fuzzing example_settings example_camera true
              (0.01, 10) (fun v => v) t em E) as (Ht & _ & _).
  exists t, em. split; [reflexivity |].
  vm_compute in E. injection E as <- <-. split; reflexivity.
Defined.

(** ** The spectrum cube *)

Import SEMSpectrumMDStream.

Lemma list_sum_const {A : Type} (l : list A) (k : nat) :
  list_sum (map (fun _ => k) l) = (length l * k)%nat.
Proof. induction l as [| a l IH]; simpl; [reflexivity | rewrite IH; lia]. Qed.

(** Concatenating columns: arrays of shape (N, 1). *)
Lemma concatenate_axis1_columns (N : nat) (vs : list (list Z)) :
  vs <> [] ->
  concatenate_axis1 (map (fun v => ([N; 1%nat], v)) vs)
  = Ok ([N; length vs],
        concat (map (fun k => concat (map (block 1 k) vs)) (seq 0 N))).
Proof.
  intros Hne. destruct vs as [| v0 vs]; [contradiction |].
  unfold concatenate_axis1. cbn [map fst].
  set (arrays := (([N; 1%nat], v0) :: map (fun v => ([N; 1%nat], v)) vs)).
  assert (Hall : forallb (fun a : list nat * list Z =>
                    match fst a with
                    | d :: _ :: r => (d =? N)%nat && shape_eqb r []
                    | _ => false
                    end) arrays = true).
  { apply forallb_forall. intros a Ha.
    assert (Hin : In a (map (fun v => ([N; 1%nat], v)) (v0 :: vs))) by exact Ha.
    apply in_map_iff in Hin. destruct Hin as (v & <- & _). cbn.
    rewrite Nat.eqb_refl. reflexivity. }
  rewrite Hall. apply f_equal. apply f_equal2.
  - apply f_equal. apply (f_equal (fun x => [x])).
    cbn [nth list_sum fold_right length]. rewrite map_map. cbn [fst nth].
    change (fold_right Nat.add 0%nat (map (fun _ : list Z => 1%nat) vs))
      with (list_sum (map (fun _ : list Z => 1%nat) vs)).
    rewrite list_sum_const. lia.
  - apply f_equal. apply map_ext. intros k. apply f_equal.
    cbn [nth prod fold_right snd Nat.mul Nat.add]. rewrite map_map. reflexivity.
Qed.

Lemma assembleSpecData_cons (d0 : DataArray) (rest : list DataArray)
    (rep : positive * positive) :
  _assembleSpecData (d0 :: rest) rep =
  do spec_data <- concatenate_axis1
                    (map (fun e => (rev (shape e), values e)) (d0 :: rest));
  do spec_res <- of_option IndexError (head (rev (shape d0)));
  let new_shape := [spec_res; 1%nat; 1%nat; Pos.to_nat (snd rep); Pos.to_nat (fst rep)] in
  if negb (prod (fst spec_data) =? prod new_shape)%nat
  then Raise (ValueError OtherMsg)
  else Ok {| shape := new_shape; values := snd spec_data; metadata := metadata d0 |}.
Proof. reflexivity. Qed.

(** On X Y spectra of shape (1, N), [_assembleSpecData] succeeds and gives a
    cube of shape (N, 1, 1, Y, X). *)
Lemma assembleSpecData_Ok (data_list : list DataArray) (rep : positive * positive)
    (N : nat) :
  Forall (fun d => shape d = [1%nat; N] /\ length (values d) = N) data_list ->
  length data_list = (Pos.to_nat (snd rep) * Pos.to_nat (fst rep))%nat ->
  exists da,
    _assembleSpecData data_list rep = Ok da /\
    shape da = [N; 1%nat; 1%nat; Pos.to_nat (snd rep); Pos.to_nat (fst rep)].
Proof.
  intros Hall Hlen.
  set (X := Pos.to_nat (fst rep)) in *. set (Y := Pos.to_nat (snd rep)) in *.
  assert (Hpos : (0 < Y * X)%nat).
  { unfold X, Y. pose proof (Pos2Nat.is_pos (fst rep)).
    pose proof (Pos2Nat.is_pos (snd rep)). nia. }
  destruct data_list as [| d0 rest]; [simpl in Hlen; lia |].
  rewrite assembleSpecData_cons. fold X. fold Y. clearbody X Y.
  assert (Hs0 : shape d0 = [1%nat; N]).
  { rewrite Forall_forall in Hall. apply Hall. left. }
  assert (Edl : exists dl, dl = d0 :: rest) by eauto.
  destruct Edl as [dl Edl]. rewrite <- Edl in *.
  assert (Hrev : map (fun e => (rev (shape e), values e)) dl
                 = map (fun v => ([N; 1%nat], v)) (map values dl)).
  { rewrite map_map. apply map_ext_in. intros d Hd.
    rewrite Forall_forall in Hall.
    destruct (Hall d (proj2 (list_elem_of_In _ _) Hd)) as [-> _].
    reflexivity. }
  rewrite Hrev, concatenate_axis1_columns
    by (rewrite Edl; discriminate).
  cbn [bind]. rewrite Hs0. cbn [rev app head of_option bind fst snd].
  rewrite length_map, Hlen.
  assert (Hprod : (prod [N; (Y * X)%nat] =? prod [N; 1%nat; 1%nat; Y; X])%nat = true).
  { apply Nat.eqb_eq. cbn [prod fold_right]. lia. }
  rewrite Hprod. cbn [negb].
  eexists. split; reflexivity.
Qed.

(** X16.  [_assembleSpecData] on X Y spectra of shape (1, N) (N values each)
    gives the cube of shape (N, 1, 1, Y, X), with the metadata of the first
    spectrum, in which channel c of the pixel of row y and column x is value
    c of the spectrum number y X + x. *)
Theorem assembleSpecData_places_spectra (data_list : list DataArray)
    (rep : positive * positive) (N : nat) :
  let X := Pos.to_nat (fst rep) in
  let Y := Pos.to_nat (snd rep) in
  Forall (fun d => shape d = [1%nat; N] /\ length (values d) = N) data_list ->
  length data_list = (Y * X)%nat ->
  exists da,
    _assembleSpecData data_list rep = Ok da /\
    shape da = [N; 1%nat; 1%nat; Y; X] /\
    Some (metadata da) = metadata <$> head data_list /\
    forall c y x, (c < N)%nat -> (y < Y)%nat -> (x < X)%nat ->
      exists d, data_list !! (y * X + x)%nat = Some d /\
                values da !! (c * (Y * X) + (y * X + x))%nat = values d !! c.
Proof.
  intros X Y Hall Hlen.
  assert (Hpos : (0 < Y * X)%nat).
  { unfold X, Y. pose proof (Pos2Nat.is_pos (fst rep)).
    pose proof (Pos2Nat.is_pos (snd rep)). nia. }
  destruct data_list as [| d0 rest]; [simpl in Hlen; lia |].
  rewrite assembleSpecData_cons. fold X. fold Y. clearbody X Y.
  assert (Hs0 : shape d0 = [1%nat; N]).
  { rewrite Forall_forall in Hall. apply Hall. left. }
  cbn [head fmap option_fmap option_map].
  assert (Edl : exists dl, dl = d0 :: rest) by eauto.
  destruct Edl as [dl Edl]. rewrite <- Edl in *.
  assert (Hrev : map (fun e => (rev (shape e), values e)) dl
                 = map (fun v => ([N; 1%nat], v)) (map values dl)).
  { rewrite map_map. apply map_ext_in. intros d Hd.
    rewrite Forall_forall in Hall.
    destruct (Hall d (proj2 (list_elem_of_In _ _) Hd)) as [-> _].
    reflexivity. }
  rewrite Hrev, concatenate_axis1_columns
    by (rewrite Edl; discriminate).
  cbn [bind]. rewrite Hs0. cbn [rev app head of_option bind fst snd].
  rewrite length_map, Hlen.
  assert (Hprod : (prod [N; (Y * X)%nat] =? prod [N; 1%nat; 1%nat; Y; X])%nat = true).
  { apply Nat.eqb_eq. cbn [prod fold_right]. lia. }
  rewrite Hprod. cbn [negb].
  eexists. split; [reflexivity |]. cbn [shape values metadata].
  split; [reflexivity |].
  split; [reflexivity |].
  intros c y x Hc Hy Hx.
  assert (Hi : (y * X + x < length dl)%nat)
    by (rewrite Hlen; apply index_lt; assumption).
  destruct (lookup_lt_is_Some_2 dl _ Hi) as [d Hd].
  exists d. split; [exact Hd |].
  assert (Hblocks : forall k, (k < N)%nat ->
            Forall (fun l => length l = 1%nat) (map (block 1 k) (map values dl))).
  { intros k Hk. apply Forall_forall. intros l Hl.
    apply list_elem_of_In, in_map_iff in Hl. destruct Hl as (v & <- & Hv).
    apply in_map_iff in Hv. destruct Hv as (d' & <- & Hd').
    rewrite Forall_forall in Hall.
    destruct (Hall d' (proj2 (list_elem_of_In _ _) Hd')) as [_ Hl'].
    unfold block. rewrite length_take, length_drop. lia. }
  rewrite (lookup_concat_map_seq _ N (Y * X) c (y * X + x)).
  - replace (y * X + x)%nat with ((y * X + x) * 1 + 0)%nat at 1 by lia.
    rewrite (lookup_concat_uniform _ 1 (Hblocks c Hc)) by lia.
    rewrite !list_lookup_fmap, Hd. cbn.
    unfold block. rewrite lookup_take_lt by lia. rewrite lookup_drop.
    f_equal. lia.
  - intros k Hk. rewrite (length_concat_uniform _ 1 (Hblocks k Hk)).
    rewrite !length_map, Hlen. lia.
  - exact Hc.
  - rewrite <- Hlen. exact Hi.
Qed.

Lemma assembleSpecData_places_spectra_witness :
  exists da,
    _assembleSpecData [example_spectrum 1; example_spectrum 2;
                       example_spectrum 3; example_spectrum 4]
      (2%positive, 2%positive) = Ok da /\
    shape da = [3%nat; 1%nat; 1%nat; 2%nat; 2%nat] /\
    values da !! 6%nat = Some 13%Z.
Proof.
  destruct (assembleSpecData_places_spectra
              [example_spectrum 1; example_spectrum 2;
               example_spectrum 3; example_spectrum 4]
              (2%positive, 2%positive) 3
              ltac:(repeat constructor) eq_refl)
    as (da & Hrun & Hs & _ & Hv).
  exists da. split; [exact Hrun |]. split; [exact Hs |].
  destruct (Hv 1%nat 1%nat 0%nat ltac:(lia) ltac:(vm_compute; lia) ltac:(vm_compute; lia))
    as (d & Hd & Hval).
  vm_compute in Hd. injection Hd as <-. exact Hval.
Defined.

(** X17.  The pixel size of the spectrum cube.  When the SEM data (tiles of
    ts x ts sub-pixels, ts > 0, one per pixel) and then the spectra (of shape
    (1, N), one per pixel) are given to [_onCompletedData] of the SEM +
    spectrometer engine, with the resolution of the e-beam equal to the shape
    of the tiles, the outputs are the SEM image followed by the cube of shape
    (N, 1, 1, Y, X); the cube has the position of the SEM image and the name
    of the spectrometer stream, and its pixel size is the one of
    [_getPixelSize] along both axes, whatever ts is: the size of a sub-pixel
    of the SEM image times ts. *)
Theorem spectrum_pixel_size (s : Settings) (ts N : nat) (e : Engine)
    (sem_das spec_das : list DataArray) (name0 name1 : string) :
  let X := Pos.to_nat (fst (repetition s)) in
  let Y := Pos.to_nat (snd (repetition s)) in
  streams e = [name0; name1] -> _raw e = [] ->
  ts <> 0%nat ->
  Forall (tile_ok (ts, ts)) sem_das -> length sem_das = (Y * X)%nat ->
  Forall (fun d => shape d = [1%nat; N] /\ length (values d) = N) spec_das ->
  length spec_das = (Y * X)%nat ->
  exists e1 e2 sem spec px py,
    SEMSpectrumMDStream._onCompletedData s (ts, ts) 0 sem_das e = Ok e1 /\
    SEMSpectrumMDStream._onCompletedData s (ts, ts) 1 spec_das e1 = Ok e2 /\
    _raw e2 = [sem; spec] /\
    shape sem = [(Y * ts)%nat; (X * ts)%nat] /\
    shape spec = [N; 1%nat; 1%nat; Y; X] /\
    MD_POS (metadata spec) = MD_POS (metadata sem) /\
    MD_PIXEL_SIZE (metadata spec) = Some (px, py) /\
    px == _getPixelSize s /\ py == _getPixelSize s /\
    MD_DESCRIPTION (metadata spec) = Some name1.
Proof.
  intros X Y Hst Hraw Hts Hsem Hlsem Hspec Hlspec.
  (* the SEM image *)
  destruct (assembleTiles_ok s (ts, ts) sem_das Hsem Hlsem Hts Hts) as (da0 & Hda0 & Hsh0).
  destruct (assembleTiles_inv s (repetition s) sem_das da0 Hda0)
    as (d0 & T_ & S_ & center & pxs & Hhead & Hshape & _ & Hcp & Hpos0 & Hpxs0 & _).
  assert (HTS : T_ = ts /\ S_ = ts).
  { destruct sem_das as [| d sem_das]; [discriminate Hhead |].
    injection Hhead as ->. apply Forall_cons in Hsem. destruct Hsem as [(Hs & _) _].
    cbn [fst snd] in Hs. rewrite Hs in Hshape. injection Hshape as <- <-. auto. }
  destruct HTS as [-> ->].
  destruct (get_center_pxs_inv s _ _ _ _ _ Hcp)
    as (ctl & dpxs & W & H & _ & _ & _ & _ & _ & _ & Epxs & _).
  cbn [fst snd] in Epxs.
  unfold SEMSpectrumMDStream._onCompletedData at 1.
  rewrite Hst. cbn [length pred Nat.ltb Nat.leb].
  unfold SEMCCDMDStream._onCompletedData. rewrite Hda0. cbn [bind].
  rewrite Hst. cbn [lookup list_lookup of_option bind].
  set (sem := with_metadata (set_MD_DESCRIPTION name0 (metadata da0)) da0).
  set (e1 := set_raw (_raw e ++ [sem]) e).
  assert (Hst1 : streams e1 = [name0; name1]) by (unfold e1; destruct e; exact Hst).
  assert (Hraw1 : _raw e1 = [sem]) by (unfold e1; destruct e; cbn in *; rewrite Hraw; reflexivity).
  (* the cube *)
  destruct (assembleSpecData_Ok spec_das (repetition s) N Hspec Hlspec)
    as (cube & Hcube & Hshc).
  assert (Hd0 : exists sp0, head spec_das = Some sp0 /\ shape sp0 = [1%nat; N]).
  { destruct spec_das as [| sp0 rest].
    - simpl in Hlspec. pose proof (Pos2Nat.is_pos (fst (repetition s))).
      pose proof (Pos2Nat.is_pos (snd (repetition s))). unfold X, Y in Hlspec. nia.
    - exists sp0. split; [reflexivity |].
      apply Forall_cons in Hspec. destruct Hspec as [[Hs _] _]. exact Hs. }
  destruct Hd0 as (sp0 & Hsp0 & Hshsp0).
  exists e1. unfold SEMSpectrumMDStream._onCompletedData.
  rewrite Hst1. cbn [length pred Nat.ltb Nat.leb].
  rewrite Hsp0. cbn [of_option bind]. unfold shape_m2. rewrite Hshsp0.
  cbn [removelast last of_option bind Nat.eqb negb].
  rewrite Hcube. cbn [bind]. rewrite Hraw1. cbn [head of_option bind].
  assert (Hpx : MD_PIXEL_SIZE (metadata sem) = Some pxs) by exact Hpxs0.
  assert (Hps : MD_POS (metadata sem) = Some center) by exact Hpos0.
  rewrite Hpx, Hps. cbn [of_option bind].
  cbn [lookup list_lookup of_option bind].
  eexists. exists sem. eexists. eexists. eexists.
  split; [reflexivity |]. split; [reflexivity |].
  split; [unfold e1; destruct e; reflexivity |].
  split; [exact Hsh0 |].
  split; [exact Hshc |].
  split; [rewrite Hps; reflexivity |].
  split; [reflexivity |].
  assert (Hn : 0 < N2Q ts) by (apply N2Q_pos; lia).
  rewrite Epxs. cbn [fst snd].
  split; [field; lra |]. split; [field; lra | reflexivity].
Qed.

Lemma spectrum_pixel_size_witness :
  exists e1 e2 sem spec px py,
    SEMSpectrumMDStream._onCompletedData example_settings (2%nat, 2%nat) 0
      [example_tile; example_tile; example_tile; example_tile] example_engine = Ok e1 /\
    SEMSpectrumMDStream._onCompletedData example_settings (2%nat, 2%nat) 1
      [example_spectrum 1; example_spectrum 2; example_spectrum 3; example_spectrum 4]
      e1 = Ok e2 /\
    _raw e2 = [sem; spec] /\
    MD_PIXEL_SIZE (metadata spec) = Some (px, py) /\ px == 2 /\ py == 2.
Proof.
  destruct (spectrum_pixel_size example_settings 2 3 example_engine
              [example_tile; example_tile; example_tile; example_tile]
              [example_spectrum 1; example_spectrum 2; example_spectrum 3;
               example_spectrum 4] "sem" "ccd" eq_refl eq_refl ltac:(lia))
    as (e1 & e2 & sem & spec & px & py & H1 & H2 & H3 & _ & _ & _ & H7 & H8 & H9 & _).
  - repeat constructor; simpl; eauto.
  - reflexivity.
  - repeat constructor.
  - reflexivity.
  - exists e1, e2, sem, spec, px, py.
    split; [exact H1 |]. split; [exact H2 |]. split; [exact H3 |].
    split; [exact H7 |]. split; [rewrite H8 | rewrite H9]; reflexivity.
Defined.

(** ** The end of a successful acquisition *)

Import SEMCCDMDStream.

Lemma onCompletedData_fields (s : Settings) (n : nat) (das : list DataArray)
    (e e1 : Engine) :
  SEMCCDMDStream._onCompletedData s n das e = Ok e1 ->
  streams e1 = streams e /\ _acq_state e1 = _acq_state e /\
  subscribed e1 = subscribed e /\ synchronized e1 = synchronized e /\
  _sstage e1 = _sstage e /\ _anchor_raw e1 = _anchor_raw e /\
  trace e1 = trace e.
Proof.
  unfold SEMCCDMDStream._onCompletedData. intros H.
  inv_bind H as E1. inv_bind H as E2. injection H as <-.
  destruct e. cbn. auto 10.
Qed.

Lemma complete_data_fields (s : Settings) (das : list (list DataArray)) :
  forall (n : nat) (e e' : Engine),
    complete_data s n das e = Next tt e' ->
    streams e' = streams e /\ _acq_state e' = _acq_state e /\
    subscribed e' = subscribed e /\ synchronized e' = synchronized e /\
    _sstage e' = _sstage e /\ _anchor_raw e' = _anchor_raw e /\
    trace e' = trace e.
Proof.
  induction das as [| d das IH]; intros n e e' H.
  - cbn in H. injection H as <-. auto 10.
  - cbn [complete_data] in H. unfold bindM at 1, liftE at 1 in H.
    destruct (SEMCCDMDStream._onCompletedData s n d e) as [e1 |] eqn:E1;
      [| discriminate H].
    destruct (onCompletedData_fields _ _ _ _ _ E1) as (A1 & A2 & A3 & A4 & A5 & A6 & A7).
    destruct (IH _ _ _ H) as (B1 & B2 & B3 & B4 & B5 & B6 & B7).
    split_all; congruence.
Qed.

Lemma finish_effect (c : Config) (e0 e' : Engine) :
  finish c e0 = Next tt e' ->
  streams e' = streams e0 /\ _acq_state e' = FINISHED /\
  _sstage e' = _sstage e0 /\
  (forall i b, (i < length (streams e0))%nat -> subscribed e' !! i = Some b -> b = false) /\
  (forall b, synchronized e' !! last_id e0 = Some b -> b = false).
Proof.
  unfold finish.
  unfold bindM at 1. unfold get at 1.
  unfold bindM at 1. unfold modify at 1.
  unfold bindM at 1. unfold modify at 1.
  unfold bindM at 1. unfold call at 1, modify at 1.
  unfold bindM at 1. unfold get at 1.
  rewrite for_each_unsubscribe.
  set (ec := emit LockAcquire _).
  assert (Hec : streams ec = streams e0 /\ _sstage ec = _sstage e0 /\
                subscribed ec = fold_left (fun l i => <[i := false]> l)
                                  (stream_ids e0) (subscribed e0) /\
                synchronized ec = <[last_id e0 := false]> (synchronized e0)).
  { unfold ec, df_synchronizedOn. destruct e0. cbn. auto. }
  destruct Hec as (C1 & C2 & C3 & C4). clearbody ec.
  unfold bindM at 1.
  destruct (AcqState_eqb (_acq_state ec) CANCELLED).
  - unfold bindM, call, modify, throw. discriminate.
  - unfold bindM at 1. unfold modify at 1. unfold call at 1, modify at 1.
    unfold bindM at 1. unfold get at 1.
    set (ed := emit LockRelease _).
    assert (Hed : streams ed = streams ec /\ _sstage ed = _sstage ec /\
                  subscribed ed = subscribed ec /\ synchronized ed = synchronized ec /\
                  _acq_state ed = FINISHED).
    { unfold ed, write_acq_state. destruct ec. cbn. auto. }
    destruct Hed as (D1 & D2 & D3 & D4 & D5). clearbody ed.
    unfold bindM at 1.
    destruct (complete_data (settings c) 0 (_acq_data ed) ed) as [[] ee | |] eqn:Ecd;
      try discriminate.
    destruct (complete_data_fields _ _ _ _ _ Ecd) as (E1 & E2 & E3 & E4 & E5 & _).
    unfold bindM at 1. unfold modify at 1.
    rewrite for_each_emit.
    set (ef := set_trace _ ee).
    assert (Hef : streams ef = streams ee /\ _sstage ef = _sstage ee /\
                  subscribed ef = subscribed ee /\ synchronized ef = synchronized ee /\
                  _acq_state ef = _acq_state ee).
    { unfold ef. destruct ee. cbn. auto. }
    destruct Hef as (F1 & F2 & F3 & F4 & F5). clearbody ef.
    assert (Hfinal : streams ef = streams e0 /\ _acq_state ef = FINISHED /\
              _sstage ef = _sstage e0 /\
              (forall i b, (i < length (streams e0))%nat ->
                           subscribed ef !! i = Some b -> b = false) /\
              (forall b, synchronized ef !! last_id e0 = Some b -> b = false)).
    { split; [congruence |]. split; [congruence |]. split; [congruence |]. split.
      - intros i b Hi Hb. rewrite F3, E3, D3, C3 in Hb.
        pose proof (lookup_lt_Some _ _ _ Hb) as Hlt. rewrite fold_insert_length in Hlt.
        rewrite fold_insert_lookup_in in Hb;
          [congruence | apply in_seq; lia | exact Hlt].
      - intros b Hb. rewrite F4, E4, D4, C4 in Hb.
        pose proof (lookup_lt_Some _ _ _ Hb) as Hlt. rewrite length_insert in Hlt.
        rewrite list_lookup_insert_eq in Hb by exact Hlt. congruence. }
    destruct (has_dc c).
    + unfold bindM, lift, modify.
      destruct (_assembleAnchorData (dc_raw c)); [| discriminate].
      intros H. injection H as <-. destruct ef. exact Hfinal.
    + unfold ret. intros H. injection H as <-. exact Hfinal.
Qed.

Lemma body_ends_with_finish (c : Config) (e e4 : Engine) (u : unit) :
  body c e = Next u e4 -> exists e3, finish c e3 = Next tt e4.
Proof.
  unfold body. unfold bindM at 1. unfold call at 1, modify at 1.
  unfold bindM at 1. destruct (prepare c _) as [loc0 e2 | |]; try discriminate.
  unfold bindM at 1. destruct (scan_pixels c _ _ loc0 e2) as [loc e3 | |]; try discriminate.
  intros H. exists e3. destruct u. exact H.
Qed.

Lemma body_stage_ends_with_finish (c : Config) (e e4 : Engine) (u : unit) :
  body_stage c e = Next u e4 -> exists e3, finish c e3 = Next tt e4.
Proof.
  unfold body_stage. unfold bindM at 1. unfold get at 1.
  unfold bindM at 1. destruct (lift _ e) as [st e1 | |]; try discriminate.
  unfold bindM at 1. unfold call at 1, modify at 1.
  unfold bindM at 1. unfold call at 1, modify at 1.
  unfold bindM at 1.
  destruct (Binary64._getScanStagePositions _ _ _) as [stage_pos e2 | |];
    try discriminate.
  unfold bindM at 1. destruct (prepare c _) as [loc0 e2' | |]; try discriminate.
  unfold bindM at 1.
  destruct (scan_pixels_stage c st _ stage_pos _ _ e2') as [loc e3 | |]; try discriminate.
  intros H. exists e3. destruct u. exact H.
Qed.

(** X18.  When the acquisition of the SEM + camera engine returns (e-beam
    scan or scan stage), what it returns is the [raw] property of the engine,
    which holds no empty array; the state is FINISHED, no dataflow of the
    engine is subscribed, the camera is not synchronised on the trigger any
    more, the buffers of received data are emptied and the last thing done is
    to set the event of the end of the acquisition.  With a scan stage, the
    stage is left at the centre of its ranges. *)
Theorem runAcquisition_success_cleanup (c : Config) (e e' : Engine)
    (r : list DataArray) :
  _runAcquisition c e = Next r e' ->
  r = MultipleDetectorStream.raw e' /\
  Forall (fun da => shape da <> [0%nat]) r /\
  _acq_state e' = FINISHED /\
  _acq_data e' = map (fun _ => []) (streams e') /\
  (forall i b, (i < length (streams e'))%nat -> subscribed e' !! i = Some b -> b = false) /\
  (forall b, synchronized e' !! last_id e' = Some b -> b = false) /\
  last (trace e') = Some AcqDoneSet /\
  (useScanStage c = true ->
   forall st, _sstage e' = Some st -> position st = stage_centre st).
Proof.
  intros Hrun.
  assert (Hshape : exists e3 e4 (fin : Engine -> Engine),
            finish c e3 = Next tt e4 /\ r = MultipleDetectorStream.raw e4 /\
            e' = release (fin e4) /\
            (_raw (fin e4) = _raw e4 /\ _anchor_raw (fin e4) = _anchor_raw e4 /\
             streams (fin e4) = streams e4 /\ _acq_state (fin e4) = _acq_state e4 /\
             subscribed (fin e4) = subscribed e4 /\
             synchronized (fin e4) = synchronized e4) /\
            (useScanStage c = true ->
             forall st, _sstage (fin e4) = Some st -> position st = stage_centre st)).
  { unfold _runAcquisition in Hrun.
    destruct (useScanStage c) eqn:Hu.
    - unfold _runAcquisitionScanStage, try_acquire in Hrun.
      destruct (body_stage c e) as [u e4 | ex0 e1 |] eqn:Hb; try discriminate Hrun.
      + injection Hrun as <- <-.
        destruct (body_stage_ends_with_finish c e e4 u Hb) as [e3 Hfin].
        exists e3, e4.
        exists (fun e2 => match _sstage e2 with
                          | Some st =>
                            move_stage (Some ((fst (range_x st) + snd (range_x st)) / 2))
                                       (Some ((fst (range_y st) + snd (range_y st)) / 2)) e2
                          | None => e2
                          end).
        split; [exact Hfin |]. split; [reflexivity |]. split; [reflexivity |]. split.
        * destruct (_sstage e4); [apply move_stage_effect | auto 10].
        * intros _ st. destruct (_sstage e4) as [st0 |] eqn:Hst.
          -- unfold move_stage. destruct e4. cbn in Hst |- *. rewrite Hst. cbn.
             intros H. injection H as <-. reflexivity.
          -- rewrite Hst. discriminate.
      + destruct (on_exception ex0 e1). discriminate Hrun.
    - unfold try_acquire in Hrun.
      destruct (body c e) as [u e4 | ex0 e1 |] eqn:Hb; try discriminate Hrun.
      + injection Hrun as <- <-.
        destruct (body_ends_with_finish c e e4 u Hb) as [e3 Hfin].
        exists e3, e4, (fun e2 => e2).
        split; [exact Hfin |]. split; [reflexivity |]. split; [reflexivity |].
        split; [auto 10 | discriminate].
      + destruct (on_exception ex0 e1). discriminate Hrun. }
  destruct Hshape as (e3 & e4 & fin & Hfin & -> & -> & (F1 & F2 & F3 & F4 & F5 & F6) & Hpark).
  destruct (finish_effect c e3 e4 Hfin) as (O1 & O2 & O3 & O4 & O5).
  destruct (release_effect (fin e4)) as (R1 & R2 & R3 & R4 & R5 & R6 & R7 & R8 & R9).
  split.
  { unfold MultipleDetectorStream.raw. rewrite R1, R2, F1, F2. reflexivity. }
  split.
  { unfold MultipleDetectorStream.raw. apply Forall_forall. intros da Hda.
    apply list_elem_of_filter in Hda. exact (proj1 Hda). }
  split; [rewrite R4, F4; exact O2 |].
  split; [rewrite R8, R3; reflexivity |].
  split.
  { intros i b Hi. rewrite R3, F3, O1 in Hi. rewrite R6, F5. apply O4. exact Hi. }
  split.
  { intros b. unfold last_id in *. rewrite R3, F3, O1, R7, F6. apply O5. }
  split; [exact R9 |].
  intros Hu st. rewrite R5. apply Hpark. exact Hu.
Qed.

Lemma runAcquisition_success_cleanup_witness :
  exists r e',
    _runAcquisition (mock_config 2) example_engine = Next r e' /\
    r = MultipleDetectorStream.raw e' /\ _acq_state e' = FINISHED /\
    _acq_data e' = [[]; []].
Proof.
  destruct (_runAcquisition (mock_config 2) example_engine) as [r e' | ex e' |] eqn:E;
    [| vm_compute in E; discriminate E | vm_compute in E; discriminate E].
  destruct (runAcquisition_success_cleanup (mock_config 2) example_engine e' r E)
    as (H1 & _ & H3 & H4 & _).
  exists r, e'. split; [reflexivity |]. split; [exact H1 |]. split; [exact H3 |].
  rewrite H4. vm_compute in E. injection E as _ <-. reflexivity.
Defined.

(** ** What the worker asks of the stage and of the e-beam *)

(** [min(max(lo, v), hi)] is within [lo, hi] as soon as lo <= hi. *)
Lemma clamp_within (rng : Q * Q) (v : Q) :
  fst rng <= snd rng -> fst rng <= clamp rng v /\ clamp rng v <= snd rng.
Proof.
  intros H. unfold clamp.
  destruct (Qlt_bool v (fst rng)) eqn:E1.
  - destruct (Qlt_bool (snd rng) (fst rng)) eqn:E2.
    + apply Qlt_bool_iff in E2. exfalso. lra.
    + split; [lra | exact H].
  - apply Qlt_bool_false in E1.
    destruct (Qlt_bool (snd rng) v) eqn:E2.
    + split; [exact H | lra].
    + apply Qlt_bool_false in E2. split; assumption.
Qed.

Section Steady.

Variable Pm : option Q -> option Q -> Prop.
Variable Pt : Q * Q -> Prop.

Lemma quiet_same (f : Engine -> Engine) :
  (forall e, trace (f e) = trace e /\ _sstage (f e) = _sstage e) -> quiet (allowed Pm Pt) f.
Proof.
  intros H e. destruct (H e) as [Ht Hs]. split.
  - exists []. rewrite app_nil_r. auto.
  - unfold stage_ranges. rewrite Hs. reflexivity.
Qed.

Lemma quiet_emit (a : Action) : (allowed Pm Pt) a -> quiet (allowed Pm Pt) (emit a).
Proof.
  intros Ha e. split.
  - exists [a]. split; [destruct e; reflexivity | auto].
  - destruct e. reflexivity.
Qed.

Lemma quiet_comp (f g : Engine -> Engine) :
  quiet (allowed Pm Pt) f -> quiet (allowed Pm Pt) g -> quiet (allowed Pm Pt) (fun e => g (f e)).
Proof.
  intros Hf Hg e. destruct (Hf e) as [(l1 & T1 & F1) S1].
  destruct (Hg (f e)) as [(l2 & T2 & F2) S2]. split.
  - exists (l1 ++ l2). rewrite T2, T1, app_assoc. split; [reflexivity |].
    apply Forall_app. auto.
  - congruence.
Qed.

Lemma quiet_for_each (f : nat -> Engine -> Engine) (idx : list nat) :
  (forall i, quiet (allowed Pm Pt) (f i)) -> quiet (allowed Pm Pt) (for_each idx f).
Proof.
  intros Hf. unfold for_each. induction idx as [| i idx IH].
  - apply quiet_same. auto.
  - cbn [fold_left]. apply (quiet_comp (f i) (fun e => fold_left (fun st i => f i st) idx e));
      [apply Hf | exact IH].
Qed.

Lemma quiet_df_subscribe (i : nat) : quiet (allowed Pm Pt) (df_subscribe i).
Proof.
  unfold df_subscribe.
  apply (quiet_comp (fun e => set_subscribed (<[i := true]> (subscribed e)) e)
                    (emit (Subscribe i))).
  - apply quiet_same. intros e. destruct e. auto.
  - apply quiet_emit. exact I.
Qed.

Lemma quiet_df_unsubscribe (i : nat) : quiet (allowed Pm Pt) (df_unsubscribe i).
Proof.
  unfold df_unsubscribe.
  apply (quiet_comp (fun e => set_subscribed (<[i := false]> (subscribed e)) e)
                    (emit (Unsubscribe i))).
  - apply quiet_same. intros e. destruct e. auto.
  - apply quiet_emit. exact I.
Qed.

Lemma quiet_df_synchronizedOn (i : nat) (b : bool) : quiet (allowed Pm Pt) (df_synchronizedOn i b).
Proof.
  unfold df_synchronizedOn.
  apply (quiet_comp (fun e => set_synchronized (<[i := b]> (synchronized e)) e)
                    (emit (SynchronizedOn i b))).
  - apply quiet_same. intros e. destruct e. auto.
  - apply quiet_emit. exact I.
Qed.

Lemma quiet_cancel : quiet (allowed Pm Pt) (fun e => snd (_cancelAcquisition e)).
Proof.
  intros e. unfold _cancelAcquisition.
  destruct (AcqState_eqb (_acq_state (emit LockAcquire e)) FINISHED).
  - cbn [snd].
    apply (quiet_comp (emit LockAcquire) (emit LockRelease));
      apply quiet_emit; exact I.
  - cbv zeta. cbn [snd].
    set (f1 := fun e => emit LockRelease (write_acq_state CANCELLED (emit LockAcquire e))).
    set (f2 := fun e => df_synchronizedOn 0 false (for_each (stream_ids e) df_unsubscribe e)).
    set (f3 := fun e => emit (AcqDoneWait 5)
                 (for_each (stream_ids e)
                    (fun i st => set_acq_complete (<[i := true]> (_acq_complete st)) st) e)).
    assert (Q1 : quiet (allowed Pm Pt) f1).
    { unfold f1, write_acq_state.
      apply (quiet_comp (fun e => emit (SetAcqState CANCELLED)
                                    (set_acq_state CANCELLED (emit LockAcquire e)))
                        (emit LockRelease)); [| apply quiet_emit; exact I].
      apply (quiet_comp (fun e => set_acq_state CANCELLED (emit LockAcquire e))
                        (emit (SetAcqState CANCELLED))); [| apply quiet_emit; exact I].
      apply (quiet_comp (emit LockAcquire) (set_acq_state CANCELLED));
        [apply quiet_emit; exact I |].
      apply quiet_same. intros e0. destruct e0. auto. }
    assert (Q2 : quiet (allowed Pm Pt) f2).
    { intros e0. unfold f2.
      apply (quiet_comp (for_each (stream_ids e0) df_unsubscribe) (df_synchronizedOn 0 false));
        [apply quiet_for_each; intros; apply quiet_df_unsubscribe
        | apply quiet_df_synchronizedOn]. }
    assert (Q3 : quiet (allowed Pm Pt) f3).
    { intros e0. unfold f3.
      apply (quiet_comp (for_each (stream_ids e0)
                           (fun i st => set_acq_complete (<[i := true]> (_acq_complete st)) st))
                        (emit (AcqDoneWait 5))); [| apply quiet_emit; exact I].
      apply quiet_for_each. intros i. apply quiet_same. intros e1. destruct e1. auto. }
    exact (quiet_comp _ _ (quiet_comp _ _ Q1 Q2) Q3 e).
Qed.

Lemma quiet_deliver (ev : Event) : quiet (allowed Pm Pt) (deliver ev).
Proof.
  destruct ev as [n da |].
  - intros e. cbn [deliver].
    destruct (_onData n da e) as [e1 |] eqn:E; [| apply (quiet_same (fun e => e)); auto].
    apply onData_Ok in E.
    destruct E as [_ [[_ ->] | [(_ & _ & ->) | (_ & _ & ad & _ & ->)]]].
    + apply quiet_emit. exact I.
    + apply (quiet_same (fun e => e)). auto.
    + apply (quiet_same (fun e => set_acq_complete (<[n := true]> (_acq_complete e))
                                   (set_acq_data (<[n := ad ++ [da]]> (_acq_data e)) e))).
      intros e0. destruct e0. auto.
  - exact quiet_cancel.
Qed.

Lemma quiet_deliver_all (evs : list Event) : quiet (allowed Pm Pt) (deliver_all evs).
Proof.
  unfold deliver_all. induction evs as [| ev evs IH].
  - apply quiet_same. auto.
  - cbn [fold_left].
    apply (quiet_comp (deliver ev) (fun e => fold_left (fun st ev => deliver ev st) evs e));
      [apply quiet_deliver | exact IH].
Qed.

Lemma quiet_updateProgress (now dur : Q) (n tot : Z) (bonus : Q) :
  quiet (allowed Pm Pt) (_updateProgress now dur n tot bonus).
Proof.
  intros e. unfold _updateProgress. destruct (n <=? 1)%Z.
  - apply (quiet_same (fun e => e)). auto.
  - cbv zeta. split.
    + eexists. split; [destruct e; reflexivity |]. repeat constructor.
    + destruct e. reflexivity.
Qed.

Lemma quiet_move_stage (x y : option Q) : Pm x y -> quiet (allowed Pm Pt) (move_stage x y).
Proof.
  intros HP e. unfold move_stage. split.
  - exists [MoveAbs x y]. split; [| repeat constructor; exact HP].
    destruct e as [st a cpl dat md ps rw arw sub syn fe ss tr]. cbn.
    destruct ss; reflexivity.
  - destruct e as [st a cpl dat md ps rw arw sub syn fe ss tr]. cbn.
    destruct ss; reflexivity.
Qed.

Lemma steady_bind {A B : Type} (m : M A) (k : A -> M B) :
  steady (allowed Pm Pt) m -> (forall a, steady (allowed Pm Pt) (k a)) -> steady (allowed Pm Pt) (bindM m k).
Proof.
  intros Hm Hk e. unfold bindM. specialize (Hm e).
  destruct (m e) as [a e1 | ex e1 |]; [| exact Hm | exact I].
  specialize (Hk a e1). destruct (k a e1) as [b e2 | ex e2 |]; [| | exact I].
  - destruct Hm as [(l1 & T1 & F1) S1]. destruct Hk as [(l2 & T2 & F2) S2]. split.
    + exists (l1 ++ l2). rewrite T2, T1, app_assoc. split; [reflexivity |].
      apply Forall_app. auto.
    + congruence.
  - destruct Hm as [(l1 & T1 & F1) S1]. destruct Hk as [(l2 & T2 & F2) S2]. split.
    + exists (l1 ++ l2). rewrite T2, T1, app_assoc. split; [reflexivity |].
      apply Forall_app. auto.
    + congruence.
Qed.

Lemma steady_modify (f : Engine -> Engine) : quiet (allowed Pm Pt) f -> steady (allowed Pm Pt) (modify f).
Proof. intros Hf e. exact (Hf e). Qed.

Lemma steady_ret {A : Type} (a : A) : steady (allowed Pm Pt) (ret a).
Proof. intros e. cbn. split; [exists []; rewrite app_nil_r; auto | reflexivity]. Qed.

Lemma steady_throw {A : Type} (ex : exn) : steady (allowed Pm Pt) (@throw A ex).
Proof. intros e. cbn. split; [exists []; rewrite app_nil_r; auto | reflexivity]. Qed.

Lemma steady_get : steady (allowed Pm Pt) get.
Proof. intros e. cbn. split; [exists []; rewrite app_nil_r; auto | reflexivity]. Qed.

Lemma steady_lift {A : Type} (r : Result A) : steady (allowed Pm Pt) (lift r).
Proof.
  intros e. unfold lift.
  destruct r; (split; [exists []; rewrite app_nil_r; auto | reflexivity]).
Qed.

Lemma steady_liftE (f : Engine -> Result Engine) :
  (forall e e', f e = Ok e' -> trace e' = trace e /\ _sstage e' = _sstage e) ->
  steady (allowed Pm Pt) (liftE f).
Proof.
  intros Hf e. unfold liftE. destruct (f e) as [e' |] eqn:E.
  - destruct (Hf e e' E) as [Ht Hs]. split.
    + exists []. rewrite app_nil_r. auto.
    + unfold stage_ranges. rewrite Hs. reflexivity.
  - split; [exists []; rewrite app_nil_r; auto | reflexivity].
Qed.

Lemma steady_call (a : Action) : (allowed Pm Pt) a -> steady (allowed Pm Pt) (call a).
Proof. intros Ha. apply steady_modify, quiet_emit. exact Ha. Qed.

Lemma steady_check_cancelled : steady (allowed Pm Pt) check_cancelled.
Proof.
  unfold check_cancelled. apply steady_bind; [apply steady_get |].
  intros e. destruct (AcqState_eqb _ _); [apply steady_throw | apply steady_ret].
Qed.

Lemma steady_wait_event (k : nat) (evs : list Event) : steady (allowed Pm Pt) (wait_event k evs).
Proof.
  unfold wait_event.
  apply steady_bind; [apply steady_modify, quiet_deliver_all | intros _].
  apply steady_bind; [apply steady_get | intros e]. apply steady_lift.
Qed.

Lemma steady_arm (att : Attempt) : steady (allowed Pm Pt) (arm att).
Proof.
  unfold arm.
  apply steady_bind; [apply steady_modify, quiet_deliver_all | intros _].
  apply steady_bind; [apply steady_modify, quiet_same; intros e; destruct e; auto | intros _].
  apply steady_bind;
    [apply steady_modify, quiet_same; intros e; destruct e; auto | intros _].
  apply steady_bind; [apply steady_check_cancelled | intros _].
  apply steady_bind; [apply steady_get | intros e].
  apply steady_bind;
    [apply steady_modify, quiet_for_each; intros; apply quiet_df_subscribe | intros _].
  apply steady_bind; [apply steady_call; exact I | intros _].
  apply steady_call. exact I.
Qed.

Lemma quiet_drop_run (n i : nat) : quiet (allowed Pm Pt) (drop_run n i).
Proof.
  unfold drop_run.
  apply (quiet_comp (df_unsubscribe i)
                    (fun e => set_acq_data (alter (take n) i (_acq_data e)) e));
    [apply quiet_df_unsubscribe |].
  apply quiet_same. intros e. destruct e. auto.
Qed.

Lemma steady_on_failure (n failures : nat) : steady (allowed Pm Pt) (on_failure n failures).
Proof.
  unfold on_failure.
  apply steady_bind; [apply steady_call; exact I | intros _].
  destruct (3 <=? S failures)%nat; [apply steady_throw |].
  apply steady_bind; [apply steady_get | intros e].
  apply steady_bind;
    [apply steady_modify, quiet_for_each; intros; apply quiet_drop_run | intros _].
  apply steady_bind; [apply steady_call; exact I | intros _].
  apply steady_bind; [apply steady_modify, quiet_df_subscribe | intros _].
  apply steady_ret.
Qed.

Lemma steady_wait_sem (ks : list nat) (att : Attempt) : steady (allowed Pm Pt) (wait_sem ks att).
Proof.
  induction ks as [| k ks IH]; cbn [wait_sem]; [apply steady_ret |].
  apply steady_bind; [apply steady_wait_event | intros got].
  destruct got; [| apply steady_throw].
  apply steady_bind; [apply steady_modify, quiet_df_unsubscribe | intros _; exact IH].
Qed.

Lemma set_last_pos_same (p : Q * Q) (k : nat) (e e' : Engine) :
  set_last_pos p k e = Ok e' -> trace e' = trace e /\ _sstage e' = _sstage e.
Proof.
  unfold set_last_pos. intros H. inv_bind H as E. injection H as <-.
  destruct e. auto.
Qed.

Lemma steady_patch_position (c : Config) (penv : PixelEnv) :
  steady (allowed Pm Pt) (patch_position c penv).
Proof.
  unfold patch_position.
  apply steady_bind; [apply steady_get | intros e].
  apply steady_bind; [apply steady_lift | intros d0].
  apply steady_bind; [apply steady_lift | intros raw_pos].
  apply steady_liftE. apply set_last_pos_same.
Qed.

Lemma steady_patch_position_stage (orig_spos spos : Q * Q) :
  steady (allowed Pm Pt) (patch_position_stage orig_spos spos).
Proof.
  unfold patch_position_stage.
  apply steady_bind; [apply steady_get | intros e].
  apply steady_bind; [apply steady_lift | intros d0].
  apply steady_bind; [apply steady_lift | intros raw_pos].
  induction (seq 0 (length (_acq_data e))) as [| k ks IH]; [apply steady_ret |].
  apply steady_bind; [apply steady_liftE, set_last_pos_same | intros _; exact IH].
Qed.

Lemma steady_leech_loop (leech_pre : nat -> Locals -> M Locals) (att : Attempt)
    (lis : list nat) :
  (forall li loc, steady (allowed Pm Pt) (leech_pre li loc)) ->
  forall loc, steady (allowed Pm Pt) (leech_loop leech_pre att lis loc).
Proof.
  intros Hpre. induction lis as [| li lis IH]; intros loc; cbn [leech_loop].
  - apply steady_ret.
  - apply steady_bind; [apply steady_lift | intros np].
    destruct np as [np |]; [| apply IH].
    cbv zeta. destruct (np - 1 =? 0)%Z; [| apply IH].
    apply steady_bind; [apply Hpre | intros loc1].
    apply steady_bind; [apply steady_call; exact I | intros _].
    apply steady_bind; [apply steady_modify, quiet_deliver_all | intros _].
    apply steady_bind; [apply steady_check_cancelled | intros _].
    apply IH.
Qed.

Lemma steady_on_acquired (c : Config) (patch : M unit)
    (leech_pre : nat -> Locals -> M Locals) (att : Attempt) (loc : Locals) :
  steady (allowed Pm Pt) patch -> (forall li l, steady (allowed Pm Pt) (leech_pre li l)) ->
  steady (allowed Pm Pt) (on_acquired c patch leech_pre att loc).
Proof.
  intros Hpatch Hpre. unfold on_acquired.
  apply steady_bind; [apply steady_get | intros e].
  apply steady_bind; [apply steady_wait_sem | intros _].
  apply steady_bind; [apply steady_check_cancelled | intros _].
  apply steady_bind; [exact Hpatch | intros _].
  cbv zeta.
  apply steady_bind; [apply steady_modify, quiet_updateProgress | intros _].
  apply steady_bind; [apply steady_leech_loop; exact Hpre | intros loc'].
  apply steady_ret.
Qed.

Lemma steady_attempt (c : Config) (patch : M unit)
    (leech_pre : nat -> Locals -> M Locals) (att : Attempt) (failures : nat)
    (loc : Locals) :
  steady (allowed Pm Pt) patch -> (forall li l, steady (allowed Pm Pt) (leech_pre li l)) ->
  steady (allowed Pm Pt) (attempt c patch leech_pre att failures loc).
Proof.
  intros Hpatch Hpre. unfold attempt.
  apply steady_bind; [apply steady_arm | intros _].
  apply steady_bind; [apply steady_get | intros e].
  apply steady_bind; [apply steady_wait_event | intros got].
  cbv zeta.
  apply steady_bind; [apply steady_modify, quiet_deliver_all | intros _].
  apply steady_bind; [apply steady_check_cancelled | intros _].
  destruct (negb got || _);
    [apply steady_on_failure | apply steady_on_acquired; assumption].
Qed.

Lemma steady_retry_loop (fuel : nat) (c : Config) (patch : M unit)
    (leech_pre : nat -> Locals -> M Locals) (penv : PixelEnv) :
  steady (allowed Pm Pt) patch -> (forall li l, steady (allowed Pm Pt) (leech_pre li l)) ->
  forall failures loc, steady (allowed Pm Pt) (retry_loop fuel c patch leech_pre penv failures loc).
Proof.
  intros Hpatch Hpre. induction fuel as [| fuel IH]; intros failures loc.
  - intros e. exact I.
  - cbn [retry_loop].
    apply steady_bind; [apply steady_attempt; assumption | intros r].
    destruct r as [f' | loc']; [apply IH | apply steady_ret].
Qed.

Lemma steady_prepare (c : Config) : steady (allowed Pm Pt) (prepare c).
Proof.
  unfold prepare.
  apply steady_bind; [apply steady_get | intros e].
  apply steady_bind;
    [apply steady_modify, quiet_same; intros e0; destruct e0; auto | intros _].
  apply steady_bind;
    [apply steady_modify, quiet_same; intros e0; destruct e0; auto | intros _].
  apply steady_bind;
    [apply steady_modify, quiet_same; intros e0; destruct e0; auto | intros _].
  cbv zeta.
  apply steady_bind; [apply steady_modify, quiet_df_synchronizedOn | intros _].
  apply steady_bind; [apply steady_modify, quiet_df_subscribe | intros _].
  apply steady_ret.
Qed.

Lemma steady_complete_data (s : Settings) (das : list (list DataArray)) :
  forall n, steady (allowed Pm Pt) (complete_data s n das).
Proof.
  induction das as [| d das IH]; intros n; cbn [complete_data]; [apply steady_ret |].
  apply steady_bind; [| intros _; apply IH].
  apply steady_liftE. intros e e' H.
  destruct (onCompletedData_fields _ _ _ _ _ H) as (_ & _ & _ & _ & H5 & _ & H7). auto.
Qed.

Lemma steady_finish (c : Config) : steady (allowed Pm Pt) (finish c).
Proof.
  unfold finish.
  apply steady_bind; [apply steady_get | intros e].
  apply steady_bind;
    [apply steady_modify, quiet_for_each; intros; apply quiet_df_unsubscribe | intros _].
  apply steady_bind; [apply steady_modify, quiet_df_synchronizedOn | intros _].
  apply steady_bind; [apply steady_call; exact I | intros _].
  apply steady_bind; [apply steady_get | intros e1].
  apply steady_bind.
  { destruct (AcqState_eqb _ _).
    - apply steady_bind; [apply steady_call; exact I | intros _; apply steady_throw].
    - apply steady_bind; [| intros _; apply steady_call; exact I].
      apply steady_modify. unfold write_acq_state.
      apply (quiet_comp (set_acq_state FINISHED) (emit (SetAcqState FINISHED)));
        [apply quiet_same; intros e0; destruct e0; auto | apply quiet_emit; exact I]. }
  intros _.
  apply steady_bind; [apply steady_get | intros e2].
  apply steady_bind; [apply steady_complete_data | intros _].
  apply steady_bind.
  { apply steady_modify, quiet_for_each. intros li. apply quiet_emit. exact I. }
  intros _.
  destruct (has_dc c); [| apply steady_ret].
  apply steady_bind; [apply steady_lift | intros a].
  apply steady_modify, quiet_same. intros e0. destruct e0. auto.
Qed.

Lemma quiet_release : quiet (allowed Pm Pt) release.
Proof.
  unfold release.
  apply (quiet_comp (fun e => set_acq_data (map (fun _ => []) (streams e)) e)
                    (emit AcqDoneSet));
    [apply quiet_same; intros e; destruct e; auto | apply quiet_emit; exact I].
Qed.

Lemma quiet_on_exception (ex : exn) : quiet (allowed Pm Pt) (fun e => snd (on_exception ex e)).
Proof.
  assert (Q1 : quiet (allowed Pm Pt) (fun e => if is_CancelledError ex then e else emit (Log ERROR) e)).
  { destruct (is_CancelledError ex);
      [apply quiet_same; auto | apply quiet_emit; exact I]. }
  assert (Q2 : forall ids, quiet (allowed Pm Pt) (for_each ids df_unsubscribe)).
  { intros ids. apply quiet_for_each. intros. apply quiet_df_unsubscribe. }
  assert (Q4 : quiet (allowed Pm Pt) (fun e => set_anchor_raw [] (set_raw [] e))).
  { apply quiet_same. intros e0. destruct e0. auto. }
  assert (Tr : forall e0 e1 e2 : Engine,
             (exists l, trace e1 = trace e0 ++ l /\ Forall (allowed Pm Pt) l) /\
             stage_ranges e1 = stage_ranges e0 ->
             (exists l, trace e2 = trace e1 ++ l /\ Forall (allowed Pm Pt) l) /\
             stage_ranges e2 = stage_ranges e1 ->
             (exists l, trace e2 = trace e0 ++ l /\ Forall (allowed Pm Pt) l) /\
             stage_ranges e2 = stage_ranges e0).
  { intros e0 e1 e2 [(l1 & T1 & F1) S1] [(l2 & T2 & F2) S2]. split.
    - exists (l1 ++ l2). rewrite T2, T1, app_assoc. split; [reflexivity |].
      apply Forall_app. auto.
    - congruence. }
  intros e. unfold on_exception. cbv zeta.
  set (e1 := if is_CancelledError ex then e else emit (Log ERROR) e).
  set (e2 := for_each (stream_ids e1) df_unsubscribe e1).
  set (e3 := df_synchronizedOn (last_id e2) false e2).
  set (e4 := set_anchor_raw [] (set_raw [] e3)).
  assert (H4 : (exists l, trace e4 = trace e ++ l /\ Forall (allowed Pm Pt) l) /\
               stage_ranges e4 = stage_ranges e).
  { apply (Tr e e3 e4); [| exact (Q4 e3)].
    apply (Tr e e2 e3); [| exact (quiet_df_synchronizedOn (last_id e2) false e2)].
    apply (Tr e e1 e2); [exact (Q1 e) | exact (Q2 (stream_ids e1) e1)]. }
  destruct (negb (is_CancelledError ex) && _); cbn [snd]; [| exact H4].
  apply (Tr e e4 _ H4). apply quiet_emit. exact I.
Qed.

(** [try ... except ... finally] adds what its parts add; the [finally] clause
    may rely on the ranges of the stage being the ones of the start. *)
Lemma try_acquire_trace (body0 : M unit) (fin : Engine -> Engine) (e : Engine) :
  steady (allowed Pm Pt) body0 ->
  (forall e1, stage_ranges e1 = stage_ranges e ->
              exists l, trace (fin e1) = trace e1 ++ l /\ Forall (allowed Pm Pt) l) ->
  match try_acquire body0 fin e with
  | Next _ e' | Throw _ e' => exists l, trace e' = trace e ++ l /\ Forall (allowed Pm Pt) l
  | OutOfFuel => True
  end.
Proof.
  intros Hb Hf. unfold try_acquire. specialize (Hb e).
  destruct (body0 e) as [u e1 | ex e1 |]; [| | exact I].
  - destruct Hb as [(l1 & T1 & F1) S1]. destruct (Hf e1 S1) as (l2 & T2 & F2).
    exists (l1 ++ l2). rewrite T2, T1, app_assoc. split; [reflexivity |].
    apply Forall_app. auto.
  - pose proof (quiet_on_exception ex e1) as Hoe.
    cbv beta in Hoe. destruct (on_exception ex e1) as [ex' e2] eqn:Eoe. cbn [snd] in Hoe.
    destruct Hb as [(l1 & T1 & F1) S1]. destruct Hoe as [(l2 & T2 & F2) S2].
    destruct (Hf e2 ltac:(congruence)) as (l3 & T3 & F3).
    exists (l1 ++ l2 ++ l3). rewrite T3, T2, T1, <- !app_assoc. split; [reflexivity |].
    repeat (apply Forall_app; split); assumption.
Qed.

Lemma steady_move_beam (c : Config) (spot_pos : list (list (Q * Q))) (i : nat * nat)
    (penv : PixelEnv) :
  (forall q, Pt (translation_clip c q)) -> steady (allowed Pm Pt) (move_beam c spot_pos i penv).
Proof.
  intros HPt. unfold move_beam.
  apply steady_bind; [apply steady_lift | intros trans]. cbv zeta.
  apply steady_bind; [| intros _; apply steady_call; apply HPt].
  destruct (negb _); [apply steady_call; exact I | apply steady_ret].
Qed.

Lemma steady_scan_pixels (c : Config) (spot_pos : list (list (Q * Q)))
    (pixels : list (nat * nat)) :
  (forall q, Pt (translation_clip c q)) ->
  forall loc, steady (allowed Pm Pt) (scan_pixels c spot_pos pixels loc).
Proof.
  intros HPt. induction pixels as [| i rest IH]; intros loc; cbn [scan_pixels];
    [apply steady_ret |].
  cbv zeta.
  apply steady_bind; [apply steady_move_beam; exact HPt | intros _].
  apply steady_bind; [| intros loc'; apply IH].
  apply steady_retry_loop; [apply steady_patch_position | intros; apply steady_ret].
Qed.

Lemma steady_body (c : Config) :
  (forall q, Pt (translation_clip c q)) -> steady (allowed Pm Pt) (body c).
Proof.
  intros HPt. unfold body.
  apply steady_bind; [apply steady_call; exact I | intros _]. cbv zeta.
  apply steady_bind; [apply steady_prepare | intros loc].
  apply steady_bind; [apply steady_scan_pixels; exact HPt | intros _].
  apply steady_finish.
Qed.

Lemma steady_move_to_pixel (c : Config) (st : ScanStage)
    (stage_pos : list (list (Q * Q))) (i : nat * nat) (penv : PixelEnv) (loc : Locals) :
  (forall x y, target_in_range (range_x st) (range_y st) x y -> Pm x y) ->
  fst (range_x st) <= snd (range_x st) -> fst (range_y st) <= snd (range_y st) ->
  steady (allowed Pm Pt) (move_to_pixel c st stage_pos i penv loc).
Proof.
  intros HPm Hx Hy. unfold move_to_pixel.
  apply steady_bind; [apply steady_lift | intros spos]. cbv zeta.
  set (cs := (fst spos - _, snd spos - _)).
  apply steady_bind;
    [destruct (negb _); [apply steady_call; exact I | apply steady_ret] | intros _].
  apply steady_bind; [| intros _; apply steady_ret].
  apply steady_modify, quiet_move_stage. apply HPm.
  destruct (in_range (range_x st) (fst cs) && in_range (range_y st) (snd cs)) eqn:Ein;
    cbn [negb fst snd].
  - apply andb_true_iff in Ein. destruct Ein as [E1 E2]. unfold in_range in E1, E2.
    apply andb_true_iff in E1, E2. destruct E1 as [E1 E1'], E2 as [E2 E2'].
    apply Qle_bool_iff in E1, E1', E2, E2'.
    split; intros v Hv.
    + destruct (Qeq_bool _ _); [discriminate Hv |]. injection Hv as <-. auto.
    + destruct (Qeq_bool _ _); [discriminate Hv |]. injection Hv as <-. auto.
  - split; intros v Hv.
    + destruct (Qeq_bool _ _); [discriminate Hv |]. injection Hv as <-.
      apply clamp_within. exact Hx.
    + destruct (Qeq_bool _ _); [discriminate Hv |]. injection Hv as <-.
      apply clamp_within. exact Hy.
Qed.

Lemma steady_leech_pre_stage (c : Config) (orig_spos : Q * Q) (li : nat) (loc : Locals) :
  Pm (Some (fst orig_spos)) (Some (snd orig_spos)) ->
  steady (allowed Pm Pt) (leech_pre_stage c orig_spos li loc).
Proof.
  intros HP. unfold leech_pre_stage.
  destruct (leeches c !! li) as [l |]; [| apply steady_ret].
  destruct (is_AnchorDriftCorrector l); [| apply steady_ret].
  apply steady_bind; [| intros _; apply steady_ret].
  apply steady_modify, quiet_move_stage. exact HP.
Qed.

Lemma steady_scan_pixels_stage (c : Config) (st : ScanStage) (orig_spos : Q * Q)
    (stage_pos : list (list (Q * Q))) (pixels : list (nat * nat)) :
  (forall x y, target_in_range (range_x st) (range_y st) x y -> Pm x y) ->
  fst (range_x st) <= snd (range_x st) -> fst (range_y st) <= snd (range_y st) ->
  Pm (Some (fst orig_spos)) (Some (snd orig_spos)) ->
  forall loc, steady (allowed Pm Pt) (scan_pixels_stage c st orig_spos stage_pos pixels loc).
Proof.
  intros HPm Hx Hy Ho. induction pixels as [| i rest IH]; intros loc;
    cbn [scan_pixels_stage]; [apply steady_ret |].
  cbv zeta.
  apply steady_bind; [apply steady_move_to_pixel; assumption | intros [spos loc1]].
  apply steady_bind; [| intros loc'; apply IH].
  apply steady_retry_loop;
    [apply steady_patch_position_stage | intros; apply steady_leech_pre_stage; exact Ho].
Qed.

End Steady.

(** The worker always ends: it returns or raises. *)
Lemma never_stuck_finish (c : Config) : never_stuck (finish c).
Proof.
  assert (Hcd : forall das n, never_stuck (complete_data (settings c) n das)).
  { induction das as [| d das IH]; intros n; cbn [complete_data]; unstuck. }
  unfold finish.
  apply never_stuck_bind; [apply never_stuck_get | intros e].
  apply never_stuck_bind; [apply never_stuck_modify | intros _].
  apply never_stuck_bind; [apply never_stuck_modify | intros _].
  apply never_stuck_bind; [apply never_stuck_call | intros _].
  apply never_stuck_bind; [apply never_stuck_get | intros e1].
  apply never_stuck_bind; [destruct (AcqState_eqb _ _); unstuck | intros _].
  apply never_stuck_bind; [apply never_stuck_get | intros e2].
  apply never_stuck_bind; [apply Hcd | intros _].
  apply never_stuck_bind; [apply never_stuck_modify | intros _].
  destruct (has_dc c); unstuck.
Qed.

Lemma never_stuck_body (c : Config) : never_stuck (body c).
Proof.
  assert (Hsp : forall sp pixels loc, never_stuck (scan_pixels c sp pixels loc)).
  { intros sp. induction pixels as [| i rest IH]; intros loc; cbn [scan_pixels];
      [apply never_stuck_ret |].
    cbv zeta.
    apply never_stuck_bind.
    { unfold move_beam. apply never_stuck_bind; [apply never_stuck_lift | intros trans].
      cbv zeta. apply never_stuck_bind; [destruct (negb _); unstuck | intros _].
      apply never_stuck_call. }
    intros _.
    apply never_stuck_bind; [| intros loc'; apply IH].
    apply retry_loop_never_stuck;
      [apply never_stuck_patch_position | intros; apply never_stuck_ret]. }
  unfold body.
  apply never_stuck_bind; [apply never_stuck_call | intros _]. cbv zeta.
  apply never_stuck_bind; [unfold prepare; unstuck | intros loc].
  apply never_stuck_bind; [apply Hsp | intros _].
  apply never_stuck_finish.
Qed.

Lemma never_stuck_body_stage (c : Config) : never_stuck (body_stage c).
Proof.
  assert (Hpp : forall o sp, never_stuck (patch_position_stage o sp)).
  { intros o sp. unfold patch_position_stage.
    apply never_stuck_bind; [apply never_stuck_get | intros e].
    apply never_stuck_bind; [apply never_stuck_lift | intros d0].
    apply never_stuck_bind; [apply never_stuck_lift | intros raw_pos].
    induction (seq 0 (length (_acq_data e))) as [| k ks IH]; [apply never_stuck_ret |].
    apply never_stuck_bind; [apply never_stuck_liftE | intros _; exact IH]. }
  assert (Hlp : forall o li l, never_stuck (leech_pre_stage c o li l)).
  { intros o li l. unfold leech_pre_stage.
    destruct (leeches c !! li) as [le |]; [| apply never_stuck_ret].
    destruct (is_AnchorDriftCorrector le); unstuck. }
  assert (Hsp : forall st o sp pixels loc,
             never_stuck (scan_pixels_stage c st o sp pixels loc)).
  { intros st o sp. induction pixels as [| i rest IH]; intros loc;
      cbn [scan_pixels_stage]; [apply never_stuck_ret |].
    cbv zeta.
    apply never_stuck_bind.
    { unfold move_to_pixel. apply never_stuck_bind; [apply never_stuck_lift | intros spos].
      cbv zeta. apply never_stuck_bind; [destruct (negb _); unstuck | intros _].
      unstuck. }
    intros [spos loc1].
    apply never_stuck_bind; [| intros loc'; apply IH].
    apply retry_loop_never_stuck; [apply Hpp | apply Hlp]. }
  unfold body_stage.
  apply never_stuck_bind; [apply never_stuck_get | intros e].
  apply never_stuck_bind; [apply never_stuck_lift | intros st]. cbv zeta.
  apply never_stuck_bind; [apply never_stuck_call | intros _].
  apply never_stuck_bind; [apply never_stuck_call | intros _].
  apply never_stuck_bind;
    [intros e0; rewrite getScanStagePositions_call;
     destruct (Binary64.in_range _ _); discriminate
    | intros stage_pos].
  apply never_stuck_bind; [unfold prepare; unstuck | intros loc].
  apply never_stuck_bind; [apply Hsp | intros _].
  apply never_stuck_finish.
Qed.

Lemma never_stuck_try_acquire (body0 : M unit) (fin : Engine -> Engine) :
  never_stuck body0 -> never_stuck (try_acquire body0 fin).
Proof.
  intros Hb e. unfold try_acquire. specialize (Hb e).
  destruct (body0 e) as [u e1 | ex e1 |]; [discriminate | | contradiction].
  destruct (on_exception ex e1). discriminate.
Qed.

(** X19.  With the scan stage, whatever the camera, the SEM and the caller do
    during the acquisition, and however it ends, every move asked of the stage
    has its targets within the ranges of the axes of the stage: the moves to
    the pixels (limited to the ranges when the drift brings them out), the
    moves back to the position of the start before a drift correction, and
    the final move to the centre.  The e-beam is only ever sent to the
    translation (0, 0).  This holds when the stage starts within its ranges;
    the acquisition always returns or raises. *)
Theorem scan_stage_moves_within_range (c : Config) (e : Engine) (st : ScanStage) :
  useScanStage c = true ->
  _sstage e = Some st ->
  fst (range_x st) <= fst (position st) <= snd (range_x st) ->
  fst (range_y st) <= snd (position st) <= snd (range_y st) ->
  exists e' l,
    ((exists r, _runAcquisition c e = Next r e') \/
     (exists ex, _runAcquisition c e = Throw ex e')) /\
    trace e' = trace e ++ l /\
    forall a, a ∈ l ->
      match a with
      | MoveAbs x y => target_in_range (range_x st) (range_y st) x y
      | SetTranslation p => p = (0, 0)
      | _ => True
      end.
Proof.
  intros Hu Hst Hpx Hpy.
  set (Pm := target_in_range (range_x st) (range_y st)).
  set (Pt := fun p : Q * Q => p = (0, 0)).
  assert (Hx : fst (range_x st) <= snd (range_x st)) by lra.
  assert (Hy : fst (range_y st) <= snd (range_y st)) by lra.
  assert (Hrest : forall loc0 : Locals -> Locals,
            steady (allowed Pm Pt)
              (exec call AcqDoneClear ;;
               exec call (SetTranslation (0, 0)) ;;
               let* stage_pos := Binary64._getScanStagePositions (settings c) st in
               let* loc := prepare c in
               let* loc := scan_pixels_stage c st (position st) stage_pos
                             (ndindex (Pos.to_nat (snd (repetition (settings c))))
                                      (Pos.to_nat (fst (repetition (settings c)))))
                             (loc0 loc) in
               finish c)).
  { intros loc0.
    apply steady_bind; [apply steady_call; exact I | intros _].
    apply steady_bind; [apply steady_call; reflexivity | intros _].
    apply steady_bind; [| intros stage_pos].
    { unfold Binary64._getScanStagePositions.
      apply steady_bind;
        [destruct (Binary64.off_centre st); [apply steady_call; exact I | apply steady_ret]
        | intros _].
      destruct (negb _); [apply steady_throw | apply steady_ret]. }
    apply steady_bind; [apply steady_prepare | intros loc].
    apply steady_bind; [| intros _; apply steady_finish].
    apply steady_scan_pixels_stage; auto.
    split; intros v Hv; injection Hv as <-; assumption. }
  assert (Hfin : forall e1, stage_ranges e1 = stage_ranges e ->
            exists l, trace (park_and_release e1) = trace e1 ++ l /\
                      Forall (allowed Pm Pt) l).
  { intros e1 Hr. unfold stage_ranges in Hr. rewrite Hst in Hr. cbn in Hr.
    destruct (_sstage e1) as [st1 |] eqn:E1; [| discriminate Hr].
    cbn in Hr. injection Hr as Rx Ry.
    unfold park_and_release. rewrite E1. cbv zeta.
    assert (Hc : Pm (Some ((fst (range_x st1) + snd (range_x st1)) / 2))
                    (Some ((fst (range_y st1) + snd (range_y st1)) / 2))).
    { rewrite Rx, Ry.
      pose proof (Qhalf (fst (range_x st) + snd (range_x st))) as H1.
      pose proof (Qhalf (fst (range_y st) + snd (range_y st))) as H2.
      split; intros v Hv; injection Hv as <-; cbn [fst snd]; lra. }
    destruct (quiet_comp Pm Pt _ _ (quiet_move_stage Pm Pt _ _ Hc) (quiet_release Pm Pt) e1)
      as [Hl _].
    exact Hl. }
  pose proof (never_stuck_try_acquire _ park_and_release (never_stuck_body_stage c) e) as Hns.
  assert (Hbody : forall e0, _sstage e0 = Some st ->
            body_stage c e0
            = (exec call AcqDoneClear ;;
               exec call (SetTranslation (0, 0)) ;;
               let* stage_pos := Binary64._getScanStagePositions (settings c) st in
               let* loc := prepare c in
               let* loc := scan_pixels_stage c st (position st) stage_pos
                             (ndindex (Pos.to_nat (snd (repetition (settings c))))
                                      (Pos.to_nat (fst (repetition (settings c)))))
                             (set_prev_spos (position st) loc) in
               finish c) e0).
  { intros e0 H0. unfold body_stage. unfold bindM at 1. unfold get at 1.
    unfold bindM at 1. rewrite H0. reflexivity. }
  assert (Htr : match _runAcquisition c e with
                | Next _ e' | Throw _ e' =>
                  exists l, trace e' = trace e ++ l /\ Forall (allowed Pm Pt) l
                | OutOfFuel => True
                end).
  { unfold _runAcquisition. rewrite Hu. unfold _runAcquisitionScanStage.
    unfold try_acquire. rewrite (Hbody e Hst).
    exact (try_acquire_trace Pm Pt _ park_and_release e
             (Hrest (set_prev_spos (position st))) Hfin). }
  assert (Hns' : _runAcquisition c e <> OutOfFuel).
  { unfold _runAcquisition. rewrite Hu. exact Hns. }
  destruct (_runAcquisition c e) as [r e' | ex e' |]; [| | contradiction].
  - destruct Htr as (l & T & F). exists e', l. split; [left; eauto |].
    split; [exact T |]. intros a Ha. rewrite Forall_forall in F. exact (F a Ha).
  - destruct Htr as (l & T & F). exists e', l. split; [right; eauto |].
    split; [exact T |]. intros a Ha. rewrite Forall_forall in F. exact (F a Ha).
Qed.

Lemma scan_stage_moves_within_range_witness :
  exists e' l,
    ((exists r, _runAcquisition stage_config stage_engine = Next r e') \/
     (exists ex, _runAcquisition stage_config stage_engine = Throw ex e')) /\
    trace e' = trace stage_engine ++ l /\
    forall a, a ∈ l ->
      match a with
      | MoveAbs x y => target_in_range (range_x example_stage) (range_y example_stage) x y
      | SetTranslation p => p = (0, 0)
      | _ => True
      end.
Proof.
  apply (scan_stage_moves_within_range stage_config stage_engine example_stage).
  - reflexivity.
  - reflexivity.
  - split; vm_compute; discriminate.
  - split; vm_compute; discriminate.
Defined.

(** X20.  Without the scan stage, whatever the camera, the SEM and the caller
    do during the acquisition, and however it ends, the worker never moves a
    stage, and every translation it gives to the e-beam is a value returned
    by the clipping of the translation of the emitter.  The acquisition
    always returns or raises. *)
Theorem ebeam_scan_never_moves_stage (c : Config) (e : Engine) :
  useScanStage c = false ->
  exists e' l,
    ((exists r, _runAcquisition c e = Next r e') \/
     (exists ex, _runAcquisition c e = Throw ex e')) /\
    trace e' = trace e ++ l /\
    forall a, a ∈ l ->
      match a with
      | MoveAbs x y => False
      | SetTranslation p => exists q, p = translation_clip c q
      | _ => True
      end.
Proof.
  intros Hu.
  set (Pm := fun _ _ : option Q => False).
  set (Pt := fun p : Q * Q => exists q, p = translation_clip c q).
  assert (Htr : match _runAcquisition c e with
                | Next _ e' | Throw _ e' =>
                  exists l, trace e' = trace e ++ l /\ Forall (allowed Pm Pt) l
                | OutOfFuel => True
                end).
  { unfold _runAcquisition. rewrite Hu.
    apply (try_acquire_trace Pm Pt (body c) release e).
    - apply steady_body. intros q. exists q. reflexivity.
    - intros e1 _. destruct (quiet_release Pm Pt e1) as [Hl _]. exact Hl. }
  assert (Hns : _runAcquisition c e <> OutOfFuel).
  { unfold _runAcquisition. rewrite Hu.
    apply never_stuck_try_acquire, never_stuck_body. }
  destruct (_runAcquisition c e) as [r e' | ex e' |]; [| | contradiction].
  - destruct Htr as (l & T & F). exists e', l. split; [left; eauto |].
    split; [exact T |]. intros a Ha. rewrite Forall_forall in F. exact (F a Ha).
  - destruct Htr as (l & T & F). exists e', l. split; [right; eauto |].
    split; [exact T |]. intros a Ha. rewrite Forall_forall in F. exact (F a Ha).
Qed.

Lemma ebeam_scan_never_moves_stage_witness :
  exists e' l,
    ((exists r, _runAcquisition (mock_config 1) example_engine = Next r e') \/
     (exists ex, _runAcquisition (mock_config 1) example_engine = Throw ex e')) /\
    trace e' = trace example_engine ++ l /\
    forall a, a ∈ l ->
      match a with
      | MoveAbs x y => False
      | SetTranslation p => exists q, p = translation_clip (mock_config 1) q
      | _ => True
      end.
Proof.
  apply (ebeam_scan_never_moves_stage (mock_config 1) example_engine).
  reflexivity.
Defined.

(** ** The scan stage variant when every pixel is acquired *)

Lemma move_stage_fields (x y : option Q) (e : Engine) :
  let e' := move_stage x y e in
  streams e' = streams e /\ _acq_state e' = _acq_state e /\
  _acq_complete e' = _acq_complete e /\ _acq_data e' = _acq_data e /\
  _acq_min_date e' = _acq_min_date e /\ _raw e' = _raw e /\
  (well_formed e -> well_formed e').
Proof.
  unfold move_stage, well_formed.
  destruct e as [st a cpl dat md ps rw arw sub syn fe ss tr].
  cbn. destruct ss; cbn; auto 10.
Qed.

Lemma acquiring_move_stage (ss cs : nat * nat) (n : nat) (x y : option Q) (e : Engine) :
  acquiring ss cs n e -> acquiring ss cs n (move_stage x y e).
Proof.
  destruct (move_stage_fields x y e) as (F1 & F2 & F3 & F4 & _ & _ & F7).
  intros ((Hwf & Hl & Hs) & Hd). unfold acquiring, ready.
  rewrite F1, F2, F4. auto.
Qed.

(** Every pixel has its place in the grid of the stage. *)
Lemma grid_lookup (s : Settings) (st : ScanStage) (x y : nat) :
  (x < Pos.to_nat (fst (repetition s)))%nat ->
  (y < Pos.to_nat (snd (repetition s)))%nat ->
  exists p, lookup2 (Binary64.grid s st) x y = Ok p.
Proof.
  intros Hx Hy. unfold Binary64.grid.
  destruct (Binary64.lim_main s st) as [[[x0 y0] x1] y1].
  destruct (linspace_lookup x0 x1 _ x Hx) as (sx & Hsx & _).
  destruct (linspace_lookup y0 y1 _ y Hy) as (sy & Hsy & _).
  exists (sx, sy). unfold lookup2.
  rewrite list_lookup_fmap, Hsx. cbn [fmap option_fmap option_map of_option bind].
  rewrite list_lookup_fmap, Hsy. reflexivity.
Qed.

Lemma move_to_pixel_ok (c : Config) (st : ScanStage)
    (ss cs : nat * nat) (i : nat * nat) (penv : PixelEnv) (loc : Locals) (e : Engine) :
  (fst i < Pos.to_nat (snd (repetition (settings c))))%nat ->
  (snd i < Pos.to_nat (fst (repetition (settings c))))%nat ->
  acquiring ss cs (n_done loc) e ->
  exists spos loc' e',
    move_to_pixel c st (Binary64.grid (settings c) st) i penv loc e
    = Next (spos, loc') e' /\
    n_done loc' = n_done loc /\ leech_np loc' = leech_np loc /\
    _raw e' = _raw e /\
    acquiring ss cs (n_done loc) e'.
Proof.
  intros Hy Hx Hacq.
  destruct (grid_lookup (settings c) st _ _ Hx Hy) as [spos Hsp].
  unfold move_to_pixel. unfold bindM at 1. unfold lift at 1. rewrite Hsp.
  cbv zeta. unfold bindM at 1.
  match goal with
  | |- context [if negb ?b then call (Log ERROR) else ret tt] => destruct (negb b)
  end.
  - unfold call at 1, modify at 1. unfold bindM at 1. unfold modify at 1. unfold ret.
    eexists _, _, _. split; [reflexivity |].
    split; [reflexivity |]. split; [reflexivity |].
    match goal with
    | |- context [move_stage ?x ?y ?e0] =>
      destruct (move_stage_fields x y e0) as (_ & _ & _ & _ & _ & F6 & _)
    end.
    split; [rewrite F6; destruct e; reflexivity |].
    apply acquiring_move_stage, acquiring_emit. exact Hacq.
  - unfold ret at 1. unfold bindM at 1. unfold modify at 1. unfold ret.
    eexists _, _, _. split; [reflexivity |].
    split; [reflexivity |]. split; [reflexivity |].
    match goal with
    | |- context [move_stage ?x ?y ?e0] =>
      destruct (move_stage_fields x y e0) as (_ & _ & _ & _ & _ & F6 & _)
    end.
    split; [exact F6 |].
    apply acquiring_move_stage. exact Hacq.
Qed.

Lemma patch_position_stage_ok (orig_spos spos : Q * Q) (e : Engine)
    (a0 a1 : list DataArray) (ds dc : DataArray) (pos : Q * Q) :
  length (streams e) = 2%nat ->
  _acq_data e = [a0 ++ [ds]; a1 ++ [dc]] ->
  MD_POS (metadata ds) = Some pos ->
  exists p,
    patch_position_stage orig_spos spos e
    = Next tt (set_acq_data [a0 ++ [with_metadata (set_MD_POS p (metadata ds)) ds];
                             a1 ++ [with_metadata (set_MD_POS p (metadata dc)) dc]] e).
Proof.
  intros Hl Hd Hp. unfold patch_position_stage.
  unfold bindM at 1. unfold get at 1.
  unfold bindM at 1. unfold lift at 1. unfold last_data at 1.
  rewrite Hd. cbn [lookup list_lookup of_option bind]. rewrite last_snoc. cbn [of_option].
  unfold bindM at 1. unfold lift at 1. rewrite Hp. cbn [of_option].
  eexists. cbn [length seq].
  unfold bindM at 1. unfold liftE at 1, set_last_pos at 1, last_data at 1.
  rewrite Hd. cbn [lookup list_lookup of_option bind]. rewrite last_snoc.
  cbn [of_option bind alter list_alter]. rewrite set_last_snoc.
  unfold bindM at 1. unfold liftE at 1, set_last_pos at 1, last_data at 1.
  assert (Hd1 : forall v, _acq_data (set_acq_data v e) = v) by (intros v; destruct e; reflexivity).
  rewrite Hd1. cbn [lookup list_lookup of_option bind]. rewrite last_snoc.
  cbn [of_option bind alter list_alter]. rewrite set_last_snoc.
  unfold ret. destruct e; reflexivity.
Qed.

Lemma leech_loop_stage_ok (c : Config) (orig_spos : Q * Q) (start : Q) (att : Attempt)
    (lis : list nat) :
  forall (loc : Locals) (e : Engine) (d0 d1 : list DataArray),
    (forall li, In li lis -> (li < length (leech_np loc))%nat) ->
    (forall li, no_cancel (att_leech_ev att li) = true) ->
    well_formed e -> length (streams e) = 2%nat -> _acq_state e = RUNNING ->
    _acq_min_date e = Some start ->
    _acq_data e = [d0; d1] -> _acq_complete e = [true; true] ->
    exists loc' e',
      leech_loop (leech_pre_stage c orig_spos) att lis loc e = Next loc' e' /\
      n_done loc' = n_done loc /\
      length (leech_np loc') = length (leech_np loc) /\
      well_formed e' /\ streams e' = streams e /\ _acq_state e' = RUNNING /\
      _acq_min_date e' = Some start /\
      _acq_data e' = [d0; d1] /\ _acq_complete e' = [true; true].
Proof.
  induction lis as [| li lis IH]; intros loc e d0 d1 Hin Hnc Hwf Hl Hs Hm Hd Hc.
  - exists loc, e. simpl. unfold ret. split_all; try assumption; reflexivity.
  - cbn [leech_loop].
    destruct (lookup_lt_is_Some_2 (leech_np loc) li (Hin li (or_introl eq_refl)))
      as [np Enp].
    unfold bindM at 1. unfold lift at 1. rewrite Enp. cbn [of_option].
    destruct np as [np |].
    + cbv zeta. destruct (np - 1 =? 0)%Z.
      * set (loc0 := set_leech_np _ loc).
        assert (Hpre : exists loc1 e0,
                   leech_pre_stage c orig_spos li loc0 e = Next loc1 e0 /\
                   n_done loc1 = n_done loc0 /\ leech_np loc1 = leech_np loc0 /\
                   well_formed e0 /\ streams e0 = streams e /\
                   _acq_state e0 = _acq_state e /\ _acq_min_date e0 = _acq_min_date e /\
                   _acq_data e0 = _acq_data e /\ _acq_complete e0 = _acq_complete e).
        { unfold leech_pre_stage.
          destruct (leeches c !! li) as [le |];
            [| exists loc0, e; unfold ret; split_all; auto].
          destruct (is_AnchorDriftCorrector le);
            [| exists loc0, e; unfold ret; split_all; auto].
          unfold bindM, modify, ret.
          destruct (move_stage_fields (Some (fst orig_spos)) (Some (snd orig_spos)) e)
            as (F1 & F2 & F3 & F4 & F5 & _ & F7).
          eexists _, _. split; [reflexivity |]. split_all; auto. }
        destruct Hpre as (loc1 & e0 & Hpre & P1 & P2 & W0 & Q1 & Q2 & Q3 & Q4 & Q5).
        unfold bindM at 1. rewrite Hpre.
        unfold bindM at 1. unfold call at 1, modify at 1.
        unfold bindM at 1. unfold modify at 1.
        set (loc2 := set_leech_np _ loc1).
        set (e1 := deliver_all (att_leech_ev att li) (emit (LeechNext li) e0)).
        destruct (emit_fields (LeechNext li) e0) as (F1 & F2 & F3 & F4 & F5 & _ & _ & F8).
        destruct (deliver_all_ignored start (att_leech_ev att li) (emit (LeechNext li) e0)
                    d0 d1 (F8 W0) ltac:(congruence) ltac:(congruence) (Hnc li)
                    ltac:(congruence) ltac:(congruence))
          as (W & S1 & S2 & S3 & S4 & S5). fold e1 in W, S1, S2, S3, S4, S5.
        unfold bindM at 1. unfold check_cancelled at 1. unfold bindM at 1. unfold get at 1.
        assert (Hr : _acq_state e1 = RUNNING) by congruence.
        rewrite Hr. cbn [AcqState_eqb]. unfold ret at 1.
        destruct (IH loc2 e1 d0 d1) as (loc' & e' & Hrun & N1 & N2 & R);
          try assumption; try congruence.
        { intros lj Hj. unfold loc2. simpl. rewrite length_insert, P2.
          unfold loc0. simpl. rewrite length_insert.
          apply Hin. right. exact Hj. }
        exists loc', e'. split; [exact Hrun |].
        split; [rewrite N1; unfold loc2; simpl; rewrite P1; reflexivity |].
        split; [rewrite N2; unfold loc2; simpl; rewrite length_insert, P2;
                unfold loc0; simpl; rewrite length_insert; reflexivity |].
        destruct R as (R1 & R2 & R3 & R4 & R5 & R6).
        split_all; try assumption. congruence.
      * set (loc1 := set_leech_np _ loc).
        destruct (IH loc1 e d0 d1) as (loc' & e' & Hrun & N1 & N2 & R); try assumption.
        { intros lj Hj. unfold loc1. simpl. rewrite length_insert.
          apply Hin. right. exact Hj. }
        exists loc', e'. split; [exact Hrun |].
        split; [rewrite N1; reflexivity |].
        split; [rewrite N2; unfold loc1; simpl; rewrite length_insert; reflexivity |].
        exact R.
    + destruct (IH loc e d0 d1) as (loc' & e' & Hrun & R); try assumption.
      { intros lj Hj. apply Hin. right. exact Hj. }
      exists loc', e'. split; [exact Hrun | exact R].
Qed.

Lemma attempt_succeeding_stage_ok (c : Config) (orig_spos spos : Q * Q)
    (ss cs : nat * nat) (att : Attempt) (failures : nat) (loc : Locals) (e : Engine) :
  acquiring ss cs (n_done loc) e ->
  length (leech_np loc) = length (leeches c) ->
  succeeding c ss cs att ->
  exists loc' e',
    attempt c (patch_position_stage orig_spos spos) (leech_pre_stage c orig_spos)
      att failures loc e
    = Next (Break loc') e' /\
    n_done loc' = S (n_done loc) /\
    length (leech_np loc') = length (leeches c) /\
    acquiring ss cs (S (n_done loc)) e'.
Proof.
  intros Hacq Hnp (Hb & Hn1 & Hn2 & Hn3 & Hnl & Hdur & (dc & Adc & Tdc) & (ds & Ads & Tds)).
  destruct (acquiring_shape _ _ _ _ Hacq)
    as (s0 & s1 & c0 & c1 & a0 & a1 & Es & Ec & Ed & L0 & L1 & F0 & F1).
  destruct (armed_acquiring _ _ _ att e a0 a1 Hb Hacq Ed) as (W & S1 & S2 & S3 & S4 & S5).
  assert (Hst0 : at_start att e = e) by (unfold at_start; rewrite Hb; reflexivity).
  pose proof Hacq as ((Hwf & Hl & Hs) & _).
  assert (Hlast : last_id e = 1%nat) by (unfold last_id; rewrite Hl; reflexivity).
  assert (Hl' : length (streams (armed att e)) = 2%nat) by congruence.
  destruct (deliver_all_accepted 1 (att_start att) (att_wait att) (armed att e) a1 false
              W ltac:(lia) S3 Hn1)
    as (_ & _ & _ & _ & _ & T5);
    [rewrite S4; reflexivity | rewrite S5; reflexivity |].
  fold (at_wait_end att e) in T5. rewrite Adc in T5. cbn [orb] in T5.
  assert (Hnc : no_cancel (att_wait att ++ att_late att) = true)
    by (rewrite no_cancel_app, Hn1, Hn2; reflexivity).
  assert (Hck : at_check att e = deliver_all (att_wait att ++ att_late att) (armed att e))
    by (unfold at_check, at_wait_end; rewrite deliver_all_app; reflexivity).
  destruct (deliver_all_accepted 0 (att_start att) _ (armed att e) a0 false
              W ltac:(lia) S3 Hnc)
    as (W2 & U1 & U2 & U3 & _ & _);
    [rewrite S4; reflexivity | rewrite S5; reflexivity |].
  rewrite <- Hck in W2, U1, U2, U3.
  rewrite attempt_eval, Hst0, Hs, Hlast, T5. cbn [AcqState_eqb].
  rewrite U2, S2. cbn [AcqState_eqb negb orb].
  assert (Hq : Qlt_bool (att_dur att) (rep_time c * 0.95) = false).
  { destruct (Qlt_bool (att_dur att) (rep_time c * 0.95)) eqn:E; [| reflexivity].
    apply Qlt_bool_iff in E. exfalso. apply (Qlt_not_le _ _ E). exact Hdur. }
  rewrite Hq.
  rewrite on_acquired_eval2 by congruence. cbv zeta.
  set (L := att_wait att ++ att_late att ++ att_sem att 0).
  assert (HL : no_cancel L = true).
  { unfold L. rewrite !no_cancel_app, Hn1, Hn2, Hn3. reflexivity. }
  assert (He2 : deliver_all (att_sem att 0) (at_check att e) = deliver_all L (armed att e)).
  { unfold L, at_check, at_wait_end. rewrite !deliver_all_app. reflexivity. }
  rewrite He2. set (e2 := deliver_all L (armed att e)).
  destruct (deliver_all_accepted 0 (att_start att) L (armed att e) a0 false
              W ltac:(lia) S3 HL)
    as (W3 & X1 & X2 & X3 & X4 & X5);
    [rewrite S4; reflexivity | rewrite S5; reflexivity |].
  destruct (deliver_all_accepted 1 (att_start att) L (armed att e) a1 false
              W ltac:(lia) S3 HL)
    as (_ & _ & _ & _ & Y4 & Y5);
    [rewrite S4; reflexivity | rewrite S5; reflexivity |].
  fold e2 in W3, X1, X2, X3, X4, X5, Y4, Y5.
  fold L in Ads. rewrite Ads in X4, X5.
  assert (AdcL : accepted 1 (att_start att) L = Some dc)
    by (unfold L; apply accepted_app_Some; exact Adc).
  rewrite AdcL in Y4, Y5. cbn [orb option_list] in X4, X5, Y4, Y5.
  assert (Hl2 : length (streams e2) = 2%nat) by congruence.
  assert (D2 : _acq_data e2 = [a0 ++ [ds]; a1 ++ [dc]]).
  { apply list_two; [| exact X4 | exact Y4].
    destruct W3 as (_ & W3 & _). rewrite W3. exact Hl2. }
  assert (C2 : _acq_complete e2 = [true; true]).
  { apply list_two; [| exact X5 | exact Y5].
    destruct W3 as (W3 & _). rewrite W3. exact Hl2. }
  rewrite X5.
  destruct (df_unsubscribe_fields 0 e2) as (G1 & G2 & G3 & G4 & G5 & G6).
  set (e3 := df_unsubscribe 0 e2) in *.
  rewrite G2, X2, S2. cbn [AcqState_eqb].
  destruct Tds as (Tds1 & [pos Tds2] & Tds3).
  destruct (patch_position_stage_ok orig_spos spos e3 a0 a1 ds dc pos ltac:(congruence)
              ltac:(congruence) Tds2) as (p & Hpatch).
  rewrite Hpatch.
  set (ds' := with_metadata (set_MD_POS p (metadata ds)) ds).
  set (dc' := with_metadata (set_MD_POS p (metadata dc)) dc).
  set (e4 := set_acq_data [a0 ++ [ds']; a1 ++ [dc']] e3).
  assert (H4 : well_formed e4 /\ streams e4 = streams e3 /\ _acq_state e4 = _acq_state e3 /\
               _acq_min_date e4 = _acq_min_date e3 /\
               _acq_complete e4 = _acq_complete e3 /\
               _acq_data e4 = [a0 ++ [ds']; a1 ++ [dc']]).
  { pose proof (G6 W3) as (K1 & K2 & K3 & K4).
    unfold e4. destruct e3. simpl in *. unfold well_formed. simpl.
    split_all; try reflexivity; try assumption. congruence. }
  destruct H4 as (W4 & Z1 & Z2 & Z3 & Z4 & Z5).
  match goal with
  | |- context [leech_loop _ _ _ _ ?x] => set (e5 := x)
  end.
  destruct (updateProgress_fields (att_now att) (att_dur_done att)
              (Z.of_nat (S (n_done loc))) (Z.of_nat (tot_num c))
              (N2Q (tot_num c - S (n_done loc)) * (snd (start_leeches c) / N2Q (tot_num c)))
              e4) as (P1 & P2 & P3 & P4 & P5 & _ & _ & P8).
  fold e5 in P1, P2, P3, P4, P5, P8.
  destruct (leech_loop_stage_ok c orig_spos (att_start att) att (seq 0 (length (leeches c)))
              (set_n_done (S (n_done loc)) loc) e5
              (a0 ++ [ds']) (a1 ++ [dc']))
    as (loc' & e6 & Hrun & N1 & N2 & W6 & R1 & R2 & R3 & R4 & R5);
    try congruence.
  { intros li Hli. apply in_seq in Hli. simpl. lia. }
  { apply P8. exact W4. }
  rewrite Hrun. exists loc', e6. split; [reflexivity |].
  split; [rewrite N1; reflexivity |].
  split; [rewrite N2; simpl; exact Hnp |].
  split.
  - unfold ready. split_all; [exact W6 | congruence | exact R2].
  - exists (a0 ++ [ds']), (a1 ++ [dc']). split; [exact R4 |].
    rewrite !length_app. simpl.
    split; [lia |]. split; [lia |]. split.
    + apply Forall_app. split; [exact F0 |].
      constructor; [| constructor]. apply tile_ok_set_pos. unfold tile_ok. eauto.
    + apply Forall_app. split; [exact F1 |].
      constructor; [| constructor]. apply tile_ok_set_pos. exact Tdc.
Qed.

Lemma retry_loop_stage_ok (c : Config) (orig_spos spos : Q * Q) (penv : PixelEnv)
    (ss cs : nat * nat) (k : nat) :
  forall (fuel failures : nat) (loc : Locals) (e : Engine),
    (k < fuel)%nat -> (failures + k <= 2)%nat ->
    acquiring ss cs (n_done loc) e ->
    length (leech_np loc) = length (leeches c) ->
    (forall j, (j < k)%nat -> failing c (px_attempt penv (failures + j))) ->
    succeeding c ss cs (px_attempt penv (failures + k)) ->
    exists loc' e',
      retry_loop fuel c (patch_position_stage orig_spos spos)
        (leech_pre_stage c orig_spos) penv failures loc e
      = Next loc' e' /\
      n_done loc' = S (n_done loc) /\
      length (leech_np loc') = length (leeches c) /\
      acquiring ss cs (S (n_done loc)) e'.
Proof.
  induction k as [| k IH]; intros fuel failures loc e Hfuel Hk Hacq Hnp Hfail Hgood.
  - destruct fuel as [| fuel]; [lia |]. rewrite retry_loop_step.
    rewrite Nat.add_0_r in Hgood.
    destruct (attempt_succeeding_stage_ok c orig_spos spos ss cs _ failures loc e
                Hacq Hnp Hgood) as (loc' & e' & Hrun & R).
    rewrite Hrun. exists loc', e'. split; [reflexivity | exact R].
  - destruct fuel as [| fuel]; [lia |]. rewrite retry_loop_step.
    assert (Hbad : failing c (px_attempt penv failures)).
    { specialize (Hfail 0%nat ltac:(lia)). rewrite Nat.add_0_r in Hfail. exact Hfail. }
    destruct (attempt_failing_ok c (patch_position_stage orig_spos spos)
                (leech_pre_stage c orig_spos) ss cs
                _ failures loc e Hacq Hbad) as [Hretry _].
    destruct (Hretry ltac:(lia)) as (e' & Hrun & Hacq').
    rewrite Hrun.
    apply (IH fuel (S failures) loc e'); try assumption; try lia.
    + intros j Hj. replace (S failures + j)%nat with (failures + S j)%nat by lia.
      apply Hfail. lia.
    + replace (S failures + k)%nat with (failures + S k)%nat by lia. exact Hgood.
Qed.

Lemma keeps_raw_scan_pixels_stage (c : Config) (st : ScanStage) (orig_spos : Q * Q)
    (stage_pos : list (list (Q * Q))) (pixels : list (nat * nat)) :
  forall loc, keeps_raw (scan_pixels_stage c st orig_spos stage_pos pixels loc).
Proof.
  assert (Hmove : forall x y, keeps_raw (modify (move_stage x y))).
  { intros x y. apply keeps_raw_modify. intros e.
    destruct (move_stage_fields x y e) as (_ & _ & _ & _ & _ & F6 & _). exact F6. }
  induction pixels as [| i pixels IH]; intros loc; cbn [scan_pixels_stage].
  - apply keeps_raw_ret.
  - cbv zeta. apply keeps_raw_bind.
    + unfold move_to_pixel.
      apply keeps_raw_bind; [apply keeps_raw_lift | intros spos]. cbv zeta.
      apply keeps_raw_bind;
        [destruct (negb _); [apply keeps_raw_call | apply keeps_raw_ret] | intros _].
      apply keeps_raw_bind; [apply Hmove | intros _; apply keeps_raw_ret].
    + intros [spos loc1].
      apply keeps_raw_bind; [| intros loc'; apply IH].
      apply keeps_raw_retry_loop.
      * unfold patch_position_stage.
        apply keeps_raw_bind; [apply keeps_raw_get | intros e].
        apply keeps_raw_bind; [apply keeps_raw_lift | intros d0].
        apply keeps_raw_bind; [apply keeps_raw_lift | intros raw_pos].
        induction (seq 0 (length (_acq_data e))) as [| k ks IHk]; [apply keeps_raw_ret |].
        apply keeps_raw_bind; [| intros _; exact IHk].
        apply keeps_raw_liftE. apply raw_set_last_pos.
      * intros li l. unfold leech_pre_stage.
        destruct (leeches c !! li) as [le |]; [| apply keeps_raw_ret].
        destruct (is_AnchorDriftCorrector le); [| apply keeps_raw_ret].
        apply keeps_raw_bind; [apply Hmove | intros _; apply keeps_raw_ret].
Qed.

Lemma scan_pixels_stage_ok (c : Config) (st : ScanStage) (orig_spos : Q * Q)
    (ss cs : nat * nat) (pixels : list (nat * nat)) :
  forall (loc : Locals) (e : Engine),
    (forall i, In i pixels ->
       (fst i < Pos.to_nat (snd (repetition (settings c))))%nat /\
       (snd i < Pos.to_nat (fst (repetition (settings c))))%nat) ->
    acquiring ss cs (n_done loc) e ->
    length (leech_np loc) = length (leeches c) ->
    (forall j, (j < length pixels)%nat -> pixel_ok c ss cs (pixel c (n_done loc + j))) ->
    exists loc' e',
      scan_pixels_stage c st orig_spos (Binary64.grid (settings c) st) pixels loc e
      = Next loc' e' /\
      n_done loc' = (n_done loc + length pixels)%nat /\
      acquiring ss cs (n_done loc + length pixels) e'.
Proof.
  induction pixels as [| i pixels IH]; intros loc e Hin Hacq Hnp Hok.
  - exists loc, e. simpl. rewrite Nat.add_0_r. unfold ret. auto.
  - cbn [scan_pixels_stage]. cbv zeta.
    destruct (Hin i (or_introl eq_refl)) as [Hy Hx].
    destruct (move_to_pixel_ok c st ss cs i (pixel c (n_done loc)) loc e Hy Hx Hacq)
      as (spos & loc0 & e1 & Hmove & M1 & M2 & _ & Hacq1).
    unfold bindM at 1. rewrite Hmove.
    pose proof (Hok 0%nat ltac:(simpl; lia)) as Hp. rewrite Nat.add_0_r in Hp.
    destruct Hp as (k & Hk & Hbad & Hgood).
    rewrite <- M1 in Hacq1.
    destruct (retry_loop_stage_ok c orig_spos spos (pixel c (n_done loc)) ss cs k 3 0
                loc0 e1 ltac:(lia) ltac:(lia) Hacq1 ltac:(congruence) Hbad Hgood)
      as (loc1 & e2 & Hrun & N1 & N2 & Hacq2).
    unfold bindM at 1. rewrite Hrun.
    rewrite <- N1 in Hacq2.
    destruct (IH loc1 e2) as (loc' & e' & Hscan & N' & Hacq'); try assumption.
    + intros j Hj. apply Hin. right. exact Hj.
    + intros j Hj. rewrite N1, M1.
      replace (S (n_done loc) + j)%nat with (n_done loc + S j)%nat by lia.
      apply Hok. simpl. lia.
    + exists loc', e'. split; [exact Hscan |].
      rewrite N1, M1 in N', Hacq'. simpl length.
      replace (n_done loc + S (length pixels))%nat
        with (S (n_done loc) + length pixels)%nat by lia.
      auto.
Qed.

Lemma ready_set_trace (l : list Action) (e : Engine) : ready e -> ready (set_trace l e).
Proof. unfold ready, well_formed. destruct e. simpl. auto. Qed.

(** The scan stage variant up to the comment "Done!", when the area passes
    the test and every pixel is acquired. *)
Lemma scan_stage_reaches_finish (c : Config) (ss cs : nat * nat) (e : Engine)
    (st : ScanStage) :
  ready e -> useScanStage c = true ->
  _sstage e = Some st ->
  Binary64.in_range (settings c) st = true ->
  (forall j, (j < tot_num c)%nat -> pixel_ok c ss cs (pixel c j)) ->
  exists e3,
    acquiring ss cs (tot_num c) e3 /\ _raw e3 = [] /\
    _runAcquisition c e
    = match finish c e3 with
      | Next _ e' => Next (MultipleDetectorStream.raw e') (park_and_release e')
      | Throw ex e' =>
        let '(ex', e'') := on_exception ex e' in Throw ex' (park_and_release e'')
      | OutOfFuel => OutOfFuel
      end.
Proof.
  intros Hr Hu Hst Hin Hok.
  unfold _runAcquisition. rewrite Hu.
  unfold _runAcquisitionScanStage, try_acquire, body_stage.
  unfold bindM at 1. unfold get at 1.
  unfold bindM at 1. unfold lift at 1. rewrite Hst. cbn [of_option].
  unfold bindM at 1. unfold call at 1, modify at 1.
  unfold bindM at 1. unfold call at 1, modify at 1.
  unfold bindM at 1. rewrite getScanStagePositions_call, Hin.
  set (e1 := set_trace _ (emit (SetTranslation (0, 0)) (emit AcqDoneClear e))).
  assert (Hr1 : ready e1)
    by (unfold e1; apply ready_set_trace, ready_emit, ready_emit; exact Hr).
  destruct (prepare_ok c ss cs e1 Hr1) as (loc0 & e2 & Hprep & N0 & Hnp & Hacq).
  unfold bindM at 1. rewrite Hprep.
  pose proof (prepare_raw _ _ _ _ Hprep) as Hraw2.
  set (pixels := ndindex (Pos.to_nat (snd (repetition (settings c))))
                         (Pos.to_nat (fst (repetition (settings c))))).
  assert (Hlen : length pixels = tot_num c)
    by (unfold pixels; rewrite ndindex_length, tot_num_eq; reflexivity).
  set (loc1 := set_prev_spos (position st) loc0).
  assert (N1 : n_done loc1 = 0%nat) by exact N0.
  rewrite <- N1 in Hacq.
  destruct (scan_pixels_stage_ok c st (position st) ss cs pixels loc1 e2)
    as (loc' & e3 & Hscan & N3 & Hacq3); try assumption.
  { intros i Hi. apply in_ndindex. exact Hi. }
  { intros j Hj. rewrite N1. apply Hok. rewrite <- Hlen. exact Hj. }
  pose proof (keeps_raw_scan_pixels_stage c st (position st)
                (Binary64.grid (settings c) st) pixels loc1 e2) as Hraw3.
  rewrite Hscan in Hraw3.
  unfold bindM at 1. rewrite Hscan.
  rewrite N1, Hlen in Hacq3. simpl in Hacq3.
  exists e3. split; [exact Hacq3 |]. split; [congruence |].
  destruct (finish c e3) as [[] e4 | ex e4 |]; reflexivity.
Qed.

(** X23.  The scan stage variant when every pixel is acquired.  For the
    engine with its two streams and a scan stage for which the area to
    cover, as binary64 computes it, passes the test against the ranges of the
    stage: if every pixel is acquired after at most two failed passes, no
    callback running between a pass and the next and nobody cancelling, then
    the acquisition returns the [raw] property of the engine, the state is
    FINISHED, and the output holds the two assembled images, of Y x X tiles
    of the shape of the data of each stream; unless there is a drift
    corrector whose anchor regions cannot be put together: then the
    acquisition raises that error, with the state FINISHED and no output. *)
Theorem scan_stage_completes (c : Config) (ss cs : nat * nat) (e : Engine)
    (st : ScanStage) :
  ready e -> useScanStage c = true ->
  _sstage e = Some st ->
  Binary64.in_range (settings c) st = true ->
  fst ss <> 0%nat -> snd ss <> 0%nat -> fst cs <> 0%nat -> snd cs <> 0%nat ->
  (forall j, (j < tot_num c)%nat -> pixel_ok c ss cs (pixel c j)) ->
  ((has_dc c = true -> exists a, _assembleAnchorData (dc_raw c) = Ok a) ->
   exists r e' d0 d1,
     _runAcquisition c e = Next r e' /\
     r = MultipleDetectorStream.raw e' /\
     _acq_state e' = FINISHED /\
     _raw e' = [d0; d1] /\
     shape d0 = [(Pos.to_nat (snd (repetition (settings c))) * fst ss)%nat;
                 (Pos.to_nat (fst (repetition (settings c))) * snd ss)%nat] /\
     shape d1 = [(Pos.to_nat (snd (repetition (settings c))) * fst cs)%nat;
                 (Pos.to_nat (fst (repetition (settings c))) * snd cs)%nat]) /\
  (forall ex,
     has_dc c = true -> _assembleAnchorData (dc_raw c) = Raise ex ->
     exists e',
       _runAcquisition c e = Throw ex e' /\
       _acq_state e' = FINISHED /\ _raw e' = [] /\ _anchor_raw e' = []).
Proof.
  intros Hr Hu Hst Hin Hs1 Hs2 Hc1 Hc2 Hok.
  destruct (scan_stage_reaches_finish c ss cs e st Hr Hu Hst Hin Hok)
    as (e3 & Hacq3 & Hraw3 & Hrun).
  split.
  - intros Hdc.
    destruct (finish_ok c ss cs e3 Hacq3 Hs1 Hs2 Hc1 Hc2 Hdc)
      as (e4 & d0 & d1 & Hfin & F1 & F2 & F3 & F4 & _).
    rewrite Hfin in Hrun. rewrite Hrun.
    eexists. eexists. exists d0, d1. split; [reflexivity |].
    rewrite Hraw3 in F2. simpl in F2.
    unfold park_and_release, release, move_stage, MultipleDetectorStream.raw.
    destruct e4 as [? ? ? ? ? ? ? ? ? ? ? sst ?]. simpl in *. subst.
    destruct sst; simpl; auto 10.
  - intros ex Hdc Han.
    destruct (finish_anchor_fails c ss cs e3 ex Hacq3 Hs1 Hs2 Hc1 Hc2 Hdc Han)
      as (e4 & Hfin & F1).
    rewrite Hfin in Hrun. rewrite Hrun.
    destruct (on_exception_finished ex e4 F1) as (X1 & X2 & X3 & X4).
    destruct (on_exception ex e4) as [ex' e5]. simpl in X1, X2, X3, X4. subst ex'.
    eexists. split; [reflexivity |].
    unfold park_and_release, release, move_stage.
    destruct e5 as [? ? ? ? ? ? ? ? ? ? ? sst ?]. simpl in *. subst.
    destruct sst; simpl; auto.
Qed.

Lemma scan_stage_completes_witness :
  exists r e',
    _runAcquisition small_stage_config stage_engine = Next r e' /\
    _acq_state e' = FINISHED /\ length (_raw e') = 2%nat.
Proof.
  destruct (scan_stage_completes small_stage_config (1%nat, 1%nat) (1%nat, 1%nat)
              stage_engine example_stage) as [H _].
  - unfold ready, well_formed. simpl. auto.
  - reflexivity.
  - reflexivity.
  - vm_compute. reflexivity.
  - discriminate.
  - discriminate.
  - discriminate.
  - discriminate.
  - intros j _. exact (mock_pixel_ok 1 j ltac:(lia)).
  - destruct H as (r & e' & d0 & d1 & H1 & _ & H3 & H4 & _); [discriminate |].
    exists r, e'. rewrite H4. auto.
Defined.

(** ** The worker of the time-correlator stream *)

Section TCRun.
Import TCAcquisition.

(** The callbacks leave the thread, the subscriptions, the light and the
    links to the hardware alone, and never finish the acquisition. *)
Lemma deliver_keeps (ev : TCEvent) (t : TC) :
  frame_thread_started (deliver ev t) = frame_thread_started t /\
  pdetector_subscribed (deliver ev t) = pdetector_subscribed t /\
  time_correlator_subscribed (deliver ev t) = time_correlator_subscribed t /\
  emissions (deliver ev t) = emissions t /\
  hw_linked (deliver ev t) = hw_linked t /\
  (_acq_state (deliver ev t) = FINISHED <-> _acq_state t = FINISHED).
Proof.
  destruct ev as [d |]; cbn [deliver].
  - destruct (pdetector_subscribed t) eqn:E; cbn; rewrite ?E; tauto.
  - unfold _cancelAcquisition.
    destruct (AcqState_eqb (_acq_state t) FINISHED) eqn:E; cbn; [tauto |].
    repeat split; try reflexivity; try discriminate.
    intros H. destruct (_acq_state t); [discriminate H | discriminate E | discriminate H].
Qed.

Lemma deliver_all_keeps (evs : list TCEvent) (t : TC) :
  frame_thread_started (deliver_all evs t) = frame_thread_started t /\
  pdetector_subscribed (deliver_all evs t) = pdetector_subscribed t /\
  time_correlator_subscribed (deliver_all evs t) = time_correlator_subscribed t /\
  emissions (deliver_all evs t) = emissions t /\
  hw_linked (deliver_all evs t) = hw_linked t /\
  (_acq_state (deliver_all evs t) = FINISHED <-> _acq_state t = FINISHED).
Proof.
  unfold deliver_all. revert t. induction evs as [| ev evs IH]; intros t; cbn [fold_left].
  - tauto.
  - destruct (IH (deliver ev t)) as (H1 & H2 & H3 & H4 & H5 & H6).
    destruct (deliver_keeps ev t) as (K1 & K2 & K3 & K4 & K5 & K6).
    rewrite H1, H2, H3, H4, H5, H6. tauto.
Qed.

(** What the callbacks do to the two events and to the queue while the
    detector is subscribed and the acquisition is not finished. *)
Lemma deliver_all_effect (evs : list TCEvent) (t : TC) :
  pdetector_subscribed t = true -> _acq_state t <> FINISHED ->
  _acq_done (deliver_all evs t) = _acq_done t || has_cancel evs /\
  _frame_done (deliver_all evs t)
  = _frame_done t || match evs with [] => false | _ => true end /\
  _data_queue (deliver_all evs t) = _data_queue t ++ frames_of evs.
Proof.
  unfold deliver_all. revert t. induction evs as [| ev evs IH]; intros t Hs Hst;
    cbn [fold_left].
  - cbn. rewrite !orb_false_r, app_nil_r. auto.
  - destruct (deliver_keeps ev t) as (_ & K2 & _ & _ & _ & K6).
    destruct (IH (deliver ev t)) as (H1 & H2 & H3); [congruence | tauto |].
    rewrite H1, H2, H3. clear IH H1 H2 H3.
    destruct ev as [d |]; cbn [deliver].
    + rewrite Hs. cbn. rewrite <- app_assoc. cbn.
      rewrite orb_true_r. destruct evs; auto.
    + unfold _cancelAcquisition.
      destruct (AcqState_eqb (_acq_state t) FINISHED) eqn:E;
        [destruct (_acq_state t); try discriminate E; contradiction |].
      cbn. rewrite !orb_true_r. destruct evs; auto.
Qed.

Lemma has_cancel_app (a b : list TCEvent) :
  has_cancel (a ++ b) = has_cancel a || has_cancel b.
Proof. unfold has_cancel. apply existsb_app. Qed.

Lemma frames_of_app (a b : list TCEvent) :
  frames_of (a ++ b) = frames_of a ++ frames_of b.
Proof. unfold frames_of. apply flat_map_app. Qed.

Lemma events_upto_S (env : Env) (n : nat) :
  events_upto env (S n) = events_upto env n ++ frame_events env n.
Proof.
  unfold events_upto. rewrite seq_S, flat_map_app. cbn. rewrite app_nil_r. reflexivity.
Qed.

(** The loop over the frames leaves the thread, the subscriptions, the light
    and the links alone, and does not finish the acquisition. *)
Lemma frame_loop_keeps (env : Env) (n : nat) :
  forall i t,
    frame_thread_started (snd (frame_loop env i n t)) = frame_thread_started t /\
    emissions (snd (frame_loop env i n t)) = emissions t /\
    (forall ex, fst (frame_loop env i n t) <> Some (HardwareError ex)) /\
    fst (frame_loop env i n t) <> Some JoinNotStarted.
Proof.
  induction n as [| n IH]; intros i t; cbn [frame_loop].
  - cbn. repeat split; discriminate.
  - cbv zeta.
    destruct (deliver_all_keeps (fr_before (frame_env env i)) t) as (A1 & _ & _ & A4 & _).
    set (t1 := deliver_all (fr_before (frame_env env i)) t) in *.
    destruct (_acq_done t1).
    { cbn. repeat split; try discriminate; assumption. }
    destruct (deliver_all_keeps (fr_race (frame_env env i)) t1) as (B1 & _ & _ & B4 & _).
    set (t2 := deliver_all (fr_race (frame_env env i)) t1) in *.
    destruct (deliver_all_keeps (fr_wait (frame_env env i)) (set_frame_done false t2))
      as (C1 & _ & _ & C4 & _).
    set (t3 := deliver_all (fr_wait (frame_env env i)) (set_frame_done false t2)) in *.
    cbn in C1, C4.
    destruct (negb (_frame_done t3)).
    { cbn. repeat split; try discriminate; congruence. }
    destruct (IH (S i) t3) as (D1 & D4 & D5 & D6).
    repeat split; try assumption; congruence.
Qed.

Lemma deliver_all_done (evs : list TCEvent) (t : TC) :
  _acq_state t <> FINISHED ->
  _acq_done (deliver_all evs t) = _acq_done t || has_cancel evs.
Proof.
  unfold deliver_all. revert t. induction evs as [| ev evs IH]; intros t Hst;
    cbn [fold_left].
  - cbn. rewrite orb_false_r. reflexivity.
  - destruct (deliver_keeps ev t) as (_ & _ & _ & _ & _ & K6).
    rewrite IH by tauto. clear IH.
    destruct ev as [d |]; cbn [deliver].
    + destruct (pdetector_subscribed t); reflexivity.
    + unfold _cancelAcquisition.
      destruct (AcqState_eqb (_acq_state t) FINISHED) eqn:E;
        [destruct (_acq_state t); try discriminate E; contradiction |].
      cbn. rewrite !orb_true_r. reflexivity.
Qed.

Lemma deliver_all_unsubscribed (evs : list TCEvent) (t : TC) :
  pdetector_subscribed t = false -> _data_queue (deliver_all evs t) = _data_queue t.
Proof.
  unfold deliver_all. revert t. induction evs as [| ev evs IH]; intros t Hs;
    cbn [fold_left]; [reflexivity |].
  destruct (deliver_keeps ev t) as (_ & K2 & _).
  rewrite IH by congruence.
  destruct ev as [d |]; cbn [deliver].
  - rewrite Hs. reflexivity.
  - unfold _cancelAcquisition. destruct (AcqState_eqb _ _); reflexivity.
Qed.

(** How the loop over the frames ends, by what happens around the frames. *)
Lemma frame_loop_spec (env : Env) (n : nat) :
  forall i t,
    pdetector_subscribed t = true -> _acq_state t <> FINISHED ->
    _acq_done t = has_cancel (ev_setup env ++ events_upto env i) ->
    ((forall j, (i <= j < i + n)%nat -> frame_goes_well env j) ->
     fst (frame_loop env i n t) = None /\
     _data_queue (snd (frame_loop env i n t))
     = _data_queue t ++ frames_of (flat_map (frame_events env) (seq i n))) /\
    (forall m, (i <= m < i + n)%nat ->
       (forall j, (i <= j < m)%nat -> frame_goes_well env j) ->
       (has_cancel (events_before_test env m) = true ->
        fst (frame_loop env i n t) = Some Cancelled) /\
       (has_cancel (events_before_test env m) = false ->
        fr_wait (frame_env env m) = [] ->
        fst (frame_loop env i n t) = Some FrameTimeout)).
Proof.
  induction n as [| n IH]; intros i t Hs Hst Hd.
  - split.
    + intros _. cbn. rewrite app_nil_r. auto.
    + intros m Hm. lia.
  - cbn [frame_loop]. cbv zeta.
    set (fe := frame_env env i).
    destruct (deliver_all_keeps (fr_before fe) t) as (_ & A2 & _ & _ & _ & A6).
    destruct (deliver_all_effect (fr_before fe) t Hs Hst) as (A7 & _ & A9).
    set (t1 := deliver_all (fr_before fe) t) in *.
    assert (Htest : _acq_done t1 = has_cancel (events_before_test env i)).
    { rewrite A7, Hd. unfold events_before_test. fold fe.
      rewrite !has_cancel_app. rewrite orb_assoc. reflexivity. }
    destruct (deliver_all_keeps (fr_race fe) t1) as (_ & B2 & _ & _ & _ & B6).
    destruct (deliver_all_effect (fr_race fe) t1 ltac:(congruence) ltac:(tauto))
      as (B7 & _ & B9).
    set (t2 := deliver_all (fr_race fe) t1) in *.
    destruct (deliver_all_keeps (fr_wait fe) (set_frame_done false t2))
      as (_ & C2 & _ & _ & _ & C6).
    destruct (deliver_all_effect (fr_wait fe) (set_frame_done false t2)
                ltac:(cbn; congruence) ltac:(cbn; tauto)) as (C7 & C8 & C9).
    set (t3 := deliver_all (fr_wait fe) (set_frame_done false t2)) in *.
    cbn in C2, C6, C7, C8, C9.
    assert (Hnext : _acq_done t3 = has_cancel (ev_setup env ++ events_upto env (S i))).
    { rewrite C7, B7, Htest. rewrite events_upto_S. unfold events_before_test, frame_events.
      fold fe. rewrite !has_cancel_app.
      destruct (has_cancel (ev_setup env)), (has_cancel (events_upto env i)),
        (has_cancel (fr_before fe)), (has_cancel (fr_race fe)), (has_cancel (fr_wait fe));
        reflexivity. }
    destruct (IH (S i) t3 ltac:(congruence) ltac:(tauto) Hnext) as [IHa IHb].
    split.
    + intros Hgood.
      destruct (Hgood i ltac:(lia)) as [G1 G2]. fold fe in G2.
      rewrite Htest, G1.
      rewrite C8. destruct (fr_wait fe) as [| ev0 evs0] eqn:Ew; [contradiction |].
      cbn [negb].
      destruct IHa as [I1 I2]; [intros j Hj; apply Hgood; lia |].
      split; [exact I1 |]. rewrite I2, C9, B9, A9.
      cbn [seq flat_map]. unfold frame_events at 2. fold fe. rewrite Ew.
      rewrite !frames_of_app, <- !app_assoc. reflexivity.
    + intros m Hm Hgood.
      destruct (Nat.eq_dec m i) as [-> | Hne].
      * rewrite Htest. split.
        -- intros Hc. rewrite Hc. reflexivity.
        -- intros Hc Hw. rewrite Hc. rewrite C8. fold fe in Hw. rewrite Hw. reflexivity.
      * destruct (Hgood i ltac:(lia)) as [G1 G2]. fold fe in G2.
        rewrite Htest, G1.
        rewrite C8. destruct (fr_wait fe) as [| ev0 evs0] eqn:Ew; [contradiction |].
        cbn [negb].
        apply IHb; [lia |]. intros j Hj. apply Hgood. lia.
Qed.

(** The run when the hardware could be prepared: the state in which the
    loop over the frames starts, and what the [finally] clause makes of the
    state in which it ends. *)
Lemma runAcquisition_shape (rep : positive * positive) (roi : Q * Q * Q * Q)
    (total : Q) (sc : ScannedRemoteTCStream.Scanner) (env : Env) (t : TC)
    (px_dt : Q) (nfr : Z) (sc' : ScannedRemoteTCStream.Scanner) :
  ScannedRemoteTCStream._prepareHardware rep roi total sc = Ok (px_dt, nfr, sc') ->
  exists t0,
    pdetector_subscribed t0 = true /\
    emissions t0 = map (fun _ => 1) (emissions t) /\
    (_acq_state t <> FINISHED ->
     _acq_state t0 <> FINISHED /\ _acq_done t0 = has_cancel (ev_setup env)) /\
    (pdetector_subscribed t = false -> _data_queue t0 = _data_queue t) /\
    let r1 := fst (frame_loop env 0 (Z.to_nat nfr) t0) in
    let t1 := snd (frame_loop env 0 (Z.to_nat nfr) t0) in
    let t' := snd (_runAcquisition rep roi total sc env t) in
    fst (_runAcquisition rep roi total sc env t) = r1 /\
    _acq_done t' = true /\ _acq_state t' = FINISHED /\
    frame_thread_started t' = true /\
    pdetector_subscribed t' = false /\ time_correlator_subscribed t' = false /\
    emissions t' = map (fun _ => 0) (emissions t1) /\
    hw_linked t' = false /\ _data_queue t' = _data_queue t1.
Proof.
  intros Hprep. unfold _runAcquisition. cbv zeta. rewrite Hprep.
  destruct (deliver_all_keeps (ev_start env) (set_frame_thread_started false t))
    as (A1 & A2 & A3 & A4 & A5 & A6).
  set (tA := deliver_all (ev_start env) (set_frame_thread_started false t)) in *.
  cbn in A1, A2, A3, A4, A5, A6.
  set (tB := set_acq_done false (set_new_acquisition true tA)).
  destruct (deliver_all_keeps (ev_setup env) tB) as (B1 & B2 & B3 & B4 & B5 & B6).
  set (tC := deliver_all (ev_setup env) tB) in *.
  cbn in B1, B2, B3, B4, B5, B6.
  set (t0 := set_frame_thread_started true _).
  exists t0. split; [reflexivity |].
  split; [unfold t0; cbn; rewrite B4, A4; reflexivity |].
  split.
  { intros Hst. split; [unfold t0; cbn; tauto |].
    unfold t0. cbn. unfold tC. rewrite deliver_all_done by (cbn; tauto). reflexivity. }
  split.
  { intros Hu. unfold t0. cbn. unfold tC.
    rewrite deliver_all_unsubscribed by (cbn; congruence).
    cbn. unfold tA. rewrite deliver_all_unsubscribed by exact Hu. reflexivity. }
  cbv zeta.
  destruct (frame_loop_keeps env (Z.to_nat nfr) 0 t0) as (L1 & _).
  destruct (frame_loop env 0 (Z.to_nat nfr) t0) as [r1 t1].
  cbn [fst snd] in *.
  assert (Hth : frame_thread_started t1 = true) by (rewrite L1; reflexivity).
  unfold finally. cbv zeta.
  destruct r1 as [[| | |] |]; cbn; rewrite Hth; cbn; repeat split;
    solve [reflexivity | exact Hth].
Qed.

(** X21.  However [_runAcquisition] of the time-correlator stream ends, the
    event [_acq_done] is set.  When the hardware could be prepared, the
    exception raised, if any, is the cancellation or the time-out of a
    frame; the state is FINISHED (also after a cancellation), the frame
    thread has been started, both dataflows are unsubscribed, every light
    emission is 0, the hardware settings are unlinked, and a later
    [_cancelAcquisition] returns False and changes nothing.  When
    [_prepareHardware] raises, the frame thread was never started, so that
    joining it in the [finally] clause raises and that error replaces the
    first one; the rest of the clause is skipped: an acquisition that was
    not FINISHED is still not, and the subscriptions, the light and the
    links to the hardware are as they were. *)
Theorem tc_runAcquisition_cleanup (rep : positive * positive) (roi : Q * Q * Q * Q)
    (total : Q) (sc : ScannedRemoteTCStream.Scanner) (env : Env) (t : TC) :
  let r := fst (_runAcquisition rep roi total sc env t) in
  let t' := snd (_runAcquisition rep roi total sc env t) in
  _acq_done t' = true /\
  match ScannedRemoteTCStream._prepareHardware rep roi total sc with
  | Ok _ =>
    r <> Some JoinNotStarted /\ (forall ex, r <> Some (HardwareError ex)) /\
    _acq_state t' = FINISHED /\
    frame_thread_started t' = true /\
    pdetector_subscribed t' = false /\
    time_correlator_subscribed t' = false /\
    emissions t' = map (fun _ => 0) (emissions t) /\
    hw_linked t' = false /\
    _cancelAcquisition t' = (false, t')
  | Raise ex =>
    r = Some JoinNotStarted /\
    (_acq_state t <> FINISHED -> _acq_state t' <> FINISHED) /\
    pdetector_subscribed t' = pdetector_subscribed t /\
    time_correlator_subscribed t' = time_correlator_subscribed t /\
    emissions t' = emissions t /\
    hw_linked t' = hw_linked t
  end.
Proof.
  cbv zeta.
  destruct (ScannedRemoteTCStream._prepareHardware rep roi total sc)
    as [[[px_dt nfr] sc'] | ex] eqn:Hprep.
  - destruct (runAcquisition_shape rep roi total sc env t px_dt nfr sc' Hprep)
      as (t0 & _ & E0 & _ & _ & R1 & R2 & R3 & R4 & R5 & R6 & R7 & R8 & _).
    destruct (frame_loop_keeps env (Z.to_nat nfr) 0 t0) as (_ & L4 & L5 & L6).
    split; [exact R2 |].
    split; [rewrite R1; exact L6 |].
    split; [intros ex; rewrite R1; apply L5 |].
    split; [exact R3 |]. split; [exact R4 |]. split; [exact R5 |]. split; [exact R6 |].
    split; [rewrite R7, L4, E0, map_map; reflexivity |].
    split; [exact R8 |].
    unfold _cancelAcquisition. rewrite R3. reflexivity.
  - unfold _runAcquisition. cbv zeta. rewrite Hprep.
    destruct (deliver_all_keeps (ev_start env) (set_frame_thread_started false t))
      as (A1 & A2 & A3 & A4 & A5 & A6).
    set (tA := deliver_all (ev_start env) (set_frame_thread_started false t)) in *.
    cbn in A1, A2, A3, A4, A5, A6.
    unfold finally. cbv zeta. cbn. rewrite A1. cbn.
    repeat split; try assumption. tauto.
Qed.

(** X22.  Once the hardware is prepared, and for an acquisition that is not
    FINISHED at the start, [_runAcquisition] of the time-correlator stream
    ends as follows, whatever happens before [_acq_done] is cleared (a
    cancellation made that early is lost).  If for every frame nobody has
    cancelled when [_acq_done] is tested and something arrives before the
    wait times out, it returns normally, also when the caller cancels
    during the wait for the last frame; the state is then FINISHED and, the
    detector not being subscribed at the start, the queue has received every
    frame delivered, in order, none lost.  If the frames before frame [m] go
    so and somebody has cancelled when [_acq_done] is tested for frame [m],
    it raises the cancellation, and the state is FINISHED, not CANCELLED.
    If nobody has cancelled by then and nothing arrives during the wait for
    frame [m], it raises the time-out error. *)
Theorem tc_runAcquisition_outcome (rep : positive * positive) (roi : Q * Q * Q * Q)
    (total : Q) (sc : ScannedRemoteTCStream.Scanner) (env : Env) (t : TC)
    (px_dt : Q) (nfr : Z) (sc' : ScannedRemoteTCStream.Scanner) :
  ScannedRemoteTCStream._prepareHardware rep roi total sc = Ok (px_dt, nfr, sc') ->
  _acq_state t <> FINISHED ->
  let r := fst (_runAcquisition rep roi total sc env t) in
  let t' := snd (_runAcquisition rep roi total sc env t) in
  ((forall j, (j < Z.to_nat nfr)%nat -> frame_goes_well env j) ->
   r = None /\ _acq_state t' = FINISHED /\
   (pdetector_subscribed t = false ->
    _data_queue t' = _data_queue t ++ frames_of (events_upto env (Z.to_nat nfr)))) /\
  (forall m, (m < Z.to_nat nfr)%nat ->
     (forall j, (j < m)%nat -> frame_goes_well env j) ->
     (has_cancel (events_before_test env m) = true ->
      r = Some Cancelled /\ _acq_state t' = FINISHED) /\
     (has_cancel (events_before_test env m) = false ->
      fr_wait (frame_env env m) = [] ->
      r = Some FrameTimeout)).
Proof.
  intros Hprep Hst. cbv zeta.
  destruct (runAcquisition_shape rep roi total sc env t px_dt nfr sc' Hprep)
    as (t0 & S0 & _ & St & Q0 & R1 & _ & R3 & _ & _ & _ & _ & _ & R9).
  destruct (St Hst) as [St0 D0].
  destruct (frame_loop_spec env (Z.to_nat nfr) 0 t0 S0 St0) as [Sa Sb].
  { rewrite D0. unfold events_upto. cbn. rewrite app_nil_r. reflexivity. }
  split.
  - intros Hgood. destruct Sa as [Sa1 Sa2]; [intros j Hj; apply Hgood; lia |].
    split; [rewrite R1; exact Sa1 |]. split; [exact R3 |].
    intros Hu. rewrite R9, Sa2, (Q0 Hu). reflexivity.
  - intros m Hm Hgood.
    destruct (Sb m ltac:(lia) ltac:(intros j Hj; apply Hgood; lia)) as [Sc Sd].
    split.
    + intros Hc. split; [rewrite R1; exact (Sc Hc) | exact R3].
    + intros Hc Hw. rewrite R1. exact (Sd Hc Hw).
Qed.

(** Four frames are wanted and the caller cancels during the wait for the
    last one: the worker returns normally. *)
Lemma tc_runAcquisition_outcome_witness :
  fst (_runAcquisition (1%positive, 1%positive) (0, 0, 1, 1) 2 example_scanner
         (cancel_at 3) example_tc) = None.
Proof.
  destruct (ScannedRemoteTCStream._prepareHardware (1%positive, 1%positive) (0, 0, 1, 1) 2
              example_scanner) as [[[px_dt nfr] sc'] | ex] eqn:E;
    [| vm_compute in E; discriminate E].
  assert (Hn : nfr = 4%Z).
  { vm_compute in E. injection E as _ <- _. reflexivity. }
  subst nfr.
  destruct (tc_runAcquisition_outcome _ _ _ _ (cancel_at 3) example_tc _ _ _ E
              ltac:(discriminate)) as [Hok _].
  apply Hok. intros j Hj.
  assert (Hj' : j = 0%nat \/ j = 1%nat \/ j = 2%nat \/ j = 3%nat).
  { change (Z.to_nat 4) with 4%nat in Hj. lia. }
  destruct Hj' as [-> | [-> | [-> | ->]]]; (split; [reflexivity | discriminate]).
Defined.

End TCRun.
